(** * ref_check.py: citation / reference cross-checking

    A shallow embedding of [ref-check/ref_check.py] and the properties its
    specification states about it.

    Conventions of the embedding.
    - A Python [str] is a list of Unicode code points ([list N]); [py "..."]
      turns an ASCII literal into such a list.
    - [str.lower], [str.upper] and [str.isupper] are modelled on the ASCII
      letters; other code points are carried through unchanged.  [\d] and
      [\w] are the ASCII classes, [\s] and [str.strip]/[str.split] use the
      white space code points of [str.isspace].  On ASCII text these are the
      functions and classes of Python; statements that depend on them are
      made for ASCII text.
    - A regular expression is compiled from the pattern text of the source by
      [Re.compile] and run by a backtracking matcher with the priorities of
      Python's [re] (leftmost start, alternatives left to right, greedy
      repetition).
    - A [set] of keys is a [gset], a [dict] a [gmap]; a list that the code
      appends to is a [list].
    - The document is what python-docx shows of it: the body is a list of
      paragraphs and tables, a paragraph a list of runs, a run its highlight
      and its child elements, with [run.text] as python-docx computes it.
      A paragraph holds runs and hyperlinks: [para.runs] lists the runs
      that are children of the paragraph, [para.text] is the text of the runs
      and of the hyperlinks in order.
    - The global [NOISE_WORDS] is a parameter of the functions that read
      it. *)

From Stdlib Require Import NArith ZArith Ascii String List Bool Arith Lia Sorted.
From stdpp Require Import base decidable option list gmap.

Local Open Scope nat_scope.

(* ===================================================================== *)
(** ** Python strings *)
(* ===================================================================== *)

Module Py.

(** The code points of an ASCII literal. *)
Definition py (s : string) : list N :=
  List.map N_of_ascii (list_ascii_of_string s).

Definition is_ascii_upper (c : N) : bool := (65 <=? c)%N && (c <=? 90)%N.
Definition is_ascii_lower (c : N) : bool := (97 <=? c)%N && (c <=? 122)%N.
Definition is_ascii_digit (c : N) : bool := (48 <=? c)%N && (c <=? 57)%N.

(** [c.lower()] and [c.upper()] of one character. *)
Definition lower_char (c : N) : N := if is_ascii_upper c then (c + 32)%N else c.
Definition upper_char (c : N) : N := if is_ascii_lower c then (c - 32)%N else c.

(** [s.lower()], [s.upper()]. *)
Definition lower (s : list N) : list N := List.map lower_char s.
Definition upper (s : list N) : list N := List.map upper_char s.

(** [c.isupper()] for a one-character string. *)
Definition isupper_char (c : N) : bool := is_ascii_upper c.

(** [c.isspace()]: the code points Python treats as white space. *)
Definition isspace (c : N) : bool :=
  ((9 <=? c) && (c <=? 13) || (28 <=? c) && (c <=? 32) || (c =? 133)
   || (c =? 160) || (c =? 5760) || (8192 <=? c) && (c <=? 8202)
   || (c =? 8232) || (c =? 8233) || (c =? 8239) || (c =? 8287)
   || (c =? 12288))%N.

(** [s.lstrip()], [s.rstrip()], [s.strip()]. *)
Fixpoint lstrip (s : list N) : list N :=
  match s with
  | c :: t => if isspace c then lstrip t else s
  | [] => []
  end.

Definition rstrip (s : list N) : list N := rev (lstrip (rev s)).
Definition strip (s : list N) : list N := rstrip (lstrip s).

(** [s.rstrip(ch)] for a one-character argument. *)
Fixpoint lstrip_char (ch : N) (s : list N) : list N :=
  match s with
  | c :: t => if (c =? ch)%N then lstrip_char ch t else s
  | [] => []
  end.

Definition rstrip_char (ch : N) (s : list N) : list N :=
  rev (lstrip_char ch (rev s)).

(** [s.split()]: the maximal runs of non-space characters. *)
Fixpoint split_ws_aux (cur : list N) (s : list N) : list (list N) :=
  match s with
  | [] => match cur with [] => [] | _ => [rev cur] end
  | c :: t =>
      if isspace c
      then match cur with
           | [] => split_ws_aux [] t
           | _ => rev cur :: split_ws_aux [] t
           end
      else split_ws_aux (c :: cur) t
  end.

Definition split_ws (s : list N) : list (list N) := split_ws_aux [] s.

Fixpoint eqb_str (a b : list N) : bool :=
  match a, b with
  | [], [] => true
  | x :: a', y :: b' => (x =? y)%N && eqb_str a' b'
  | _, _ => false
  end.

(** [s.startswith(p)], returning what follows the prefix. *)
Fixpoint strip_prefix (p s : list N) : option (list N) :=
  match p, s with
  | [], _ => Some s
  | x :: p', y :: s' => if (x =? y)%N then strip_prefix p' s' else None
  | _ :: _, [] => None
  end.

(** [s.split(sep)] for a non-empty separator. *)
Fixpoint split_on_aux (sep : list N) (cur : list N) (fuel : nat) (s : list N)
  : list (list N) :=
  match fuel with
  | 0 => [rev cur ++ s]
  | S f =>
      match strip_prefix sep s with
      | Some rest => rev cur :: split_on_aux sep [] f rest
      | None =>
          match s with
          | [] => [rev cur]
          | c :: t => split_on_aux sep (c :: cur) f t
          end
      end
  end.

Definition split_on (sep s : list N) : list (list N) :=
  match s with
  | [] => [[]]
  | _ => split_on_aux sep [] (S (length s)) s
  end.

(** [s.replace(old, new)] for a one-character [old]. *)
Definition replace (old : N) (new : list N) (s : list N) : list N :=
  flat_map (fun c => if (c =? old)%N then new else [c]) s.

(** [s.index(ch)], as far as it is defined. *)
Fixpoint index_char (ch : N) (s : list N) : option nat :=
  match s with
  | [] => None
  | c :: t => if (c =? ch)%N then Some 0 else option_map S (index_char ch t)
  end.

(** [l.index(x)] on a list of strings. *)
Fixpoint index_str (x : list N) (l : list (list N)) : option nat :=
  match l with
  | [] => None
  | y :: t => if eqb_str y x then Some 0 else option_map S (index_str x t)
  end.

(** The slice [s[a:b]]. *)
Definition slice (a b : nat) (s : list N) : list N :=
  firstn (b - a) (skipn a s).

(** [x in l] for a list of strings. *)
Definition mem_str (x : list N) (l : list (list N)) : bool :=
  existsb (eqb_str x) l.

End Py.

Export Py.

(* ===================================================================== *)
(** ** Regular expressions: the part of Python's [re] the program uses *)
(* ===================================================================== *)

Module Re.

(** An item of a character class [[...]]. *)
Inductive citem :=
| IChar (c : N)               (* one character *)
| IRange (lo hi : N)          (* [lo-hi] *)
| IDigit                      (* \d *)
| ISpace                      (* \s *)
| IWord.                      (* \w *)

Inductive regex :=
| Eps
| Lit (c : N)
| Dot
| Cls (neg : bool) (items : list citem)
| Cat (r1 r2 : regex)
| Alt (r1 r2 : regex)
| Rep (lo : nat) (hi : option nat) (r : regex)   (* greedy r{lo,hi} *)
| Grp (g : nat) (r : regex)                      (* capturing group g *)
| NLook (r : regex)                              (* (?!r) *)
| Bos                                            (* ^ *)
| Eos.                                           (* $ *)

(** *** Reading a pattern *)

Definition digit_val (c : N) : option nat :=
  if is_ascii_digit c then Some (N.to_nat (c - 48)) else None.

Definition hex_val (c : N) : option N :=
  if is_ascii_digit c then Some (c - 48)%N
  else if ((97 <=? c) && (c <=? 102))%N then Some (c - 87)%N
  else if ((65 <=? c) && (c <=? 70))%N then Some (c - 55)%N
  else None.

(** The four hexadecimal digits after [\u]. *)
Definition read_u4 (inp : list N) : option (N * list N) :=
  match inp with
  | a :: b :: c :: d :: rest =>
      match hex_val a, hex_val b, hex_val c, hex_val d with
      | Some a, Some b, Some c, Some d =>
          Some (((a * 16 + b) * 16 + c) * 16 + d, rest)%N
      | _, _, _, _ => None
      end
  | _ => None
  end.

(** What follows a backslash, as a class item. *)
Definition read_escape (inp : list N) : option (citem * list N) :=
  match inp with
  | 100%N :: rest => Some (IDigit, rest)                 (* \d *)
  | 115%N :: rest => Some (ISpace, rest)                 (* \s *)
  | 119%N :: rest => Some (IWord, rest)                  (* \w *)
  | 117%N :: rest =>                                     (* \uXXXX *)
      match read_u4 rest with
      | Some (c, rest') => Some (IChar c, rest')
      | None => None
      end
  | c :: rest =>
      if is_ascii_upper c || is_ascii_lower c || is_ascii_digit c
      then None else Some (IChar c, rest)                (* \( \. \[ ... *)
  | [] => None
  end.

(** The items of a class up to its closing bracket. *)
Fixpoint read_class (fuel : nat) (inp : list N) (acc : list citem)
  : option (list citem * list N) :=
  match fuel with
  | 0 => None
  | S f =>
      match inp with
      | [] => None
      | 93%N :: rest => Some (rev acc, rest)             (* ] *)
      | 92%N :: rest =>                                  (* \ *)
          match read_escape rest with
          | Some (it, rest') => read_class f rest' (it :: acc)
          | None => None
          end
      | lo :: 45%N :: 93%N :: rest =>                    (* x-] *)
          Some (rev (IChar 45 :: IChar lo :: acc), rest)
      | lo :: 45%N :: hi :: rest =>                      (* lo-hi *)
          if (hi =? 92)%N then None
          else read_class f rest (IRange lo hi :: acc)
      | c :: rest => read_class f rest (IChar c :: acc)
      end
  end.

Fixpoint read_nat (fuel : nat) (inp : list N) (acc : nat) : nat * list N :=
  match fuel, inp with
  | S f, c :: rest =>
      match digit_val c with
      | Some d => read_nat f rest (acc * 10 + d)
      | None => (acc, inp)
      end
  | _, _ => (acc, inp)
  end.

(** A quantifier after an atom, when there is one. *)
Definition read_quant (r : regex) (inp : list N) : regex * list N :=
  match inp with
  | 63%N :: rest => (Rep 0 (Some 1) r, rest)             (* ? *)
  | 42%N :: rest => (Rep 0 None r, rest)                 (* * *)
  | 43%N :: rest => (Rep 1 None r, rest)                 (* + *)
  | 123%N :: rest =>                                     (* {m,n} or {m} *)
      let '(lo, rest1) := read_nat (length rest) rest 0 in
      match rest1 with
      | 44%N :: rest2 =>
          let '(hi, rest3) := read_nat (length rest2) rest2 0 in
          match rest3 with
          | 125%N :: rest4 => (Rep lo (Some hi) r, rest4)
          | _ => (r, inp)
          end
      | 125%N :: rest2 => (Rep lo (Some lo) r, rest2)
      | _ => (r, inp)
      end
  | _ => (r, inp)
  end.

(** The parser: alternatives of sequences of quantified atoms.  [g] is the
    number of the next capturing group (groups are numbered by their opening
    parenthesis). *)
Fixpoint read_alt (fuel : nat) (inp : list N) (g : nat)
  : option (regex * list N * nat) :=
  match fuel with
  | 0 => None
  | S f =>
      match read_seq f inp g with
      | Some (r1, 124%N :: rest, g1) =>                  (* | *)
          match read_alt f rest g1 with
          | Some (r2, rest', g2) => Some (Alt r1 r2, rest', g2)
          | None => None
          end
      | other => other
      end
  end
with read_seq (fuel : nat) (inp : list N) (g : nat)
  : option (regex * list N * nat) :=
  match fuel with
  | 0 => None
  | S f =>
      match inp with
      | [] => Some (Eps, inp, g)
      | 124%N :: _ => Some (Eps, inp, g)
      | 41%N :: _ => Some (Eps, inp, g)
      | _ =>
          match read_atom f inp g with
          | Some (a, rest, g1) =>
              let '(q, rest1) := read_quant a rest in
              match read_seq f rest1 g1 with
              | Some (Eps, rest2, g2) => Some (q, rest2, g2)
              | Some (r, rest2, g2) => Some (Cat q r, rest2, g2)
              | None => None
              end
          | None => None
          end
      end
  end
with read_atom (fuel : nat) (inp : list N) (g : nat)
  : option (regex * list N * nat) :=
  match fuel with
  | 0 => None
  | S f =>
      match inp with
      | 40%N :: 63%N :: 58%N :: rest =>                  (* (?: *)
          match read_alt f rest g with
          | Some (r, 41%N :: rest', g1) => Some (r, rest', g1)
          | _ => None
          end
      | 40%N :: 63%N :: 33%N :: rest =>                  (* (?! *)
          match read_alt f rest g with
          | Some (r, 41%N :: rest', g1) => Some (NLook r, rest', g1)
          | _ => None
          end
      | 40%N :: 63%N :: _ => None
      | 40%N :: rest =>                                  (* ( *)
          match read_alt f rest (S g) with
          | Some (r, 41%N :: rest', g1) => Some (Grp g r, rest', g1)
          | _ => None
          end
      | 91%N :: 94%N :: rest =>                          (* [^ *)
          match read_class (S (length rest)) rest [] with
          | Some (items, rest') => Some (Cls true items, rest', g)
          | None => None
          end
      | 91%N :: rest =>                                  (* [ *)
          match read_class (S (length rest)) rest [] with
          | Some (items, rest') => Some (Cls false items, rest', g)
          | None => None
          end
      | 92%N :: rest =>                                  (* \ *)
          match read_escape rest with
          | Some (IChar c, rest') => Some (Lit c, rest', g)
          | Some (it, rest') => Some (Cls false [it], rest', g)
          | None => None
          end
      | 94%N :: rest => Some (Bos, rest, g)              (* ^ *)
      | 36%N :: rest => Some (Eos, rest, g)              (* $ *)
      | 46%N :: rest => Some (Dot, rest, g)              (* . *)
      | 42%N :: _ | 43%N :: _ | 63%N :: _ | 41%N :: _ | 124%N :: _ => None
      | c :: rest => Some (Lit c, rest, g)
      | [] => None
      end
  end.

(** [re.compile(pattern)]; a pattern outside the supported syntax compiles to
    the expression that matches nothing. *)
Definition compile (pattern : string) : regex :=
  let inp := py pattern in
  match read_alt (3 * length inp + 3) inp 1 with
  | Some (r, [], _) => r
  | _ => Cls false []
  end.

Definition compiles (pattern : string) : bool :=
  let inp := py pattern in
  match read_alt (3 * length inp + 3) inp 1 with
  | Some (_, [], _) => true
  | _ => false
  end.

(** *** Matching *)

Definition in_item (it : citem) (c : N) : bool :=
  match it with
  | IChar a => (c =? a)%N
  | IRange lo hi => ((lo <=? c) && (c <=? hi))%N
  | IDigit => is_ascii_digit c
  | ISpace => isspace c
  | IWord => is_ascii_upper c || is_ascii_lower c || is_ascii_digit c
             || (c =? 95)%N
  end.

(** Membership in a class; under IGNORECASE a character also matches through
    its other case. *)
Definition in_items (ic : bool) (items : list citem) (c : N) : bool :=
  existsb (fun it => in_item it c
                     || ic && (in_item it (lower_char c)
                               || in_item it (upper_char c))) items.

Definition lit_eq (ic : bool) (a c : N) : bool :=
  if ic then (lower_char a =? lower_char c)%N else (a =? c)%N.

(** Captured groups, latest first: group number, start and end offset. *)
Definition caps := list (nat * (nat * nat)).

Definition below (cnt : nat) (hi : option nat) : bool :=
  match hi with Some h => cnt <? h | None => true end.

Section Repeat.

(** [step]: the matcher of the repeated expression; [k]: what follows the
    repetition. *)
Variable step : list N -> caps -> (list N -> caps -> option (nat * caps))
                -> option (nat * caps).
Variable lo : nat.
Variable hi : option nat.
Variable k : list N -> caps -> option (nat * caps).

(** Greedy repetition: after [cnt] rounds, try one more round (which must
    consume something), and fall back to stopping here. *)
Fixpoint rep_loop (fuel cnt : nat) (rest : list N) (c : caps) {struct fuel}
  : option (nat * caps) :=
  match fuel with
  | 0 => None
  | S f =>
      let more :=
        if below cnt hi
        then step rest c
               (fun rest' c' =>
                  if length rest' <? length rest
                  then rep_loop f (S cnt) rest' c' else None)
        else None in
      match more with
      | Some x => Some x
      | None => if lo <=? cnt then k rest c else None
      end
  end.

End Repeat.

Section Matcher.

(** [ic]: the IGNORECASE flag; [n]: the length of the whole subject. *)
Variable ic : bool.
Variable n : nat.

(** [mt r rest c k]: match [r] at the front of [rest] (the subject from the
    current offset on), then continue with [k]; [None] makes the matcher
    backtrack into the latest choice. *)
Fixpoint mt (r : regex) (rest : list N) (c : caps)
    (k : list N -> caps -> option (nat * caps)) {struct r}
  : option (nat * caps) :=
  match r with
  | Eps => k rest c
  | Lit a =>
      match rest with
      | x :: t => if lit_eq ic a x then k t c else None
      | [] => None
      end
  | Dot =>
      match rest with
      | x :: t => if (x =? 10)%N then None else k t c
      | [] => None
      end
  | Cls neg items =>
      match rest with
      | x :: t => if xorb neg (in_items ic items x) then k t c else None
      | [] => None
      end
  | Cat r1 r2 => mt r1 rest c (fun rest' c' => mt r2 rest' c' k)
  | Alt r1 r2 =>
      match mt r1 rest c k with
      | Some x => Some x
      | None => mt r2 rest c k
      end
  | Rep lo hi r1 => rep_loop (mt r1) lo hi k (S (length rest)) 0 rest c
  | Grp g r1 =>
      mt r1 rest c
        (fun rest' c' =>
           k rest' ((g, (n - length rest, n - length rest')) :: c'))
  | NLook r1 =>
      match mt r1 rest c (fun _ _ => Some (0, [])) with
      | Some _ => None
      | None => k rest c
      end
  | Bos => if length rest =? n then k rest c else None
  | Eos =>
      (* the end of the subject, or just before a newline that ends it *)
      match rest with
      | [] => k rest c
      | [x] => if (x =? 10)%N then k rest c else None
      | _ => None
      end
  end.

End Matcher.

(** A match object: [m.start()], [m.end()] and the captured groups. *)
Record rmatch := { m_start : nat; m_end : nat; m_caps : caps }.

(** The match of [r] that starts exactly at the front of [rest]. *)
Definition match_here (ic : bool) (n : nat) (r : regex) (rest : list N)
  : option rmatch :=
  match mt ic n r rest [] (fun rest' c' => Some (n - length rest', c')) with
  | Some (e, c) => Some {| m_start := n - length rest; m_end := e; m_caps := c |}
  | None => None
  end.

(** The leftmost match in [rest]. *)
Fixpoint scan (ic : bool) (n : nat) (r : regex) (rest : list N)
  : option rmatch :=
  match match_here ic n r rest with
  | Some m => Some m
  | None =>
      match rest with
      | [] => None
      | _ :: t => scan ic n r t
      end
  end.

(** The leftmost match starting at offset [pos] or later. *)
Definition search_from (ic : bool) (r : regex) (text : list N) (pos : nat)
  : option rmatch :=
  if pos <=? length text
  then scan ic (length text) r (skipn pos text)
  else None.

(** [re.search(r, text)]. *)
Definition search (r : regex) (text : list N) : option rmatch :=
  search_from false r text 0.

(** [re.match(r, text)]. *)
Definition match_ (r : regex) (text : list N) : option rmatch :=
  match_here false (length text) r text.

Fixpoint finditer_from (ic : bool) (r : regex) (text : list N)
    (fuel pos : nat) : list rmatch :=
  match fuel with
  | 0 => []
  | S f =>
      match search_from ic r text pos with
      | None => []
      | Some m =>
          m :: finditer_from ic r text f
                 (if m_end m =? m_start m then S (m_end m) else m_end m)
      end
  end.

(** [re.finditer(r, text)]: the successive non-overlapping matches. *)
Definition finditer (r : regex) (text : list N) : list rmatch :=
  finditer_from false r text (S (length text)) 0.

(** [m.group(g)]; the empty string stands for a group that took no part. *)
Definition group (text : list N) (m : rmatch) (g : nat) : list N :=
  match List.find (fun e => fst e =? g) (m_caps m) with
  | Some (_, (a, b)) => slice a b text
  | None => []
  end.

(** [m.group(0)]. *)
Definition group0 (text : list N) (m : rmatch) : list N :=
  slice (m_start m) (m_end m) text.

(** [re.findall(r, text)] for a pattern with exactly one group. *)
Definition findall1 (r : regex) (text : list N) : list (list N) :=
  List.map (fun m => group text m 1) (finditer r text).

(** The text outside the matches, piece by piece: [re.split(r, text)] for a
    pattern without groups. *)
Fixpoint split_at_matches (text : list N) (pos : nat) (ms : list rmatch)
  : list (list N) :=
  match ms with
  | [] => [skipn pos text]
  | m :: ms' => slice pos (m_start m) text :: split_at_matches text (m_end m) ms'
  end.

Definition split_ic (ic : bool) (r : regex) (text : list N) : list (list N) :=
  split_at_matches text 0 (finditer_from ic r text (S (length text)) 0).

Definition split (r : regex) (text : list N) : list (list N) :=
  split_ic false r text.

(** [re.sub(r, '', text)], with [flags=re.IGNORECASE] when [ic]. *)
Definition sub_empty (ic : bool) (r : regex) (text : list N) : list N :=
  List.concat (split_ic ic r text).

(** No match of the expression is empty. *)
Fixpoint nullable (r : regex) : bool :=
  match r with
  | Eps | NLook _ | Bos | Eos => true
  | Lit _ | Dot | Cls _ _ => false
  | Cat r1 r2 => nullable r1 && nullable r2
  | Alt r1 r2 => nullable r1 || nullable r2
  | Rep lo _ r1 => (lo =? 0) || nullable r1
  | Grp _ r1 => nullable r1
  end.

End Re.

Arguments py s%_string.
Arguments Re.compile pattern%_string.

(** An author/year key [(surname, year)]. *)
Abbreviation key := (list N * list N)%type (only parsing).

(* ===================================================================== *)
(** ** Fuzzy year matching *)
(* ===================================================================== *)

Definition RE_YEAR_SUFFIX : Re.regex := Eval vm_compute in Re.compile "[a-z]$".

(** [strip_year_suffix]: [re.sub(r'[a-z]$', '', year)]. *)
Definition strip_year_suffix (year : list N) : list N :=
  Re.sub_empty false RE_YEAR_SUFFIX year.

(** [build_fuzzy_lookup]; [items] lists the set in the order the loop visits
    it. *)
Definition build_fuzzy_lookup (items : list key) : gmap key (list key) :=
  foldl (fun (lookup : gmap key (list key)) '(surname, year) =>
           let base := (surname, strip_year_suffix year) in
           <[base := default [] (lookup !! base) ++ [(surname, year)]]> lookup)
        ∅ items.

(** The result of a match: [('exact', k)], [('fuzzy', k)], [('none', None)]. *)
Inductive match_result :=
| Exact (k : key)
| Fuzzy (k : key)
| NoMatch.

(** The [for] loop over the candidates of a base key: the first one whose
    year differs from the query's. *)
Fixpoint first_other_year (year : list N) (candidates : list key)
  : option key :=
  match candidates with
  | [] => None
  | (ref_surname, ref_year) :: rest =>
      if eqb_str ref_year year then first_other_year year rest
      else Some (ref_surname, ref_year)
  end.

Definition fuzzy_match_citation (surname year : list N)
    (ref_set : gset key) (ref_fuzzy_lookup : gmap key (list key))
  : match_result :=
  (* 1. Exact match *)
  if bool_decide ((surname, year) ∈ ref_set) then Exact (surname, year)
  else
    (* 2. Strip suffix: citation has 'a'/'b', ref doesn't *)
    let base_year := strip_year_suffix year in
    if negb (eqb_str base_year year)
       && bool_decide ((surname, base_year) ∈ ref_set)
    then Fuzzy (surname, base_year)
    else
      (* 3. Ref has suffix, citation doesn't - check fuzzy lookup *)
      let base_key := (surname, base_year) in
      match ref_fuzzy_lookup !! base_key with
      | Some candidates =>
          match first_other_year year candidates with
          | Some k => Fuzzy k
          | None => NoMatch
          end
      | None => NoMatch
      end.

Definition fuzzy_match_reference (surname year : list N)
    (citation_set : gset key) (citation_fuzzy_lookup : gmap key (list key))
  : match_result :=
  (* 1. Exact match *)
  if bool_decide ((surname, year) ∈ citation_set) then Exact (surname, year)
  else
    (* 2. Strip suffix: ref has 'a'/'b', citation doesn't *)
    let base_year := strip_year_suffix year in
    if negb (eqb_str base_year year)
       && bool_decide ((surname, base_year) ∈ citation_set)
    then Fuzzy (surname, base_year)
    else
      (* 3. Citation has suffix, ref doesn't *)
      let base_key := (surname, base_year) in
      match citation_fuzzy_lookup !! base_key with
      | Some candidates =>
          match first_other_year year candidates with
          | Some k => Fuzzy k
          | None => NoMatch
          end
      | None => NoMatch
      end.

(* ===================================================================== *)
(** ** Citation extraction from plain text *)
(* ===================================================================== *)

(** The initial value of the global [NOISE_WORDS]. *)
Definition NOISE_WORDS_0 : gset (list N) :=
  list_to_set (List.map py
    [ "approaches"; "therapy"; "psychology"; "modes"; "vol"; "eds";
      "chapter"; "section"; "page"; "table"; "figure"; "note"; "press";
      "cognitive"; "relational"; "behavioral"; "emotional"; "self";
      "individual"; "interpersonal"; "focused"; "based"; "oriented";
      "and"; "the"; "for"; "with"; "from"; "into"; "between";
      "also"; "cited"; "review"; "example"; "well"; "see"; "new";
      "other"; "their"; "these"; "those"; "such"; "both"; "each";
      "psychotherapy"; "attachment"; "schema"; "technique"; "model";
      "clinical"; "therapeutic"; "treatment"; "practice"; "research";
      "humanistic"; "emotion-focused"; "self-psychology"; "self-psychology:";
      "psychoanalytic"; "existential"; "gestalt"; "integrative";
      "dynamic"; "experiential"; "systemic"; "narrative"; "dialectical" ]%string).

(** [normalize_text]: curly quotes and dashes to ASCII, invisible marks
    removed (the length may change). *)
Definition normalize_text (text : list N) : list N :=
  let text := replace 8217 (py "'") (replace 8216 (py "'") text) in
  let text := replace 8221 [34%N] (replace 8220 [34%N] text) in
  let text := replace 8209 (py "-") (replace 8208 (py "-") text) in
  let text := replace 8211 (py "-") (replace 8210 (py "-") text) in
  replace 8203 [] (replace 8206 [] (replace 8207 [] text)).

(** [normalize_for_highlight]: the one-for-one replacements only. *)
Definition normalize_for_highlight (text : list N) : list N :=
  let text := replace 8217 (py "'") (replace 8216 (py "'") text) in
  let text := replace 8221 [34%N] (replace 8220 [34%N] text) in
  let text := replace 8209 (py "-") (replace 8208 (py "-") text) in
  replace 8211 (py "-") (replace 8210 (py "-") text).

Definition RE_AUTHOR_PREFIX : Re.regex := Eval vm_compute in Re.compile
  "^(e\.g\.,?\s*|see\s+|cf\.\s*|for\s+review,?\s*see\s*|also\s+|as cited in\s+|as well as\s+)".

Definition RE_POSSESSIVE_END : Re.regex := Eval vm_compute in Re.compile
  "['\u2019]s$".

(** [clean_author]: prefixes, a trailing comma and a possessive removed. *)
Definition clean_author (author_str : list N) : list N :=
  let s := strip author_str in
  let s := strip (Re.sub_empty true RE_AUTHOR_PREFIX s) in
  let s := strip (rstrip_char 44 s) in
  Re.sub_empty false RE_POSSESSIVE_END s.

(** [normalize_surname]: the first letter in upper case. *)
Definition normalize_surname (s : list N) : list N :=
  let s := strip s in
  match s with
  | [] => s
  | [c] => upper s
  | c :: t => upper_char c :: t
  end.

Definition PARTICLES : list (list N) :=
  List.map py ["van"; "de"; "den"; "der"; "von"; "di"; "la"; "le"; "el"; "al"]%string.

(** [cap_parts]: the tokens that start with an upper-case letter. *)
Definition cap_parts (parts : list (list N)) : list (list N) :=
  List.filter (fun p => match p with c :: _ => isupper_char c | [] => false end)
              parts.

(** [first_surname]: the first author's surname of an author string. *)
Definition first_surname (author_str : list N) : list N :=
  let s := hd [] (split_on (py " et al") author_str) in
  let s := hd [] (split_on (py " & ") s) in
  let s := hd [] (split_on (py " and ") s) in
  let s := strip (hd [] (split_on (py ",") s)) in
  let s := strip (rstrip_char 46 (strip s)) in
  let parts := split_ws s in
  match parts with
  | [] => normalize_surname s
  | first :: _ =>
      let caps := cap_parts parts in
      if 2 <=? length caps then
        let last := List.last caps [] in
        (* [last] is one of [parts], so [parts.index(last)] is defined *)
        match index_str last parts with
        | Some (S i) =>
            let prev := nth i parts [] in
            if mem_str (lower prev) PARTICLES
            then prev ++ py " " ++ last
            else normalize_surname last
        | _ => normalize_surname last
        end
      else normalize_surname first
  end.

Section Extraction.

(** The value of the global [NOISE_WORDS] during the run. *)
Variable NOISE_WORDS : gset (list N).

(** [is_noise]: a noise word, or at most two characters long. *)
Definition is_noise (surname : list N) : bool :=
  bool_decide (lower surname ∈ NOISE_WORDS) || (length surname <=? 2).

(** The patterns of the recognizers, as written in the source. *)

(* 1. Parenthetical: (Author, Year) or (Author, Year; Author2, Year2) *)
Definition RE_PAREN_BLOCK : Re.regex := Eval vm_compute in Re.compile
  "\(([^)]+)\)".

Definition RE_YEARS : Re.regex := Eval vm_compute in Re.compile
  "(\d{4}[a-z]?)".

Definition RE_BEFORE_YEAR : Re.regex := Eval vm_compute in Re.compile
  ",?\s*\d{4}".

(* 2. Narrative: Author (Year) or Author et al. (Year) *)
Definition RE_NARRATIVE : Re.regex := Eval vm_compute in Re.compile
  "(?:([A-Z][a-z]+(?:-[A-Z][a-z]+)?)\s+)?([A-Z][a-z]+(?:-[A-Z][a-z]+)?(?:\s+(?:&|and)\s+[A-Z][a-z]+(?:-[A-Z][a-z]+)?)?(?:\s+et\s+al\.?)?)\s*\((?:e\.g\.,?\s*|see\s+|cf\.?\s*)?(\d{4}[a-z]?(?:,\s*\d{4}[a-z]?)*)\)".

(* 3. Possessive with complex parenthetical *)
Definition RE_POSSESSIVE : Re.regex := Eval vm_compute in Re.compile
  "(?:([A-Z][a-z]+)\s+)?([A-Z][a-z]+)'s\s+(?:(?![A-Z][a-z]+(?:-[A-Z][a-z]+)?'s)[^(]){0,80}\(([^)]+)\)".

(* 4a. Bracket citation: Author [Year] *)
Definition RE_BRACKET : Re.regex := Eval vm_compute in Re.compile
  "([A-Z][a-z]+(?:-[A-Z][a-z]+)?(?:,?\s*&?\s*[A-Z][a-z]+(?:-[A-Z][a-z]+)?)*(?:\s+et\s+al\.?)?)\s*\[(\d{4}[a-z]?)\]".

(* 4b. Multi-citation bracket block: [Author1, Year1; Author2, Year2] *)
Definition RE_BRACKET_BLOCK : Re.regex := Eval vm_compute in Re.compile
  "\[([^\]]*\d{4}[^\]]*;[^\]]*)\]".

(* 5. Narrative with "and colleagues/coworkers/collaborators" *)
Definition RE_COLLEAGUES : Re.regex := Eval vm_compute in Re.compile
  "([A-Z][a-z]+)\s+and\s+(?:colleagues|coworkers|collaborators)\s*\(([^)]+)\)".

(* 6. Narrative with "et al." followed by complex parenthetical *)
Definition RE_ET_AL : Re.regex := Eval vm_compute in Re.compile
  "([A-Z][a-z]+)\s+et\s+al\.?\s*\(([^)]+)\)".

(* 7. Lowercase citations, as the extractor looks for them *)
Definition RE_LOWERCASE : Re.regex := Eval vm_compute in Re.compile
  "([a-z][a-z]+(?:-[a-zA-Z]+)?)\s*[\(,]\s*(\d{4}[a-z]?)".

(** [re.findall(r'(\d{4}[a-z]?)', part)]. *)
Definition years_of (part : list N) : list (list N) :=
  Re.findall1 RE_YEARS part.

(** The author text of one part of a block:
    [clean_author(re.split(r',?\s*\d{4}', part)[0].strip())]. *)
Definition author_part_of (part : list N) : list N :=
  clean_author (strip (hd [] (Re.split RE_BEFORE_YEAR part))).

(** [author_part and len(author_part) > 2]. *)
Definition has_author (author_part : list N) : bool := 2 <? length author_part.

(** One part of a parenthetical block, with the author inherited from the
    parts before it: the new [last_author] and the keys of the part. *)
Definition paren_part (last_author : option (list N)) (part : list N)
  : option (list N) * list key :=
  let part := strip part in
  let years := years_of part in
  match years with
  | [] => (last_author, [])
  | _ =>
      let author_part := author_part_of part in
      if has_author author_part then
        let surname := first_surname author_part in
        if negb (is_noise surname)
        then (Some surname, List.map (fun y => (surname, y)) years)
        else (last_author, [])
      else
        match last_author with
        | Some a => (last_author, List.map (fun y => (a, y)) years)
        | None => (last_author, [])
        end
  end.

Fixpoint paren_parts (last_author : option (list N)) (parts : list (list N))
  : list key :=
  match parts with
  | [] => []
  | part :: rest =>
      let '(last_author', ks) := paren_part last_author part in
      ks ++ paren_parts last_author' rest
  end.

(** The keys of a parenthetical block [(A, Y; B, Z; ...)]. *)
Definition paren_block_keys (block : list N) : list key :=
  paren_parts None (split_on (py ";") block).

(** One part of a bracket block: no inheritance. *)
Definition bracket_part (part : list N) : list key :=
  let part := strip part in
  let years := years_of part in
  match years with
  | [] => []
  | _ =>
      let author_part := author_part_of part in
      if has_author author_part then
        let surname := first_surname author_part in
        if negb (is_noise surname)
        then List.map (fun y => (surname, y)) years
        else []
      else []
  end.

Definition bracket_block_keys (block : list N) : list key :=
  List.flat_map bracket_part (split_on (py ";") block).

(** One part of the parenthetical after a named subject (possessive,
    "and colleagues", "et al."): bare years go to the subject. *)
Definition subject_part (subject : list N) (part : list N) : list key :=
  let part := strip part in
  let years := years_of part in
  match years with
  | [] => []
  | _ =>
      let author_part := author_part_of part in
      if has_author author_part then
        let surname := first_surname author_part in
        if negb (is_noise surname)
        then List.map (fun y => (surname, y)) years
        else []
      else
        if negb (is_noise subject)
        then List.map (fun y => (subject, y)) years
        else []
  end.

Definition subject_block_keys (subject paren_content : list N) : list key :=
  List.flat_map (subject_part subject) (split_on (py ";") paren_content).

(** The keys of one narrative match. *)
Definition narrative_keys (text : list N) (m : Re.rmatch) : list key :=
  let author := strip (Re.group text m 2) in
  let year_str := Re.group text m 3 in
  let surname := first_surname author in
  if negb (is_noise surname)
  then List.map (fun y => (surname, y)) (years_of year_str)
  else [].

(** The key of one [Author [Year]] match. *)
Definition bracket_keys (text : list N) (m : Re.rmatch) : list key :=
  let author := strip (Re.group text m 1) in
  let year := Re.group text m 2 in
  let surname := first_surname (clean_author author) in
  if negb (is_noise surname) then [(surname, year)] else [].

(** The key of one lowercase match of the extractor. *)
Definition lowercase_keys (text : list N) (m : Re.rmatch) : list key :=
  let surname := normalize_surname (Re.group text m 1) in
  let year := Re.group text m 2 in
  if negb (is_noise surname) then [(surname, year)] else [].

(** [citations.add(k)] for each key of a list. *)
Definition add_keys (citations : gset key) (ks : list key) : gset key :=
  foldl (fun (cs : gset key) k => {[k]} ∪ cs) citations ks.

(** [extract_citations_from_text]: all [(first_surname, year)] pairs of the
    body text. *)
Definition extract_citations_from_text (plain_text : list N) : gset key :=
  let text := normalize_text plain_text in
  let citations : gset key := ∅ in
  (* 1. Parenthetical *)
  let citations :=
    foldl (fun cs block => add_keys cs (paren_block_keys block))
          citations (Re.findall1 RE_PAREN_BLOCK text) in
  (* 2. Narrative *)
  let citations :=
    foldl (fun cs m => add_keys cs (narrative_keys text m))
          citations (Re.finditer RE_NARRATIVE text) in
  (* 3. Possessive *)
  let citations :=
    foldl (fun cs m =>
             add_keys cs (subject_block_keys (Re.group text m 2)
                                             (Re.group text m 3)))
          citations (Re.finditer RE_POSSESSIVE text) in
  (* 4a. Bracket citation *)
  let citations :=
    foldl (fun cs m => add_keys cs (bracket_keys text m))
          citations (Re.finditer RE_BRACKET text) in
  (* 4b. Multi-citation bracket block *)
  let citations :=
    foldl (fun cs m => add_keys cs (bracket_block_keys (Re.group text m 1)))
          citations (Re.finditer RE_BRACKET_BLOCK text) in
  (* 5. "and colleagues" *)
  let citations :=
    foldl (fun cs m =>
             add_keys cs (subject_block_keys (Re.group text m 1)
                                             (Re.group text m 2)))
          citations (Re.finditer RE_COLLEAGUES text) in
  (* 6. "et al." with a complex parenthetical *)
  let citations :=
    foldl (fun cs m =>
             add_keys cs (subject_block_keys (Re.group text m 1)
                                             (Re.group text m 2)))
          citations (Re.finditer RE_ET_AL text) in
  (* 7. Lowercase citations *)
  let citations :=
    foldl (fun cs m => add_keys cs (lowercase_keys text m))
          citations (Re.finditer RE_LOWERCASE text) in
  (* Normalize all surnames in the set *)
  set_map (fun k : key => (normalize_surname (fst k), snd k)) citations.

End Extraction.

(* ===================================================================== *)
(** ** The document: paragraphs of formatted runs *)
(* ===================================================================== *)

(** The highlight colour names. *)
Definition GREEN_HIGHLIGHT : list N := py "green".
Definition YELLOW_HIGHLIGHT : list N := py "yellow".
Definition RED_HIGHLIGHT : list N := py "red".
Definition CYAN_HIGHLIGHT : list N := py "cyan".

(** A child element of a run [w:r], the run properties apart.  [run.text]
    gives each of them its text equivalent. *)
Inductive relem :=
| W_t (preserve : bool) (text : list N)   (* w:t, with xml:space="preserve" *)
| W_tab                                   (* w:tab *)
| W_br                                    (* w:br, a line break *)
| W_cr                                    (* w:cr *)
| W_noBreakHyphen                         (* w:noBreakHyphen *)
| W_ptab                                  (* w:ptab *)
| W_other (tag : nat).                    (* a child without text *)

(** A run: its highlight ([w:highlight] of [w:rPr]), the rest of its
    formatting, and its content. *)
Record run := {
  r_highlight : option (list N);
  r_format : list (list N);
  r_children : list relem
}.

Definition relem_text (e : relem) : list N :=
  match e with
  | W_t _ text => text
  | W_tab | W_ptab => [9%N]
  | W_br | W_cr => [10%N]
  | W_noBreakHyphen => [45%N]
  | W_other _ => []
  end.

(** [run.text]. *)
Definition run_text (r : run) : list N :=
  List.concat (List.map relem_text (r_children r)).

(** A comment anchored on runs of a paragraph: the runs (by position), the
    text and the author. *)
Record comment := {
  c_runs : list nat;
  c_text : list N;
  c_author : list N
}.

(** A child of a paragraph [w:p] that carries text: a run [w:r], or a
    hyperlink [w:hyperlink] with the runs inside it. *)
Inductive pchild :=
| P_r (r : run)
| P_hyperlink (runs : list run).

Record paragraph := {
  p_children : list pchild;
  p_comments : list comment
}.

(** [para.runs]: the runs that are children of the paragraph; the runs
    inside a hyperlink are not among them. *)
Fixpoint runs_of (children : list pchild) : list run :=
  match children with
  | [] => []
  | P_r r :: rest => r :: runs_of rest
  | P_hyperlink _ :: rest => runs_of rest
  end.

Definition p_runs (p : paragraph) : list run := runs_of (p_children p).

(** [run.text] of a run, [hyperlink.text] of a hyperlink. *)
Definition child_text (c : pchild) : list N :=
  match c with
  | P_r r => run_text r
  | P_hyperlink runs => List.concat (List.map run_text runs)
  end.

(** [para.text]: the text of the runs and of the hyperlinks, in document
    order. *)
Definition para_text (p : paragraph) : list N :=
  List.concat (List.map child_text (p_children p)).

(** A child of the document body: a paragraph, or a table given by the
    paragraphs of its cells, row by row. *)
Inductive block :=
| BPara (p : paragraph)
| BTable (cells : list (list paragraph)).

Abbreviation document := (list block) (only parsing).

(** [doc.paragraphs]: the paragraphs directly in the body. *)
Fixpoint doc_paragraphs (doc : list block) : list paragraph :=
  match doc with
  | [] => []
  | BPara p :: rest => p :: doc_paragraphs rest
  | BTable _ :: rest => doc_paragraphs rest
  end.

(** [set_highlight]. *)
Definition set_highlight (r : run) (color_index : list N) : run :=
  {| r_highlight := Some color_index;
     r_format := r_format r;
     r_children := r_children r |}.

Definition is_w_t (e : relem) : bool :=
  match e with W_t _ _ => true | _ => false end.

(** [text.startswith(' ') or text.endswith(' ')]. *)
Definition needs_preserve (text : list N) : bool :=
  match text with
  | [] => false
  | c :: _ => (c =? 32)%N || (List.last text 0%N =? 32)%N
  end.

(** [split_run]: the run is copied, the [w:t] children are removed from both
    copies, and each gets one new [w:t] with its half of the text. *)
Definition split_run (r : run) (split_at : nat) : run * run :=
  let full_text := run_text r in
  let kept := List.filter (fun e => negb (is_w_t e)) (r_children r) in
  let left_text := firstn split_at full_text in
  let right_text := skipn split_at full_text in
  ({| r_highlight := r_highlight r; r_format := r_format r;
      r_children := kept ++ [W_t (needs_preserve left_text) left_text] |},
   {| r_highlight := r_highlight r; r_format := r_format r;
      r_children := kept ++ [W_t (needs_preserve right_text) right_text] |}).

(** The first loop of [highlight_span_in_paragraph] for one boundary: split
    the first run that the boundary falls strictly inside. *)
Fixpoint split_at_boundary (boundary pos : nat) (runs : list run) : list run :=
  match runs with
  | [] => []
  | r :: rest =>
      let run_len := length (run_text r) in
      let run_start := pos in
      let run_end := pos + run_len in
      if (run_start <? boundary) && (boundary <? run_end)
      then let '(l, rr) := split_run r (boundary - run_start) in l :: rr :: rest
      else r :: split_at_boundary boundary (pos + run_len) rest
  end.

(** The second loop: highlight the runs that lie inside the span. *)
Fixpoint highlight_inside (char_start char_end : nat) (color_index : list N)
    (pos : nat) (runs : list run) : list run :=
  match runs with
  | [] => []
  | r :: rest =>
      let run_len := length (run_text r) in
      let run_start := pos in
      let run_end := pos + run_len in
      (if (char_start <=? run_start) && (run_end <=? char_end) && (0 <? run_len)
       then set_highlight r color_index else r)
      :: highlight_inside char_start char_end color_index (pos + run_len) rest
  end.

Definition highlight_span_in_runs (runs : list run)
    (char_start char_end : nat) (color_index : list N) : list run :=
  let runs := split_at_boundary char_start 0 runs in
  let runs := split_at_boundary char_end 0 runs in
  highlight_inside char_start char_end color_index 0 runs.

(** The two loops in the paragraph itself.  They walk [para.runs], so a
    hyperlink is stepped over and does not advance [pos]; the runs are
    changed in place and the right half of a split run is inserted after the
    left one ([addnext]). *)
Fixpoint split_children_at (boundary pos : nat) (children : list pchild)
  : list pchild :=
  match children with
  | [] => []
  | P_hyperlink h :: rest =>
      P_hyperlink h :: split_children_at boundary pos rest
  | P_r r :: rest =>
      let run_len := length (run_text r) in
      let run_start := pos in
      let run_end := pos + run_len in
      if (run_start <? boundary) && (boundary <? run_end)
      then let '(l, rr) := split_run r (boundary - run_start) in
           P_r l :: P_r rr :: rest
      else P_r r :: split_children_at boundary (pos + run_len) rest
  end.

Fixpoint highlight_children_inside (char_start char_end : nat)
    (color_index : list N) (pos : nat) (children : list pchild)
  : list pchild :=
  match children with
  | [] => []
  | P_hyperlink h :: rest =>
      P_hyperlink h
      :: highlight_children_inside char_start char_end color_index pos rest
  | P_r r :: rest =>
      let run_len := length (run_text r) in
      let run_start := pos in
      let run_end := pos + run_len in
      P_r (if (char_start <=? run_start) && (run_end <=? char_end)
              && (0 <? run_len)
           then set_highlight r color_index else r)
      :: highlight_children_inside char_start char_end color_index
           (pos + run_len) rest
  end.

(** [highlight_span_in_paragraph]; [para.runs] afterwards is
    [highlight_span_in_runs] of [para.runs] before. *)
Definition highlight_span_in_paragraph (para : paragraph)
    (char_start char_end : nat) (color_index : list N) : paragraph :=
  let children := split_children_at char_start 0 (p_children para) in
  let children := split_children_at char_end 0 children in
  {| p_children :=
       highlight_children_inside char_start char_end color_index 0 children;
     p_comments := p_comments para |}.

(** The runs a comment is anchored on: those inside the span. *)
Fixpoint span_runs (char_start char_end : nat) (pos i : nat) (runs : list run)
  : list nat :=
  match runs with
  | [] => []
  | r :: rest =>
      let rlen := length (run_text r) in
      (if (char_start <=? pos) && (pos + rlen <=? char_end) && (0 <? rlen)
       then [i] else [])
      ++ span_runs char_start char_end (pos + rlen) (S i) rest
  end.

(** [add_comment_to_span].  The comment is recorded with the positions, in
    [para.runs] at the time of the call, of the runs it is anchored on; the
    range marks and the run with the comment reference that
    [doc.add_comment] puts around them carry no text and are left out. *)
Definition add_comment_to_span (para : paragraph) (char_start char_end : nat)
    (comment_text : list N) : paragraph :=
  match span_runs char_start char_end 0 0 (p_runs para) with
  | [] => para
  | rs => {| p_children := p_children para;
             p_comments := p_comments para
                           ++ [{| c_runs := rs; c_text := comment_text;
                                  c_author := py "ref-check" |}] |}
  end.

(* ===================================================================== *)
(** ** Reference extraction *)
(* ===================================================================== *)

Definition HEADINGS : list (list N) :=
  List.map py ["References"; "REFERENCES"; "Reference List"; "Bibliography"]%string.

(** [find_references_heading_index]. *)
Fixpoint find_heading (i : nat) (paras : list paragraph) : nat :=
  match paras with
  | [] => i
  | p :: rest =>
      if mem_str (strip (para_text p)) HEADINGS then i
      else find_heading (S i) rest
  end.

Definition find_references_heading_index (doc : list block) : nat :=
  find_heading 0 (doc_paragraphs doc).

Definition RE_REF_YEAR : Re.regex := Eval vm_compute in Re.compile
  "\((\d{4}[a-z]?)\)".

Definition RE_HAS_SUFFIX : Re.regex := Eval vm_compute in Re.compile
  "[a-z]$".

(** The surname of a reference entry: the first word before the first
    parenthesis. *)
Definition ref_surname (text : list N) : list N :=
  let before :=
    match index_char 40 text with
    | Some i => firstn i text
    | None => text
    end in
  let before := strip (rstrip_char 44 (strip before)) in
  let parts := split_ws (rstrip_char 46 (strip (hd [] (split_on (py ",") before)))) in
  hd [] parts.

(** The first loop of [extract_references_from_doc]: one raw entry
    [(surname, year)] per reference paragraph that has a year. *)
Definition raw_ref_of (p : paragraph) : option key :=
  let text := normalize_text (strip (para_text p)) in
  match text with
  | [] => None
  | _ =>
      if mem_str text HEADINGS then None
      else
        match Re.search RE_REF_YEAR text with
        | Some year_match =>
            let year := Re.group text year_match 1 in
            let surname := ref_surname text in
            if 1 <? length surname then Some (surname, year) else None
        | None => None
        end
  end.

Definition raw_refs_of (doc : list block) (ref_para_idx : nat) : list key :=
  omap raw_ref_of (skipn (ref_para_idx + 1) (doc_paragraphs doc)).

(** [base_counts]: occurrences of each [(surname, base_year)]. *)
Definition count_bases (raw_refs : list key) : gmap key nat :=
  foldl (fun (counts : gmap key nat) '(surname, year) =>
           let base := (surname, strip_year_suffix year) in
           <[base := S (default 0 (counts !! base))]> counts)
        ∅ raw_refs.

Definition has_suffix (year : list N) : bool :=
  match Re.search RE_HAS_SUFFIX year with Some _ => true | None => false end.

(** One step of the suffix loop: the tracker and the set after an entry. *)
Definition assign_step (base_counts : gmap key nat)
    (st : gmap key N * gset key) (entry : key) : gmap key N * gset key :=
  let '(suffix_tracker, refs) := st in
  let '(surname, year) := entry in
  let base := (surname, strip_year_suffix year) in
  if (1 <? default 0 (base_counts !! base)) && negb (has_suffix year) then
    (* Duplicate base year without suffix - assign one *)
    let code := default 97%N (suffix_tracker !! base) in
    let suffix := [code] in
    (<[base := (code + 1)%N]> suffix_tracker,
     {[(surname, year)]} ∪ ({[(surname, year ++ suffix)]} ∪ refs))
  else (suffix_tracker, {[(surname, year)]} ∪ refs).

(** The suffix assignment on the raw entries, in document order. *)
Definition assign_suffixes (raw_refs : list key) : gset key :=
  snd (foldl (assign_step (count_bases raw_refs)) (∅, ∅) raw_refs).

(** [extract_references_from_doc]. *)
Definition extract_references_from_doc (doc : list block) (ref_para_idx : nat)
  : gset key :=
  assign_suffixes (raw_refs_of doc ref_para_idx).

(* ===================================================================== *)
(** ** Highlighting the body citations *)
(* ===================================================================== *)

(** The patterns that differ from the extractor's. *)
Definition RE_PAREN_CITE : Re.regex := Eval vm_compute in Re.compile
  "\(([^)]*\d{4}[a-z]?[^)]*)\)".

Definition RE_LOWERCASE_NARRATIVE : Re.regex := Eval vm_compute in Re.compile
  "([a-z][a-z]+(?:-[a-zA-Z]+)?)\s*\((\d{4}[a-z]?(?:,\s*\d{4}[a-z]?)*)\)".

Definition RE_FOUR_DIGITS : Re.regex := Eval vm_compute in Re.compile
  "\d{4}".

(** ["{surname} ({year})"]. *)
Definition show_key (k : key) : list N :=
  fst k ++ py " (" ++ snd k ++ py ")".

Definition COMMENT_NOT_FOUND : list N :=
  py "Citation not found in reference list".

(** The recognizers of the highlighting pass, in the order they run. *)
Inductive recognizer :=
| RBracket          (* 4a *)
| RBracketBlock     (* 4b *)
| RParenthetical
| RNarrative
| RPossessive
| RColleagues
| RLowercase.

(** An accepted block: the span, the keys it covers, its colour and the
    recognizer that claimed it. *)
Record citation_span := {
  char_start : nat;
  char_end : nat;
  span_keys : list key;
  span_color : list N;
  recognizer_id : recognizer
}.

(** The accumulators of [highlight_body_citations], the paragraph being
    marked with its [highlighted_spans], and a record of the accepted blocks
    in the order they are accepted. *)
Record hstate := {
  matched : nat;
  fuzzy_matched : nat;
  unmatched : nat;
  unmatched_list : list (list N);
  fuzzy_list : list (list N);
  h_para : paragraph;
  highlighted_spans : list (nat * nat);
  h_blocks : list citation_span
}.

(** [any(hs <= span_start < he or hs < span_end <= he for hs, he in
    highlighted_spans)]. *)
Definition overlaps (spans : list (nat * nat)) (span_start span_end : nat)
  : bool :=
  existsb (fun '(hs, he) =>
             (hs <=? span_start) && (span_start <? he)
             || (hs <? span_end) && (span_end <=? he)) spans.

Section Highlight.

Variable NOISE_WORDS : gset (list N).
Variable ref_set : gset key.
Variable ref_fuzzy_lookup : gmap key (list key).
Variable add_comments : bool.

(** [determine_highlight_color]. *)
Definition determine_highlight_color (surname year : list N) : list N :=
  match fuzzy_match_citation surname year ref_set ref_fuzzy_lookup with
  | Exact _ => GREEN_HIGHLIGHT
  | Fuzzy _ => CYAN_HIGHLIGHT
  | NoMatch => YELLOW_HIGHLIGHT
  end.

(** The colour of a block: the worst case of its keys. *)
Definition block_color (block_citations : list key) : list N :=
  let colors :=
    List.map (fun k => determine_highlight_color (fst k) (snd k))
             block_citations in
  if mem_str YELLOW_HIGHLIGHT colors then YELLOW_HIGHLIGHT
  else if mem_str CYAN_HIGHLIGHT colors then CYAN_HIGHLIGHT
  else GREEN_HIGHLIGHT.

(** The counting of one key. *)
Definition count_key (st : hstate) (k : key) : hstate :=
  match fuzzy_match_citation (fst k) (snd k) ref_set ref_fuzzy_lookup with
  | Exact _ =>
      {| matched := matched st + 1; fuzzy_matched := fuzzy_matched st;
         unmatched := unmatched st; unmatched_list := unmatched_list st;
         fuzzy_list := fuzzy_list st; h_para := h_para st;
         highlighted_spans := highlighted_spans st; h_blocks := h_blocks st |}
  | Fuzzy _ =>
      {| matched := matched st; fuzzy_matched := fuzzy_matched st + 1;
         unmatched := unmatched st; unmatched_list := unmatched_list st;
         fuzzy_list := fuzzy_list st ++ [show_key k]; h_para := h_para st;
         highlighted_spans := highlighted_spans st; h_blocks := h_blocks st |}
  | NoMatch =>
      {| matched := matched st; fuzzy_matched := fuzzy_matched st;
         unmatched := unmatched st + 1;
         unmatched_list := unmatched_list st ++ [show_key k];
         fuzzy_list := fuzzy_list st; h_para := h_para st;
         highlighted_spans := highlighted_spans st; h_blocks := h_blocks st |}
  end.

(** The end of every recognizer's loop body: mark the span, remember it,
    comment on it when it is yellow. *)
Definition mark_span (rid : recognizer) (st : hstate)
    (span_start span_end : nat)
    (block_citations : list key) (color : list N) : hstate :=
  let para := highlight_span_in_paragraph (h_para st) span_start span_end color in
  let para :=
    if add_comments && eqb_str color YELLOW_HIGHLIGHT
    then add_comment_to_span para span_start span_end COMMENT_NOT_FOUND
    else para in
  {| matched := matched st; fuzzy_matched := fuzzy_matched st;
     unmatched := unmatched st; unmatched_list := unmatched_list st;
     fuzzy_list := fuzzy_list st; h_para := para;
     highlighted_spans := highlighted_spans st ++ [(span_start, span_end)];
     h_blocks := h_blocks st
                 ++ [{| char_start := span_start; char_end := span_end;
                        span_keys := block_citations; span_color := color;
                        recognizer_id := rid |}] |}.

(** A block of keys is accepted: colour by the worst case, count each key,
    mark the span. *)
Definition accept_block (rid : recognizer) (st : hstate)
    (span_start span_end : nat) (block_citations : list key) : hstate :=
  let color := block_color block_citations in
  let st := foldl count_key st block_citations in
  mark_span rid st span_start span_end block_citations color.

(** 4a. [Author [Year]]: no overlap test, one key, coloured by its match. *)
Definition step_bracket (text : list N) (st : hstate) (m : Re.rmatch)
  : hstate :=
  let span_start := Re.m_start m in
  let span_end := Re.m_end m in
  let author := strip (Re.group text m 1) in
  let year := Re.group text m 2 in
  let surname := first_surname (clean_author author) in
  if is_noise NOISE_WORDS surname then st
  else
    let color := determine_highlight_color surname year in
    let st := count_key st (surname, year) in
    mark_span RBracket st span_start span_end [(surname, year)] color.

(** The recognizers that build a block and mark it when it is not empty. *)
Definition step_block (rid : recognizer) (keys_of : Re.rmatch -> list key)
    (st : hstate) (m : Re.rmatch) : hstate :=
  let span_start := Re.m_start m in
  let span_end := Re.m_end m in
  if overlaps (highlighted_spans st) span_start span_end then st
  else
    match keys_of m with
    | [] => st
    | block_citations => accept_block rid st span_start span_end block_citations
    end.

(** 4b. [[Author, Year; Author2, Year2]]. *)
Definition step_bracket_block (text : list N) : hstate -> Re.rmatch -> hstate :=
  step_block RBracketBlock
    (fun m => bracket_block_keys NOISE_WORDS (Re.group text m 1)).

(** Parenthetical citations. *)
Definition step_paren (text : list N) : hstate -> Re.rmatch -> hstate :=
  step_block RParenthetical
    (fun m => paren_block_keys NOISE_WORDS (Re.group text m 1)).

(** Narrative citations: the block is marked whenever the surname is not a
    noise word. *)
Definition step_narrative (text : list N) (st : hstate) (m : Re.rmatch)
  : hstate :=
  let span_start := Re.m_start m in
  let span_end := Re.m_end m in
  if overlaps (highlighted_spans st) span_start span_end then st
  else
    let author := strip (Re.group text m 2) in
    let year_str := Re.group text m 3 in
    let surname := first_surname author in
    let years_found := years_of year_str in
    if is_noise NOISE_WORDS surname then st
    else accept_block RNarrative st span_start span_end
           (List.map (fun y => (surname, y)) years_found).

(** Possessive citations; the parenthesis must contain four digits. *)
Definition step_possessive (text : list N) (st : hstate) (m : Re.rmatch)
  : hstate :=
  let span_start := Re.m_start m in
  let span_end := Re.m_end m in
  if overlaps (highlighted_spans st) span_start span_end then st
  else
    let possessive_surname := Re.group text m 2 in
    let paren_content := Re.group text m 3 in
    match Re.search RE_FOUR_DIGITS paren_content with
    | None => st
    | Some _ =>
        match subject_block_keys NOISE_WORDS possessive_surname paren_content with
        | [] => st
        | block_citations =>
            accept_block RPossessive st span_start span_end block_citations
        end
    end.

(** "Author and colleagues". *)
Definition step_colleagues (text : list N) : hstate -> Re.rmatch -> hstate :=
  step_block RColleagues
    (fun m => subject_block_keys NOISE_WORDS (Re.group text m 1)
                                 (Re.group text m 2)).

(** Lowercase narrative citations. *)
Definition step_lowercase (text : list N) (st : hstate) (m : Re.rmatch)
  : hstate :=
  let span_start := Re.m_start m in
  let span_end := Re.m_end m in
  if overlaps (highlighted_spans st) span_start span_end then st
  else
    let surname := normalize_surname (Re.group text m 1) in
    let year_str := Re.group text m 2 in
    if is_noise NOISE_WORDS surname then st
    else accept_block RLowercase st span_start span_end
           (List.map (fun y => (surname, y)) (years_of year_str)).

(** The recognizers over one paragraph, in their fixed order. *)
Definition highlight_paragraph_spans (full_text : list N) (st : hstate)
  : hstate :=
  let st := foldl (step_bracket full_text) st (Re.finditer RE_BRACKET full_text) in
  let st := foldl (step_bracket_block full_text) st
                  (Re.finditer RE_BRACKET_BLOCK full_text) in
  let st := foldl (step_paren full_text) st (Re.finditer RE_PAREN_CITE full_text) in
  let st := foldl (step_narrative full_text) st
                  (Re.finditer RE_NARRATIVE full_text) in
  let st := foldl (step_possessive full_text) st
                  (Re.finditer RE_POSSESSIVE full_text) in
  let st := foldl (step_colleagues full_text) st
                  (Re.finditer RE_COLLEAGUES full_text) in
  foldl (step_lowercase full_text) st
        (Re.finditer RE_LOWERCASE_NARRATIVE full_text).

(** The body of the loop over the paragraphs: [st] carries the accumulators;
    the paragraph comes back marked. *)
Definition highlight_body_paragraph (st : hstate) (para : paragraph) : hstate :=
  let full_text := normalize_for_highlight (para_text para) in
  let st :=
    {| matched := matched st; fuzzy_matched := fuzzy_matched st;
       unmatched := unmatched st; unmatched_list := unmatched_list st;
       fuzzy_list := fuzzy_list st; h_para := para;
       highlighted_spans := []; h_blocks := [] |} in
  match strip full_text with
  | [] => st
  | _ => highlight_paragraph_spans full_text st
  end.

End Highlight.

(** The paragraphs before the references heading, those of tables included;
    [k] top-level paragraphs still precede the heading. *)
Fixpoint get_body_paragraphs_from (k : nat) (doc : list block)
  : list paragraph :=
  match doc with
  | [] => []
  | BPara p :: rest =>
      match k with
      | 0 => []
      | S k' => p :: get_body_paragraphs_from k' rest
      end
  | BTable cells :: rest =>
      List.concat cells ++ get_body_paragraphs_from k rest
  end.

(** [get_body_paragraphs]. *)
Definition get_body_paragraphs (doc : list block) (ref_para_idx : nat)
  : list paragraph :=
  get_body_paragraphs_from ref_para_idx doc.

(** A loop body run over a list of paragraphs that are changed in place. *)
Fixpoint over_paragraphs {St : Type} (f : St -> paragraph -> St * paragraph)
    (st : St) (ps : list paragraph) : St * list paragraph :=
  match ps with
  | [] => (st, [])
  | p :: rest =>
      let '(st1, p') := f st p in
      let '(st2, rest') := over_paragraphs f st1 rest in
      (st2, p' :: rest')
  end.

Fixpoint over_cells {St : Type} (f : St -> paragraph -> St * paragraph)
    (st : St) (cells : list (list paragraph)) : St * list (list paragraph) :=
  match cells with
  | [] => (st, [])
  | c :: rest =>
      let '(st1, c') := over_paragraphs f st c in
      let '(st2, rest') := over_cells f st1 rest in
      (st2, c' :: rest')
  end.

(** The same loop body over the paragraphs of [get_body_paragraphs], inside
    the document. *)
Fixpoint over_body {St : Type} (f : St -> paragraph -> St * paragraph)
    (k : nat) (st : St) (doc : list block) : St * list block :=
  match doc with
  | [] => (st, [])
  | BPara p :: rest =>
      match k with
      | 0 => (st, doc)
      | S k' =>
          let '(st1, p') := f st p in
          let '(st2, rest') := over_body f k' st1 rest in
          (st2, BPara p' :: rest')
      end
  | BTable cells :: rest =>
      let '(st1, cells') := over_cells f st cells in
      let '(st2, rest') := over_body f k st1 rest in
      (st2, BTable cells' :: rest')
  end.

(** The loop body over the top-level paragraphs of index [>= from]. *)
Fixpoint over_tail {St : Type} (f : St -> paragraph -> St * paragraph)
    (from : nat) (st : St) (doc : list block) : St * list block :=
  match doc with
  | [] => (st, [])
  | BPara p :: rest =>
      match from with
      | 0 =>
          let '(st1, p') := f st p in
          let '(st2, rest') := over_tail f 0 st1 rest in
          (st2, BPara p' :: rest')
      | S from' =>
          let '(st2, rest') := over_tail f from' st rest in
          (st2, BPara p :: rest')
      end
  | BTable cells :: rest =>
      let '(st2, rest') := over_tail f from st rest in
      (st2, BTable cells :: rest')
  end.

(** What [highlight_body_citations] returns. *)
Record body_result := {
  b_matched : nat;
  b_fuzzy : nat;
  b_unmatched : nat;
  b_unmatched_list : list (list N);
  b_fuzzy_list : list (list N)
}.

Definition EMPTY_PARAGRAPH : paragraph :=
  {| p_children := []; p_comments := [] |}.

(** [highlight_body_citations]: the marked document and the counts. *)
Definition highlight_body_citations (NOISE_WORDS : gset (list N))
    (doc : list block) (ref_para_idx : nat)
    (ref_set : gset key) (ref_fuzzy_lookup : gmap key (list key))
    (add_comments : bool) : list block * body_result :=
  let init :=
    {| matched := 0; fuzzy_matched := 0; unmatched := 0;
       unmatched_list := []; fuzzy_list := [];
       h_para := EMPTY_PARAGRAPH; highlighted_spans := []; h_blocks := [] |} in
  let '(st, doc') :=
    over_body
      (fun st para =>
         let st' := highlight_body_paragraph NOISE_WORDS ref_set
                      ref_fuzzy_lookup add_comments st para in
         (st', h_para st'))
      ref_para_idx init doc in
  (doc',
   {| b_matched := matched st; b_fuzzy := fuzzy_matched st;
      b_unmatched := unmatched st; b_unmatched_list := unmatched_list st;
      b_fuzzy_list := fuzzy_list st |}).

(* ===================================================================== *)
(** ** Highlighting the references *)
(* ===================================================================== *)

Definition RE_YEAR_PAREN : Re.regex := Eval vm_compute in Re.compile
  "\(\d{4}[a-z]?\)".

Definition COMMENT_NOT_CITED : list N :=
  py "Reference not cited in body text".

(** The accumulators of [highlight_references]. *)
Record rstate := {
  cited_count : nat;
  fuzzy_count : nat;
  uncited_count : nat;
  uncited_list : list (list N);
  r_fuzzy_list : list (list N)
}.

(** The key a reference paragraph is classified by, when it is classified. *)
Definition reference_key (para : paragraph) : option key :=
  let text := strip (para_text para) in
  match text with
  | [] => None
  | _ =>
      let text_clean := normalize_text text in
      match Re.search RE_REF_YEAR text_clean with
      | None => None
      | Some year_match =>
          let year := Re.group text_clean year_match 1 in
          let surname := ref_surname text_clean in
          match surname with
          | [] => None
          | _ => Some (surname, year)
          end
      end
  end.

(** The end of the span that is marked: the end of the first [(Year)] of the
    paragraph's own text, or else the end of the text. *)
Definition reference_span_end (para : paragraph) : nat :=
  match Re.search RE_YEAR_PAREN (para_text para) with
  | Some year_paren_match => Re.m_end year_paren_match
  | None => length (para_text para)
  end.

Section References.

Variable citation_set : gset key.
Variable citation_fuzzy_lookup : gmap key (list key).
Variable add_comments : bool.

(** The body of the loop of [highlight_references]. *)
Definition highlight_reference (st : rstate) (para : paragraph)
  : rstate * paragraph :=
  match reference_key para with
  | None => (st, para)
  | Some (surname, year) =>
      let '(st, color) :=
        match fuzzy_match_reference surname year citation_set
                citation_fuzzy_lookup with
        | Exact _ =>
            ({| cited_count := cited_count st + 1; fuzzy_count := fuzzy_count st;
                uncited_count := uncited_count st;
                uncited_list := uncited_list st;
                r_fuzzy_list := r_fuzzy_list st |}, GREEN_HIGHLIGHT)
        | Fuzzy _ =>
            ({| cited_count := cited_count st; fuzzy_count := fuzzy_count st + 1;
                uncited_count := uncited_count st;
                uncited_list := uncited_list st;
                r_fuzzy_list := r_fuzzy_list st ++ [show_key (surname, year)] |},
             CYAN_HIGHLIGHT)
        | NoMatch =>
            ({| cited_count := cited_count st; fuzzy_count := fuzzy_count st;
                uncited_count := uncited_count st + 1;
                uncited_list := uncited_list st ++ [show_key (surname, year)];
                r_fuzzy_list := r_fuzzy_list st |}, RED_HIGHLIGHT)
        end in
      (* Only highlight from start up to and including "(Year)" *)
      let span_end := reference_span_end para in
      let para' := highlight_span_in_paragraph para 0 span_end color in
      let para' :=
        if add_comments && eqb_str color RED_HIGHLIGHT
        then add_comment_to_span para' 0 span_end COMMENT_NOT_CITED
        else para' in
      (st, para')
  end.

(** [highlight_references]. *)
Definition highlight_references (doc : list block) (ref_para_idx : nat)
  : list block * rstate :=
  let init := {| cited_count := 0; fuzzy_count := 0; uncited_count := 0;
                 uncited_list := []; r_fuzzy_list := [] |} in
  let '(st, doc') := over_tail highlight_reference (ref_para_idx + 1) init doc in
  (doc', st).

End References.

(* ===================================================================== *)
(** ** Learned patterns *)
(* ===================================================================== *)

(** One learned cross-match; a field that is missing in the file has its
    default ([''], or [None] for the reason). *)
Record cross_match := {
  cm_author : list N;
  cm_cite_year : list N;
  cm_ref_year : list N;
  cm_reason : option (list N)
}.

Record learned_patterns := {
  noise_words : list (list N);
  cross_matches : list cross_match
}.

(** [apply_learned_noise_words]: the global set after the call. *)
Definition apply_learned_noise_words (NOISE_WORDS : gset (list N))
    (learned : learned_patterns) : gset (list N) :=
  foldl (fun (ws : gset (list N)) word => {[lower word]} ∪ ws)
        NOISE_WORDS (noise_words learned).

Definition RE_LISTED : Re.regex := Eval vm_compute in Re.compile
  "(\w[\w-]*)\s*\((\d{4}[a-z]?)\)".

(** [cite_lookup] / [ref_lookup]: the listed strings by (author, year). *)
Definition listed_lookup (items : list (list N)) : gmap key (list N) :=
  foldl (fun (lookup : gmap key (list N)) c =>
           match Re.match_ RE_LISTED c with
           | Some m => <[(lower (Re.group c m 1), Re.group c m 2) := c]> lookup
           | None => lookup
           end) ∅ items.

Definition DEFAULT_REASON : list N :=
  py "learned from previous Opus verification".

(** [apply_learned_cross_matches]: the auto-matches
    [(citation_str, ref_str, reason)]. *)
Definition apply_learned_cross_matches (learned : learned_patterns)
    (unmatched_citations uncited_refs : list (list N))
  : list (list N * list N * list N) :=
  match cross_matches learned with
  | [] => []
  | cms =>
      let cite_lookup := listed_lookup unmatched_citations in
      let ref_lookup := listed_lookup uncited_refs in
      List.flat_map
        (fun cm =>
           let author := lower (cm_author cm) in
           let reason := default DEFAULT_REASON (cm_reason cm) in
           let cite_key := (author, cm_cite_year cm) in
           let ref_key := (author, cm_ref_year cm) in
           match cite_lookup !! cite_key, ref_lookup !! ref_key with
           | Some c, Some r => [(c, r, reason)]
           | _, _ => []
           end) cms
  end.

(* ===================================================================== *)
(** ** The run as a whole *)
(* ===================================================================== *)

(** The state [main] carries from the two highlighting passes to the end:
    the document and the figures of the report (integers, which the loop
    below decrements). *)
Record run_state := {
  doc : list block;
  body_matched : Z;
  body_fuzzy : Z;
  body_unmatched : Z;
  m_unmatched_list : list (list N);
  fuzzy_cite_list : list (list N);
  ref_cited : Z;
  ref_fuzzy : Z;
  ref_uncited : Z;
  m_uncited_list : list (list N);
  fuzzy_ref_list : list (list N)
}.

(** [l.remove(x)]: the first occurrence is taken out. *)
Fixpoint list_remove (x : list N) (l : list (list N)) : list (list N) :=
  match l with
  | [] => []
  | y :: t => if eqb_str y x then t else y :: list_remove x t
  end.

(** The body of the loop over the auto-matches: move from yellow/red to fuzzy
    in the counts. *)
Definition reclassify (st : run_state) (am : list N * list N * list N)
  : run_state :=
  let '(cite_str, ref_str, _) := am in
  let st :=
    if mem_str cite_str (m_unmatched_list st) then
      {| doc := doc st;
         body_matched := body_matched st;
         body_fuzzy := (body_fuzzy st + 1)%Z;
         body_unmatched := (body_unmatched st - 1)%Z;
         m_unmatched_list := list_remove cite_str (m_unmatched_list st);
         fuzzy_cite_list := fuzzy_cite_list st ++ [cite_str];
         ref_cited := ref_cited st; ref_fuzzy := ref_fuzzy st;
         ref_uncited := ref_uncited st;
         m_uncited_list := m_uncited_list st;
         fuzzy_ref_list := fuzzy_ref_list st |}
    else st in
  if mem_str ref_str (m_uncited_list st) then
    {| doc := doc st;
       body_matched := body_matched st; body_fuzzy := body_fuzzy st;
       body_unmatched := body_unmatched st;
       m_unmatched_list := m_unmatched_list st;
       fuzzy_cite_list := fuzzy_cite_list st;
       ref_cited := ref_cited st;
       ref_fuzzy := (ref_fuzzy st + 1)%Z;
       ref_uncited := (ref_uncited st - 1)%Z;
       m_uncited_list := list_remove ref_str (m_uncited_list st);
       fuzzy_ref_list := fuzzy_ref_list st ++ [ref_str] |}
  else st.

(** The learned cross-matches applied after the two passes. *)
Definition apply_auto_matches (learned : learned_patterns) (st : run_state)
  : run_state :=
  foldl reclassify st
        (apply_learned_cross_matches learned (m_unmatched_list st)
                                     (m_uncited_list st)).

Definition LEGEND_ITEMS : list (list N * option (list N)) :=
  [ (py "Reference Check: ", None);
    (py " EXACT MATCH ", Some GREEN_HIGHLIGHT);
    (py "  ", None);
    (py " FUZZY MATCH ", Some CYAN_HIGHLIGHT);
    (py "  ", None);
    (py " MISSING FROM REFS ", Some YELLOW_HIGHLIGHT);
    (py "  ", None);
    (py " NOT CITED IN TEXT ", Some RED_HIGHLIGHT) ].

Definition legend_paragraph : paragraph :=
  {| p_children :=
       List.map (fun '(text, color) =>
                   P_r {| r_highlight := color;
                          r_format := match color with
                                      | Some _ => [py "sz=16"; py "b"]
                                      | None => [py "sz=16"]
                                      end;
                          r_children := [W_t true text] |}) LEGEND_ITEMS;
     p_comments := [] |}.

(** [insert_legend]; it reads [doc.paragraphs[0]] and so fails on a document
    without paragraphs. *)
Definition insert_legend (d : list block) : option (list block) :=
  match doc_paragraphs d with
  | [] => None
  | _ => Some (BPara legend_paragraph :: d)
  end.

(** [sep.join(items)]. *)
Fixpoint join (sep : list N) (items : list (list N)) : list N :=
  match items with
  | [] => []
  | [x] => x
  | x :: rest => x ++ sep ++ join sep rest
  end.

(** The JSON results; a [sorted(set(...))] list is given as the set. *)
Record report := {
  j_body_text : list N;
  j_ref_text : list N;
  j_regex_citations : nat;
  j_references : nat;
  j_body_matched : Z;
  j_body_fuzzy : Z;
  j_body_unmatched : Z;
  j_ref_cited : Z;
  j_ref_fuzzy : Z;
  j_ref_uncited : Z;
  j_matched_citations : gset (list N);
  j_fuzzy_matches : gset (list N);
  j_unmatched_citations : gset (list N);
  j_uncited_references : gset (list N);
  j_citation_set : gset key;
  j_ref_set : gset key
}.

(** [main] from the loaded document to what is saved: the marked document
    and the results. *)
Definition main (learned : learned_patterns) (add_comments : bool)
    (d : list block) : option (list block * report) :=
  let NOISE_WORDS := apply_learned_noise_words NOISE_WORDS_0 learned in
  let ref_para_idx := find_references_heading_index d in
  let body_paragraphs := get_body_paragraphs d ref_para_idx in
  let body_text := join [10%N; 10%N] (List.map para_text body_paragraphs) in
  let ref_text :=
    join [10%N]
         (List.filter (fun t => negb (eqb_str t []))
            (List.map (fun p => strip (para_text p))
                      (skipn (ref_para_idx + 1) (doc_paragraphs d)))) in
  let citation_set := extract_citations_from_text NOISE_WORDS body_text in
  let ref_set := extract_references_from_doc d ref_para_idx in
  let ref_fuzzy_lookup := build_fuzzy_lookup (elements ref_set) in
  let citation_fuzzy_lookup := build_fuzzy_lookup (elements citation_set) in
  let '(d1, b) :=
    highlight_body_citations NOISE_WORDS d ref_para_idx ref_set
                             ref_fuzzy_lookup add_comments in
  let '(d2, r) :=
    highlight_references citation_set citation_fuzzy_lookup add_comments
                         d1 ref_para_idx in
  let st :=
    apply_auto_matches learned
      {| doc := d2;
         body_matched := Z.of_nat (b_matched b);
         body_fuzzy := Z.of_nat (b_fuzzy b);
         body_unmatched := Z.of_nat (b_unmatched b);
         m_unmatched_list := b_unmatched_list b;
         fuzzy_cite_list := b_fuzzy_list b;
         ref_cited := Z.of_nat (cited_count r);
         ref_fuzzy := Z.of_nat (fuzzy_count r);
         ref_uncited := Z.of_nat (uncited_count r);
         m_uncited_list := uncited_list r;
         fuzzy_ref_list := r_fuzzy_list r |} in
  match insert_legend (doc st) with
  | None => None
  | Some saved =>
      let matched_citations :=
        List.filter
          (fun k => match fuzzy_match_citation (fst k) (snd k) ref_set
                            ref_fuzzy_lookup with
                    | Exact _ => true
                    | _ => false
                    end) (elements citation_set) in
      Some (saved,
            {| j_body_text := body_text;
               j_ref_text := ref_text;
               j_regex_citations := size citation_set;
               j_references := size ref_set;
               j_body_matched := body_matched st;
               j_body_fuzzy := body_fuzzy st;
               j_body_unmatched := body_unmatched st;
               j_ref_cited := ref_cited st;
               j_ref_fuzzy := ref_fuzzy st;
               j_ref_uncited := ref_uncited st;
               j_matched_citations := list_to_set (List.map show_key matched_citations);
               j_fuzzy_matches := list_to_set (fuzzy_cite_list st ++ fuzzy_ref_list st);
               j_unmatched_citations := list_to_set (m_unmatched_list st);
               j_uncited_references := list_to_set (m_uncited_list st);
               j_citation_set := citation_set;
               j_ref_set := ref_set |})
  end.

(* ===================================================================== *)
(** ** Comments from the findings *)
(* ===================================================================== *)

(** [s.find(sub)]: the offset of the first occurrence of [sub]. *)
Fixpoint find_sub (sub s : list N) : option nat :=
  match strip_prefix sub s with
  | Some _ => Some 0
  | None =>
      match s with
      | [] => None
      | _ :: t => option_map S (find_sub sub t)
      end
  end.

Definition FINDINGS_AUTHOR : list N := py "ref-check (Opus)".

(** The inner loop of [find_and_comment]: the first run with
    [pos <= idx < pos + rlen]. *)
Fixpoint run_at (idx pos i : nat) (runs : list run) : option nat :=
  match runs with
  | [] => None
  | r :: rest =>
      let rlen := length (run_text r) in
      if (pos <=? idx) && (idx <? pos + rlen) then Some i
      else run_at idx (pos + rlen) (S i) rest
  end.

(** The body of the loop of [find_and_comment] for one paragraph: the
    paragraph with its comment, when the text is found and a run holds the
    offset.  [doc.add_comment] is taken to succeed, as in
    [add_comment_to_span]; were it to raise, the exception is swallowed, the
    comment is missing and the function still returns [True]. *)
Definition comment_paragraph (search_text comment_text : list N)
    (para : paragraph) : option paragraph :=
  match find_sub search_text (para_text para) with
  | Some idx =>
      match run_at idx 0 0 (p_runs para) with
      | Some i =>
          Some {| p_children := p_children para;
                  p_comments := p_comments para
                                ++ [{| c_runs := [i]; c_text := comment_text;
                                       c_author := FINDINGS_AUTHOR |}] |}
      | None => None
      end
  | None => None
  end.

(** The loop over the paragraphs, here those of a list, of the cells of a
    table and of the document: the first paragraph that takes the comment
    gets it. *)
Fixpoint comment_first (search_text comment_text : list N)
    (paras : list paragraph) : option (list paragraph) :=
  match paras with
  | [] => None
  | p :: rest =>
      match comment_paragraph search_text comment_text p with
      | Some p' => Some (p' :: rest)
      | None => option_map (cons p) (comment_first search_text comment_text rest)
      end
  end.

Fixpoint comment_first_cell (search_text comment_text : list N)
    (cells : list (list paragraph)) : option (list (list paragraph)) :=
  match cells with
  | [] => None
  | c :: rest =>
      match comment_first search_text comment_text c with
      | Some c' => Some (c' :: rest)
      | None =>
          option_map (cons c)
            (comment_first_cell search_text comment_text rest)
      end
  end.

(** [find_and_comment]: the document with the comment when it returns
    [True], [None] when it returns [False]. *)
Fixpoint find_and_comment (search_text comment_text : list N)
    (d : list block) : option (list block) :=
  match d with
  | [] => None
  | BPara p :: rest =>
      match comment_paragraph search_text comment_text p with
      | Some p' => Some (BPara p' :: rest)
      | None =>
          option_map (cons (BPara p))
            (find_and_comment search_text comment_text rest)
      end
  | BTable cells :: rest =>
      match comment_first_cell search_text comment_text cells with
      | Some cells' => Some (BTable cells' :: rest)
      | None =>
          option_map (cons (BTable cells))
            (find_and_comment search_text comment_text rest)
      end
  end.

(** The findings file, list by list; a missing string is [''], a missing
    reason of a false positive is [None]. *)
Record findings := {
  f_cross_matches : list (list N * list N * list N);    (* citation, reference, reason *)
  f_false_positives : list (list N * option (list N));  (* text, reason *)
  f_fuzzy_comments : list (list N * list N);            (* citation, comment *)
  f_possibly_cited_refs : list (list N * list N);       (* reference, evidence *)
  f_additional : list (list N * list N)                 (* text, note *)
}.

(** [s.split('(')[0].strip()]. *)
Definition search_text_of (s : list N) : list N :=
  strip (hd [] (split_on (py "(") s)).

(** [if find_and_comment(search, comment): added += 1]. *)
Definition comment_step (st : list block * nat) (search comment : list N)
  : list block * nat :=
  match find_and_comment search comment (fst st) with
  | Some d' => (d', S (snd st))
  | None => st
  end.

(** [if a and b: find_and_comment(a.split('(')[0].strip(), comment)]. *)
Definition guarded_step (st : list block * nat) (a b comment : list N)
  : list block * nat :=
  match a, b with
  | _ :: _, _ :: _ => comment_step st (search_text_of a) comment
  | _, _ => st
  end.

(** [add_findings_comments] from the loaded document and findings to the
    document that is saved and the number of comments it reports. *)
Definition add_findings_comments (d : list block) (fd : findings)
  : list block * nat :=
  let st := (d, 0) in
  let st :=
    foldl (fun st '(cite, ref, reason) =>
             comment_step st (search_text_of cite)
               (py "Possible match: " ++ cite ++ [32%N; 8596%N; 32%N] ++ ref
                ++ py " (" ++ reason ++ py ")"))
          st (f_cross_matches fd) in
  let st :=
    foldl (fun st '(text, reason) =>
             comment_step st (search_text_of text)
               (py "Not a real citation: "
                ++ default (py "Not a real citation") reason))
          st (f_false_positives fd) in
  let st :=
    foldl (fun st '(cite, comment) => guarded_step st cite comment comment)
          st (f_fuzzy_comments fd) in
  let st :=
    foldl (fun st '(ref, evidence) =>
             guarded_step st ref evidence (py "Possibly cited: " ++ evidence))
          st (f_possibly_cited_refs fd) in
  foldl (fun st '(text, note) => guarded_step st text note note)
        st (f_additional fd).

(* ===================================================================== *)
(** * Properties *)
(* ===================================================================== *)

(** ** Strings *)

Lemma eqb_str_spec (a b : list N) : eqb_str a b = true <-> a = b.
Proof.
  revert b; induction a as [|x a IH]; intros [|y b]; simpl; try easy.
  rewrite andb_true_iff, N.eqb_eq, IH. split.
  - intros [-> ->]; reflexivity.
  - intros [= -> ->]; split; reflexivity.
Qed.

Lemma eqb_str_refl (a : list N) : eqb_str a a = true.
Proof. apply eqb_str_spec; reflexivity. Qed.

Lemma eqb_str_neq (a b : list N) : eqb_str a b = false <-> a <> b.
Proof.
  rewrite <- eqb_str_spec. destruct (eqb_str a b); split; congruence.
Qed.

Lemma mem_str_spec (x : list N) (l : list (list N)) :
  mem_str x l = true <-> x ∈ l.
Proof.
  unfold mem_str. rewrite existsb_exists, list_elem_of_In. split.
  - intros (y & Hy & He). apply eqb_str_spec in He. subst; assumption.
  - intros H. exists x. split; [assumption | apply eqb_str_refl].
Qed.

(** ** The matcher (C2) *)

Lemma first_other_year_spec (year : list N) (candidates : list key) :
  match first_other_year year candidates with
  | Some c =>
      exists pre post, candidates = pre ++ c :: post
                       /\ Forall (fun x => snd x = year) pre /\ snd c <> year
  | None => Forall (fun x => snd x = year) candidates
  end.
Proof.
  induction candidates as [|[s y] rest IH]; simpl.
  - constructor.
  - destruct (eqb_str y year) eqn:E.
    + apply eqb_str_spec in E. destruct (first_other_year year rest) as [c|].
      * destruct IH as (pre & post & -> & Hpre & Hc).
        exists ((s, y) :: pre), post. repeat split; auto.
      * constructor; auto.
    + apply eqb_str_neq in E. exists [], rest. repeat split; auto.
Qed.

(** C2. The matcher classifies a citation key in four ordered steps: exact
    membership gives Exact; else a suffixed year whose base year is in the
    reference set gives Fuzzy with the base key; else the first candidate of
    the fuzzy index under (surname, base year) whose year differs from the
    query's gives Fuzzy with that candidate; else the result is None.
    [fuzzy_match_reference] is the same operation on the citation side. *)
Theorem fuzzy_match_citation_order
    (surname year : list N) (ref_set : gset key)
    (ref_fuzzy_lookup : gmap key (list key)) :
  let base_year := strip_year_suffix year in
  let result := fuzzy_match_citation surname year ref_set ref_fuzzy_lookup in
  let step2 := base_year <> year /\ (surname, base_year) ∈ ref_set in
  ((surname, year) ∈ ref_set -> result = Exact (surname, year))
  /\ ((surname, year) ∉ ref_set -> step2 ->
      result = Fuzzy (surname, base_year))
  /\ ((surname, year) ∉ ref_set -> ~ step2 ->
      forall candidates,
        ref_fuzzy_lookup !! (surname, base_year) = Some candidates ->
        (exists c, c ∈ candidates /\ snd c <> year) ->
        exists pre c post,
          candidates = pre ++ c :: post
          /\ Forall (fun x => snd x = year) pre /\ snd c <> year
          /\ result = Fuzzy c)
  /\ ((surname, year) ∉ ref_set -> ~ step2 ->
      (forall candidates,
         ref_fuzzy_lookup !! (surname, base_year) = Some candidates ->
         Forall (fun x => snd x = year) candidates) ->
      result = NoMatch)
  /\ (forall citation_set citation_fuzzy_lookup,
        fuzzy_match_reference surname year citation_set citation_fuzzy_lookup
        = fuzzy_match_citation surname year citation_set citation_fuzzy_lookup).
Proof.
  intros base_year result step2. subst result. unfold fuzzy_match_citation.
  fold base_year.
  assert (Hstep2 : negb (eqb_str base_year year)
                   && bool_decide ((surname, base_year) ∈ ref_set) = true
                   <-> step2).
  { unfold step2. rewrite andb_true_iff, negb_true_iff, eqb_str_neq,
      bool_decide_eq_true. reflexivity. }
  repeat split.
  - intros Hin. rewrite bool_decide_eq_true_2 by assumption. reflexivity.
  - intros Hnin H2. rewrite bool_decide_eq_false_2 by assumption.
    apply Hstep2 in H2. rewrite H2. reflexivity.
  - intros Hnin H2 candidates Hlook (c0 & Hc0 & Hne).
    rewrite bool_decide_eq_false_2 by assumption.
    destruct (negb (eqb_str base_year year)
              && bool_decide ((surname, base_year) ∈ ref_set)) eqn:E.
    { exfalso. apply H2, Hstep2. reflexivity. }
    rewrite Hlook.
    pose proof (first_other_year_spec year candidates) as Hspec.
    destruct (first_other_year year candidates) as [c|].
    + destruct Hspec as (pre & post & Heq & Hpre & Hc).
      exists pre, c, post. auto.
    + exfalso. rewrite Forall_forall in Hspec. apply Hne, Hspec, Hc0.
  - intros Hnin H2 Hall.
    rewrite bool_decide_eq_false_2 by assumption.
    destruct (negb (eqb_str base_year year)
              && bool_decide ((surname, base_year) ∈ ref_set)) eqn:E.
    { exfalso. apply H2, Hstep2. reflexivity. }
    destruct (ref_fuzzy_lookup !! (surname, base_year)) as [candidates|] eqn:Hlook;
      [|reflexivity].
    specialize (Hall candidates eq_refl).
    pose proof (first_other_year_spec year candidates) as Hspec.
    destruct (first_other_year year candidates) as [c|]; [|reflexivity].
    destruct Hspec as (pre & post & -> & _ & Hc).
    exfalso. apply Hc. rewrite Forall_forall in Hall. apply Hall.
    apply elem_of_app. right. apply list_elem_of_here.
Qed.

(** ** The colour of a block (C7) *)

Section BlockColor.

Variable NOISE_WORDS : gset (list N).
Variable ref_set : gset key.
Variable ref_fuzzy_lookup : gmap key (list key).
Variable add_comments : bool.

Let classify (k : key) : match_result :=
  fuzzy_match_citation (fst k) (snd k) ref_set ref_fuzzy_lookup.

Let color_of (k : key) : list N :=
  determine_highlight_color ref_set ref_fuzzy_lookup (fst k) (snd k).

Lemma color_of_cases (k : key) :
  (color_of k = YELLOW_HIGHLIGHT /\ classify k = NoMatch)
  \/ (color_of k = CYAN_HIGHLIGHT /\ exists k', classify k = Fuzzy k')
  \/ (color_of k = GREEN_HIGHLIGHT /\ exists k', classify k = Exact k').
Proof.
  unfold color_of, classify, determine_highlight_color.
  destruct (fuzzy_match_citation _ _ _ _) as [k'|k'|]; eauto.
Qed.

Lemma colors_distinct :
  YELLOW_HIGHLIGHT <> CYAN_HIGHLIGHT /\ YELLOW_HIGHLIGHT <> GREEN_HIGHLIGHT
  /\ CYAN_HIGHLIGHT <> GREEN_HIGHLIGHT.
Proof. repeat split; discriminate. Qed.

Lemma mem_yellow (block : list key) :
  mem_str YELLOW_HIGHLIGHT (List.map color_of block) = true
  <-> exists k, k ∈ block /\ classify k = NoMatch.
Proof.
  rewrite mem_str_spec, list_elem_of_fmap. split.
  - intros (k & Hc & Hk). exists k. split; [assumption|].
    destruct (color_of_cases k) as [[_ H]|[[H _]|[H _]]]; [assumption| |];
      rewrite H in Hc; discriminate.
  - intros (k & Hk & Hc). exists k. split; [|assumption].
    destruct (color_of_cases k) as [[H _]|[[_ [k' H]]|[_ [k' H]]]];
      [symmetry; assumption| |]; rewrite H in Hc; discriminate.
Qed.

Lemma mem_cyan (block : list key) :
  mem_str CYAN_HIGHLIGHT (List.map color_of block) = true
  <-> exists k, k ∈ block /\ exists k', classify k = Fuzzy k'.
Proof.
  rewrite mem_str_spec, list_elem_of_fmap. split.
  - intros (k & Hc & Hk). exists k. split; [assumption|].
    destruct (color_of_cases k) as [[H _]|[[_ H]|[H _]]]; [|assumption|];
      rewrite H in Hc; discriminate.
  - intros (k & Hk & k' & Hc). exists k. split; [|assumption].
    destruct (color_of_cases k) as [[_ H]|[[H _]|[_ [k'' H]]]];
      [|symmetry; assumption|]; rewrite H in Hc; discriminate.
Qed.

Lemma block_color_cases (block : list key) :
  (block_color ref_set ref_fuzzy_lookup block = YELLOW_HIGHLIGHT
   <-> exists k, k ∈ block /\ classify k = NoMatch)
  /\ (block_color ref_set ref_fuzzy_lookup block = CYAN_HIGHLIGHT
      <-> (forall k, k ∈ block -> classify k <> NoMatch)
          /\ exists k, k ∈ block /\ exists k', classify k = Fuzzy k')
  /\ (block_color ref_set ref_fuzzy_lookup block = GREEN_HIGHLIGHT
      <-> forall k, k ∈ block -> exists k', classify k = Exact k').
Proof.
  unfold block_color. fold color_of.
  pose proof (mem_yellow block) as HY. pose proof (mem_cyan block) as HC.
  destruct (mem_str YELLOW_HIGHLIGHT (List.map color_of block)) eqn:EY.
  - assert (HNo : exists k, k ∈ block /\ classify k = NoMatch)
      by (apply HY; reflexivity).
    repeat split; try discriminate; auto.
    + intros [Hall _]. destruct HNo as (k & Hk & Hn). exfalso. eapply Hall; eauto.
    + intros Hall. destruct HNo as (k & Hk & Hn).
      destruct (Hall k Hk) as [k' Hk']. congruence.
  - assert (HNo : forall k, k ∈ block -> classify k <> NoMatch).
    { intros k Hk Hn.
      assert (false = true) by (apply HY; eauto). discriminate. }
    destruct (mem_str CYAN_HIGHLIGHT (List.map color_of block)) eqn:EC.
    + assert (HF : exists k, k ∈ block /\ exists k', classify k = Fuzzy k')
        by (apply HC; reflexivity).
      repeat split; try discriminate; auto.
      * intros (k & Hk & Hn). exfalso. eapply HNo; eauto.
      * intros Hall. destruct HF as (k & Hk & k' & Hf).
        destruct (Hall k Hk) as [k'' Hk'']. congruence.
    + repeat split; try discriminate; auto.
      * intros (k & Hk & Hn). exfalso. eapply HNo; eauto.
      * intros [_ HF]. assert (false = true) by (apply HC; exact HF).
        discriminate.
      * intros _ k Hk. destruct (classify k) as [k'|k'|] eqn:E.
        -- eauto.
        -- assert (false = true) by (apply HC; eauto). discriminate.
        -- exfalso. eapply HNo; eauto.
Qed.

(** The colour recorded for a block is the worst case of its keys. *)
Definition worst_case (b : citation_span) : Prop :=
  span_color b = block_color ref_set ref_fuzzy_lookup (span_keys b).

Lemma block_color_single (k : key) :
  block_color ref_set ref_fuzzy_lookup [k] = color_of k.
Proof.
  unfold block_color. fold color_of. simpl.
  destruct (color_of_cases k) as [[H _]|[[H _]|[H _]]]; rewrite H; reflexivity.
Qed.

Lemma count_key_blocks (st : hstate) (k : key) :
  h_blocks (count_key ref_set ref_fuzzy_lookup st k) = h_blocks st.
Proof.
  unfold count_key. destruct (fuzzy_match_citation _ _ _ _); reflexivity.
Qed.

Lemma count_key_spans (st : hstate) (k : key) :
  highlighted_spans (count_key ref_set ref_fuzzy_lookup st k)
  = highlighted_spans st.
Proof.
  unfold count_key. destruct (fuzzy_match_citation _ _ _ _); reflexivity.
Qed.

Lemma count_keys_blocks (ks : list key) (st : hstate) :
  h_blocks (foldl (count_key ref_set ref_fuzzy_lookup) st ks) = h_blocks st.
Proof.
  revert st; induction ks as [|k ks IH]; intros st; simpl; [reflexivity|].
  rewrite IH. apply count_key_blocks.
Qed.

Lemma accept_block_blocks rid st a b ks :
  h_blocks (accept_block ref_set ref_fuzzy_lookup add_comments rid st a b ks)
  = h_blocks st
    ++ [{| char_start := a; char_end := b; span_keys := ks;
           span_color := block_color ref_set ref_fuzzy_lookup ks;
           recognizer_id := rid |}].
Proof.
  unfold accept_block, mark_span. simpl. rewrite count_keys_blocks. reflexivity.
Qed.

End BlockColor.

(** ** Where the accepted blocks come from *)

Lemma foldl_invariant {A B : Type} (f : A -> B -> A) (I : A -> Prop)
    (l : list B) (a : A) :
  I a -> (forall a b, b ∈ l -> I a -> I (f a b)) -> I (foldl f a l).
Proof.
  revert a; induction l as [|b l IH]; intros a Ha Hstep; simpl; [assumption|].
  apply IH.
  - apply Hstep; [apply list_elem_of_here | assumption].
  - intros a' b' Hb'. apply Hstep. apply list_elem_of_further; assumption.
Qed.

(** The pattern of each recognizer of the highlighting pass. *)
Definition pattern_of (rid : recognizer) : Re.regex :=
  match rid with
  | RBracket => RE_BRACKET
  | RBracketBlock => RE_BRACKET_BLOCK
  | RParenthetical => RE_PAREN_CITE
  | RNarrative => RE_NARRATIVE
  | RPossessive => RE_POSSESSIVE
  | RColleagues => RE_COLLEAGUES
  | RLowercase => RE_LOWERCASE_NARRATIVE
  end.

(** The keys each recognizer of the highlighting pass reads off a match. *)
Definition candidate_keys (NOISE_WORDS : gset (list N)) (rid : recognizer)
    (text : list N) (m : Re.rmatch) : list key :=
  match rid with
  | RBracket => bracket_keys NOISE_WORDS text m
  | RBracketBlock => bracket_block_keys NOISE_WORDS (Re.group text m 1)
  | RParenthetical => paren_block_keys NOISE_WORDS (Re.group text m 1)
  | RNarrative => narrative_keys NOISE_WORDS text m
  | RPossessive =>
      subject_block_keys NOISE_WORDS (Re.group text m 2) (Re.group text m 3)
  | RColleagues =>
      subject_block_keys NOISE_WORDS (Re.group text m 1) (Re.group text m 2)
  | RLowercase =>
      List.map (fun y => (normalize_surname (Re.group text m 1), y))
               (years_of (Re.group text m 2))
  end.

Section Provenance.

Variable NOISE_WORDS : gset (list N).
Variable ref_set : gset key.
Variable ref_fuzzy_lookup : gmap key (list key).
Variable add_comments : bool.
Variable text : list N.

(** A block that a recognizer accepted from one of its matches. *)
Definition from_match (b : citation_span) : Prop :=
  exists m,
    m ∈ Re.finditer (pattern_of (recognizer_id b)) text
    /\ char_start b = Re.m_start m /\ char_end b = Re.m_end m
    /\ span_keys b = candidate_keys NOISE_WORDS (recognizer_id b) text m
    /\ span_color b = block_color ref_set ref_fuzzy_lookup (span_keys b).

Definition blocks_ok (st : hstate) : Prop :=
  Forall from_match (h_blocks st)
  /\ highlighted_spans st
     = List.map (fun b => (char_start b, char_end b)) (h_blocks st).

Lemma blocks_ok_accept rid st m ks :
  blocks_ok st ->
  m ∈ Re.finditer (pattern_of rid) text ->
  ks = candidate_keys NOISE_WORDS rid text m ->
  blocks_ok (accept_block ref_set ref_fuzzy_lookup add_comments rid st
               (Re.m_start m) (Re.m_end m) ks).
Proof.
  intros [HF HS] Hm Hks. split.
  - rewrite accept_block_blocks. apply Forall_app. split; [assumption|].
    constructor; [|constructor]. exists m. simpl. auto.
  - rewrite accept_block_blocks. unfold accept_block, mark_span. simpl.
    rewrite map_app. simpl. f_equal.
    assert (Hsp : forall l s,
               highlighted_spans (foldl (count_key ref_set ref_fuzzy_lookup) s l)
               = highlighted_spans s).
    { induction l as [|k l IH]; intros s; simpl; [reflexivity|].
      rewrite IH. unfold count_key.
      destruct (fuzzy_match_citation _ _ _ _); reflexivity. }
    rewrite Hsp. assumption.
Qed.

Lemma blocks_ok_step_block rid keys_of st m :
  (forall m, keys_of m = candidate_keys NOISE_WORDS rid text m) ->
  blocks_ok st ->
  m ∈ Re.finditer (pattern_of rid) text ->
  blocks_ok (step_block ref_set ref_fuzzy_lookup add_comments rid keys_of st m).
Proof.
  intros Hk Hok Hm. unfold step_block.
  destruct (overlaps _ _ _); [assumption|].
  destruct (keys_of m) as [|k ks] eqn:E; [assumption|].
  apply blocks_ok_accept; [assumption|assumption|].
  rewrite <- Hk. symmetry. exact E.
Qed.

Lemma blocks_ok_step_bracket st m :
  blocks_ok st ->
  m ∈ Re.finditer RE_BRACKET text ->
  blocks_ok (step_bracket NOISE_WORDS ref_set ref_fuzzy_lookup add_comments
               text st m).
Proof.
  intros [HF HS] Hm. unfold step_bracket.
  destruct (is_noise _ _) eqn:En; [split; assumption|].
  unfold mark_span, blocks_ok. cbn [h_blocks highlighted_spans].
  rewrite count_key_blocks, count_key_spans. split.
  - apply Forall_app. split; [assumption|]. constructor; [|constructor].
    exists m.
    cbn [recognizer_id char_start char_end span_keys span_color pattern_of
         candidate_keys].
    repeat split; try assumption.
    + unfold bracket_keys. rewrite En. cbn [negb]. exact eq_refl.
    + rewrite block_color_single. exact eq_refl.
  - rewrite map_app. cbn [List.map char_start char_end]. f_equal. assumption.
Qed.

Lemma blocks_ok_step_narrative st m :
  blocks_ok st ->
  m ∈ Re.finditer RE_NARRATIVE text ->
  blocks_ok (step_narrative NOISE_WORDS ref_set ref_fuzzy_lookup add_comments
               text st m).
Proof.
  intros Hok Hm. unfold step_narrative.
  destruct (overlaps _ _ _); [assumption|].
  destruct (is_noise _ _) eqn:En; [assumption|].
  apply (blocks_ok_accept RNarrative); [assumption|assumption|].
  simpl. unfold narrative_keys. rewrite En. reflexivity.
Qed.

Lemma blocks_ok_step_possessive st m :
  blocks_ok st ->
  m ∈ Re.finditer RE_POSSESSIVE text ->
  blocks_ok (step_possessive NOISE_WORDS ref_set ref_fuzzy_lookup add_comments
               text st m).
Proof.
  intros Hok Hm. unfold step_possessive.
  destruct (overlaps _ _ _); [assumption|].
  destruct (Re.search _ _); [|assumption].
  destruct (subject_block_keys _ _ _) as [|k ks] eqn:E; [assumption|].
  apply (blocks_ok_accept RPossessive); [assumption|assumption|].
  simpl. symmetry. exact E.
Qed.

Lemma blocks_ok_step_lowercase st m :
  blocks_ok st ->
  m ∈ Re.finditer RE_LOWERCASE_NARRATIVE text ->
  blocks_ok (step_lowercase NOISE_WORDS ref_set ref_fuzzy_lookup add_comments
               text st m).
Proof.
  intros Hok Hm. unfold step_lowercase.
  destruct (overlaps _ _ _); [assumption|].
  destruct (is_noise _ _) eqn:En; [assumption|].
  apply (blocks_ok_accept RLowercase); [assumption|assumption|reflexivity].
Qed.

Lemma blocks_ok_spans st :
  blocks_ok st ->
  blocks_ok (highlight_paragraph_spans NOISE_WORDS ref_set ref_fuzzy_lookup
               add_comments text st).
Proof.
  intros Hok. unfold highlight_paragraph_spans.
  apply foldl_invariant; [|intros; apply blocks_ok_step_lowercase; assumption].
  apply foldl_invariant;
    [|intros; apply (blocks_ok_step_block RColleagues); auto].
  apply foldl_invariant; [|intros; apply blocks_ok_step_possessive; assumption].
  apply foldl_invariant; [|intros; apply blocks_ok_step_narrative; assumption].
  apply foldl_invariant;
    [|intros; apply (blocks_ok_step_block RParenthetical); auto].
  apply foldl_invariant;
    [|intros; apply (blocks_ok_step_block RBracketBlock); auto].
  apply foldl_invariant; [|intros; apply blocks_ok_step_bracket; assumption].
  assumption.
Qed.

End Provenance.

(** Every block accepted in a paragraph comes from a match of its
    recognizer on the paragraph's normalized text. *)
Lemma highlight_body_paragraph_blocks NOISE_WORDS ref_set ref_fuzzy_lookup
    add_comments st para :
  blocks_ok NOISE_WORDS ref_set ref_fuzzy_lookup
    (normalize_for_highlight (para_text para))
    (highlight_body_paragraph NOISE_WORDS ref_set ref_fuzzy_lookup
       add_comments st para).
Proof.
  unfold highlight_body_paragraph.
  destruct (strip _).
  - split; [constructor | reflexivity].
  - apply blocks_ok_spans. split; [constructor | reflexivity].
Qed.

(** C7. The colour of a block of keys is the worst case over its keys in the
    order unmatched, fuzzy, exact: yellow exactly when some key has no match,
    cyan exactly when none is unmatched and some key matches fuzzily, green
    exactly when every key matches exactly; and every block the highlighting
    pass accepts carries this colour. *)
Theorem block_color_worst_case
    (NOISE_WORDS : gset (list N)) (ref_set : gset key)
    (ref_fuzzy_lookup : gmap key (list key)) (add_comments : bool) :
  let classify (k : key) :=
    fuzzy_match_citation (fst k) (snd k) ref_set ref_fuzzy_lookup in
  let color := block_color ref_set ref_fuzzy_lookup in
  (forall block,
      (color block = YELLOW_HIGHLIGHT
       <-> exists k, k ∈ block /\ classify k = NoMatch)
      /\ (color block = CYAN_HIGHLIGHT
          <-> (forall k, k ∈ block -> classify k <> NoMatch)
              /\ exists k, k ∈ block /\ exists k', classify k = Fuzzy k')
      /\ (color block = GREEN_HIGHLIGHT
          <-> forall k, k ∈ block -> exists k', classify k = Exact k'))
  /\ (forall st para b,
        b ∈ h_blocks (highlight_body_paragraph NOISE_WORDS ref_set
                        ref_fuzzy_lookup add_comments st para) ->
        span_color b = color (span_keys b)).
Proof.
  intros classify color. split.
  - intros block. apply block_color_cases.
  - intros st para b Hb.
    destruct (highlight_body_paragraph_blocks NOISE_WORDS ref_set
                ref_fuzzy_lookup add_comments st para) as [HF _].
    rewrite Forall_forall in HF. destruct (HF b Hb) as (m & _ & _ & _ & _ & Hc).
    exact Hc.
Qed.

(** ** Year suffixes (C8) *)

(** The subject from here on is a lowercase letter at the very end, or before
    a final newline: where [[a-z]$] matches. *)
Definition suffix_here (rest : list N) : bool :=
  match rest with
  | [x] => is_ascii_lower x
  | [x; y] => is_ascii_lower x && (y =? 10)%N
  | _ => false
  end.

Fixpoint suffix_pos (rest : list N) : option nat :=
  match rest with
  | [] => None
  | _ :: t => if suffix_here rest then Some 0 else option_map S (suffix_pos t)
  end.

Lemma in_items_lower (x : N) :
  Re.in_items false [Re.IRange 97 122] x = is_ascii_lower x.
Proof.
  unfold Re.in_items, is_ascii_lower. simpl. rewrite !orb_false_r. reflexivity.
Qed.

Lemma match_here_suffix (n : nat) (rest : list N) :
  Re.match_here false n RE_YEAR_SUFFIX rest
  = if suffix_here rest
    then Some {| Re.m_start := n - length rest;
                 Re.m_end := n - (length rest - 1); Re.m_caps := [] |}
    else None.
Proof.
  unfold Re.match_here, RE_YEAR_SUFFIX.
  destruct rest as [|x [|y [|z t]]]; cbn [Re.mt suffix_here xorb];
    rewrite ?in_items_lower; try reflexivity.
  - destruct (is_ascii_lower x); reflexivity.
  - destruct (is_ascii_lower x); [|reflexivity].
    destruct (y =? 10)%N; reflexivity.
  - destruct (is_ascii_lower x); reflexivity.
Qed.

Lemma scan_suffix (n : nat) (rest : list N) :
  length rest <= n ->
  Re.scan false n RE_YEAR_SUFFIX rest
  = match suffix_pos rest with
    | Some i => Some {| Re.m_start := n - length rest + i;
                        Re.m_end := n - length rest + i + 1;
                        Re.m_caps := [] |}
    | None => None
    end.
Proof.
  induction rest as [|x t IH]; intros Hn.
  - reflexivity.
  - cbn [Re.scan suffix_pos]. rewrite match_here_suffix.
    cbn [length] in *.
    destruct (suffix_here (x :: t)).
    + f_equal. f_equal; lia.
    + rewrite IH by lia.
      destruct (suffix_pos t) as [i|]; [|reflexivity].
      cbn [option_map]. f_equal. f_equal; lia.
Qed.

Lemma suffix_pos_tail (y : list N) (i : nat) :
  suffix_pos y = Some i ->
  i < length y /\ suffix_pos (skipn (S i) y) = None.
Proof.
  revert i; induction y as [|x t IH]; intros i; [discriminate|].
  cbn [suffix_pos]. destruct (suffix_here (x :: t)) eqn:E.
  - intros [= <-]. split; [simpl; lia|].
    destruct t as [|y [|z t']]; simpl in E |- *; try reflexivity; try discriminate.
    apply andb_true_iff in E as [_ E]. apply N.eqb_eq in E. subst y.
    reflexivity.
  - destruct (suffix_pos t) as [j|]; [|discriminate].
    intros [= <-]. destruct (IH j eq_refl) as [Hj Hnone].
    split; [simpl; lia | exact Hnone].
Qed.

(** What [strip_year_suffix] computes: the character at the match is cut
    out. *)
Lemma strip_year_suffix_unfold (y : list N) :
  strip_year_suffix y
  = match suffix_pos y with
    | Some i => firstn i y ++ skipn (S i) y
    | None => y
    end.
Proof.
  unfold strip_year_suffix, Re.sub_empty, Re.split_ic.
  cbn [Re.finditer_from]. unfold Re.search_from.
  change (0 <=? length y) with true. change (skipn 0 y) with y. cbv iota.
  rewrite scan_suffix by lia. rewrite Nat.sub_diag.
  destruct (suffix_pos y) as [i|] eqn:E.
  - cbn [Re.m_end Re.m_start plus].
    destruct (suffix_pos_tail y i E) as [Hi Hnone].
    replace (i + 1 =? i) with false by (symmetry; apply Nat.eqb_neq; lia).
    destruct (length y) as [|n] eqn:Hlen; [lia|].
    cbn [Re.finditer_from]. unfold Re.search_from.
    replace (i + 1 <=? length y) with true
      by (symmetry; apply Nat.leb_le; lia).
    rewrite scan_suffix by (rewrite length_skipn; lia).
    replace (i + 1) with (S i) by lia. rewrite Hnone.
    cbn [Re.split_at_matches Re.m_start Re.m_end concat].
    unfold slice. rewrite Nat.sub_0_r. cbn [skipn].
    rewrite app_nil_r. reflexivity.
  - simpl. rewrite app_nil_r. reflexivity.
Qed.

Lemma suffix_pos_snoc (y : list N) (c : N) :
  is_ascii_lower c = true -> suffix_pos (y ++ [c]) = Some (length y).
Proof.
  intros Hc. induction y as [|x t IH].
  - simpl. rewrite Hc. reflexivity.
  - cbn [app suffix_pos length]. rewrite IH.
    assert (E : suffix_here (x :: t ++ [c]) = false).
    { destruct t as [|y [|z t']]; simpl.
      - destruct (c =? 10)%N eqn:E10; [|apply andb_false_r].
        apply N.eqb_eq in E10. subst c. discriminate.
      - reflexivity.
      - destruct (t' ++ [c]) eqn:E'; [|reflexivity].
        destruct t'; discriminate. }
    rewrite E. reflexivity.
Qed.

Lemma suffix_pos_plain (y : list N) :
  (forall c, last y = Some c -> is_ascii_lower c = false /\ c <> 10%N) ->
  suffix_pos y = None.
Proof.
  induction y as [|x t IH]; intros H; [reflexivity|].
  cbn [suffix_pos].
  assert (E : suffix_here (x :: t) = false).
  { destruct t as [|y [|z t']]; simpl; try reflexivity.
    - apply (H x). reflexivity.
    - destruct (H y eq_refl) as [_ Hy].
      apply N.eqb_neq in Hy. rewrite Hy. apply andb_false_r. }
  rewrite E. rewrite IH; [reflexivity|].
  intros c Hc. apply H. destruct t; [discriminate|]. exact Hc.
Qed.

(** A year of the data model: four digits, then at most one lowercase
    letter. *)
Definition is_year (y : list N) : bool :=
  match y with
  | [a; b; c; d] =>
      is_ascii_digit a && is_ascii_digit b && is_ascii_digit c && is_ascii_digit d
  | [a; b; c; d; e] =>
      is_ascii_digit a && is_ascii_digit b && is_ascii_digit c && is_ascii_digit d
      && is_ascii_lower e
  | _ => false
  end.

Lemma digit_not_lower (c : N) :
  is_ascii_digit c = true -> is_ascii_lower c = false /\ c <> 10%N.
Proof.
  unfold is_ascii_digit, is_ascii_lower.
  rewrite andb_true_iff, andb_false_iff, !N.leb_le, !N.leb_gt. lia.
Qed.

(** C8 (the claim fails on strings ending in two lowercase letters). *)
Lemma strip_year_suffix_not_idempotent :
  strip_year_suffix (strip_year_suffix (py "ab"))
  <> strip_year_suffix (py "ab").
Proof. vm_compute. discriminate. Qed.

(** C8, amended. [strip_year_suffix] removes one trailing lowercase letter;
    it leaves a string unchanged whose last character is neither a lowercase
    letter nor a newline; and it is idempotent on every year of the data
    model (four digits, optionally one lowercase letter), where it returns
    the four digits. *)
Theorem strip_year_suffix_years (y : list N) :
  (forall c, is_ascii_lower c = true -> strip_year_suffix (y ++ [c]) = y)
  /\ ((forall c, last y = Some c -> is_ascii_lower c = false /\ c <> 10%N) ->
      strip_year_suffix y = y)
  /\ (is_year y = true ->
      strip_year_suffix y = firstn 4 y
      /\ strip_year_suffix (strip_year_suffix y) = strip_year_suffix y).
Proof.
  split; [|split].
  - intros c Hc. rewrite strip_year_suffix_unfold, suffix_pos_snoc by assumption.
    clear Hc. induction y as [|x t IH]; [reflexivity|].
    cbn [length app firstn skipn]. f_equal. exact IH.
  - intros H. rewrite strip_year_suffix_unfold, suffix_pos_plain by assumption.
    reflexivity.
  - intros Hy.
    assert (Hplain : forall a b c d,
               is_ascii_digit a && is_ascii_digit b && is_ascii_digit c
               && is_ascii_digit d = true ->
               strip_year_suffix [a; b; c; d] = [a; b; c; d]).
    { intros a b c d Hd. rewrite strip_year_suffix_unfold, suffix_pos_plain;
        [reflexivity|].
      intros x [= <-]. apply digit_not_lower.
      rewrite !andb_true_iff in Hd. tauto. }
    destruct y as [|a [|b [|c [|d [|e [|f t]]]]]]; try discriminate.
    + simpl in Hy. rewrite !Hplain by assumption. split; reflexivity.
    + simpl in Hy. apply andb_true_iff in Hy as [Hd He].
      assert (Hs : strip_year_suffix [a; b; c; d; e] = [a; b; c; d]).
      { change [a; b; c; d; e] with ([a; b; c; d] ++ [e]).
        rewrite strip_year_suffix_unfold.
        rewrite (suffix_pos_snoc [a; b; c; d] e He). reflexivity. }
      rewrite Hs. split; [reflexivity|]. apply Hplain. assumption.
Qed.

(** C8, on a year with a suffix. *)
Lemma strip_year_suffix_years_witness :
  strip_year_suffix (py "1912a") = py "1912"
  /\ strip_year_suffix (strip_year_suffix (py "1912a"))
     = strip_year_suffix (py "1912a").
Proof.
  exact (proj2 (proj2 (strip_year_suffix_years (py "1912a"))) eq_refl).
Defined.

(** ** Reference suffixes (C3) *)

(** The group of an entry: its surname and base year. *)
Definition base_of (e : key) : key := (fst e, strip_year_suffix (snd e)).

(** The number of entries of a group. *)
Definition group_size (raw_refs : list key) (b : key) : nat :=
  length (filter (fun e => base_of e = b) raw_refs).

(** The number of entries of a group that carry no suffix. *)
Definition bare_count (raw_refs : list key) (b : key) : nat :=
  length (filter (fun e => base_of e = b /\ has_suffix (snd e) = false) raw_refs).

Lemma count_bases_fold (l : list key) (m : gmap key nat) (b : key) :
  default 0
    (foldl (fun (counts : gmap key nat) '(surname, year) =>
              let base := (surname, strip_year_suffix year) in
              <[base := S (default 0 (counts !! base))]> counts) m l !! b)
  = default 0 (m !! b) + group_size l b.
Proof.
  unfold group_size. revert m; induction l as [|[s y] l IH]; intros m.
  - simpl. lia.
  - cbn [foldl]. rewrite IH.
    destruct (decide (base_of (s, y) = b)) as [Hb|Hb].
    + rewrite filter_cons_True by assumption. unfold base_of in Hb. simpl in Hb.
      subst b. rewrite lookup_insert_eq. simpl. lia.
    + rewrite filter_cons_False by assumption.
      rewrite lookup_insert_ne by exact Hb. reflexivity.
Qed.

Lemma count_bases_spec (raw_refs : list key) (b : key) :
  default 0 (count_bases raw_refs !! b) = group_size raw_refs b.
Proof.
  unfold count_bases. rewrite count_bases_fold, lookup_empty. reflexivity.
Qed.

Section Assign.

Variable counts : gmap key nat.

(** The keys the entries of [pre] put into the set: each entry's own key,
    and for an entry without suffix in a group of several, the key with the
    letter that counts the suffix-less entries of the group before it. *)
Definition produced (pre : list key) (k : key) : Prop :=
  exists i s y,
    pre !! i = Some (s, y)
    /\ (k = (s, y)
        \/ (1 < default 0 (counts !! (s, strip_year_suffix y))
            /\ has_suffix y = false
            /\ k = (s, y ++ [(97 + N.of_nat (bare_count (take i pre)
                                               (s, strip_year_suffix y)))%N]))).

Definition assign_inv (pre : list key) (st : gmap key N * gset key) : Prop :=
  (forall b, 1 < default 0 (counts !! b) ->
             default 97%N (fst st !! b) = (97 + N.of_nat (bare_count pre b))%N)
  /\ (forall k, k ∈ snd st <-> produced pre k).

Lemma produced_snoc (pre : list key) (e k : key) :
  produced (pre ++ [e]) k
  <-> produced pre k
      \/ k = e
      \/ (1 < default 0 (counts !! base_of e)
          /\ has_suffix (snd e) = false
          /\ k = (fst e, snd e ++ [(97 + N.of_nat (bare_count pre (base_of e)))%N])).
Proof.
  split.
  - intros (i & s & y & Hi & Hk).
    destruct (decide (i < length pre)) as [Hlt|Hge].
    + left. exists i, s, y. rewrite lookup_app_l in Hi by assumption.
      rewrite take_app_le in Hk by lia. auto.
    + right. rewrite lookup_app_r in Hi by lia.
      destruct (i - length pre) as [|j] eqn:Ej; [|destruct j; discriminate].
      simpl in Hi. injection Hi as ->.
      assert (i = length pre) by lia. subst i.
      rewrite take_app_length in Hk. simpl. unfold base_of. simpl. tauto.
  - intros [(i & s & y & Hi & Hk)|[->|(Hc & Hs & ->)]].
    + exists i, s, y. pose proof (lookup_lt_Some _ _ _ Hi) as Hlt.
      rewrite lookup_app_l by assumption. rewrite take_app_le by lia. auto.
    + exists (length pre), (fst e), (snd e). destruct e as [s y]. simpl.
      rewrite lookup_app_r by lia. rewrite Nat.sub_diag. auto.
    + exists (length pre), (fst e), (snd e). destruct e as [s y]. simpl.
      rewrite lookup_app_r by lia. rewrite Nat.sub_diag.
      rewrite take_app_length. split; [reflexivity|]. right. auto.
Qed.

Lemma bare_count_snoc (pre : list key) (e b : key) :
  bare_count (pre ++ [e]) b
  = bare_count pre b
    + (if decide (base_of e = b /\ has_suffix (snd e) = false) then 1 else 0).
Proof.
  unfold bare_count. rewrite filter_app, length_app. f_equal.
  destruct (decide _) as [H|H].
  - rewrite filter_cons_True by assumption. reflexivity.
  - rewrite filter_cons_False by assumption. reflexivity.
Qed.

Lemma assign_step_inv (pre : list key) (st : gmap key N * gset key) (e : key) :
  assign_inv pre st -> assign_inv (pre ++ [e]) (assign_step counts st e).
Proof.
  destruct st as [tracker refs]. destruct e as [s y].
  intros [Htr Hrefs]. simpl in Htr, Hrefs. unfold assign_step.
  destruct ((1 <? default 0 (counts !! (s, strip_year_suffix y)))
            && negb (has_suffix y)) eqn:E.
  - apply andb_true_iff in E as [Hc Hs]. apply Nat.ltb_lt in Hc.
    apply negb_true_iff in Hs.
    split; simpl.
    + intros b Hb. rewrite bare_count_snoc. simpl.
      destruct (decide (base_of (s, y) = b /\ has_suffix y = false)) as [[Hb' _]|Hn].
      * unfold base_of in Hb'. simpl in Hb'. subst b.
        rewrite lookup_insert_eq. simpl. rewrite Htr by assumption. lia.
      * rewrite lookup_insert_ne.
        -- rewrite Htr by assumption. lia.
        -- intros Heq. apply Hn. split; [exact Heq | exact Hs].
    + intros k. rewrite produced_snoc, !elem_of_union, !elem_of_singleton, Hrefs.
      unfold base_of. simpl. rewrite (Htr _ Hc). tauto.
  - split; simpl.
    + intros b Hb. rewrite bare_count_snoc. simpl.
      destruct (decide (base_of (s, y) = b /\ has_suffix y = false)) as [[Hb' Hs]|Hn].
      * exfalso. unfold base_of in Hb'. simpl in Hb'. subst b.
        apply Nat.ltb_lt in Hb. rewrite Hb, Hs in E. discriminate.
      * rewrite Htr by assumption. lia.
    + intros k. rewrite produced_snoc, elem_of_union, elem_of_singleton, Hrefs.
      unfold base_of. simpl. split; [tauto|].
      intros [H|[H|(Hc & Hs & _)]]; [tauto|tauto|].
      exfalso. apply Nat.ltb_lt in Hc. rewrite Hc, Hs in E. discriminate.
Qed.

Lemma assign_fold_inv (l pre : list key) (st : gmap key N * gset key) :
  assign_inv pre st ->
  assign_inv (pre ++ l) (foldl (assign_step counts) st l).
Proof.
  revert pre st; induction l as [|e l IH]; intros pre st H.
  - rewrite app_nil_r. exact H.
  - cbn [foldl]. replace (pre ++ e :: l) with ((pre ++ [e]) ++ l)
      by (rewrite <- app_assoc; reflexivity).
    apply IH, assign_step_inv, H.
Qed.

End Assign.

(** The keys of the output set, entry by entry. *)
Lemma assign_suffixes_spec (raw_refs : list key) (k : key) :
  k ∈ assign_suffixes raw_refs
  <-> exists i s y,
        raw_refs !! i = Some (s, y)
        /\ (k = (s, y)
            \/ (1 < group_size raw_refs (s, strip_year_suffix y)
                /\ has_suffix y = false
                /\ k = (s, y ++ [(97 + N.of_nat
                                        (bare_count (take i raw_refs)
                                           (s, strip_year_suffix y)))%N]))).
Proof.
  unfold assign_suffixes.
  assert (Hinit : assign_inv (count_bases raw_refs) [] (∅, ∅)).
  { split; simpl.
    - intros b _. rewrite lookup_empty. reflexivity.
    - intros k'. split; [intros Hk; exfalso; set_solver|].
      intros (i & s & y & Hi & _). discriminate. }
  destruct (assign_fold_inv (count_bases raw_refs) raw_refs [] (∅, ∅) Hinit)
    as [_ H].
  simpl in H. rewrite H. unfold produced.
  setoid_rewrite count_bases_spec. reflexivity.
Qed.

(** Closed statements about decidable facts are settled by evaluation. *)
Ltac by_evaluation :=
  match goal with
  | |- ?P => apply (bool_decide_unpack P); vm_compute; exact I
  end.

(** A paragraph of one run of plain text. *)
Definition plain_paragraph (s : string) : paragraph :=
  {| p_children := [P_r {| r_highlight := None; r_format := [];
                           r_children := [W_t false (py s)] |}];
     p_comments := [] |}.

(** A bibliography of two entries of the same author and year, without
    suffix. *)
Definition KLEIN_DOC : list block :=
  [ BPara (plain_paragraph "References");
    BPara (plain_paragraph "Klein, M. (1946).");
    BPara (plain_paragraph "Klein, M. (1946).") ].

(** The same with a suffix on the first entry. *)
Definition KLEIN_MIXED_DOC : list block :=
  [ BPara (plain_paragraph "References");
    BPara (plain_paragraph "Klein, M. (1946a).");
    BPara (plain_paragraph "Klein, M. (1946).") ].

(** C3 (the claim fails where a member of the group already carries the
    letter): the entry without suffix is given the letter a, which the first
    entry carries, and not b. *)
Lemma suffix_letter_already_used :
  find_references_heading_index KLEIN_MIXED_DOC = 0
  /\ raw_refs_of KLEIN_MIXED_DOC 0
     = [(py "Klein", py "1946a"); (py "Klein", py "1946")]
  /\ extract_references_from_doc KLEIN_MIXED_DOC 0
     = {[ (py "Klein", py "1946a"); (py "Klein", py "1946") ]}
  /\ (py "Klein", py "1946b") ∉ extract_references_from_doc KLEIN_MIXED_DOC 0.
Proof. by_evaluation. Qed.

(** C3, amended. The raw entries are grouped by (surname, base year); in a
    group of more than one member, each member without suffix gets the letter
    that counts the suffix-less members of its group before it in document
    order (a, b, ...), whatever letters other members carry, and both the
    suffixed and the original key are in the output set; every other entry
    contributes its own key.  For the bibliography of the two entries
    "Klein, M. (1946)." the set is (Klein,1946a), (Klein,1946b),
    (Klein,1946). *)
Theorem reference_suffix_assignment :
  (forall (d : list block) (ref_para_idx : nat) (k : key),
      k ∈ extract_references_from_doc d ref_para_idx
      <-> exists i surname year,
            raw_refs_of d ref_para_idx !! i = Some (surname, year)
            /\ (k = (surname, year)
                \/ (1 < group_size (raw_refs_of d ref_para_idx)
                          (surname, strip_year_suffix year)
                    /\ has_suffix year = false
                    /\ k = (surname,
                            year ++ [(97 + N.of_nat
                                        (bare_count
                                           (take i (raw_refs_of d ref_para_idx))
                                           (surname, strip_year_suffix year)))%N]))))
  /\ extract_references_from_doc KLEIN_DOC
       (find_references_heading_index KLEIN_DOC)
     = {[ (py "Klein", py "1946a"); (py "Klein", py "1946b");
          (py "Klein", py "1946") ]}.
Proof.
  split.
  - intros d ref_para_idx k. apply assign_suffixes_spec.
  - by_evaluation.
Qed.

(** ** Learned cross-matches (C10) *)

Lemma reclassify_doc (st : run_state) (am : list N * list N * list N) :
  doc (reclassify st am) = doc st.
Proof.
  destruct am as [[c r] reason]. unfold reclassify.
  destruct (mem_str c (m_unmatched_list st));
    cbn [m_uncited_list];
    destruct (mem_str r (m_uncited_list st)); reflexivity.
Qed.

Lemma apply_auto_matches_doc (learned : learned_patterns) (st : run_state) :
  doc (apply_auto_matches learned st) = doc st.
Proof.
  unfold apply_auto_matches.
  apply (foldl_invariant reclassify (fun s => doc s = doc st)); [reflexivity|].
  intros s am _ Hs. rewrite reclassify_doc. exact Hs.
Qed.

(** The strings of the lookup are strings of the list it was built from. *)
Lemma listed_lookup_elem (items : list (list N)) (k : key) (c : list N) :
  listed_lookup items !! k = Some c -> c ∈ items.
Proof.
  unfold listed_lookup.
  generalize (eq_refl : (∅ : gmap key (list N)) = ∅).
  generalize (∅ : gmap key (list N)) at 1 3. intros m0 Hm0.
  assert (H0 : forall k c, m0 !! k = Some c -> c ∈ items).
  { subst m0. intros k' c' H'. rewrite lookup_empty in H'. discriminate. }
  clear Hm0. revert k c.
  assert (Hsub : forall x, x ∈ items -> x ∈ items) by auto.
  revert Hsub. generalize items at 1 3 as l.
  intros l; revert m0 H0; induction l as [|x l IH]; intros m0 H0 Hsub k c.
  - simpl. apply H0.
  - cbn [foldl]. apply IH.
    + intros k' c'. destruct (Re.match_ RE_LISTED x) as [m|]; [|apply H0].
      destruct (decide ((lower (Re.group x m 1), Re.group x m 2) = k')) as [<-|Hne].
      * rewrite lookup_insert_eq. intros [= <-]. apply Hsub, list_elem_of_here.
      * rewrite lookup_insert_ne by exact Hne. apply H0.
    + intros y Hy. apply Hsub, list_elem_of_further, Hy.
Qed.

Lemma auto_matches_present (learned : learned_patterns)
    (unmatched_citations uncited_refs : list (list N))
    (c r reason : list N) :
  (c, r, reason) ∈ apply_learned_cross_matches learned unmatched_citations
                     uncited_refs ->
  c ∈ unmatched_citations /\ r ∈ uncited_refs.
Proof.
  unfold apply_learned_cross_matches.
  destruct (cross_matches learned) as [|cm0 cms] eqn:E.
  - intros H. apply elem_of_nil in H. contradiction.
  - rewrite list_elem_of_In, in_flat_map. intros (cm & _ & Hin).
    destruct (listed_lookup unmatched_citations !! _) as [c'|] eqn:Ec;
      [|destruct Hin].
    destruct (listed_lookup uncited_refs !! _) as [r'|] eqn:Er; [|destruct Hin].
    destruct Hin as [[= <- <- <-]|[]].
    split; eapply listed_lookup_elem; eassumption.
Qed.

(** Removing a string that is in the list takes one occurrence out. *)
Lemma list_remove_perm (x : list N) (l : list (list N)) :
  x ∈ l -> list_remove x l ++ [x] ≡ₚ l.
Proof.
  induction l as [|y l IH]; intros H; [inversion H|].
  cbn [list_remove]. destruct (eqb_str y x) eqn:E.
  - apply eqb_str_spec in E as ->. symmetry. apply Permutation_cons_append.
  - apply elem_of_cons in H as [->|H]; [rewrite eqb_str_refl in E; discriminate|].
    cbn [app]. rewrite (IH H). reflexivity.
Qed.

(** What one auto-match moves: its citation string when it is still in the
    unmatched list, its reference string when it is still in the uncited
    list. *)
Definition moves (st st' : run_state) (moved_cites moved_refs : list (list N))
  : Prop :=
  doc st' = doc st
  /\ body_matched st' = body_matched st
  /\ ref_cited st' = ref_cited st
  /\ body_unmatched st' = (body_unmatched st - Z.of_nat (length moved_cites))%Z
  /\ body_fuzzy st' = (body_fuzzy st + Z.of_nat (length moved_cites))%Z
  /\ ref_uncited st' = (ref_uncited st - Z.of_nat (length moved_refs))%Z
  /\ ref_fuzzy st' = (ref_fuzzy st + Z.of_nat (length moved_refs))%Z
  /\ fuzzy_cite_list st' = fuzzy_cite_list st ++ moved_cites
  /\ fuzzy_ref_list st' = fuzzy_ref_list st ++ moved_refs
  /\ m_unmatched_list st' ++ moved_cites ≡ₚ m_unmatched_list st
  /\ m_uncited_list st' ++ moved_refs ≡ₚ m_uncited_list st.

Lemma reclassify_moves (st : run_state) (c r reason : list N) :
  moves st (reclassify st (c, r, reason))
    (if mem_str c (m_unmatched_list st) then [c] else [])
    (if mem_str r (m_uncited_list st) then [r] else []).
Proof.
  unfold reclassify, moves.
  destruct (mem_str c (m_unmatched_list st)) eqn:Hc;
    cbn [m_uncited_list];
    destruct (mem_str r (m_uncited_list st)) eqn:Hr;
    cbn [doc body_matched ref_cited body_unmatched body_fuzzy ref_uncited
         ref_fuzzy fuzzy_cite_list fuzzy_ref_list m_unmatched_list
         m_uncited_list length];
    rewrite ?app_nil_r;
    try apply mem_str_spec in Hc; try apply mem_str_spec in Hr;
    repeat split; try reflexivity; try lia;
    try (apply list_remove_perm; assumption).
Qed.

Lemma moves_trans (st1 st2 st3 : run_state) (c1 r1 c2 r2 : list (list N)) :
  moves st1 st2 c1 r1 -> moves st2 st3 c2 r2 ->
  moves st1 st3 (c1 ++ c2) (r1 ++ r2).
Proof.
  intros (A1 & A2 & A3 & A4 & A5 & A6 & A7 & A8 & A9 & A10 & A11)
         (B1 & B2 & B3 & B4 & B5 & B6 & B7 & B8 & B9 & B10 & B11).
  unfold moves. rewrite !length_app, !Nat2Z.inj_add.
  split; [congruence|]. split; [congruence|]. split; [congruence|].
  split; [lia|]. split; [lia|]. split; [lia|]. split; [lia|].
  split; [rewrite B8, A8, app_assoc; reflexivity|].
  split; [rewrite B9, A9, app_assoc; reflexivity|].
  split.
  - rewrite <- A10, <- B10, <- !app_assoc.
    apply Permutation_app_head, Permutation_app_comm.
  - rewrite <- A11, <- B11, <- !app_assoc.
    apply Permutation_app_head, Permutation_app_comm.
Qed.

(** The loop over the auto-matches moves the citation string and the
    reference string of every auto-match whose string is in its list, and
    nothing else. *)
Lemma auto_matches_move (ams : list (list N * list N * list N))
    (st : run_state) :
  exists moved_cites moved_refs,
    moves st (foldl reclassify st ams) moved_cites moved_refs
    /\ (forall c r reason,
          (c, r, reason) ∈ ams ->
          (c ∈ m_unmatched_list st -> c ∈ moved_cites)
          /\ (r ∈ m_uncited_list st -> r ∈ moved_refs))
    /\ (forall c, c ∈ moved_cites -> exists r reason, (c, r, reason) ∈ ams)
    /\ (forall r, r ∈ moved_refs -> exists c reason, (c, r, reason) ∈ ams).
Proof.
  revert st. induction ams as [|[[c0 r0] reason0] ams IH]; intros st.
  - exists [], []. cbn [foldl]. split; [|split; [|split]].
    + unfold moves. cbn [length]. rewrite !app_nil_r.
      repeat split; try reflexivity; lia.
    + intros c r reason H. inversion H.
    + intros c H. inversion H.
    + intros r H. inversion H.
  - cbn [foldl]. set (st1 := reclassify st (c0, r0, reason0)).
    pose proof (reclassify_moves st c0 r0 reason0) as H1. fold st1 in H1.
    destruct (IH st1) as (mc & mr & H2 & Hin & Hc & Hr).
    set (c1 := if mem_str c0 (m_unmatched_list st) then [c0] else []) in *.
    set (r1 := if mem_str r0 (m_uncited_list st) then [r0] else []) in *.
    exists (c1 ++ mc), (r1 ++ mr).
    split; [exact (moves_trans _ _ _ _ _ _ _ H1 H2)|].
    destruct H1 as (_ & _ & _ & _ & _ & _ & _ & _ & _ & P1 & P2).
    split; [|split].
    + intros c r reason H. apply elem_of_cons in H as [[= -> -> ->]|H].
      * split; intros Hm; apply elem_of_app; left.
        -- subst c1. apply mem_str_spec in Hm. rewrite Hm.
           apply list_elem_of_here.
        -- subst r1. apply mem_str_spec in Hm. rewrite Hm.
           apply list_elem_of_here.
      * destruct (Hin c r reason H) as [Hc' Hr']. split; intros Hm.
        -- rewrite <- P1 in Hm. apply elem_of_app.
           apply elem_of_app in Hm as [Hm|Hm]; [right; apply Hc', Hm | left; exact Hm].
        -- rewrite <- P2 in Hm. apply elem_of_app.
           apply elem_of_app in Hm as [Hm|Hm]; [right; apply Hr', Hm | left; exact Hm].
    + intros c H. apply elem_of_app in H as [H|H].
      * subst c1. destruct (mem_str c0 (m_unmatched_list st)); [|inversion H].
        apply list_elem_of_singleton in H as ->.
        exists r0, reason0. apply list_elem_of_here.
      * destruct (Hc c H) as (r & reason & Hr0). exists r, reason.
        apply list_elem_of_further, Hr0.
    + intros r H. apply elem_of_app in H as [H|H].
      * subst r1. destruct (mem_str r0 (m_uncited_list st)); [|inversion H].
        apply list_elem_of_singleton in H as ->.
        exists c0, reason0. apply list_elem_of_here.
      * destruct (Hr r H) as (c & reason & Hc0). exists c, reason.
        apply list_elem_of_further, Hc0.
Qed.

Lemma apply_auto_matches_move (learned : learned_patterns) (st : run_state) :
  exists moved_cites moved_refs,
    moves st (apply_auto_matches learned st) moved_cites moved_refs
    /\ (forall c r reason,
          (c, r, reason) ∈ apply_learned_cross_matches learned
                             (m_unmatched_list st) (m_uncited_list st) ->
          c ∈ moved_cites /\ r ∈ moved_refs)
    /\ (forall c, c ∈ moved_cites ->
                  exists r reason,
                    (c, r, reason) ∈ apply_learned_cross_matches learned
                                       (m_unmatched_list st) (m_uncited_list st))
    /\ (forall r, r ∈ moved_refs ->
                  exists c reason,
                    (c, r, reason) ∈ apply_learned_cross_matches learned
                                       (m_unmatched_list st) (m_uncited_list st)).
Proof.
  unfold apply_auto_matches.
  destruct (auto_matches_move
              (apply_learned_cross_matches learned (m_unmatched_list st)
                 (m_uncited_list st)) st)
    as (mc & mr & Hm & Hin & Hc & Hr).
  exists mc, mr. split; [exact Hm|]. split; [|split; assumption].
  intros c r reason H. destruct (auto_matches_present _ _ _ _ _ _ H) as [H1 H2].
  destruct (Hin c r reason H) as [Hc' Hr']. split; auto.
Qed.


(** ** Splitting and marking runs (C9, C6) *)

(** All the text of the run is in its [w:t] children. *)
Definition text_in_wt (r : run) : Prop :=
  Forall (fun e => is_w_t e = true \/ relem_text e = []) (r_children r).

(** The highlight of every character of the paragraph, run by run. *)
Definition char_marks (runs : list run) : list (option (list N)) :=
  List.flat_map (fun r => repeat (r_highlight r) (length (run_text r))) runs.

Definition runs_text (runs : list run) : list N :=
  List.concat (List.map run_text runs).

(** The marks after the characters of offsets [a <= i < b] are painted;
    [pos] is the offset of the first mark. *)
Fixpoint paint (a b : nat) (color : list N) (pos : nat)
    (marks : list (option (list N))) : list (option (list N)) :=
  match marks with
  | [] => []
  | m :: t =>
      (if (a <=? pos) && (pos <? b) then Some color else m)
      :: paint a b color (S pos) t
  end.

Lemma kept_children_no_text (r : run) :
  text_in_wt r ->
  List.concat (List.map relem_text
                 (List.filter (fun e => negb (is_w_t e)) (r_children r))) = [].
Proof.
  unfold text_in_wt. induction (r_children r) as [|e l IH]; intros H.
  - reflexivity.
  - apply Forall_cons in H as [He Hl]. simpl.
    destruct (is_w_t e) eqn:E; simpl.
    + apply IH, Hl.
    + destruct He as [He|He]; [congruence|]. rewrite He. apply IH, Hl.
Qed.

Lemma kept_then_text (r : run) (preserve : bool) (t : list N) :
  text_in_wt r ->
  List.concat (List.map relem_text
                 (List.filter (fun e => negb (is_w_t e)) (r_children r)
                  ++ [W_t preserve t])) = t.
Proof.
  intros H. rewrite map_app, concat_app, kept_children_no_text by assumption.
  simpl. apply app_nil_r.
Qed.

Lemma kept_text_in_wt (r : run) (preserve : bool) (t : list N) :
  text_in_wt r ->
  Forall (fun e => is_w_t e = true \/ relem_text e = [])
         (List.filter (fun e => negb (is_w_t e)) (r_children r)
          ++ [W_t preserve t]).
Proof.
  intros H. apply Forall_app. split.
  - unfold text_in_wt in H. rewrite Forall_forall in *. intros e He.
    apply list_elem_of_In, filter_In in He as [He _].
    apply H, list_elem_of_In, He.
  - constructor; [left; reflexivity | constructor].
Qed.

(** [split_run] on a run whose text is in its [w:t] children. *)
Lemma split_run_text (r : run) (split_at : nat) :
  text_in_wt r ->
  run_text (fst (split_run r split_at)) = firstn split_at (run_text r)
  /\ run_text (snd (split_run r split_at)) = skipn split_at (run_text r)
  /\ text_in_wt (fst (split_run r split_at))
  /\ text_in_wt (snd (split_run r split_at))
  /\ r_highlight (fst (split_run r split_at)) = r_highlight r
  /\ r_highlight (snd (split_run r split_at)) = r_highlight r.
Proof.
  intros H. unfold split_run, text_in_wt, run_text.
  cbn [fst snd r_highlight r_children].
  rewrite !kept_then_text by assumption.
  repeat split; apply kept_text_in_wt; assumption.
Qed.

(** No run of the list, laid out from offset [pos], has [b] strictly inside
    it. *)
Fixpoint aligned (b pos : nat) (runs : list run) : Prop :=
  match runs with
  | [] => True
  | r :: rest =>
      ~ (pos < b < pos + length (run_text r))
      /\ aligned b (pos + length (run_text r)) rest
  end.

Lemma aligned_past (b pos : nat) (runs : list run) :
  b <= pos -> aligned b pos runs.
Proof.
  revert pos; induction runs as [|r rest IH]; intros pos H; simpl; [exact I|].
  split; [lia | apply IH; lia].
Qed.

Section SplitBoundary.

Variable boundary : nat.

Lemma split_at_boundary_spec (runs : list run) (pos : nat) :
  Forall text_in_wt runs ->
  Forall text_in_wt (split_at_boundary boundary pos runs)
  /\ runs_text (split_at_boundary boundary pos runs) = runs_text runs
  /\ char_marks (split_at_boundary boundary pos runs) = char_marks runs
  /\ aligned boundary pos (split_at_boundary boundary pos runs)
  /\ (forall b, aligned b pos runs ->
                aligned b pos (split_at_boundary boundary pos runs)).
Proof.
  revert pos; induction runs as [|r rest IH]; intros pos H.
  - simpl. auto.
  - apply Forall_cons in H as [Hr Hrest]. cbn [split_at_boundary].
    destruct ((pos <? boundary) && (boundary <? pos + length (run_text r))) eqn:E.
    + apply andb_true_iff in E as [E1 E2].
      apply Nat.ltb_lt in E1. apply Nat.ltb_lt in E2.
      destruct (split_run_text r (boundary - pos) Hr)
        as (Hl & Hrr & Htl & Htr & Hhl & Hhr).
      destruct (split_run r (boundary - pos)) as [l rr] eqn:Es.
      cbn [fst snd] in *.
      assert (Hll : length (run_text l) = boundary - pos).
      { rewrite Hl, length_firstn. lia. }
      assert (Hlr : length (run_text rr) = pos + length (run_text r) - boundary).
      { rewrite Hrr, length_skipn. lia. }
      split; [|split; [|split; [|split]]].
      * constructor; [assumption|]. constructor; assumption.
      * unfold runs_text. cbn [List.map concat]. rewrite Hl, Hrr.
        rewrite app_assoc, firstn_skipn. reflexivity.
      * unfold char_marks. cbn [flat_map]. rewrite Hhl, Hhr, Hll, Hlr.
        rewrite app_assoc, <- repeat_app. repeat f_equal. lia.
      * cbn [aligned]. rewrite Hll, Hlr. split; [lia|]. split; [lia|].
        apply aligned_past. lia.
      * intros b [Hb Hbrest]. cbn [aligned]. rewrite Hll, Hlr.
        split; [lia|]. split; [lia|].
        replace (pos + (boundary - pos) + (pos + length (run_text r) - boundary))
          with (pos + length (run_text r)) by lia.
        exact Hbrest.
    + destruct (IH (pos + length (run_text r)) Hrest)
        as (Ht & Htext & Hmarks & Hal & Hpres).
      split; [|split; [|split; [|split]]].
      * constructor; assumption.
      * unfold runs_text in *. cbn [List.map concat]. rewrite Htext. reflexivity.
      * unfold char_marks in *. cbn [flat_map]. rewrite Hmarks. reflexivity.
      * cbn [aligned]. split; [|exact Hal].
        apply andb_false_iff in E as [E|E];
          [apply Nat.ltb_ge in E | apply Nat.ltb_ge in E]; lia.
      * intros b [Hb Hbrest]. cbn [aligned]. split; [exact Hb|].
        apply Hpres, Hbrest.
Qed.

End SplitBoundary.

Lemma paint_app (a b : nat) (color : list N) (pos : nat)
    (m1 m2 : list (option (list N))) :
  paint a b color pos (m1 ++ m2)
  = paint a b color pos m1 ++ paint a b color (pos + length m1) m2.
Proof.
  revert pos; induction m1 as [|m t IH]; intros pos; simpl.
  - rewrite Nat.add_0_r. reflexivity.
  - rewrite IH. replace (pos + S (length t)) with (S pos + length t) by lia.
    reflexivity.
Qed.

Lemma paint_inside (a b : nat) (color : list N) (h : option (list N))
    (len pos : nat) :
  a <= pos -> pos + len <= b ->
  paint a b color pos (repeat h len) = repeat (Some color) len.
Proof.
  revert pos; induction len as [|len IH]; intros pos Ha Hb; simpl; [reflexivity|].
  replace (a <=? pos) with true by (symmetry; apply Nat.leb_le; lia).
  replace (pos <? b) with true by (symmetry; apply Nat.ltb_lt; lia).
  simpl. f_equal. apply IH; lia.
Qed.

Lemma paint_outside (a b : nat) (color : list N) (marks : list (option (list N)))
    (pos : nat) :
  pos + length marks <= a \/ b <= pos ->
  paint a b color pos marks = marks.
Proof.
  revert pos; induction marks as [|m t IH]; intros pos H; simpl; [reflexivity|].
  simpl in H.
  replace ((a <=? pos) && (pos <? b)) with false.
  - f_equal. apply IH. lia.
  - symmetry. apply andb_false_iff.
    destruct H as [H|H]; [left; apply Nat.leb_gt | right; apply Nat.ltb_ge]; lia.
Qed.

Lemma highlight_inside_spec (a b : nat) (color : list N)
    (runs : list run) (pos : nat) :
  aligned a pos runs -> aligned b pos runs ->
  char_marks (highlight_inside a b color pos runs)
  = paint a b color pos (char_marks runs)
  /\ List.map run_text (highlight_inside a b color pos runs)
     = List.map run_text runs
  /\ (Forall text_in_wt runs ->
      Forall text_in_wt (highlight_inside a b color pos runs)).
Proof.
  revert pos; induction runs as [|r rest IH]; intros pos Ha Hb.
  - simpl. auto.
  - destruct Ha as [Ha Harest]. destruct Hb as [Hb Hbrest].
    destruct (IH _ Harest Hbrest) as (IHm & IHt & IHw).
    cbn [highlight_inside]. unfold char_marks in *. cbn [flat_map List.map].
    rewrite paint_app, repeat_length.
    set (len := length (run_text r)) in *.
    destruct ((a <=? pos) && (pos + len <=? b) && (0 <? len)) eqn:E.
    + apply andb_true_iff in E as [E E3]. apply andb_true_iff in E as [E1 E2].
      apply Nat.leb_le in E1. apply Nat.leb_le in E2.
      repeat split.
      * change (run_text (set_highlight r color)) with (run_text r).
        fold len. cbn [set_highlight r_highlight].
        rewrite paint_inside by assumption. rewrite IHm. reflexivity.
      * rewrite IHt. reflexivity.
      * intros H. apply Forall_cons in H as [H1 H2].
        constructor; [exact H1 | apply IHw, H2].
    + repeat split.
      * rewrite IHm. f_equal.
        destruct (Nat.eq_dec len 0) as [Hz|Hz];
          [subst len; rewrite Hz; reflexivity|].
        symmetry. apply paint_outside.
        rewrite repeat_length. fold len.
        apply andb_false_iff in E as [E|E];
          [apply andb_false_iff in E as [E|E]|].
        -- apply Nat.leb_gt in E. lia.
        -- apply Nat.leb_gt in E. lia.
        -- apply Nat.ltb_ge in E. lia.
      * rewrite IHt. reflexivity.
      * intros H. apply Forall_cons in H as [H1 H2].
        constructor; [exact H1 | apply IHw, H2].
Qed.

(** On runs whose text is in their [w:t] children, marking a span keeps the
    text and paints exactly the characters of the span. *)
Lemma highlight_span_in_runs_spec (runs : list run) (a b : nat)
    (color : list N) :
  Forall text_in_wt runs ->
  runs_text (highlight_span_in_runs runs a b color) = runs_text runs
  /\ char_marks (highlight_span_in_runs runs a b color)
     = paint a b color 0 (char_marks runs)
  /\ Forall text_in_wt (highlight_span_in_runs runs a b color).
Proof.
  intros H. unfold highlight_span_in_runs.
  destruct (split_at_boundary_spec a runs 0 H) as (H1 & T1 & M1 & A1 & P1).
  destruct (split_at_boundary_spec b (split_at_boundary a 0 runs) 0 H1)
    as (H2 & T2 & M2 & A2 & P2).
  destruct (highlight_inside_spec a b color
              (split_at_boundary b 0 (split_at_boundary a 0 runs)) 0
              (P2 a A1) A2) as (M3 & T3 & W3).
  repeat split.
  - unfold runs_text in *. rewrite T3, T2, T1. reflexivity.
  - rewrite M3, M2, M1. reflexivity.
  - apply W3, H2.
Qed.

Lemma add_comment_to_span_children (para : paragraph) (a b : nat)
    (t : list N) :
  p_children (add_comment_to_span para a b t) = p_children para.
Proof.
  unfold add_comment_to_span. destruct (span_runs _ _ _ _ _); reflexivity.
Qed.

Lemma add_comment_to_span_runs (para : paragraph) (a b : nat) (t : list N) :
  p_runs (add_comment_to_span para a b t) = p_runs para.
Proof.
  unfold p_runs. rewrite add_comment_to_span_children. reflexivity.
Qed.

Lemma add_comment_to_span_text (para : paragraph) (a b : nat) (t : list N) :
  para_text (add_comment_to_span para a b t) = para_text para.
Proof.
  unfold para_text. rewrite add_comment_to_span_children. reflexivity.
Qed.

(** *** The runs among the children of a paragraph *)

Definition is_r (c : pchild) : bool :=
  match c with P_r _ => true | P_hyperlink _ => false end.

(** The paragraph has no hyperlink: all its text is in [para.runs]. *)
Definition no_hyperlink (p : paragraph) : Prop :=
  forallb is_r (p_children p) = true.

Definition children_text (children : list pchild) : list N :=
  List.concat (List.map child_text children).

Lemma runs_of_split (boundary pos : nat) (children : list pchild) :
  runs_of (split_children_at boundary pos children)
  = split_at_boundary boundary pos (runs_of children).
Proof.
  revert pos. induction children as [|[r|h] rest IH]; intros pos;
    cbn [split_children_at runs_of split_at_boundary].
  - reflexivity.
  - destruct ((pos <? boundary) && (boundary <? pos + length (run_text r))).
    + destruct (split_run r (boundary - pos)) as [l rr]. reflexivity.
    + cbn [runs_of]. rewrite IH. reflexivity.
  - apply IH.
Qed.

Lemma runs_of_highlight (a b : nat) (color : list N) (pos : nat)
    (children : list pchild) :
  runs_of (highlight_children_inside a b color pos children)
  = highlight_inside a b color pos (runs_of children).
Proof.
  revert pos. induction children as [|[r|h] rest IH]; intros pos;
    cbn [highlight_children_inside runs_of highlight_inside].
  - reflexivity.
  - rewrite IH. reflexivity.
  - apply IH.
Qed.

(** [para.runs] after [highlight_span_in_paragraph]. *)
Lemma highlight_span_in_paragraph_runs (para : paragraph) (a b : nat)
    (color : list N) :
  p_runs (highlight_span_in_paragraph para a b color)
  = highlight_span_in_runs (p_runs para) a b color.
Proof.
  unfold highlight_span_in_paragraph, highlight_span_in_runs, p_runs.
  cbn [p_children]. rewrite runs_of_highlight, !runs_of_split. reflexivity.
Qed.

Lemma split_children_text (boundary pos : nat) (children : list pchild) :
  Forall text_in_wt (runs_of children) ->
  children_text (split_children_at boundary pos children)
  = children_text children.
Proof.
  unfold children_text. revert pos.
  induction children as [|[r|h] rest IH]; intros pos H;
    cbn [split_children_at runs_of] in *.
  - reflexivity.
  - apply Forall_cons in H as [Hr Hrest].
    destruct ((pos <? boundary) && (boundary <? pos + length (run_text r))).
    + destruct (split_run_text r (boundary - pos) Hr) as (Hl & Hrr & _).
      destruct (split_run r (boundary - pos)) as [l rr].
      cbn [fst snd] in Hl, Hrr. cbn [List.map List.concat child_text].
      rewrite Hl, Hrr, app_assoc, firstn_skipn. reflexivity.
    + cbn [List.map List.concat]. rewrite (IH _ Hrest). reflexivity.
  - cbn [List.map List.concat]. rewrite (IH _ H). reflexivity.
Qed.

Lemma highlight_children_text (a b : nat) (color : list N) (pos : nat)
    (children : list pchild) :
  List.map child_text (highlight_children_inside a b color pos children)
  = List.map child_text children.
Proof.
  revert pos. induction children as [|[r|h] rest IH]; intros pos;
    cbn [highlight_children_inside List.map].
  - reflexivity.
  - rewrite IH. f_equal. cbn [child_text].
    destruct (_ && _); reflexivity.
  - rewrite IH. reflexivity.
Qed.

(** Marking keeps [para.text], hyperlinks or not, when the text of the runs
    is in their [w:t] children. *)
Lemma highlight_span_in_paragraph_text (para : paragraph) (a b : nat)
    (color : list N) :
  Forall text_in_wt (p_runs para) ->
  para_text (highlight_span_in_paragraph para a b color) = para_text para.
Proof.
  intros H. unfold highlight_span_in_paragraph, para_text. cbn [p_children].
  rewrite highlight_children_text.
  change (children_text (split_children_at b 0
                           (split_children_at a 0 (p_children para)))
          = children_text (p_children para)).
  rewrite split_children_text, split_children_text; [reflexivity|exact H|].
  rewrite runs_of_split. apply split_at_boundary_spec. exact H.
Qed.

Lemma is_r_split (boundary pos : nat) (children : list pchild) :
  forallb is_r (split_children_at boundary pos children)
  = forallb is_r children.
Proof.
  revert pos. induction children as [|[r|h] rest IH]; intros pos;
    cbn [split_children_at forallb is_r].
  - reflexivity.
  - destruct (_ && _).
    + destruct (split_run r (boundary - pos)) as [l rr]. reflexivity.
    + cbn [forallb is_r]. apply IH.
  - reflexivity.
Qed.

Lemma is_r_highlight (a b : nat) (color : list N) (pos : nat)
    (children : list pchild) :
  forallb is_r (highlight_children_inside a b color pos children)
  = forallb is_r children.
Proof.
  revert pos. induction children as [|[r|h] rest IH]; intros pos;
    cbn [highlight_children_inside forallb is_r]; [reflexivity|apply IH|].
  reflexivity.
Qed.

Lemma no_hyperlink_highlight (para : paragraph) (a b : nat) (color : list N) :
  no_hyperlink para ->
  no_hyperlink (highlight_span_in_paragraph para a b color).
Proof.
  unfold no_hyperlink, highlight_span_in_paragraph. cbn [p_children].
  rewrite is_r_highlight, !is_r_split. auto.
Qed.

Lemma no_hyperlink_comment (para : paragraph) (a b : nat) (t : list N) :
  no_hyperlink para -> no_hyperlink (add_comment_to_span para a b t).
Proof.
  unfold no_hyperlink. rewrite add_comment_to_span_children. auto.
Qed.

(** Without hyperlinks [para.text] is the text of [para.runs], and an
    offset into one is an offset into the other. *)
Lemma no_hyperlink_text (para : paragraph) :
  no_hyperlink para -> para_text para = runs_text (p_runs para).
Proof.
  unfold no_hyperlink, para_text, runs_text, p_runs.
  induction (p_children para) as [|[r|h] rest IH]; cbn; intros H.
  - reflexivity.
  - rewrite IH by exact H. reflexivity.
  - discriminate.
Qed.

(** A run with a tab between two pieces of text, alone in its paragraph. *)
Definition TAB_RUN : run :=
  {| r_highlight := None; r_format := [];
     r_children := [W_t false (py "See"); W_tab; W_t false (py "Smith (2009).")] |}.

Definition TAB_PARAGRAPH : paragraph :=
  {| p_children := [P_r TAB_RUN]; p_comments := [] |}.

Definition INITIAL_HSTATE : hstate :=
  {| matched := 0; fuzzy_matched := 0; unmatched := 0;
     unmatched_list := []; fuzzy_list := [];
     h_para := EMPTY_PARAGRAPH; highlighted_spans := []; h_blocks := [] |}.

(** C9 (the code changes the text of a run that holds a tab). The run reads
    "See<tab>Smith (2009)."; split after "(2009)" the two runs read
    "<tab>See<tab>Smith (2009)" and "<tab>.", because the tab element stays
    in both copies while its character is also written into the new text;
    marking the citation in the paragraph leaves this changed text. *)
Theorem split_run_repeats_tab :
  run_text TAB_RUN = py "See" ++ [9%N] ++ py "Smith (2009)."
  /\ run_text (fst (split_run TAB_RUN 16)) ++ run_text (snd (split_run TAB_RUN 16))
     = [9%N] ++ py "See" ++ [9%N] ++ py "Smith (2009)" ++ [9%N] ++ py "."
  /\ highlighted_spans
       (highlight_body_paragraph NOISE_WORDS_0 ∅ ∅ false INITIAL_HSTATE
          TAB_PARAGRAPH) = [(0, 16)]
  /\ para_text
       (h_para (highlight_body_paragraph NOISE_WORDS_0 ∅ ∅ false INITIAL_HSTATE
                  TAB_PARAGRAPH))
     = [9%N] ++ py "See" ++ [9%N] ++ py "Smith (2009)" ++ [9%N] ++ py "."
  /\ para_text
       (highlight_span_in_paragraph TAB_PARAGRAPH 0 16 YELLOW_HIGHLIGHT)
     <> para_text TAB_PARAGRAPH.
Proof. by_evaluation. Qed.

(** Where all the text of a paragraph is in [w:t] elements, splitting a run
    and marking a span keep the text, and marking paints exactly the span. *)
Lemma marking_keeps_plain_text :
  (forall r split_at,
      text_in_wt r ->
      run_text (fst (split_run r split_at)) ++ run_text (snd (split_run r split_at))
      = run_text r)
  /\ (forall para char_start char_end color_index,
        Forall text_in_wt (p_runs para) ->
        para_text (highlight_span_in_paragraph para char_start char_end color_index)
        = para_text para
        /\ char_marks (p_runs (highlight_span_in_paragraph para char_start
                                 char_end color_index))
           = paint char_start char_end color_index 0 (char_marks (p_runs para))).
Proof.
  split.
  - intros r k H. destruct (split_run_text r k H) as (Hl & Hr & _).
    rewrite Hl, Hr. apply firstn_skipn.
  - intros para a b color H.
    destruct (highlight_span_in_runs_spec (p_runs para) a b color H)
      as (_ & Hm & _).
    split; [exact (highlight_span_in_paragraph_text para a b color H)|].
    rewrite highlight_span_in_paragraph_runs. exact Hm.
Qed.

(** A reference entry with a zero-width space inside the year. *)
Definition INVISIBLE_YEAR_PARAGRAPH : paragraph :=
  {| p_children :=
       [P_r {| r_highlight := None; r_format := [];
               r_children :=
                 [W_t false (py "Klein, M. (19" ++ [8203%N]
                             ++ py "46). Envy and gratitude.")] |}];
     p_comments := [] |}.

Definition INITIAL_RSTATE : rstate :=
  {| cited_count := 0; fuzzy_count := 0; uncited_count := 0;
     uncited_list := []; r_fuzzy_list := [] |}.

(** C6 (the claim fails when the year shows only after normalization): the
    entry is classified as (Klein, 1946), its own text has no "(Year)", and
    the whole entry is marked. *)
Lemma reference_marked_to_the_end :
  reference_key INVISIBLE_YEAR_PARAGRAPH = Some (py "Klein", py "1946")
  /\ Re.search RE_YEAR_PAREN (para_text INVISIBLE_YEAR_PARAGRAPH) = None
  /\ reference_span_end INVISIBLE_YEAR_PARAGRAPH
     = length (para_text INVISIBLE_YEAR_PARAGRAPH)
  /\ char_marks
       (p_runs (snd (highlight_reference ∅ ∅ false INITIAL_RSTATE
                       INVISIBLE_YEAR_PARAGRAPH)))
     = repeat (Some RED_HIGHLIGHT) (length (para_text INVISIBLE_YEAR_PARAGRAPH)).
Proof. by_evaluation. Qed.

(** An entry whose author is a hyperlink: [para.text] reads
    "Klein, M. (1946). Envy.", [para.runs] hold " (1946). Envy." only. *)
Definition LINKED_ENTRY : paragraph :=
  {| p_children :=
       [P_hyperlink [{| r_highlight := None; r_format := [];
                        r_children := [W_t false (py "Klein, M.")] |}];
        P_r {| r_highlight := None; r_format := [];
               r_children := [W_t true (py " (1946). Envy.")] |}];
     p_comments := [] |}.

(** With a hyperlink before the year the span end, an offset into
    [para.text], is applied to the text of [para.runs], which is shorter:
    here the span ends after "(1946)" at offset 16 of the text, and the 14
    characters of the run, the title included, are all painted. *)
Lemma reference_hyperlink_moves_span :
  para_text LINKED_ENTRY = py "Klein, M. (1946). Envy."
  /\ runs_text (p_runs LINKED_ENTRY) = py " (1946). Envy."
  /\ reference_span_end LINKED_ENTRY = 16
  /\ char_marks
       (p_runs (snd (highlight_reference ∅ ∅ false INITIAL_RSTATE
                       LINKED_ENTRY)))
     = repeat (Some RED_HIGHLIGHT) 14.
Proof. by_evaluation. Qed.

(** C6, amended. For a reference paragraph that [highlight_references]
    classifies, that has no hyperlink and whose text is in [w:t] elements,
    the text is kept and exactly the characters from offset 0 up to the span
    end are painted with the colour of the class (green, cyan or red), the
    others keep their marking; the span end is the end of the first "(Year)"
    of the paragraph's own text when it has one, and the end of the paragraph
    otherwise. *)
Theorem reference_highlight_span
    (citation_set : gset key) (citation_fuzzy_lookup : gmap key (list key))
    (add_comments : bool) (st : rstate) (para : paragraph) (k : key) :
  no_hyperlink para ->
  Forall text_in_wt (p_runs para) ->
  reference_key para = Some k ->
  let para' := snd (highlight_reference citation_set citation_fuzzy_lookup
                      add_comments st para) in
  let span_end := reference_span_end para in
  match Re.search RE_YEAR_PAREN (para_text para) with
  | Some year_paren_match => span_end = Re.m_end year_paren_match
  | None => span_end = length (para_text para)
  end
  /\ para_text para' = para_text para
  /\ runs_text (p_runs para) = para_text para
  /\ exists color,
       color ∈ [GREEN_HIGHLIGHT; CYAN_HIGHLIGHT; RED_HIGHLIGHT]
       /\ char_marks (p_runs para')
          = paint 0 span_end color 0 (char_marks (p_runs para)).
Proof.
  intros Hlink Hplain Hkey para' span_end. subst para' span_end. split.
  - unfold reference_span_end. destruct (Re.search _ _); reflexivity.
  - unfold highlight_reference. rewrite Hkey. destruct k as [surname year].
    set (cls := fuzzy_match_reference surname year citation_set
                  citation_fuzzy_lookup).
    assert (Hgen : forall color,
               let p := highlight_span_in_paragraph para 0
                          (reference_span_end para) color in
               let p' := if add_comments && eqb_str color RED_HIGHLIGHT
                         then add_comment_to_span p 0 (reference_span_end para)
                                COMMENT_NOT_CITED
                         else p in
               para_text p' = para_text para
               /\ char_marks (p_runs p')
                  = paint 0 (reference_span_end para) color 0
                      (char_marks (p_runs para))).
    { intros color p p'.
      assert (Hruns : p_runs p' = p_runs p).
      { subst p'. destruct (add_comments && eqb_str color RED_HIGHLIGHT);
          [apply add_comment_to_span_runs | reflexivity]. }
      assert (Htext : para_text p' = para_text p).
      { subst p'. destruct (add_comments && eqb_str color RED_HIGHLIGHT);
          [apply add_comment_to_span_text | reflexivity]. }
      rewrite Htext, Hruns. subst p.
      rewrite highlight_span_in_paragraph_runs.
      destruct (highlight_span_in_runs_spec (p_runs para) 0
                  (reference_span_end para) color Hplain) as (_ & Hm & _).
      split; [apply highlight_span_in_paragraph_text; exact Hplain | exact Hm]. }
    pose proof (eq_sym (no_hyperlink_text para Hlink)) as Hsame.
    destruct cls as [k'|k'|]; cbn [snd].
    + destruct (Hgen GREEN_HIGHLIGHT) as [Ht Hm]. split; [exact Ht|].
      split; [exact Hsame|].
      exists GREEN_HIGHLIGHT. split; [|exact Hm]. apply list_elem_of_here.
    + destruct (Hgen CYAN_HIGHLIGHT) as [Ht Hm]. split; [exact Ht|].
      split; [exact Hsame|].
      exists CYAN_HIGHLIGHT. split; [|exact Hm].
      apply list_elem_of_further, list_elem_of_here.
    + destruct (Hgen RED_HIGHLIGHT) as [Ht Hm]. split; [exact Ht|].
      split; [exact Hsame|].
      exists RED_HIGHLIGHT. split; [|exact Hm].
      do 2 apply list_elem_of_further. apply list_elem_of_here.
Qed.

(** An ordinary reference entry. *)
Definition KLEIN_ENTRY : paragraph :=
  {| p_children :=
       [P_r {| r_highlight := None; r_format := [];
               r_children := [W_t false (py "Klein, M. (1946). Envy.")] |}];
     p_comments := [] |}.

(** C6 on the entry "Klein, M. (1946). Envy.". *)
Lemma reference_highlight_span_witness :
  match Re.search RE_YEAR_PAREN (para_text KLEIN_ENTRY) with
  | Some year_paren_match =>
      reference_span_end KLEIN_ENTRY = Re.m_end year_paren_match
  | None => reference_span_end KLEIN_ENTRY = length (para_text KLEIN_ENTRY)
  end
  /\ para_text (snd (highlight_reference ∅ ∅ false INITIAL_RSTATE KLEIN_ENTRY))
     = para_text KLEIN_ENTRY
  /\ runs_text (p_runs KLEIN_ENTRY) = para_text KLEIN_ENTRY
  /\ exists color,
       color ∈ [GREEN_HIGHLIGHT; CYAN_HIGHLIGHT; RED_HIGHLIGHT]
       /\ char_marks (p_runs (snd (highlight_reference ∅ ∅ false INITIAL_RSTATE
                                     KLEIN_ENTRY)))
          = paint 0 (reference_span_end KLEIN_ENTRY) color 0
              (char_marks (p_runs KLEIN_ENTRY)).
Proof.
  apply (reference_highlight_span ∅ ∅ false INITIAL_RSTATE KLEIN_ENTRY
           (py "Klein", py "1946")).
  - reflexivity.
  - repeat constructor.
  - vm_compute. reflexivity.
Defined.

(** ** What a match and its groups consist of *)

Module ReFacts.

Import Re.

(** A constraint on characters; [None] constrains nothing. *)
Definition holds (q : option (N -> bool)) (c : N) : bool :=
  match q with
  | Some f => f c
  | None => true
  end.

Definition both (q1 q2 : option (N -> bool)) : option (N -> bool) :=
  match q1, q2 with
  | None, q | q, None => q
  | Some f, Some g => Some (fun c => f c && g c)
  end.

(** The code points from [lo] to [hi]. *)
Definition enum (lo hi : N) : list N :=
  List.map N.of_nat (seq (N.to_nat lo) (N.to_nat hi + 1 - N.to_nat lo)).

(** Every character of the item satisfies [f] (decided for single characters,
    ranges and digits). *)
Definition item_in (f : N -> bool) (it : citem) : bool :=
  match it with
  | IChar a => f a
  | IRange lo hi => forallb f (enum lo hi)
  | IDigit => forallb f (enum 48 57)
  | ISpace | IWord => false
  end.

(** Every character the expression can consume satisfies [q]. *)
Fixpoint chars_in (q : option (N -> bool)) (r : regex) : bool :=
  match r with
  | Eps | Bos | Eos | NLook _ => true
  | Lit a => holds q a
  | Dot => match q with None => true | Some _ => false end
  | Cls neg items =>
      match q with
      | None => true
      | Some f => negb neg && forallb (item_in f) items
      end
  | Cat r1 r2 | Alt r1 r2 => chars_in q r1 && chars_in q r2
  | Rep _ _ r1 | Grp _ r1 => chars_in q r1
  end.

(** Every group [g] of the expression consumes characters of [Q g] only. *)
Fixpoint groups_in (Q : nat -> option (N -> bool)) (r : regex) : bool :=
  match r with
  | Grp g r1 => chars_in (Q g) r1 && groups_in Q r1
  | Cat r1 r2 | Alt r1 r2 => groups_in Q r1 && groups_in Q r2
  | Rep _ _ r1 => groups_in Q r1
  | _ => true
  end.

Lemma enum_spec (lo hi c : N) :
  (lo <= c)%N -> (c <= hi)%N -> In c (enum lo hi).
Proof.
  intros H1 H2. unfold enum. apply in_map_iff. exists (N.to_nat c).
  split; [apply N2Nat.id|]. apply in_seq. lia.
Qed.

Lemma item_in_spec (f : N -> bool) (it : citem) (c : N) :
  item_in f it = true -> in_item it c = true -> f c = true.
Proof.
  destruct it as [a|lo hi| | |]; cbn [item_in in_item]; intros Hf Hc;
    try discriminate.
  - apply N.eqb_eq in Hc. subst. exact Hf.
  - apply andb_true_iff in Hc as [H1 H2].
    apply N.leb_le in H1. apply N.leb_le in H2.
    rewrite forallb_forall in Hf. apply Hf, enum_spec; assumption.
  - unfold is_ascii_digit in Hc. apply andb_true_iff in Hc as [H1 H2].
    apply N.leb_le in H1. apply N.leb_le in H2.
    rewrite forallb_forall in Hf. apply Hf, enum_spec; assumption.
Qed.

Lemma chars_in_and (f g : N -> bool) (r : regex) :
  chars_in (Some f) r = true -> chars_in (Some g) r = true ->
  chars_in (Some (fun c => f c && g c)) r = true.
Proof.
  induction r as [| a | | neg items | r1 IH1 r2 IH2 | r1 IH1 r2 IH2
                 | lo hi r1 IH | g0 r1 IH | r1 IH | |];
    cbn [chars_in holds]; intros H1 H2; auto.
  - rewrite H1, H2. reflexivity.
  - apply andb_true_iff in H1 as [Hn H1]. apply andb_true_iff in H2 as [_ H2].
    rewrite Hn. cbn [andb]. rewrite forallb_forall in *. intros it Hit.
    specialize (H1 it Hit). specialize (H2 it Hit).
    destruct it as [a|lo hi| | |]; cbn [item_in] in *; try discriminate.
    + rewrite H1, H2. reflexivity.
    + rewrite forallb_forall in *. intros c Hc.
      rewrite (H1 c Hc), (H2 c Hc). reflexivity.
    + rewrite forallb_forall in *. intros c Hc.
      rewrite (H1 c Hc), (H2 c Hc). reflexivity.
  - apply andb_true_iff in H1 as [H1a H1b]. apply andb_true_iff in H2 as [H2a H2b].
    rewrite IH1, IH2 by assumption. reflexivity.
  - apply andb_true_iff in H1 as [H1a H1b]. apply andb_true_iff in H2 as [H2a H2b].
    rewrite IH1, IH2 by assumption. reflexivity.
Qed.

Lemma chars_in_both (q1 q2 : option (N -> bool)) (r : regex) :
  chars_in q1 r = true -> chars_in q2 r = true ->
  chars_in (both q1 q2) r = true.
Proof.
  destruct q1 as [f|]; [|intros _ H; exact H].
  destruct q2 as [g|]; [|intros H _; exact H].
  apply chars_in_and.
Qed.

Lemma holds_both (q1 q2 : option (N -> bool)) (seg : list N) :
  forallb (holds (both q1 q2)) seg = true ->
  forallb (holds q1) seg = true /\ forallb (holds q2) seg = true.
Proof.
  rewrite !forallb_forall. intros H. split; intros c Hc; specialize (H c Hc);
    destruct q1 as [f|], q2 as [g|]; simpl in *; auto;
    apply andb_true_iff in H; tauto.
Qed.

Section Sound.

Variable Q : nat -> option (N -> bool).
Variable text : list N.

(** Every recorded group lies in the subject and consists of characters of
    its constraint. *)
Definition caps_ok (c : caps) : Prop :=
  Forall (fun e => forallb (holds (Q (fst e))) (slice (fst (snd e)) (snd (snd e)) text)
                   = true) c.

Lemma slice_segment (pre seg rest' : list N) :
  text = pre ++ seg ++ rest' ->
  slice (length text - length (seg ++ rest')) (length text - length rest') text
  = seg.
Proof.
  intros ->. unfold slice. rewrite !length_app.
  replace (length pre + (length seg + length rest') - (length seg + length rest'))
    with (length pre) by lia.
  replace (length pre + (length seg + length rest') - length rest' - length pre)
    with (length seg) by lia.
  rewrite drop_app_length. apply take_app_length.
Qed.

Lemma mt_sound (r : regex) :
  forall q, chars_in q r = true -> groups_in Q r = true ->
  forall pre rest c k res,
    text = pre ++ rest -> caps_ok c ->
    mt false (length text) r rest c k = Some res ->
    exists seg rest' c',
      rest = seg ++ rest' /\ forallb (holds q) seg = true
      /\ caps_ok c' /\ k rest' c' = Some res.
Proof.
  induction r as [| a | | neg items | r1 IH1 r2 IH2 | r1 IH1 r2 IH2
                 | lo hi r1 IH | g r1 IH | r1 IH | |];
    intros q Hq HQ pre rest c k res Htext Hc H.
  - (* Eps *) exists [], rest, c. auto.
  - (* Lit *) cbn [mt] in H. destruct rest as [|x t]; [discriminate|].
    unfold lit_eq in H. destruct (a =? x)%N eqn:E; [|discriminate].
    apply N.eqb_eq in E. subst x. exists [a], t, c. simpl in Hq |- *.
    rewrite Hq. auto.
  - (* Dot *) cbn [mt] in H. destruct rest as [|x t]; [discriminate|].
    destruct (x =? 10)%N; [discriminate|]. exists [x], t, c.
    destruct q; [discriminate|]. auto.
  - (* Cls *) cbn [mt] in H. destruct rest as [|x t]; [discriminate|].
    destruct (xorb neg (in_items false items x)) eqn:E; [|discriminate].
    exists [x], t, c. repeat split; auto.
    destruct q as [f|]; [|reflexivity]. simpl in Hq |- *.
    apply andb_true_iff in Hq as [Hn Hitems]. apply negb_true_iff in Hn.
    subst neg. simpl in E. unfold in_items in E.
    apply existsb_exists in E as (it & Hit & Hin).
    rewrite orb_false_r in Hin. rewrite forallb_forall in Hitems.
    rewrite (item_in_spec f it x (Hitems it Hit) Hin). reflexivity.
  - (* Cat *) cbn [mt] in H. simpl in Hq, HQ.
    apply andb_true_iff in Hq as [Hq1 Hq2]. apply andb_true_iff in HQ as [HQ1 HQ2].
    destruct (IH1 q Hq1 HQ1 pre rest c _ res Htext Hc H)
      as (seg1 & rest1 & c1 & -> & Hs1 & Hc1 & H1).
    destruct (IH2 q Hq2 HQ2 (pre ++ seg1) rest1 c1 k res) as
      (seg2 & rest2 & c2 & -> & Hs2 & Hc2 & H2); auto.
    { rewrite <- app_assoc. exact Htext. }
    exists (seg1 ++ seg2), rest2, c2. rewrite <- app_assoc, forallb_app, Hs1, Hs2.
    auto.
  - (* Alt *) cbn [mt] in H. simpl in Hq, HQ.
    apply andb_true_iff in Hq as [Hq1 Hq2]. apply andb_true_iff in HQ as [HQ1 HQ2].
    match type of H with
    | match ?M with _ => _ end = _ => destruct M as [x|] eqn:E
    end.
    + rewrite <- H. eapply IH1; eauto.
    + eapply IH2; eauto.
  - (* Rep *) cbn [mt] in H. simpl in Hq, HQ.
    revert H. generalize 0 as cnt. generalize (S (length rest)) as fuel.
    intros fuel; revert pre rest c Htext Hc.
    induction fuel as [|fuel IHf]; intros pre rest c Htext Hc cnt H;
      [discriminate H|].
    cbn [rep_loop] in H. cbv zeta in H.
    destruct (below cnt hi).
    + match type of H with
      | match ?M with _ => _ end = _ => destruct M as [x|] eqn:E
      end.
      * rewrite H in E.
        destruct (IH q Hq HQ pre rest c _ res Htext Hc E)
          as (seg1 & rest1 & c1 & -> & Hs1 & Hc1 & H1).
        destruct (length rest1 <? length (seg1 ++ rest1)); [|discriminate].
        destruct (IHf (pre ++ seg1) rest1 c1) with (cnt := S cnt)
          as (seg2 & rest2 & c2 & -> & Hs2 & Hc2 & H2); auto.
        { rewrite <- app_assoc. exact Htext. }
        exists (seg1 ++ seg2), rest2, c2.
        rewrite <- app_assoc, forallb_app, Hs1, Hs2. auto.
      * destruct (lo <=? cnt); [|discriminate]. exists [], rest, c. auto.
    + destruct (lo <=? cnt); [|discriminate]. exists [], rest, c. auto.
  - (* Grp *) cbn [mt] in H. simpl in Hq, HQ.
    apply andb_true_iff in HQ as [HQg HQ1].
    destruct (IH (both q (Q g)) (chars_in_both _ _ _ Hq HQg) HQ1 pre rest c _ res
                Htext Hc H) as (seg & rest' & c' & -> & Hs & Hc' & H').
    apply holds_both in Hs as [Hs1 Hs2].
    exists seg, rest', ((g, (length text - length (seg ++ rest'),
                            length text - length rest')) :: c').
    repeat split; auto. constructor; [|exact Hc']. cbn [fst snd].
    rewrite (slice_segment pre seg rest' Htext). exact Hs2.
  - (* NLook *) cbn [mt] in H.
    match type of H with
    | match ?M with _ => _ end = _ => destruct M as [x|] eqn:E
    end; [discriminate|].
    exists [], rest, c. auto.
  - (* Bos *) cbn [mt] in H. destruct (length rest =? length text); [|discriminate].
    exists [], rest, c. auto.
  - (* Eos *) cbn [mt] in H. destruct rest as [|x [|y t]]; try discriminate.
    + exists [], [], c. auto.
    + destruct (x =? 10)%N; [|discriminate]. exists [], [x], c. auto.
Qed.

Lemma chars_in_none (r : regex) : chars_in None r = true.
Proof.
  induction r; simpl; auto; rewrite ?IHr1, ?IHr2; reflexivity.
Qed.

(** A match lies in the subject and its groups satisfy their constraints. *)
Definition match_ok (m : rmatch) : Prop :=
  caps_ok (m_caps m) /\ m_start m <= m_end m /\ m_end m <= length text.

Lemma match_here_ok (r : regex) (pre rest : list N) (m : rmatch) :
  groups_in Q r = true -> text = pre ++ rest ->
  match_here false (length text) r rest = Some m ->
  match_ok m /\ m_start m = length pre.
Proof.
  intros HQ Htext H. unfold match_here in H.
  destruct (mt false (length text) r rest []
              (fun rest' c' => Some (length text - length rest', c')))
    as [[e c]|] eqn:E; [|discriminate].
  injection H as <-.
  assert (Hnil : caps_ok []) by constructor.
  destruct (mt_sound r None (chars_in_none r) HQ pre rest [] _ _ Htext
              Hnil E) as (seg & rest' & c' & -> & _ & Hc' & Hk).
  injection Hk as <- <-. unfold match_ok. cbn [m_caps m_start m_end].
  rewrite Htext, !length_app. repeat split; [exact Hc' | lia | lia | lia].
Qed.

Lemma scan_ok (r : regex) (rest pre : list N) (m : rmatch) :
  groups_in Q r = true -> text = pre ++ rest ->
  scan false (length text) r rest = Some m ->
  match_ok m /\ length pre <= m_start m.
Proof.
  intros HQ. revert pre; induction rest as [|x t IH]; intros pre Htext H;
    cbn [scan] in H.
  - destruct (match_here false (length text) r []) as [m'|] eqn:E;
      [|discriminate].
    injection H as ->. destruct (match_here_ok r pre [] m HQ Htext E) as [Hm Hs].
    split; [exact Hm | lia].
  - destruct (match_here false (length text) r (x :: t)) as [m'|] eqn:E.
    + injection H as ->.
      destruct (match_here_ok r pre (x :: t) m HQ Htext E) as [Hm Hs].
      split; [exact Hm | lia].
    + destruct (IH (pre ++ [x])) as [Hm Hs]; auto.
      { rewrite <- app_assoc. exact Htext. }
      split; [exact Hm|]. rewrite length_app in Hs. simpl in Hs. lia.
Qed.

Lemma search_from_ok (r : regex) (pos : nat) (m : rmatch) :
  groups_in Q r = true ->
  search_from false r text pos = Some m ->
  match_ok m /\ pos <= m_start m.
Proof.
  intros HQ H. unfold search_from in H.
  destruct (pos <=? length text) eqn:E; [|discriminate].
  apply Nat.leb_le in E.
  destruct (scan_ok r (skipn pos text) (firstn pos text) m HQ) as [Hm Hs]; auto.
  { symmetry. apply firstn_skipn. }
  split; [exact Hm|]. rewrite length_firstn in Hs. lia.
Qed.

Lemma finditer_from_ok (r : regex) (fuel pos : nat) (m : rmatch) :
  groups_in Q r = true ->
  m ∈ finditer_from false r text fuel pos ->
  match_ok m /\ pos <= m_start m.
Proof.
  intros HQ. revert pos; induction fuel as [|fuel IH]; intros pos H;
    cbn [finditer_from] in H.
  - apply elem_of_nil in H. contradiction.
  - destruct (search_from false r text pos) as [m'|] eqn:E.
    + destruct (search_from_ok r pos m' HQ E) as [Hm' Hs'].
      apply elem_of_cons in H as [->|H]; [split; assumption|].
      apply IH in H as [Hm Hs]. split; [exact Hm|].
      destruct Hm' as (_ & Hse & _).
      destruct (m_end m' =? m_start m'); lia.
    + apply elem_of_nil in H. contradiction.
Qed.

Lemma finditer_ok (r : regex) (m : rmatch) :
  groups_in Q r = true -> m ∈ finditer r text -> match_ok m.
Proof.
  intros HQ H. eapply finditer_from_ok; eassumption.
Qed.

Lemma group_ok (m : rmatch) (g : nat) :
  match_ok m -> forallb (holds (Q g)) (group text m g) = true.
Proof.
  intros (Hc & _). unfold group.
  destruct (List.find (fun e => fst e =? g) (m_caps m)) as [[g' [a b]]|] eqn:E;
    [|reflexivity].
  apply find_some in E as [Hin Hg]. cbn [fst] in Hg.
  apply Nat.eqb_eq in Hg. subst g'.
  unfold caps_ok in Hc. rewrite Forall_forall in Hc.
  apply (Hc (g, (a, b))). apply list_elem_of_In. exact Hin.
Qed.

End Sound.

(** The groups of the matches of [re.finditer]. *)
Lemma finditer_group (Q : nat -> option (N -> bool)) (r : regex)
    (text : list N) (m : rmatch) (g : nat) :
  groups_in Q r = true -> m ∈ finditer r text ->
  forallb (holds (Q g)) (group text m g) = true.
Proof.
  intros HQ Hm. apply group_ok. eapply finditer_ok; eassumption.
Qed.

End ReFacts.

(** ** White space at the ends of a string *)

Definition first_ok (s : list N) : Prop :=
  match s with
  | c :: _ => isspace c = false
  | [] => True
  end.

(** No white space at either end: what [s.strip()] leaves. *)
Definition edges_ok (s : list N) : Prop := first_ok s /\ first_ok (rev s).

Definition no_space (s : list N) : bool :=
  forallb (fun c => negb (isspace c)) s.

Lemma lstrip_first_ok (s : list N) : first_ok s -> lstrip s = s.
Proof. destruct s as [|c t]; simpl; [reflexivity|]. intros ->. reflexivity. Qed.

Lemma first_ok_lstrip (s : list N) : first_ok (lstrip s).
Proof.
  induction s as [|c t IH]; simpl; [exact I|].
  destruct (isspace c) eqn:E; [exact IH | exact E].
Qed.

Lemma first_ok_app (l x : list N) : l <> [] -> first_ok (l ++ x) <-> first_ok l.
Proof. destruct l; [congruence | reflexivity]. Qed.

Lemma lstrip_snoc (l : list N) (c : N) :
  isspace c = false -> exists l', lstrip (l ++ [c]) = l' ++ [c].
Proof.
  intros Hc. induction l as [|x t IH]; simpl.
  - rewrite Hc. exists []. reflexivity.
  - destruct (isspace x); [exact IH|]. exists (x :: t). reflexivity.
Qed.

Lemma strip_edges (s : list N) : edges_ok s -> strip s = s.
Proof.
  intros [H1 H2]. unfold strip, rstrip.
  rewrite (lstrip_first_ok s H1), (lstrip_first_ok _ H2). apply rev_involutive.
Qed.

Lemma edges_strip (s : list N) : edges_ok (strip s).
Proof.
  unfold strip, rstrip. split.
  - pose proof (first_ok_lstrip s) as H. destruct (lstrip s) as [|c t]; [exact I|].
    simpl in H. cbn [rev].
    destruct (lstrip_snoc (rev t) c H) as [l' ->].
    rewrite rev_app_distr. simpl. exact H.
  - rewrite rev_involutive. apply first_ok_lstrip.
Qed.

Lemma no_space_edges (s : list N) : no_space s = true -> edges_ok s.
Proof.
  unfold no_space. intros H. split.
  - destruct s as [|c t]; [exact I|]. simpl in H.
    apply andb_true_iff in H as [H _]. apply negb_true_iff in H. exact H.
  - assert (Hr : forallb (fun c => negb (isspace c)) (rev s) = true).
    { rewrite forallb_forall in *. intros c Hc. apply H, in_rev, Hc. }
    destruct (rev s) as [|c t]; [exact I|]. simpl in Hr.
    apply andb_true_iff in Hr as [Hr _]. apply negb_true_iff in Hr. exact Hr.
Qed.

Lemma lower_not_space (c : N) : is_ascii_lower c = true -> isspace c = false.
Proof.
  unfold is_ascii_lower, isspace. rewrite andb_true_iff, !N.leb_le. intros [H1 H2].
  repeat (apply orb_false_iff; split);
    rewrite ?andb_false_iff, ?N.leb_gt, ?N.eqb_neq; lia.
Qed.

Lemma isspace_upper (c : N) : isspace (upper_char c) = isspace c.
Proof.
  unfold upper_char. destruct (is_ascii_lower c) eqn:E; [|reflexivity].
  rewrite (lower_not_space c E).
  unfold is_ascii_lower in E. apply andb_true_iff in E as [H1 H2].
  apply N.leb_le in H1. apply N.leb_le in H2. unfold isspace.
  repeat (apply orb_false_iff; split);
    rewrite ?andb_false_iff, ?N.leb_gt, ?N.eqb_neq; lia.
Qed.

Lemma lower_upper_char (c : N) : lower_char (upper_char c) = lower_char c.
Proof.
  unfold lower_char, upper_char, is_ascii_upper, is_ascii_lower.
  destruct ((97 <=? c)%N && (c <=? 122)%N) eqn:E.
  - apply andb_true_iff in E as [H1 H2].
    apply N.leb_le in H1. apply N.leb_le in H2.
    replace ((65 <=? c - 32)%N && (c - 32 <=? 90)%N) with true
      by (symmetry; apply andb_true_iff; rewrite !N.leb_le; lia).
    replace ((65 <=? c)%N && (c <=? 90)%N) with false
      by (symmetry; apply andb_false_iff; rewrite !N.leb_gt; lia).
    lia.
  - reflexivity.
Qed.

Lemma upper_char_not_lower (c : N) : is_ascii_lower (upper_char c) = false.
Proof.
  unfold upper_char. destruct (is_ascii_lower c) eqn:E; [|exact E].
  unfold is_ascii_lower in *. apply andb_true_iff in E as [H1 H2].
  apply N.leb_le in H1. apply N.leb_le in H2.
  apply andb_false_iff. rewrite !N.leb_gt. lia.
Qed.

(** [normalize_surname] gives a string without white space at its ends. *)
Lemma normalize_surname_edges (s : list N) : edges_ok (normalize_surname s).
Proof.
  unfold normalize_surname. pose proof (edges_strip s) as [H1 H2].
  destruct (strip s) as [|c [|c2 t]].
  - split; exact I.
  - simpl in H1. split; simpl; rewrite isspace_upper; exact H1.
  - split.
    + simpl. rewrite isspace_upper. exact H1.
    + change (rev (upper_char c :: c2 :: t))
        with (rev (c2 :: t) ++ [upper_char c]).
      change (rev (c :: c2 :: t)) with (rev (c2 :: t) ++ [c]) in H2.
      assert (Hne : rev (c2 :: t) <> []).
      { simpl. destruct (rev t); discriminate. }
      apply first_ok_app; [exact Hne|]. apply (first_ok_app _ [c]); assumption.
Qed.

(** The tokens of [s.split()] are not empty and hold no white space. *)
Lemma split_ws_aux_tokens (s cur tok : list N) :
  no_space cur = true ->
  tok ∈ split_ws_aux cur s -> tok <> [] /\ no_space tok = true.
Proof.
  assert (Hrev : forall cur, cur <> [] -> no_space cur = true ->
                             rev cur <> [] /\ no_space (rev cur) = true).
  { intros l Hl Hn. split.
    - intros H. apply Hl. rewrite <- (rev_involutive l), H. reflexivity.
    - unfold no_space in *. rewrite forallb_forall in *.
      intros c Hc. apply Hn, in_rev. exact Hc. }
  revert cur; induction s as [|c t IH]; intros cur Hcur H; cbn [split_ws_aux] in H.
  - destruct cur as [|x l]; [apply elem_of_nil in H; contradiction|].
    apply list_elem_of_singleton in H. subst tok. apply Hrev; [discriminate|exact Hcur].
  - destruct (isspace c) eqn:E.
    + destruct cur as [|x l]; [apply (IH []); [reflexivity | exact H]|].
      apply elem_of_cons in H as [->|H].
      * apply Hrev; [discriminate | exact Hcur].
      * apply (IH []); [reflexivity | exact H].
    + apply (IH (c :: cur)); [|exact H]. unfold no_space in *. simpl.
      rewrite E. exact Hcur.
Qed.

Lemma split_ws_tokens (s tok : list N) :
  tok ∈ split_ws s -> tok <> [] /\ no_space tok = true.
Proof. apply split_ws_aux_tokens. reflexivity. Qed.

Lemma token_edges (prev last : list N) :
  prev <> [] -> no_space prev = true -> last <> [] -> no_space last = true ->
  edges_ok (prev ++ py " " ++ last).
Proof.
  intros Hp Hnp Hl Hnl. split.
  - apply first_ok_app; [exact Hp|]. apply no_space_edges, Hnp.
  - rewrite !rev_app_distr, <- app_assoc.
    apply first_ok_app.
    + intros H. apply Hl. rewrite <- (rev_involutive last), H. reflexivity.
    + apply no_space_edges, Hnl.
Qed.

Lemma index_str_lt (x : list N) (l : list (list N)) (i : nat) :
  index_str x l = Some i -> i < length l.
Proof.
  revert i; induction l as [|y t IH]; intros i; simpl; [discriminate|].
  destruct (eqb_str y x).
  - intros [= <-]. lia.
  - destruct (index_str x t) as [j|]; [|discriminate].
    intros [= <-]. specialize (IH j eq_refl). lia.
Qed.

Lemma last_of_filter {A : Type} (f : A -> bool) (l : list A) (d : A) :
  1 <= length (List.filter f l) -> In (List.last (List.filter f l) d) l.
Proof.
  intros H. assert (Hin : In (List.last (List.filter f l) d) (List.filter f l)).
  { destruct (List.filter f l) as [|x l'] eqn:Ef; [simpl in H; lia|].
    destruct (exists_last (l := x :: l')) as (l'' & a & ->); [discriminate|].
    rewrite last_last. apply in_or_app. right. left. reflexivity. }
  apply filter_In in Hin as [Hin _]. exact Hin.
Qed.

(** [first_surname] gives a string without white space at its ends. *)
Lemma first_surname_edges (author_str : list N) :
  edges_ok (first_surname author_str).
Proof.
  unfold first_surname.
  set (s := strip (rstrip_char 46 (strip (strip _)))).
  destruct (split_ws s) as [|first rest] eqn:Eparts;
    [apply normalize_surname_edges|].
  set (parts := first :: rest) in *. rewrite <- Eparts.
  rewrite Eparts.
  destruct (2 <=? length (cap_parts parts)) eqn:E2;
    [|apply normalize_surname_edges].
  destruct (index_str (List.last (cap_parts parts) []) parts) as [[|i]|] eqn:Ei;
    try apply normalize_surname_edges.
  destruct (mem_str _ PARTICLES); [|apply normalize_surname_edges].
  assert (Htok : forall tok, tok ∈ parts -> tok <> [] /\ no_space tok = true).
  { intros tok Htok. apply (split_ws_tokens s). rewrite Eparts. exact Htok. }
  assert (Hlast : List.last (cap_parts parts) [] ∈ parts).
  { apply Nat.leb_le in E2. apply list_elem_of_In.
    unfold cap_parts in *. apply last_of_filter. lia. }
  assert (Hprev : nth i parts [] ∈ parts).
  { apply list_elem_of_In, nth_In. apply index_str_lt in Ei. lia. }
  destruct (Htok _ Hlast) as [Hl1 Hl2]. destruct (Htok _ Hprev) as [Hp1 Hp2].
  apply token_edges; assumption.
Qed.

(** ** The surnames of the key sets (C5) *)

Section Surnames.

Variable NOISE_WORDS : gset (list N).

(** A surname as the recognizers add it: not a noise word, no white space at
    its ends. *)
Definition good (s : list N) : Prop :=
  is_noise NOISE_WORDS s = false /\ edges_ok s.

Definition good_keys (ks : list key) : Prop :=
  Forall (fun k : key => good (fst k)) ks.

Lemma good_years (s : list N) (years : list (list N)) :
  good s -> good_keys (List.map (fun y => (s, y)) years).
Proof.
  intros H. unfold good_keys. rewrite Forall_forall. intros k Hk.
  apply list_elem_of_In, in_map_iff in Hk as (y & <- & _). exact H.
Qed.

Lemma good_first_surname (a : list N) :
  negb (is_noise NOISE_WORDS (first_surname a)) = true -> good (first_surname a).
Proof.
  intros H. apply negb_true_iff in H. split; [exact H | apply first_surname_edges].
Qed.

Lemma paren_part_good (last_author : option (list N)) (part : list N) :
  (forall a, last_author = Some a -> good a) ->
  (forall a, fst (paren_part NOISE_WORDS last_author part) = Some a -> good a)
  /\ good_keys (snd (paren_part NOISE_WORDS last_author part)).
Proof.
  intros Hla. unfold paren_part.
  destruct (years_of (strip part)) as [|y ys]; [split; [exact Hla | constructor]|].
  destruct (has_author _).
  - destruct (negb (is_noise NOISE_WORDS (first_surname _))) eqn:E.
    + apply good_first_surname in E.
      generalize dependent (first_surname (author_part_of (strip part))).
      intros sn Hsn. split.
      * intros a [= <-]. exact Hsn.
      * apply good_years, Hsn.
    + split; [exact Hla | constructor].
  - destruct last_author as [a|]; [|split; [exact Hla | constructor]].
    split; [exact Hla|]. apply good_years, Hla. reflexivity.
Qed.

Lemma paren_parts_good (parts : list (list N)) (last_author : option (list N)) :
  (forall a, last_author = Some a -> good a) ->
  good_keys (paren_parts NOISE_WORDS last_author parts).
Proof.
  revert last_author; induction parts as [|part rest IH]; intros la Hla;
    cbn [paren_parts]; [constructor|].
  destruct (paren_part_good la part Hla) as [H1 H2].
  destruct (paren_part NOISE_WORDS la part) as [la' ks]. cbn [fst snd] in *.
  apply Forall_app. split; [exact H2 | apply IH, H1].
Qed.

Lemma paren_block_keys_good (block : list N) :
  good_keys (paren_block_keys NOISE_WORDS block).
Proof. apply paren_parts_good. discriminate. Qed.

Lemma good_flat_map {A : Type} (f : A -> list key) (l : list A) :
  (forall x, good_keys (f x)) -> good_keys (List.flat_map f l).
Proof.
  intros H. induction l as [|x l IH]; simpl; [constructor|].
  apply Forall_app. split; [apply H | exact IH].
Qed.

Lemma bracket_block_keys_good (block : list N) :
  good_keys (bracket_block_keys NOISE_WORDS block).
Proof.
  apply good_flat_map. intros part. unfold bracket_part.
  destruct (years_of (strip part)); [constructor|].
  destruct (has_author _); [|constructor].
  destruct (negb (is_noise NOISE_WORDS (first_surname _))) eqn:E; [|constructor].
  apply good_years, good_first_surname, E.
Qed.

Lemma subject_block_keys_good (subject paren_content : list N) :
  edges_ok subject ->
  good_keys (subject_block_keys NOISE_WORDS subject paren_content).
Proof.
  intros Hs. apply good_flat_map. intros part. unfold subject_part.
  destruct (years_of (strip part)); [constructor|].
  destruct (has_author _).
  - destruct (negb (is_noise NOISE_WORDS (first_surname _))) eqn:E; [|constructor].
    apply good_years, good_first_surname, E.
  - destruct (negb (is_noise NOISE_WORDS subject)) eqn:E; [|constructor].
    apply good_years. apply negb_true_iff in E. split; assumption.
Qed.

Lemma narrative_keys_good (text : list N) (m : Re.rmatch) :
  good_keys (narrative_keys NOISE_WORDS text m).
Proof.
  unfold narrative_keys.
  destruct (negb (is_noise NOISE_WORDS (first_surname _))) eqn:E; [|constructor].
  apply good_years, good_first_surname, E.
Qed.

Lemma bracket_keys_good (text : list N) (m : Re.rmatch) :
  good_keys (bracket_keys NOISE_WORDS text m).
Proof.
  unfold bracket_keys.
  destruct (negb (is_noise NOISE_WORDS (first_surname _))) eqn:E; [|constructor].
  constructor; [|constructor]. apply good_first_surname, E.
Qed.

Lemma lowercase_keys_good (text : list N) (m : Re.rmatch) :
  good_keys (lowercase_keys NOISE_WORDS text m).
Proof.
  unfold lowercase_keys.
  destruct (negb (is_noise NOISE_WORDS (normalize_surname _))) eqn:E;
    [|constructor].
  constructor; [|constructor]. apply negb_true_iff in E.
  split; [exact E | apply normalize_surname_edges].
Qed.

(** The group that names the subject holds no white space. *)
Definition subject_group (g0 : nat) (g : nat) : option (N -> bool) :=
  if g =? g0 then Some (fun c => negb (isspace c)) else None.

Lemma subject_edges (r : Re.regex) (g0 : nat) (text : list N) (m : Re.rmatch) :
  ReFacts.groups_in (subject_group g0) r = true ->
  m ∈ Re.finditer r text ->
  edges_ok (Re.group text m g0).
Proof.
  intros HQ Hm. apply no_space_edges.
  pose proof (ReFacts.finditer_group (subject_group g0) r text m g0 HQ Hm) as H.
  unfold subject_group in H. rewrite Nat.eqb_refl in H. exact H.
Qed.

Lemma add_keys_elem (ks : list key) (cs : gset key) (k : key) :
  k ∈ add_keys cs ks <-> k ∈ cs \/ k ∈ ks.
Proof.
  unfold add_keys. revert cs; induction ks as [|x ks IH]; intros cs; simpl.
  - rewrite elem_of_nil. tauto.
  - rewrite IH, elem_of_union, elem_of_singleton, elem_of_cons. tauto.
Qed.

Definition all_good (cs : gset key) : Prop := forall k, k ∈ cs -> good (fst k).

Lemma add_keys_good (cs : gset key) (ks : list key) :
  all_good cs -> good_keys ks -> all_good (add_keys cs ks).
Proof.
  intros Hcs Hks k Hk. apply add_keys_elem in Hk as [Hk|Hk]; [apply Hcs, Hk|].
  unfold good_keys in Hks. rewrite Forall_forall in Hks. apply (Hks k Hk).
Qed.

Lemma extracted_good (plain_text : list N) (k : key) :
  k ∈ extract_citations_from_text NOISE_WORDS plain_text ->
  exists s, good s /\ k = (normalize_surname s, snd k).
Proof.
  unfold extract_citations_from_text. intros Hk.
  apply elem_of_map in Hk as (k0 & -> & Hk0). exists (fst k0).
  split; [|reflexivity]. revert k0 Hk0.
  change (all_good
    (foldl (fun cs m => add_keys cs (lowercase_keys NOISE_WORDS
                                       (normalize_text plain_text) m))
       (foldl (fun cs m =>
                 add_keys cs (subject_block_keys NOISE_WORDS
                                (Re.group (normalize_text plain_text) m 1)
                                (Re.group (normalize_text plain_text) m 2)))
          (foldl (fun cs m =>
                    add_keys cs (subject_block_keys NOISE_WORDS
                                   (Re.group (normalize_text plain_text) m 1)
                                   (Re.group (normalize_text plain_text) m 2)))
             (foldl (fun cs m =>
                       add_keys cs (bracket_block_keys NOISE_WORDS
                                      (Re.group (normalize_text plain_text) m 1)))
                (foldl (fun cs m =>
                          add_keys cs (bracket_keys NOISE_WORDS
                                         (normalize_text plain_text) m))
                   (foldl (fun cs m =>
                             add_keys cs (subject_block_keys NOISE_WORDS
                                            (Re.group (normalize_text plain_text) m 2)
                                            (Re.group (normalize_text plain_text) m 3)))
                      (foldl (fun cs m =>
                                add_keys cs (narrative_keys NOISE_WORDS
                                               (normalize_text plain_text) m))
                         (foldl (fun cs block =>
                                   add_keys cs (paren_block_keys NOISE_WORDS block))
                            ∅ (Re.findall1 RE_PAREN_BLOCK
                                 (normalize_text plain_text)))
                         (Re.finditer RE_NARRATIVE (normalize_text plain_text)))
                      (Re.finditer RE_POSSESSIVE (normalize_text plain_text)))
                   (Re.finditer RE_BRACKET (normalize_text plain_text)))
                (Re.finditer RE_BRACKET_BLOCK (normalize_text plain_text)))
             (Re.finditer RE_COLLEAGUES (normalize_text plain_text)))
          (Re.finditer RE_ET_AL (normalize_text plain_text)))
       (Re.finditer RE_LOWERCASE (normalize_text plain_text)))).
  apply foldl_invariant;
    [|intros cs m _ H; apply add_keys_good, lowercase_keys_good; exact H].
  apply foldl_invariant;
    [|intros cs m Hm H; apply add_keys_good, subject_block_keys_good;
      [exact H | apply (subject_edges RE_ET_AL 1); [reflexivity | exact Hm]]].
  apply foldl_invariant;
    [|intros cs m Hm H; apply add_keys_good, subject_block_keys_good;
      [exact H | apply (subject_edges RE_COLLEAGUES 1); [reflexivity | exact Hm]]].
  apply foldl_invariant;
    [|intros cs m _ H; apply add_keys_good, bracket_block_keys_good; exact H].
  apply foldl_invariant;
    [|intros cs m _ H; apply add_keys_good, bracket_keys_good; exact H].
  apply foldl_invariant;
    [|intros cs m Hm H; apply add_keys_good, subject_block_keys_good;
      [exact H | apply (subject_edges RE_POSSESSIVE 2); [reflexivity | exact Hm]]].
  apply foldl_invariant;
    [|intros cs m _ H; apply add_keys_good, narrative_keys_good; exact H].
  apply foldl_invariant;
    [|intros cs m _ H; apply add_keys_good, paren_block_keys_good; exact H].
  intros k Hk. exfalso. set_solver.
Qed.

(** After the final capitalisation the surname is still not a noise word, has
    at least three characters and does not start with a lowercase letter. *)
Lemma normalize_good (s : list N) :
  good s ->
  is_noise NOISE_WORDS (normalize_surname s) = false
  /\ 3 <= length (normalize_surname s)
  /\ (exists c t, normalize_surname s = c :: t /\ is_ascii_lower c = false).
Proof.
  intros [Hn He]. unfold normalize_surname. rewrite (strip_edges s He).
  unfold is_noise in Hn. apply orb_false_iff in Hn as [Hw Hl].
  apply Nat.leb_gt in Hl.
  destruct s as [|c [|c2 t]]; [simpl in Hl; lia | simpl in Hl; lia|].
  repeat split.
  - unfold is_noise. apply orb_false_iff. split.
    + cbn [lower List.map] in *. rewrite lower_upper_char. exact Hw.
    + apply Nat.leb_gt. simpl in *. lia.
  - simpl in *. lia.
  - exists (upper_char c), (c2 :: t). split; [reflexivity|].
    apply upper_char_not_lower.
Qed.

End Surnames.

(** ** The first word of a reference entry (C5) *)

(** A character that ends the first word of an entry: white space, a comma
    or an opening parenthesis. *)
Definition ends_word (c : N) : bool :=
  isspace c || (c =? 44)%N || (c =? 40)%N.

(** The characters before the first one that ends a word, and what follows
    them. *)
Fixpoint word_of (s : list N) : list N :=
  match s with
  | [] => []
  | c :: t => if ends_word c then [] else c :: word_of t
  end.

Fixpoint after_word (s : list N) : list N :=
  match s with
  | [] => []
  | c :: t => if ends_word c then s else after_word t
  end.

(** The first word of an entry: the characters of the text, leading white
    space apart, up to the first white space, comma or opening parenthesis;
    its trailing dots are dropped when only white space separates it from a
    comma, from the parenthesis or from the end of the text. *)
Definition entry_word (text : list N) : list N :=
  let t := lstrip text in
  match lstrip (after_word t) with
  | [] => rstrip_char 46 (word_of t)
  | c :: _ =>
      if (c =? 44)%N || (c =? 40)%N then rstrip_char 46 (word_of t)
      else word_of t
  end.

Section Trim.

Variable p : N -> bool.

(** Dropping from the left, and trimming from the right, the characters
    of a class. *)
Fixpoint drop_class (s : list N) : list N :=
  match s with
  | c :: t => if p c then drop_class t else s
  | [] => []
  end.

Fixpoint trim_right (s : list N) : list N :=
  match s with
  | [] => []
  | c :: t => if forallb p s then [] else c :: trim_right t
  end.

(** The characters before the first one of the class. *)
Fixpoint until (s : list N) : list N :=
  match s with
  | [] => []
  | c :: t => if p c then [] else c :: until t
  end.

Lemma drop_class_all (s : list N) : forallb p s = true -> drop_class s = [].
Proof.
  induction s as [|c s IH]; cbn; [reflexivity|].
  intros H. apply andb_true_iff in H as [-> H]. auto.
Qed.

Lemma drop_class_app (a b : list N) :
  forallb p a = true -> drop_class (a ++ b) = drop_class b.
Proof.
  induction a as [|c a IH]; cbn; [reflexivity|].
  intros H. apply andb_true_iff in H as [-> H]. auto.
Qed.

Lemma drop_class_snoc (s : list N) (c : N) :
  drop_class (s ++ [c])
  = if forallb p s then (if p c then [] else [c]) else drop_class s ++ [c].
Proof.
  induction s as [|x s IH]; cbn [app drop_class forallb]; [reflexivity|].
  destruct (p x); cbn [andb]; [exact IH | reflexivity].
Qed.

Lemma trim_right_all (s : list N) : forallb p s = true -> trim_right s = [].
Proof. destruct s; cbn [trim_right]; [reflexivity|]. intros ->. reflexivity. Qed.

Lemma forallb_reversed (s : list N) : forallb p (rev s) = forallb p s.
Proof.
  induction s as [|c s IH]; [reflexivity|].
  cbn [rev forallb]. rewrite forallb_app, IH. cbn [forallb].
  rewrite andb_true_r. apply andb_comm.
Qed.

Lemma trim_right_rev (s : list N) : rev (drop_class (rev s)) = trim_right s.
Proof.
  induction s as [|c s IH]; [reflexivity|].
  cbn [rev]. rewrite drop_class_snoc, forallb_reversed.
  cbn [trim_right forallb]. destruct (forallb p s) eqn:E.
  - rewrite andb_true_r. destruct (p c); [reflexivity|].
    rewrite (trim_right_all s E). reflexivity.
  - rewrite andb_false_r, rev_app_distr, IH. reflexivity.
Qed.

Lemma forallb_holds_not (a b : list N) (c : N) :
  p c = false -> forallb p (a ++ c :: b) = false.
Proof.
  intros Hc. rewrite forallb_app. cbn [forallb]. rewrite Hc.
  apply andb_false_r.
Qed.

(** A character outside the class protects what precedes it. *)
Lemma trim_right_keeps (a b : list N) (c : N) :
  p c = false -> trim_right (a ++ c :: b) = a ++ c :: trim_right b.
Proof.
  intros Hc. induction a as [|x a IH].
  - cbn [app trim_right forallb]. rewrite Hc. reflexivity.
  - cbn [app trim_right]. change (x :: a ++ c :: b) with ((x :: a) ++ c :: b).
    rewrite forallb_holds_not by exact Hc. rewrite IH. reflexivity.
Qed.

Lemma trim_right_word (a b : list N) :
  forallb (fun c => negb (p c)) a = true ->
  trim_right (a ++ b) = a ++ trim_right b.
Proof.
  induction a as [|x a IH]; [reflexivity|].
  cbn [forallb]. intros H. apply andb_true_iff in H as [Hx Ha].
  apply negb_true_iff in Hx.
  change ((x :: a) ++ b) with ([] ++ x :: (a ++ b)).
  rewrite trim_right_keeps by exact Hx. cbn [app]. rewrite (IH Ha).
  reflexivity.
Qed.

Lemma trim_right_forallb (q : N -> bool) (s : list N) :
  forallb q s = true -> forallb q (trim_right s) = true.
Proof.
  induction s as [|c s IH]; [reflexivity|].
  intros H. cbn [trim_right]. destruct (forallb p (c :: s)); [reflexivity|].
  cbn [forallb] in *. apply andb_true_iff in H as [-> H]. auto.
Qed.

Lemma until_word (a b : list N) :
  forallb (fun c => negb (p c)) a = true -> until (a ++ b) = a ++ until b.
Proof.
  induction a as [|x a IH]; [reflexivity|].
  cbn [forallb app until]. intros H. apply andb_true_iff in H as [Hx Ha].
  apply negb_true_iff in Hx. rewrite Hx, (IH Ha). reflexivity.
Qed.

Lemma until_stop (a b : list N) (c : N) :
  forallb (fun c => negb (p c)) a = true -> p c = true ->
  until (a ++ c :: b) = a.
Proof.
  intros Ha Hc. rewrite (until_word _ _ Ha). cbn [until]. rewrite Hc.
  apply app_nil_r.
Qed.

Lemma until_none (a : list N) :
  forallb (fun c => negb (p c)) a = true -> until a = a.
Proof.
  intros Ha. rewrite <- (app_nil_r a) at 1. rewrite (until_word _ _ Ha).
  apply app_nil_r.
Qed.

End Trim.

Lemma lstrip_drop (s : list N) : lstrip s = drop_class isspace s.
Proof. induction s as [|c s IH]; cbn; [reflexivity|]. rewrite IH. reflexivity. Qed.

Lemma lstrip_char_drop (ch : N) (s : list N) :
  lstrip_char ch s = drop_class (fun c => (c =? ch)%N) s.
Proof. induction s as [|c s IH]; cbn; [reflexivity|]. rewrite IH. reflexivity. Qed.

Lemma rstrip_trim (s : list N) : rstrip s = trim_right isspace s.
Proof. unfold rstrip. rewrite lstrip_drop. apply trim_right_rev. Qed.

Lemma rstrip_char_trim (ch : N) (s : list N) :
  rstrip_char ch s = trim_right (fun c => (c =? ch)%N) s.
Proof. unfold rstrip_char. rewrite lstrip_char_drop. apply trim_right_rev. Qed.

Lemma strip_trim (s : list N) :
  strip s = trim_right isspace (drop_class isspace s).
Proof. unfold strip. rewrite rstrip_trim, lstrip_drop. reflexivity. Qed.

(** [s[:s.index(ch)]], [s.split(ch)[0]] and [s.split()[0]]. *)
Lemma index_char_until (ch : N) (s : list N) :
  match index_char ch s with
  | Some i => firstn i s
  | None => s
  end = until (fun c => (c =? ch)%N) s.
Proof.
  induction s as [|c s IH]; [reflexivity|].
  cbn [index_char until]. destruct (c =? ch)%N; [reflexivity|].
  destruct (index_char ch s) as [i|]; cbn [option_map firstn]; f_equal;
    exact IH.
Qed.

Lemma split_on_aux_hd (ch : N) (s cur : list N) (fuel : nat) :
  length s < fuel ->
  hd [] (split_on_aux [ch] cur fuel s)
  = rev cur ++ until (fun c => (c =? ch)%N) s.
Proof.
  revert cur fuel. induction s as [|c s IH]; intros cur fuel Hf;
    (destruct fuel as [|fuel]; [cbn in Hf; lia|]).
  - cbn. rewrite app_nil_r. reflexivity.
  - cbn [split_on_aux strip_prefix until]. rewrite (N.eqb_sym ch c).
    destruct (c =? ch)%N.
    + cbn. rewrite app_nil_r. reflexivity.
    + rewrite IH by (cbn in Hf; lia). cbn [rev].
      rewrite <- app_assoc. reflexivity.
Qed.

Lemma split_on_hd (ch : N) (s : list N) :
  hd [] (split_on [ch] s) = until (fun c => (c =? ch)%N) s.
Proof.
  unfold split_on. destruct s as [|c s]; [reflexivity|].
  rewrite split_on_aux_hd by lia. reflexivity.
Qed.

Lemma split_ws_aux_hd (s cur : list N) :
  hd [] (split_ws_aux cur s)
  = match cur with
    | [] => until isspace (drop_class isspace s)
    | _ => rev cur ++ until isspace s
    end.
Proof.
  revert cur. induction s as [|c s IH]; intros cur.
  - cbn. destruct cur; [reflexivity|]. cbn. rewrite app_nil_r. reflexivity.
  - cbn [split_ws_aux drop_class until]. destruct (isspace c) eqn:Hc.
    + destruct cur as [|x cur]; [apply IH|]. cbn [hd]. rewrite app_nil_r.
      reflexivity.
    + rewrite IH. cbn [rev]. destruct cur as [|x cur].
      * cbn [until]. rewrite Hc. reflexivity.
      * rewrite <- app_assoc. reflexivity.
Qed.

Lemma split_ws_hd (s : list N) :
  hd [] (split_ws s) = until isspace (drop_class isspace s).
Proof. unfold split_ws. apply split_ws_aux_hd. Qed.

(** [ref_surname] step by step. *)
Lemma ref_surname_steps (text : list N) :
  let one c := fun x => (x =? c)%N in
  let stripped s := trim_right isspace (drop_class isspace s) in
  ref_surname text
  = until isspace
      (drop_class isspace
         (trim_right (one 46%N)
            (stripped
               (until (one 44%N)
                  (stripped
                     (trim_right (one 44%N)
                        (stripped (until (one 40%N) text)))))))).
Proof.
  cbv zeta. unfold ref_surname.
  rewrite split_ws_hd, !rstrip_char_trim, !strip_trim.
  change (py ",") with [44%N]. rewrite split_on_hd, index_char_until.
  reflexivity.
Qed.

Lemma drop_class_split (p : N -> bool) (s : list N) :
  exists ws,
    s = ws ++ drop_class p s /\ forallb p ws = true
    /\ match drop_class p s with [] => True | c :: _ => p c = false end.
Proof.
  induction s as [|c s (ws & Hs & Hws & Hd)].
  - exists []. repeat split.
  - cbn [drop_class]. destruct (p c) eqn:Hc.
    + exists (c :: ws). cbn [app forallb]. rewrite Hc, Hws.
      split; [f_equal; exact Hs|]. split; [reflexivity | exact Hd].
    + exists []. repeat split. exact Hc.
Qed.

Lemma word_split (t : list N) :
  t = word_of t ++ after_word t
  /\ forallb (fun c => negb (ends_word c)) (word_of t) = true
  /\ match after_word t with [] => True | c :: _ => ends_word c = true end.
Proof.
  induction t as [|c t (H1 & H2 & H3)]; [repeat split|].
  cbn [word_of after_word]. destruct (ends_word c) eqn:Hc.
  - repeat split. exact Hc.
  - cbn [app forallb]. rewrite Hc, H2. repeat split; [f_equal; exact H1 | exact H3].
Qed.

Lemma forallb_weaken (p q : N -> bool) (s : list N) :
  (forall c, p c = true -> q c = true) ->
  forallb p s = true -> forallb q s = true.
Proof.
  intros H. induction s as [|c s IH]; [reflexivity|].
  cbn [forallb]. intros Hs. apply andb_true_iff in Hs as [Hc Hs].
  rewrite (H c Hc), (IH Hs). reflexivity.
Qed.

Lemma space_not_mark (c : N) :
  isspace c = true ->
  (c =? 44)%N = false /\ (c =? 40)%N = false /\ (c =? 46)%N = false.
Proof.
  intros H. split; [|split].
  - destruct (N.eqb_spec c 44) as [->|_]; [discriminate | reflexivity].
  - destruct (N.eqb_spec c 40) as [->|_]; [discriminate | reflexivity].
  - destruct (N.eqb_spec c 46) as [->|_]; [discriminate | reflexivity].
Qed.

Lemma word_free (w : list N) :
  forallb (fun c => negb (ends_word c)) w = true ->
  forallb (fun c => negb (isspace c)) w = true
  /\ forallb (fun c => negb (c =? 44)%N) w = true
  /\ forallb (fun c => negb (c =? 40)%N) w = true.
Proof.
  intros H.
  assert (forall c, negb (ends_word c) = true ->
                    isspace c = false /\ (c =? 44)%N = false
                    /\ (c =? 40)%N = false) as Hc.
  { intros c Hc. apply negb_true_iff in Hc. unfold ends_word in Hc.
    apply orb_false_iff in Hc as [Hc H40].
    apply orb_false_iff in Hc as [Hsp H44]. auto. }
  split; [|split]; apply (forallb_weaken (fun c => negb (ends_word c)));
    try exact H; intros c Hw; apply negb_true_iff; apply (Hc c Hw).
Qed.

Section FirstWord.

Let comma : N -> bool := fun x => (x =? 44)%N.
Let paren : N -> bool := fun x => (x =? 40)%N.
Let dot : N -> bool := fun x => (x =? 46)%N.
Let stripped (s : list N) : list N :=
  trim_right isspace (drop_class isspace s).

(** The steps of [ref_surname] before the trailing dots are dropped. *)
Let front (s : list N) : list N :=
  stripped (until comma (stripped (trim_right comma (stripped (until paren s))))).

(** The same steps on what follows the first word. *)
Let tail_rest (x : list N) : list N :=
  trim_right isspace
    (until comma
       (trim_right isspace
          (trim_right comma (trim_right isspace (until paren x))))).

Lemma space_free (ws : list N) :
  forallb isspace ws = true ->
  forallb (fun c => negb (comma c)) ws = true
  /\ forallb (fun c => negb (paren c)) ws = true
  /\ forallb (fun c => negb (dot c)) ws = true.
Proof.
  intros H. split; [|split]; apply (forallb_weaken isspace); try exact H;
    intros c Hc; apply negb_true_iff; apply (space_not_mark c Hc).
Qed.

Lemma stripped_word (ws w y : list N) :
  forallb isspace ws = true -> w <> [] ->
  forallb (fun c => negb (isspace c)) w = true ->
  stripped (ws ++ w ++ y) = w ++ trim_right isspace y.
Proof.
  intros Hws Hne Hw. unfold stripped. rewrite (drop_class_app _ _ _ Hws).
  destruct w as [|c w]; [congruence|].
  cbn [app drop_class]. cbn [forallb] in Hw.
  apply andb_true_iff in Hw as [Hc Hw']. apply negb_true_iff in Hc.
  rewrite Hc. change (c :: w ++ y) with ((c :: w) ++ y).
  apply trim_right_word. cbn [forallb]. rewrite Hc, Hw'. reflexivity.
Qed.

Lemma stripped_word_only (w y : list N) :
  w <> [] -> forallb (fun c => negb (isspace c)) w = true ->
  stripped (w ++ y) = w ++ trim_right isspace y.
Proof. intros Hne Hw. exact (stripped_word [] w y eq_refl Hne Hw). Qed.

Lemma front_word (ws w x : list N) :
  forallb isspace ws = true -> w <> [] ->
  forallb (fun c => negb (ends_word c)) w = true ->
  front (ws ++ w ++ x) = w ++ tail_rest x.
Proof.
  intros Hws Hne Hw. destruct (word_free w Hw) as (Hsp & H44 & H40).
  destruct (space_free ws Hws) as (_ & Hws40 & _).
  unfold front, tail_rest.
  rewrite (until_word paren ws _ Hws40), (until_word paren w _ H40).
  rewrite (stripped_word ws w _ Hws Hne Hsp).
  rewrite (trim_right_word comma w _ H44).
  rewrite (stripped_word_only w _ Hne Hsp).
  rewrite (until_word comma w _ H44).
  rewrite (stripped_word_only w _ Hne Hsp). reflexivity.
Qed.

Lemma stripped_blank (ws : list N) :
  forallb isspace ws = true -> stripped ws = [].
Proof.
  intros H. unfold stripped. rewrite (drop_class_all _ _ H). reflexivity.
Qed.

(** Nothing is left of an entry that starts with a comma or a parenthesis. *)
Lemma front_empty (ws t : list N) :
  forallb isspace ws = true ->
  match t with [] => True | c :: _ => comma c || paren c = true end ->
  front (ws ++ t) = [].
Proof.
  intros Hws Ht. destruct (space_free ws Hws) as (Hws44 & Hws40 & _).
  unfold front. destruct t as [|c t].
  - rewrite app_nil_r, (until_none paren ws Hws40), (stripped_blank ws Hws).
    reflexivity.
  - apply orb_true_iff in Ht as [Hc|Hc].
    + assert (Hc40 : paren c = false).
      { unfold comma, paren in *. apply N.eqb_eq in Hc as ->. reflexivity. }
      assert (Hcsp : isspace c = false).
      { unfold comma in Hc. apply N.eqb_eq in Hc as ->. reflexivity. }
      rewrite (until_word paren ws _ Hws40). cbn [until]. rewrite Hc40.
      unfold stripped at 3. rewrite (drop_class_app _ _ _ Hws).
      cbn [drop_class]. rewrite Hcsp.
      change (c :: until paren t) with ([] ++ c :: until paren t).
      rewrite (trim_right_keeps isspace [] _ c Hcsp). cbn [app].
      set (z := trim_right isspace (until paren t)).
      cbn [trim_right]. destruct (forallb comma (c :: z)).
      * reflexivity.
      * unfold stripped at 2. cbn [drop_class]. rewrite Hcsp.
        change (c :: trim_right comma z) with ([] ++ c :: trim_right comma z).
        rewrite (trim_right_keeps isspace [] _ c Hcsp). cbn [app until].
        rewrite Hc. reflexivity.
    + rewrite (until_stop paren ws t c Hws40 Hc), (stripped_blank ws Hws).
      reflexivity.
Qed.

(** What is left of the text after the first word: nothing when a comma,
    the parenthesis or the end follows the white space, and otherwise a
    text that starts with white space. *)
Lemma tail_rest_shape (sp2 r : list N) :
  forallb isspace sp2 = true ->
  match r with [] => True | c :: _ => isspace c = false end ->
  match r with
  | [] => tail_rest (sp2 ++ r) = []
  | c :: _ =>
      if comma c || paren c then tail_rest (sp2 ++ r) = []
      else sp2 = []
           \/ exists c1 y, tail_rest (sp2 ++ r) = c1 :: y /\ isspace c1 = true
  end.
Proof.
  intros Hsp Hr. destruct (space_free sp2 Hsp) as (Hsp44 & Hsp40 & _).
  unfold tail_rest. destruct r as [|c r].
  - rewrite app_nil_r, (until_none paren sp2 Hsp40),
      (trim_right_all isspace sp2 Hsp). reflexivity.
  - destruct (comma c) eqn:H44; cbn [orb]; [|destruct (paren c) eqn:H40].
    + assert (Hc40 : paren c = false).
      { unfold comma, paren in *. apply N.eqb_eq in H44 as ->. reflexivity. }
      rewrite (until_word paren sp2 _ Hsp40). cbn [until]. rewrite Hc40.
      rewrite (trim_right_keeps isspace sp2 _ c Hr).
      rewrite (trim_right_word comma sp2 _ Hsp44).
      set (z := trim_right isspace (until paren r)).
      cbn [trim_right]. destruct (forallb comma (c :: z)).
      * rewrite app_nil_r, (trim_right_all isspace sp2 Hsp). reflexivity.
      * rewrite (trim_right_keeps isspace sp2 _ c Hr).
        rewrite (until_stop comma sp2 _ c Hsp44 H44).
        apply (trim_right_all isspace sp2 Hsp).
    + rewrite (until_stop paren sp2 r c Hsp40 H40),
        (trim_right_all isspace sp2 Hsp). reflexivity.
    + destruct sp2 as [|c1 sp2]; [left; reflexivity|]. right.
      rewrite (until_word paren (c1 :: sp2) _ Hsp40). cbn [until].
      rewrite H40.
      rewrite (trim_right_keeps isspace (c1 :: sp2) _ c Hr).
      rewrite (trim_right_keeps comma (c1 :: sp2) _ c H44).
      rewrite (trim_right_keeps isspace (c1 :: sp2) _ c Hr).
      rewrite (until_word comma (c1 :: sp2) _ Hsp44). cbn [until].
      rewrite H44.
      rewrite (trim_right_keeps isspace (c1 :: sp2) _ c Hr).
      cbn [app]. eexists _, _. split; [reflexivity|].
      cbn [forallb] in Hsp. apply andb_true_iff in Hsp as [Hc1 _]. exact Hc1.
Qed.

Lemma word_itself (v : list N) :
  forallb (fun c => negb (isspace c)) v = true ->
  until isspace (drop_class isspace v) = v.
Proof.
  intros H. destruct v as [|c v]; [reflexivity|].
  cbn [forallb] in H. pose proof H as H'.
  apply andb_true_iff in H as [Hc _]. apply negb_true_iff in Hc.
  cbn [drop_class]. rewrite Hc. apply until_none. exact H'.
Qed.

Lemma ref_surname_front (text : list N) :
  ref_surname text
  = until isspace (drop_class isspace (trim_right dot (front text))).
Proof. rewrite ref_surname_steps. reflexivity. Qed.

Lemma first_word_parts (ws w r : list N) :
  forallb isspace ws = true ->
  forallb (fun c => negb (ends_word c)) w = true ->
  match w ++ r with [] => True | c :: _ => isspace c = false end ->
  match r with [] => True | c :: _ => ends_word c = true end ->
  until isspace (drop_class isspace (trim_right dot (front (ws ++ w ++ r))))
  = match drop_class isspace r with
    | [] => trim_right dot w
    | c :: _ => if comma c || paren c then trim_right dot w else w
    end.
Proof.
  intros Hws Hw Hhead Hafter.
  destruct (drop_class_split isspace r) as (sp2 & Hr & Hsp2 & Hr').
  revert Hr Hr'. generalize (drop_class isspace r). intros r' Hr Hr'.
  destruct w as [|c0 w0].
  - (* no first word: the entry starts with a comma or a parenthesis *)
    cbn [app] in *.
    assert (Hfront : front (ws ++ r) = []).
    { apply front_empty; [exact Hws|]. destruct r as [|c r0]; [exact I|].
      unfold ends_word in Hafter. rewrite Hhead in Hafter. exact Hafter. }
    rewrite Hfront. cbn. destruct r' as [|c r0]; [reflexivity|].
    destruct (_ || _); reflexivity.
  - set (w := c0 :: w0) in *.
    assert (Hne : w <> []) by discriminate.
    destruct (word_free w Hw) as (Hwsp & _ & _).
    rewrite (front_word ws w r Hws Hne Hw).
    pose proof (tail_rest_shape sp2 r' Hsp2 Hr') as Hshape.
    assert (Hclean : until isspace (drop_class isspace (trim_right dot w))
                     = trim_right dot w)
      by (apply word_itself, trim_right_forallb, Hwsp).
    rewrite Hr. destruct r' as [|c r0].
    + rewrite Hshape, app_nil_r. exact Hclean.
    + destruct (comma c || paren c) eqn:Hc.
      * rewrite Hshape, app_nil_r. exact Hclean.
      * destruct Hshape as [->|(c1 & y & -> & Hc1)].
        -- (* the word is followed at once by a character that ends it *)
           exfalso. cbn [app] in Hr. rewrite Hr in Hafter.
           unfold ends_word in Hafter. rewrite Hr' in Hafter.
           unfold comma, paren in Hc. cbn [orb] in Hafter.
           rewrite Hc in Hafter. discriminate.
        -- destruct (space_not_mark c1 Hc1) as (_ & _ & H46).
           rewrite (trim_right_keeps dot w _ c1 H46).
           subst w. cbn [app drop_class]. cbn [forallb] in Hwsp.
           pose proof Hwsp as Hwsp'.
           apply andb_true_iff in Hwsp as [Hc0 _].
           apply negb_true_iff in Hc0. rewrite Hc0.
           change (c0 :: w0 ++ c1 :: trim_right dot y)
             with ((c0 :: w0) ++ c1 :: trim_right dot y).
           apply until_stop; assumption.
Qed.

(** [ref_surname] gives the first word of the entry. *)
Lemma ref_surname_entry_word (text : list N) :
  ref_surname text = entry_word text.
Proof.
  rewrite ref_surname_front.
  unfold entry_word. cbv zeta. rewrite (lstrip_drop text).
  rewrite (lstrip_drop (after_word _)), !rstrip_char_trim.
  destruct (drop_class_split isspace text) as (ws & Htext & Hws & Hhead).
  destruct (word_split (drop_class isspace text)) as (Ht & Hw & Hafter).
  rewrite Ht in Hhead. rewrite Htext at 1. rewrite Ht at 1.
  apply first_word_parts; assumption.
Qed.

End FirstWord.

Lemma raw_ref_word (p : paragraph) (e : key) :
  raw_ref_of p = Some e ->
  fst e = entry_word (normalize_text (strip (para_text p))).
Proof.
  unfold raw_ref_of. destruct (normalize_text _) as [|c t]; [discriminate|].
  destruct (mem_str _ HEADINGS); [discriminate|].
  destruct (Re.search _ _); [|discriminate].
  destruct (1 <? length (ref_surname (c :: t))); [|discriminate].
  intros [= <-]. apply ref_surname_entry_word.
Qed.

Lemma raw_ref_surname (p : paragraph) (e : key) :
  raw_ref_of p = Some e -> 2 <= length (fst e).
Proof.
  unfold raw_ref_of. destruct (normalize_text _) as [|c t]; [discriminate|].
  destruct (mem_str _ HEADINGS); [discriminate|].
  destruct (Re.search _ _); [|discriminate].
  destruct (1 <? length (ref_surname (c :: t))) eqn:E; [|discriminate].
  apply Nat.ltb_lt in E. generalize dependent (ref_surname (c :: t)).
  intros s Hs [= <-]. exact Hs.
Qed.

Lemma reference_surname (d : list block) (ref_para_idx : nat) (k : key) :
  k ∈ extract_references_from_doc d ref_para_idx ->
  2 <= length (fst k)
  /\ exists p,
       p ∈ skipn (ref_para_idx + 1) (doc_paragraphs d)
       /\ fst k = entry_word (normalize_text (strip (para_text p))).
Proof.
  unfold extract_references_from_doc. intros Hk.
  apply assign_suffixes_spec in Hk as (i & s & y & Hi & Hk).
  assert (Hs : 2 <= length s
               /\ exists p,
                    p ∈ skipn (ref_para_idx + 1) (doc_paragraphs d)
                    /\ s = entry_word (normalize_text (strip (para_text p)))).
  { apply list_elem_of_lookup_2 in Hi. unfold raw_refs_of in Hi.
    apply list_elem_of_omap in Hi as (p & Hin & Hp).
    split; [apply (raw_ref_surname p (s, y) Hp)|].
    exists p. split; [exact Hin | apply (raw_ref_word p (s, y) Hp)]. }
  destruct Hk as [->|(_ & _ & ->)]; exact Hs.
Qed.

(** A bibliography with a two-letter surname, an entry that starts with an
    article, and a surname with a particle. *)
Definition ODD_SURNAMES_DOC : list block :=
  [ BPara (plain_paragraph "References");
    BPara (plain_paragraph "Li, X. (2009). Title.");
    BPara (plain_paragraph "the editors (2010). Handbook.");
    BPara (plain_paragraph "van Gogh, V. (1990). Letters.") ].

(** C5 (the claim fails on both sets): a parenthetical "(2nd ed., 2009)"
    puts the key ("2nd", "2009") into the citation set, whose surname does
    not start with a letter; the reference set takes the first word of each
    entry as it is: a two-letter surname, a noise word, a lowercase
    particle. *)
Lemma key_surnames_as_found :
  (py "2nd", py "2009")
    ∈ extract_citations_from_text NOISE_WORDS_0 (py "(2nd ed., 2009)")
  /\ extract_references_from_doc ODD_SURNAMES_DOC 0
     = {[ (py "Li", py "2009"); (py "the", py "2010"); (py "van", py "1990") ]}
  /\ length (py "Li") = 2
  /\ is_noise NOISE_WORDS_0 (py "the") = true.
Proof. by_evaluation. Qed.

(** C5, amended. Every key of the citation set has a surname of at least
    three characters that is not a noise word and does not start with a
    lowercase letter (its first character is upper-cased, but need not be a
    letter); it is the capitalisation of a candidate that was not a noise
    word.  Every key of the reference set has a surname of at least two
    characters, which is the first word of one of the paragraphs after the
    heading, read from its stripped and normalized text as it stands: the
    characters up to the first white space, comma or opening parenthesis,
    without their trailing dots when only white space separates them from a
    comma, from the parenthesis or from the end. *)
Theorem key_set_surnames (NOISE_WORDS : gset (list N)) :
  (forall plain_text k,
      k ∈ extract_citations_from_text NOISE_WORDS plain_text ->
      3 <= length (fst k)
      /\ is_noise NOISE_WORDS (fst k) = false
      /\ (exists c t, fst k = c :: t /\ is_ascii_lower c = false)
      /\ (exists s, fst k = normalize_surname s
                    /\ is_noise NOISE_WORDS s = false))
  /\ (forall d ref_para_idx k,
        k ∈ extract_references_from_doc d ref_para_idx ->
        2 <= length (fst k)
        /\ exists p,
             p ∈ skipn (ref_para_idx + 1) (doc_paragraphs d)
             /\ fst k = entry_word (normalize_text (strip (para_text p)))).
Proof.
  split.
  - intros plain_text k Hk.
    apply extracted_good in Hk as (s & Hs & ->). cbn [fst].
    destruct (normalize_good NOISE_WORDS s Hs) as (H1 & H2 & H3).
    repeat split; try assumption. exists s. split; [reflexivity | apply Hs].
  - exact reference_surname.
Qed.

(** ** Overlapping spans (C1) *)

(** A bracket citation inside parentheses. *)
Definition NESTED_PARAGRAPH : paragraph := plain_paragraph "(Smith [2009])".

(** C1 (the code accepts a span that contains an accepted one). In the
    paragraph "(Smith [2009])" recognizer 4a accepts the span (1, 13) and the
    parenthetical recognizer then accepts (0, 14): the overlap test only asks
    whether the start or the end of the candidate lies inside an accepted
    span, and here neither does, although the two spans overlap. *)
Theorem containing_span_accepted :
  highlighted_spans
    (highlight_body_paragraph NOISE_WORDS_0 ∅ ∅ false INITIAL_HSTATE
       NESTED_PARAGRAPH) = [(1, 13); (0, 14)]
  /\ List.map recognizer_id
       (h_blocks (highlight_body_paragraph NOISE_WORDS_0 ∅ ∅ false
                    INITIAL_HSTATE NESTED_PARAGRAPH))
     = [RBracket; RParenthetical]
  /\ overlaps [(1, 13)] 0 14 = false
  /\ (1 < 14 /\ 0 < 13).
Proof.
  split; [vm_compute; reflexivity|]. split; [vm_compute; reflexivity|].
  split; [reflexivity | lia].
Qed.

(** ** The keys of the two passes (C4) *)

(** The keys the highlighting pass classified in a paragraph. *)
Definition highlighted_keys (st : hstate) : list key :=
  List.flat_map span_keys (h_blocks st).






Section SharedRecognizers.

Variable NOISE_WORDS : gset (list N).





End SharedRecognizers.



(** ** What the overlap test does guarantee *)

Lemma groups_in_none (r : Re.regex) :
  ReFacts.groups_in (fun _ => None) r = true.
Proof.
  induction r; simpl; auto; rewrite ?ReFacts.chars_in_none, ?IHr1, ?IHr2, ?IHr;
    reflexivity.
Qed.

(** The matches of [re.finditer] follow each other without overlap. *)
Lemma finditer_from_sorted (r : Re.regex) (text : list N) (fuel pos : nat) :
  StronglySorted (fun m1 m2 => Re.m_end m1 <= Re.m_start m2)
                 (Re.finditer_from false r text fuel pos).
Proof.
  revert pos; induction fuel as [|fuel IH]; intros pos;
    cbn [Re.finditer_from]; [constructor|].
  destruct (Re.search_from false r text pos) as [m|] eqn:E; [|constructor].
  constructor; [apply IH|].
  rewrite List.Forall_forall. intros m' Hm'. apply list_elem_of_In in Hm'.
  destruct (ReFacts.finditer_from_ok (fun _ => None) text r _ _ m'
              (groups_in_none r) Hm') as [_ Hpos].
  destruct (Re.m_end m =? Re.m_start m); lia.
Qed.

(** Two accepted spans, the first accepted earlier: they are disjoint, or the
    later one strictly contains the earlier one. *)
Definition nested_or_disjoint (a b : nat * nat) : Prop :=
  snd a <= fst b \/ snd b <= fst a \/ (fst b < fst a /\ snd a < snd b).

Definition pairwise_ok (spans : list (nat * nat)) : Prop :=
  forall i j a b, i < j -> spans !! i = Some a -> spans !! j = Some b ->
                  nested_or_disjoint a b.

Lemma pairwise_ok_snoc (spans : list (nat * nat)) (x : nat * nat) :
  pairwise_ok spans -> (forall a, a ∈ spans -> nested_or_disjoint a x) ->
  pairwise_ok (spans ++ [x]).
Proof.
  intros Hok Hx i j a b Hij Hi Hj.
  pose proof (lookup_lt_Some _ _ _ Hj) as Hlt. rewrite length_app in Hlt.
  simpl in Hlt.
  destruct (decide (j < length spans)) as [Hj'|Hj'].
  - rewrite lookup_app_l in Hi by lia. rewrite lookup_app_l in Hj by lia.
    exact (Hok i j a b Hij Hi Hj).
  - assert (j = length spans) by lia. subst j.
    rewrite lookup_app_l in Hi by lia.
    rewrite lookup_app_r in Hj by lia. rewrite Nat.sub_diag in Hj.
    cbn in Hj. injection Hj as <-.
    apply Hx. eapply list_elem_of_lookup_2. exact Hi.
Qed.

Lemma overlaps_false (spans : list (nat * nat)) (s e : nat) :
  overlaps spans s e = false ->
  forall a, a ∈ spans -> nested_or_disjoint a (s, e).
Proof.
  unfold overlaps. intros H [hs he] Ha.
  assert (Hf : (hs <=? s) && (s <? he) || (hs <? e) && (e <=? he) = false).
  { destruct ((hs <=? s) && (s <? he) || (hs <? e) && (e <=? he)) eqn:E;
      [|reflexivity].
    rewrite <- H. symmetry. apply existsb_exists. exists (hs, he).
    split; [apply list_elem_of_In, Ha | exact E]. }
  apply orb_false_iff in Hf as [H1 H2].
  apply andb_false_iff in H1. apply andb_false_iff in H2.
  rewrite Nat.leb_gt, Nat.ltb_ge in H1. rewrite Nat.ltb_ge, Nat.leb_gt in H2.
  unfold nested_or_disjoint. cbn [fst snd]. lia.
Qed.

Section Guard.

Variable NOISE_WORDS : gset (list N).
Variable ref_set : gset key.
Variable ref_fuzzy_lookup : gmap key (list key).
Variable add_comments : bool.
Variable text : list N.

Lemma count_keys_spans (ks : list key) (st : hstate) :
  highlighted_spans (foldl (count_key ref_set ref_fuzzy_lookup) st ks)
  = highlighted_spans st.
Proof.
  revert st; induction ks as [|k ks IH]; intros st; simpl; [reflexivity|].
  rewrite IH. apply count_key_spans.
Qed.

Lemma accept_block_spans rid st a b ks :
  highlighted_spans
    (accept_block ref_set ref_fuzzy_lookup add_comments rid st a b ks)
  = highlighted_spans st ++ [(a, b)].
Proof.
  unfold accept_block, mark_span. cbn [highlighted_spans].
  rewrite count_keys_spans. reflexivity.
Qed.

Definition spans_ok (st : hstate) : Prop := pairwise_ok (highlighted_spans st).

Lemma spans_ok_accept rid st a b ks :
  spans_ok st -> overlaps (highlighted_spans st) a b = false ->
  spans_ok (accept_block ref_set ref_fuzzy_lookup add_comments rid st a b ks).
Proof.
  intros Hok Hov. unfold spans_ok. rewrite accept_block_spans.
  apply pairwise_ok_snoc; [exact Hok | apply overlaps_false, Hov].
Qed.

Lemma spans_ok_step_block rid keys_of st m :
  spans_ok st ->
  spans_ok (step_block ref_set ref_fuzzy_lookup add_comments rid keys_of st m).
Proof.
  intros Hok. unfold step_block.
  destruct (overlaps _ _ _) eqn:E; [exact Hok|].
  destruct (keys_of m); [exact Hok|]. apply spans_ok_accept; assumption.
Qed.

Lemma spans_ok_step_narrative st m :
  spans_ok st ->
  spans_ok (step_narrative NOISE_WORDS ref_set ref_fuzzy_lookup add_comments
              text st m).
Proof.
  intros Hok. unfold step_narrative.
  destruct (overlaps _ _ _) eqn:E; [exact Hok|].
  destruct (is_noise _ _); [exact Hok|]. apply spans_ok_accept; assumption.
Qed.

Lemma spans_ok_step_possessive st m :
  spans_ok st ->
  spans_ok (step_possessive NOISE_WORDS ref_set ref_fuzzy_lookup add_comments
              text st m).
Proof.
  intros Hok. unfold step_possessive.
  destruct (overlaps _ _ _) eqn:E; [exact Hok|].
  destruct (Re.search _ _); [|exact Hok].
  destruct (subject_block_keys _ _ _); [exact Hok|].
  apply spans_ok_accept; assumption.
Qed.

Lemma spans_ok_step_lowercase st m :
  spans_ok st ->
  spans_ok (step_lowercase NOISE_WORDS ref_set ref_fuzzy_lookup add_comments
              text st m).
Proof.
  intros Hok. unfold step_lowercase.
  destruct (overlaps _ _ _) eqn:E; [exact Hok|].
  destruct (is_noise _ _); [exact Hok|]. apply spans_ok_accept; assumption.
Qed.

(** Recognizer 4a has no overlap test; its spans follow the order of the
    matches. *)
Lemma step_bracket_spans st m :
  highlighted_spans (step_bracket NOISE_WORDS ref_set ref_fuzzy_lookup
                       add_comments text st m)
  = highlighted_spans st
  \/ highlighted_spans (step_bracket NOISE_WORDS ref_set ref_fuzzy_lookup
                          add_comments text st m)
     = highlighted_spans st ++ [(Re.m_start m, Re.m_end m)].
Proof.
  unfold step_bracket. destruct (is_noise _ _); [left; reflexivity|].
  right. unfold mark_span. cbn [highlighted_spans].
  rewrite count_key_spans. reflexivity.
Qed.

Lemma spans_ok_bracket (ms : list Re.rmatch) (st : hstate) :
  StronglySorted (fun m1 m2 => Re.m_end m1 <= Re.m_start m2) ms ->
  spans_ok st ->
  (forall a m, a ∈ highlighted_spans st -> m ∈ ms -> snd a <= Re.m_start m) ->
  spans_ok (foldl (step_bracket NOISE_WORDS ref_set ref_fuzzy_lookup
                     add_comments text) st ms).
Proof.
  revert st; induction ms as [|m ms IH]; intros st Hs Hok Hbefore;
    cbn [foldl]; [exact Hok|].
  apply StronglySorted_inv in Hs as [Hs Hm].
  rewrite List.Forall_forall in Hm.
  destruct (step_bracket_spans st m) as [E|E].
  - apply IH; [exact Hs | unfold spans_ok; rewrite E; exact Hok|].
    intros a m' Ha Hm'. rewrite E in Ha. apply Hbefore; [exact Ha|].
    apply list_elem_of_further, Hm'.
  - apply IH; [exact Hs | |].
    + unfold spans_ok. rewrite E. apply pairwise_ok_snoc; [exact Hok|].
      intros a Ha. left. cbn [fst]. apply Hbefore; [exact Ha|].
      apply list_elem_of_here.
    + intros a m' Ha Hm'. rewrite E in Ha.
      apply elem_of_app in Ha as [Ha|Ha].
      * apply Hbefore; [exact Ha | apply list_elem_of_further, Hm'].
      * apply list_elem_of_singleton in Ha. subst a. cbn [snd].
        apply Hm, list_elem_of_In, Hm'.
Qed.

Lemma spans_ok_paragraph (st : hstate) :
  highlighted_spans st = [] ->
  spans_ok (highlight_paragraph_spans NOISE_WORDS ref_set ref_fuzzy_lookup
              add_comments text st).
Proof.
  intros Hnil. unfold highlight_paragraph_spans.
  apply foldl_invariant; [|intros; apply spans_ok_step_lowercase; assumption].
  apply foldl_invariant; [|intros; apply spans_ok_step_block; assumption].
  apply foldl_invariant; [|intros; apply spans_ok_step_possessive; assumption].
  apply foldl_invariant; [|intros; apply spans_ok_step_narrative; assumption].
  apply foldl_invariant; [|intros; apply spans_ok_step_block; assumption].
  apply foldl_invariant; [|intros; apply spans_ok_step_block; assumption].
  apply spans_ok_bracket.
  - apply finditer_from_sorted.
  - unfold spans_ok. rewrite Hnil. intros i j a b _ Hi. discriminate.
  - intros a m Ha. rewrite Hnil in Ha. apply elem_of_nil in Ha. contradiction.
Qed.

End Guard.

(** Of two spans accepted in one paragraph, either they are disjoint or the
    one accepted later strictly contains the other. *)
Theorem accepted_spans_nested_or_disjoint
    (NOISE_WORDS : gset (list N)) (ref_set : gset key)
    (ref_fuzzy_lookup : gmap key (list key)) (add_comments : bool)
    (st : hstate) (para : paragraph) (i j : nat) (a b : nat * nat) :
  i < j ->
  highlighted_spans (highlight_body_paragraph NOISE_WORDS ref_set
                       ref_fuzzy_lookup add_comments st para) !! i = Some a ->
  highlighted_spans (highlight_body_paragraph NOISE_WORDS ref_set
                       ref_fuzzy_lookup add_comments st para) !! j = Some b ->
  snd a <= fst b \/ snd b <= fst a \/ (fst b < fst a /\ snd a < snd b).
Proof.
  unfold highlight_body_paragraph. destruct (strip _).
  - intros _ Hi. discriminate.
  - set (st0 := {| matched := matched st; fuzzy_matched := fuzzy_matched st;
                   unmatched := unmatched st;
                   unmatched_list := unmatched_list st;
                   fuzzy_list := fuzzy_list st; h_para := para;
                   highlighted_spans := []; h_blocks := [] |}).
    intros Hij Hi Hj.
    pose proof (spans_ok_paragraph NOISE_WORDS ref_set ref_fuzzy_lookup
                  add_comments (normalize_for_highlight (para_text para))
                  st0 eq_refl) as H.
    exact (H i j a b Hij Hi Hj).
Qed.

(** In "(Smith [2009])" the parenthetical span contains the bracket span. *)
Lemma accepted_spans_nested_or_disjoint_witness :
  13 <= 0 \/ 14 <= 1 \/ (0 < 1 /\ 13 < 14).
Proof.
  apply (accepted_spans_nested_or_disjoint NOISE_WORDS_0 ∅ ∅ false
           INITIAL_HSTATE NESTED_PARAGRAPH 0 1 (1, 13) (0, 14)).
  - lia.
  - vm_compute. reflexivity.
  - vm_compute. reflexivity.
Defined.

(** ** The patterns *)

(** Every pattern of the program is inside the syntax [Re.compile] reads, and
    none of them matches the empty string (so the rule of [re.finditer] for
    empty matches never comes into play). *)
Lemma patterns_well_formed :
  forallb (fun r => negb (Re.nullable r)
                    && match r with Re.Cls false [] => false | _ => true end)
    [ RE_YEAR_SUFFIX; RE_AUTHOR_PREFIX; RE_POSSESSIVE_END; RE_PAREN_BLOCK;
      RE_YEARS; RE_BEFORE_YEAR; RE_NARRATIVE; RE_POSSESSIVE; RE_BRACKET;
      RE_BRACKET_BLOCK; RE_COLLEAGUES; RE_ET_AL; RE_LOWERCASE; RE_REF_YEAR;
      RE_HAS_SUFFIX; RE_PAREN_CITE; RE_LOWERCASE_NARRATIVE; RE_FOUR_DIGITS;
      RE_YEAR_PAREN; RE_LISTED ] = true.
Proof. vm_compute. reflexivity. Qed.

(* ===================================================================== *)
(** * Further properties of the code *)
(* ===================================================================== *)

(** ** The fuzzy lookup *)

(** The candidates of a base key after the loop of [build_fuzzy_lookup] has
    run over [items] from the table [lookup]. *)
Lemma build_fuzzy_lookup_fold (items : list key) (lookup : gmap key (list key))
    (b : key) :
  foldl (fun (lookup : gmap key (list key)) '(surname, year) =>
           let base := (surname, strip_year_suffix year) in
           <[base := default [] (lookup !! base) ++ [(surname, year)]]> lookup)
        lookup items !! b
  = match filter (fun k => base_of k = b) items with
    | [] => lookup !! b
    | l => Some (default [] (lookup !! b) ++ l)
    end.
Proof.
  revert lookup; induction items as [|[s y] items IH]; intros lookup.
  - reflexivity.
  - cbn [foldl]. rewrite IH.
    destruct (decide (base_of (s, y) = b)) as [Hb|Hb].
    + rewrite filter_cons_True by assumption.
      unfold base_of in Hb; cbn [fst snd] in Hb. subst b.
      rewrite lookup_insert_eq.
      destruct (filter _ items) as [|k l]; cbn.
      * reflexivity.
      * rewrite <- app_assoc. reflexivity.
    + rewrite filter_cons_False by assumption.
      rewrite lookup_insert_ne by exact Hb. reflexivity.
Qed.

(** X3. [build_fuzzy_lookup] files every item under its base key
    [(surname, strip_year_suffix year)], in the order of the loop, and has no
    other entry: a base key without item is absent, never mapped to an empty
    list. *)
Theorem build_fuzzy_lookup_groups (items : list key) (b : key) :
  build_fuzzy_lookup items !! b
  = match filter (fun k => base_of k = b) items with
    | [] => None
    | l => Some l
    end.
Proof.
  unfold build_fuzzy_lookup. rewrite build_fuzzy_lookup_fold, lookup_empty.
  reflexivity.
Qed.

Lemma build_fuzzy_lookup_candidates (items candidates : list key) (b : key) :
  build_fuzzy_lookup items !! b = Some candidates ->
  candidates = filter (fun k => base_of k = b) items.
Proof.
  unfold build_fuzzy_lookup. rewrite build_fuzzy_lookup_fold, lookup_empty.
  destruct (filter _ items); [discriminate|]. intros [= <-]. reflexivity.
Qed.

Lemma build_fuzzy_lookup_none (items : list key) (b : key) :
  build_fuzzy_lookup items !! b = None ->
  forall k, k ∈ items -> base_of k <> b.
Proof.
  unfold build_fuzzy_lookup. rewrite build_fuzzy_lookup_fold, lookup_empty.
  destruct (filter _ items) as [|x l] eqn:Hf; [|discriminate].
  intros _ k Hk Hb.
  assert (k ∈ filter (fun k => base_of k = b) items) as Hin
    by (apply list_elem_of_filter; split; assumption).
  rewrite Hf in Hin. inversion Hin.
Qed.

(** ** Matching against the whole set *)

Section MatchAll.

Variable surname year : list N.
Variable item_set : gset key.

Let result : match_result :=
  fuzzy_match_citation surname year item_set
    (build_fuzzy_lookup (elements item_set)).

Lemma fuzzy_match_exact (k : key) :
  result = Exact k -> k = (surname, year) /\ k ∈ item_set.
Proof.
  unfold result, fuzzy_match_citation.
  destruct (bool_decide _) eqn:He.
  - intros [= <-]. apply bool_decide_eq_true in He. split; [reflexivity|exact He].
  - destruct (negb _ && _); [discriminate|].
    destruct (_ !! _) as [c|]; [|discriminate].
    destruct (first_other_year year c); discriminate.
Qed.

Lemma fuzzy_match_fuzzy (k : key) :
  result = Fuzzy k ->
  k ∈ item_set /\ fst k = surname /\ snd k <> year
  /\ (snd k = strip_year_suffix year
      \/ strip_year_suffix (snd k) = strip_year_suffix year).
Proof.
  unfold result, fuzzy_match_citation.
  destruct (bool_decide _) eqn:He; [discriminate|].
  destruct (negb _ && _) eqn:H2.
  - intros [= <-]. apply andb_true_iff in H2 as [Hne Hin].
    apply bool_decide_eq_true in Hin. apply negb_true_iff, eqb_str_neq in Hne.
    cbn [fst snd]. split; [exact Hin|]. split; [reflexivity|].
    split; [exact Hne|]. left; reflexivity.
  - destruct (_ !! _) as [c|] eqn:Hl; [|discriminate].
    pose proof (first_other_year_spec year c) as Hs.
    destruct (first_other_year year c) as [k'|]; [|discriminate].
    intros [= <-]. destruct Hs as (pre & post & Hc & _ & Hne).
    apply build_fuzzy_lookup_candidates in Hl.
    assert (k' ∈ c) as Hin by (rewrite Hc; apply elem_of_app; right; apply list_elem_of_here).
    rewrite Hl in Hin. apply list_elem_of_filter in Hin as [Hb Hin].
    apply elem_of_elements in Hin.
    unfold base_of in Hb. injection Hb as Hs1 Hs2.
    split; [exact Hin|]. split; [exact Hs1|]. split; [exact Hne|].
    right; exact Hs2.
Qed.

Lemma fuzzy_match_none :
  result = NoMatch
  <-> forall y, (surname, y) ∈ item_set ->
                y <> year /\ y <> strip_year_suffix year
                /\ strip_year_suffix y <> strip_year_suffix year.
Proof.
  unfold result, fuzzy_match_citation. split.
  - destruct (bool_decide _) eqn:He; [discriminate|].
    apply bool_decide_eq_false in He.
    destruct (negb _ && _) eqn:H2; [discriminate|].
    intros Hn y Hy.
    assert (strip_year_suffix y <> strip_year_suffix year) as H3.
    { intros Hb.
      destruct (_ !! _) as [c|] eqn:Hl.
      - pose proof (first_other_year_spec year c) as Hs.
        destruct (first_other_year year c); [discriminate|].
        apply build_fuzzy_lookup_candidates in Hl.
        assert ((surname, y) ∈ c) as Hin.
        { rewrite Hl. apply list_elem_of_filter. split.
          - unfold base_of; cbn [fst snd]. rewrite Hb. reflexivity.
          - apply elem_of_elements. exact Hy. }
        rewrite Forall_forall in Hs. apply Hs in Hin. cbn [snd] in Hin.
        subst y. contradiction.
      - apply (build_fuzzy_lookup_none _ _ Hl (surname, y)).
        + apply elem_of_elements. exact Hy.
        + unfold base_of; cbn [fst snd]. rewrite Hb. reflexivity. }
    split; [intros ->; contradiction|]. split; [|exact H3].
    intros ->. apply andb_false_iff in H2 as [H2|H2].
    + apply negb_false_iff, eqb_str_spec in H2.
      rewrite H2 in Hy. contradiction.
    + apply bool_decide_eq_false in H2. contradiction.
  - intros Hall.
    destruct (bool_decide _) eqn:He.
    { apply bool_decide_eq_true in He. apply Hall in He as [He _]. congruence. }
    destruct (negb _ && _) eqn:H2.
    { apply andb_true_iff in H2 as [_ H2]. apply bool_decide_eq_true in H2.
      apply Hall in H2 as (_ & H2 & _). congruence. }
    destruct (_ !! _) as [c|] eqn:Hl; [|reflexivity].
    pose proof (first_other_year_spec year c) as Hs.
    destruct (first_other_year year c) as [k'|]; [|reflexivity].
    destruct Hs as (pre & post & Hc & _ & Hne).
    apply build_fuzzy_lookup_candidates in Hl.
    assert (k' ∈ c) as Hin by (rewrite Hc; apply elem_of_app; right; apply list_elem_of_here).
    rewrite Hl in Hin. apply list_elem_of_filter in Hin as [Hb Hin].
    apply elem_of_elements in Hin. destruct k' as [s' y'].
    unfold base_of in Hb. cbn [fst snd] in Hb. injection Hb as -> Hb.
    apply Hall in Hin as (_ & _ & Hin). contradiction.
Qed.

End MatchAll.

(** X4. With the lookup that [main] builds from the set itself, a match is
    always a member of the set with the query's surname: an exact match is
    the query, a fuzzy match differs from it in the year and is its year
    without the suffix letter or a year with the same base.  Nothing is found
    exactly when the set has no key with this surname whose year is the
    query's, the query's without its suffix letter, or one with the same
    base.  The same holds for [fuzzy_match_reference]. *)
Theorem fuzzy_match_finds_set_members
    (surname year : list N) (item_set : gset key) :
  let lookup := build_fuzzy_lookup (elements item_set) in
  let result := fuzzy_match_citation surname year item_set lookup in
  (forall k, result = Exact k -> k = (surname, year) /\ k ∈ item_set)
  /\ (forall k, result = Fuzzy k ->
        k ∈ item_set /\ fst k = surname /\ snd k <> year
        /\ (snd k = strip_year_suffix year
            \/ strip_year_suffix (snd k) = strip_year_suffix year))
  /\ (result = NoMatch
      <-> forall y, (surname, y) ∈ item_set ->
                    y <> year /\ y <> strip_year_suffix year
                    /\ strip_year_suffix y <> strip_year_suffix year)
  /\ fuzzy_match_reference surname year item_set lookup = result.
Proof.
  cbv zeta. split; [apply fuzzy_match_exact|].
  split; [apply fuzzy_match_fuzzy|]. split; [apply fuzzy_match_none|].
  reflexivity.
Qed.

(** ** The two normalizations *)

(** The character a quote or dash is replaced by. *)
Definition straight (c : N) : N :=
  if ((c =? 8216) || (c =? 8217))%N then 39%N
  else if ((c =? 8220) || (c =? 8221))%N then 34%N
  else if ((8208 <=? c) && (c <=? 8211))%N then 45%N
  else c.

(** The invisible marks that [normalize_text] removes. *)
Definition invisible (c : N) : bool :=
  ((c =? 8203) || (c =? 8206) || (c =? 8207))%N.

Lemma replace_one (old new : N) (s : list N) :
  replace old [new] s = List.map (fun c => if (c =? old)%N then new else c) s.
Proof.
  unfold replace. induction s as [|c s IH]; [reflexivity|].
  cbn [flat_map List.map]. rewrite IH. destruct (c =? old)%N; reflexivity.
Qed.

Lemma replace_none (old : N) (s : list N) :
  replace old [] s = List.filter (fun c => negb (c =? old)%N) s.
Proof.
  unfold replace. induction s as [|c s IH]; [reflexivity|].
  cbn [flat_map List.filter]. rewrite IH. destruct (c =? old)%N; reflexivity.
Qed.

Lemma normalize_for_highlight_map (text : list N) :
  normalize_for_highlight text = List.map straight text.
Proof.
  unfold normalize_for_highlight. cbv zeta.
  change (py "'") with [39%N]. change (py "-") with [45%N].
  rewrite !replace_one, !List.map_map. apply List.map_ext. intros c.
  unfold straight.
  destruct (N.eqb_spec c 8216) as [->|H1]; [reflexivity|].
  destruct (N.eqb_spec c 8217) as [->|H2]; [reflexivity|].
  destruct (N.eqb_spec c 8220) as [->|H3]; [reflexivity|].
  destruct (N.eqb_spec c 8221) as [->|H4]; [reflexivity|].
  destruct (N.eqb_spec c 8208) as [->|H5]; [reflexivity|].
  destruct (N.eqb_spec c 8209) as [->|H6]; [reflexivity|].
  destruct (N.eqb_spec c 8210) as [->|H7]; [reflexivity|].
  destruct (N.eqb_spec c 8211) as [->|H8]; [reflexivity|].
  cbn [orb].
  destruct (N.leb_spec 8208 c); destruct (N.leb_spec c 8211);
    cbn [andb]; try reflexivity; lia.
Qed.

Lemma normalize_text_filter (text : list N) :
  normalize_text text
  = List.filter (fun c => negb (invisible c)) (List.map straight text).
Proof.
  rewrite <- normalize_for_highlight_map.
  unfold normalize_text, normalize_for_highlight. cbv zeta.
  rewrite !replace_none.
  generalize (replace 8211 (py "-")
                (replace 8210 (py "-")
                   (replace 8209 (py "-")
                      (replace 8208 (py "-")
                         (replace 8221 [34%N]
                            (replace 8220 [34%N]
                               (replace 8217 (py "'")
                                  (replace 8216 (py "'") text)))))))).
  intros s. induction s as [|c s IH]; [reflexivity|].
  cbn [List.filter]. unfold invisible at 1.
  destruct (c =? 8207)%N eqn:E1; cbn [negb].
  - rewrite orb_true_r. cbn [negb]. exact IH.
  - cbn [List.filter]. destruct (c =? 8206)%N eqn:E2; cbn [negb].
    + rewrite orb_true_r. cbn [orb negb]. exact IH.
    + cbn [List.filter]. destruct (c =? 8203)%N eqn:E3; cbn [orb negb].
      * exact IH.
      * f_equal. exact IH.
Qed.

Lemma straight_cases (c : N) :
  straight c = 39%N \/ straight c = 34%N \/ straight c = 45%N \/ straight c = c.
Proof.
  unfold straight.
  destruct ((c =? 8216) || (c =? 8217))%N; [left; reflexivity|].
  destruct ((c =? 8220) || (c =? 8221))%N; [right; left; reflexivity|].
  destruct ((8208 <=? c) && (c <=? 8211))%N; [right; right; left; reflexivity|].
  right; right; right; reflexivity.
Qed.

Lemma straight_idem (c : N) : straight (straight c) = straight c.
Proof.
  destruct (straight_cases c) as [H|[H|[H|H]]]; rewrite H; try reflexivity.
  exact H.
Qed.

Lemma straight_visible (c : N) : invisible (straight c) = invisible c.
Proof.
  unfold straight, invisible.
  destruct (N.eqb_spec c 8216) as [->|H1]; [reflexivity|].
  destruct (N.eqb_spec c 8217) as [->|H2]; [reflexivity|].
  destruct (N.eqb_spec c 8220) as [->|H3]; [reflexivity|].
  destruct (N.eqb_spec c 8221) as [->|H4]; [reflexivity|].
  cbn [orb].
  destruct ((8208 <=? c) && (c <=? 8211))%N eqn:E; [|reflexivity].
  apply andb_true_iff in E as [Ea Eb].
  apply N.leb_le in Ea. apply N.leb_le in Eb.
  destruct (N.eqb_spec c 8203); [lia|]. destruct (N.eqb_spec c 8206); [lia|].
  destruct (N.eqb_spec c 8207); [lia|]. reflexivity.
Qed.

(** X5. [normalize_for_highlight] replaces character by character: the
    result has the length of the text and, at every offset, the straight
    form of the character there, so an offset into the normalized text is an
    offset into the paragraph.  [normalize_text] is the same replacement
    followed by the removal of the invisible marks U+200B, U+200E, U+200F;
    both functions are idempotent. *)
Theorem normalization_keeps_offsets (text : list N) :
  length (normalize_for_highlight text) = length text
  /\ (forall i, normalize_for_highlight text !! i = straight <$> text !! i)
  /\ normalize_text text
     = List.filter (fun c => negb (invisible c)) (normalize_for_highlight text)
  /\ normalize_for_highlight (normalize_for_highlight text)
     = normalize_for_highlight text
  /\ normalize_text (normalize_text text) = normalize_text text.
Proof.
  split; [rewrite normalize_for_highlight_map; apply length_map|].
  split; [intros i; rewrite normalize_for_highlight_map; apply list_lookup_fmap|].
  split; [rewrite normalize_text_filter, normalize_for_highlight_map; reflexivity|].
  split.
  - rewrite !normalize_for_highlight_map, List.map_map.
    apply List.map_ext. intros c; apply straight_idem.
  - rewrite !normalize_text_filter.
    induction text as [|c text IH]; [reflexivity|].
    cbn [List.map List.filter].
    destruct (invisible (straight c)) eqn:E; cbn [negb].
    + exact IH.
    + cbn [List.map List.filter]. rewrite straight_idem, E. cbn [negb].
      f_equal. exact IH.
Qed.

(** ** The references heading *)

Lemma find_heading_spec (paras : list paragraph) (i : nat) :
  let r := find_heading i paras in
  i <= r <= i + length paras
  /\ (forall j p, i + j < r -> paras !! j = Some p ->
                  strip (para_text p) ∉ HEADINGS)
  /\ (forall p, paras !! (r - i) = Some p -> strip (para_text p) ∈ HEADINGS).
Proof.
  revert i; induction paras as [|p paras IH]; intros i; cbn [find_heading].
  - cbn [length]. split; [lia|]. split; intros ? ?; [intros ? ?|]; discriminate.
  - destruct (mem_str (strip (para_text p)) HEADINGS) eqn:Hm.
    + cbn zeta. split; [cbn [length]; lia|]. split; [intros; lia|].
      rewrite Nat.sub_diag. intros q [= <-]. apply mem_str_spec. exact Hm.
    + specialize (IH (S i)). cbv zeta in IH. destruct IH as (Hr & Hbefore & Hat).
      cbv zeta. split; [cbn [length]; lia|]. split.
      * intros [|j] q Hj.
        -- intros [= <-] Hin. apply mem_str_spec in Hin. congruence.
        -- cbn. apply Hbefore. lia.
      * intros q Hq.
        replace (find_heading (S i) paras - i)
          with (S (find_heading (S i) paras - S i)) in Hq by lia.
        apply Hat. exact Hq.
Qed.

(** X6. [find_references_heading_index] returns the index of the first
    paragraph of [doc.paragraphs] whose stripped text is one of the four
    headings, and the number of paragraphs when there is none. *)
Theorem references_heading_is_first (d : list block) :
  let i := find_references_heading_index d in
  let paras := doc_paragraphs d in
  i <= length paras
  /\ (forall j p, j < i -> paras !! j = Some p -> strip (para_text p) ∉ HEADINGS)
  /\ (forall p, paras !! i = Some p -> strip (para_text p) ∈ HEADINGS)
  /\ (i = length paras
      <-> forall p, p ∈ paras -> strip (para_text p) ∉ HEADINGS).
Proof.
  cbv zeta. unfold find_references_heading_index.
  pose proof (find_heading_spec (doc_paragraphs d) 0) as H. cbv zeta in H.
  destruct H as (Hr & Hbefore & Hat). rewrite Nat.sub_0_r in Hat.
  split; [lia|]. split; [exact Hbefore|]. split; [exact Hat|]. split.
  - intros Hi p Hp. apply list_elem_of_lookup in Hp as [j Hj].
    apply (Hbefore j p); [|exact Hj].
    apply lookup_lt_Some in Hj. lia.
  - intros Hall.
    destruct (decide (find_heading 0 (doc_paragraphs d)
                      = length (doc_paragraphs d))) as [|Hne]; [assumption|].
    destruct (lookup_lt_is_Some_2 (doc_paragraphs d)
                (find_heading 0 (doc_paragraphs d))) as [p Hp]; [lia|].
    exfalso. apply (Hall p).
    + apply list_elem_of_lookup. eexists; exact Hp.
    + apply Hat. exact Hp.
Qed.

(** ** The two passes over the reference list *)

Lemma normalize_text_nil : normalize_text [] = [].
Proof. reflexivity. Qed.

Lemma heading_has_no_year (text : list N) :
  mem_str text HEADINGS = true -> Re.search RE_REF_YEAR text = None.
Proof.
  intros H. apply mem_str_spec in H.
  unfold HEADINGS in H. cbn [List.map] in H.
  repeat (apply elem_of_cons in H as [->|H]; [vm_compute; reflexivity|]).
  inversion H.
Qed.

(** X7. The paragraphs that [extract_references_from_doc] takes a key from
    are classified by [highlight_references] under the same key; the only
    paragraphs that [highlight_references] classifies and the extraction
    passes over are those whose surname is a single character. *)
Theorem reference_passes_agree (p : paragraph) :
  (forall k, raw_ref_of p = Some k -> reference_key p = Some k)
  /\ (forall k, reference_key p = Some k ->
        raw_ref_of p = Some k
        \/ (raw_ref_of p = None /\ length (fst k) = 1)).
Proof.
  unfold raw_ref_of, reference_key. cbv zeta.
  destruct (strip (para_text p)) as [|c t] eqn:Hs.
  { split; intros k; discriminate. }
  rewrite <- Hs.
  set (text := normalize_text (strip (para_text p))).
  split.
  - intros k. destruct text eqn:Ht; [discriminate|]. rewrite <- Ht.
    destruct (mem_str text HEADINGS); [discriminate|].
    destruct (Re.search RE_REF_YEAR text) as [m|]; [|discriminate].
    destruct (1 <? length (ref_surname text)) eqn:Hl; [|discriminate].
    intros [= <-]. apply Nat.ltb_lt in Hl.
    destruct (ref_surname text); [cbn in Hl; lia|]. reflexivity.
  - intros k.
    destruct (Re.search RE_REF_YEAR text) as [m|] eqn:Hm; [|discriminate].
    destruct (ref_surname text) as [|a s] eqn:Hn; [discriminate|].
    intros [= <-].
    destruct text eqn:Ht; [discriminate Hm|]. rewrite <- Ht in *.
    destruct (mem_str text HEADINGS) eqn:Hh.
    { apply heading_has_no_year in Hh. congruence. }
    cbn [fst length]. destruct s as [|b s]; cbn [length].
    + right. split; reflexivity.
    + left. reflexivity.
Qed.

(** ** The pass over the body, recognizer by recognizer *)

(** The class of a key against the reference set. *)
Definition is_exact (ref_set : gset key) (ref_fuzzy_lookup : gmap key (list key))
    (k : key) : bool :=
  match fuzzy_match_citation (fst k) (snd k) ref_set ref_fuzzy_lookup with
  | Exact _ => true
  | _ => false
  end.

Definition is_fuzzy (ref_set : gset key) (ref_fuzzy_lookup : gmap key (list key))
    (k : key) : bool :=
  match fuzzy_match_citation (fst k) (snd k) ref_set ref_fuzzy_lookup with
  | Fuzzy _ => true
  | _ => false
  end.

Definition is_missing (ref_set : gset key) (ref_fuzzy_lookup : gmap key (list key))
    (k : key) : bool :=
  match fuzzy_match_citation (fst k) (snd k) ref_set ref_fuzzy_lookup with
  | NoMatch => true
  | _ => false
  end.

(** The comment a span gets: none unless comments are asked for and the span
    is yellow. *)
Definition commented (add_comments : bool) (color : list N) (para : paragraph)
    (span_start span_end : nat) : paragraph :=
  if add_comments && eqb_str color YELLOW_HIGHLIGHT
  then add_comment_to_span para span_start span_end COMMENT_NOT_FOUND
  else para.

Section BodyPass.

Variable NOISE_WORDS : gset (list N).
Variable ref_set : gset key.
Variable ref_fuzzy_lookup : gmap key (list key).
Variable add_comments : bool.

Let accept := accept_block ref_set ref_fuzzy_lookup add_comments.
Let count := count_key ref_set ref_fuzzy_lookup.
Let exact := is_exact ref_set ref_fuzzy_lookup.
Let fuzzy := is_fuzzy ref_set ref_fuzzy_lookup.
Let missing := is_missing ref_set ref_fuzzy_lookup.

(** What counting the keys of a block does to the accumulators. *)
Lemma count_keys_fields (ks : list key) (st : hstate) :
  let st' := foldl count st ks in
  matched st' = matched st + length (List.filter exact ks)
  /\ fuzzy_matched st' = fuzzy_matched st + length (List.filter fuzzy ks)
  /\ unmatched st' = unmatched st + length (List.filter missing ks)
  /\ fuzzy_list st' = fuzzy_list st ++ List.map show_key (List.filter fuzzy ks)
  /\ unmatched_list st'
     = unmatched_list st ++ List.map show_key (List.filter missing ks)
  /\ h_para st' = h_para st.
Proof.
  revert st; induction ks as [|k ks IH]; intros st; cbv zeta.
  - cbn [foldl List.filter List.map length]. rewrite !app_nil_r.
    repeat split; lia.
  - cbn [foldl List.filter]. specialize (IH (count st k)). cbv zeta in IH.
    destruct IH as (H1 & H2 & H3 & H4 & H5 & H6).
    rewrite H1, H2, H3, H4, H5, H6.
    unfold count, count_key, exact, fuzzy, missing, is_exact, is_fuzzy, is_missing.
    destruct (fuzzy_match_citation (fst k) (snd k) ref_set ref_fuzzy_lookup);
      cbn [matched fuzzy_matched unmatched fuzzy_list unmatched_list h_para
           length List.map];
      rewrite <- ?app_assoc; repeat split; try reflexivity; lia.
Qed.

(** The accumulators and the paragraph after a block is accepted. *)
Lemma accept_block_fields rid st a b ks :
  let st' := accept rid st a b ks in
  matched st' = matched st + length (List.filter exact ks)
  /\ fuzzy_matched st' = fuzzy_matched st + length (List.filter fuzzy ks)
  /\ unmatched st' = unmatched st + length (List.filter missing ks)
  /\ fuzzy_list st' = fuzzy_list st ++ List.map show_key (List.filter fuzzy ks)
  /\ unmatched_list st'
     = unmatched_list st ++ List.map show_key (List.filter missing ks)
  /\ h_para st'
     = commented add_comments (block_color ref_set ref_fuzzy_lookup ks)
         (highlight_span_in_paragraph (h_para st) a b
            (block_color ref_set ref_fuzzy_lookup ks)) a b.
Proof.
  cbv zeta. unfold accept, accept_block, mark_span, commented.
  cbn [matched fuzzy_matched unmatched fuzzy_list unmatched_list h_para].
  pose proof (count_keys_fields ks st) as H. cbv zeta in H.
  destruct H as (H1 & H2 & H3 & H4 & H5 & H6).
  fold count. rewrite H1, H2, H3, H4, H5, H6. repeat split; reflexivity.
Qed.

(** A loop body that, from two states with the same accepted spans, skips
    the match in both or accepts the same block in both. *)
Definition same_decision (f : hstate -> Re.rmatch -> hstate) : Prop :=
  forall s1 s2 m,
    highlighted_spans s1 = highlighted_spans s2 ->
    (f s1 m = s1 /\ f s2 m = s2)
    \/ exists rid ks,
         f s1 m = accept rid s1 (Re.m_start m) (Re.m_end m) ks
         /\ f s2 m = accept rid s2 (Re.m_start m) (Re.m_end m) ks.

Lemma accept_single rid st a b k :
  accept rid st a b [k]
  = mark_span add_comments rid (count st k) a b [k]
      (determine_highlight_color ref_set ref_fuzzy_lookup (fst k) (snd k)).
Proof.
  unfold accept, accept_block. cbn [foldl]. rewrite block_color_single.
  reflexivity.
Qed.

Lemma step_bracket_decides text :
  same_decision (step_bracket NOISE_WORDS ref_set ref_fuzzy_lookup add_comments text).
Proof.
  intros s1 s2 m _. unfold step_bracket.
  generalize (first_surname (clean_author (strip (Re.group text m 1)))).
  generalize (Re.group text m 2). intros year surname.
  destruct (is_noise _ _); [left; split; reflexivity|].
  right. exists RBracket, [(surname, year)].
  rewrite !accept_single. split; reflexivity.
Qed.

Lemma step_block_decides rid keys_of :
  same_decision (step_block ref_set ref_fuzzy_lookup add_comments rid keys_of).
Proof.
  intros s1 s2 m Hs. unfold step_block. rewrite Hs.
  destruct (overlaps _ _ _); [left; split; reflexivity|].
  destruct (keys_of m) as [|k ks]; [left; split; reflexivity|].
  right. exists rid, (k :: ks). split; reflexivity.
Qed.

Lemma step_narrative_decides text :
  same_decision (step_narrative NOISE_WORDS ref_set ref_fuzzy_lookup add_comments text).
Proof.
  intros s1 s2 m Hs. unfold step_narrative. rewrite Hs.
  destruct (overlaps _ _ _); [left; split; reflexivity|].
  destruct (is_noise _ _); [left; split; reflexivity|].
  right. eexists RNarrative, _. split; reflexivity.
Qed.

Lemma step_possessive_decides text :
  same_decision (step_possessive NOISE_WORDS ref_set ref_fuzzy_lookup add_comments text).
Proof.
  intros s1 s2 m Hs. unfold step_possessive. rewrite Hs.
  destruct (overlaps _ _ _); [left; split; reflexivity|].
  destruct (Re.search _ _); [|left; split; reflexivity].
  destruct (subject_block_keys _ _ _) as [|k ks]; [left; split; reflexivity|].
  right. exists RPossessive, (k :: ks). split; reflexivity.
Qed.

Lemma step_lowercase_decides text :
  same_decision (step_lowercase NOISE_WORDS ref_set ref_fuzzy_lookup add_comments text).
Proof.
  intros s1 s2 m Hs. unfold step_lowercase. rewrite Hs.
  destruct (overlaps _ _ _); [left; split; reflexivity|].
  destruct (is_noise _ _); [left; split; reflexivity|].
  right. eexists RLowercase, _. split; reflexivity.
Qed.

Section Related.

(** A relation between two runs of the pass that accepting the same block
    on both sides keeps. *)
Variable R : hstate -> hstate -> Prop.
Hypothesis R_spans : forall s1 s2, R s1 s2 -> highlighted_spans s1 = highlighted_spans s2.
Hypothesis R_accept :
  forall s1 s2 rid a b ks,
    R s1 s2 -> R (accept rid s1 a b ks) (accept rid s2 a b ks).

Lemma foldl_related (f : hstate -> Re.rmatch -> hstate) (ms : list Re.rmatch) :
  same_decision f ->
  forall s1 s2, R s1 s2 -> R (foldl f s1 ms) (foldl f s2 ms).
Proof.
  intros Hf. induction ms as [|m ms IH]; intros s1 s2 HR; cbn [foldl];
    [exact HR|].
  apply IH.
  destruct (Hf s1 s2 m (R_spans _ _ HR)) as [[-> ->]|(rid & ks & -> & ->)].
  - exact HR.
  - apply R_accept. exact HR.
Qed.

Lemma paragraph_spans_related (text : list N) (s1 s2 : hstate) :
  R s1 s2 ->
  R (highlight_paragraph_spans NOISE_WORDS ref_set ref_fuzzy_lookup
       add_comments text s1)
    (highlight_paragraph_spans NOISE_WORDS ref_set ref_fuzzy_lookup
       add_comments text s2).
Proof.
  intros HR. unfold highlight_paragraph_spans.
  apply foldl_related; [apply step_lowercase_decides|].
  apply foldl_related; [apply step_block_decides|].
  apply foldl_related; [apply step_possessive_decides|].
  apply foldl_related; [apply step_narrative_decides|].
  apply foldl_related; [apply step_block_decides|].
  apply foldl_related; [apply step_block_decides|].
  apply foldl_related; [apply step_bracket_decides|].
  exact HR.
Qed.

End Related.

(** The same for a property of one run. *)
Lemma paragraph_spans_invariant (I : hstate -> Prop) (text : list N) (st : hstate) :
  (forall st rid a b ks, I st -> I (accept rid st a b ks)) ->
  I st ->
  I (highlight_paragraph_spans NOISE_WORDS ref_set ref_fuzzy_lookup
       add_comments text st).
Proof.
  intros Hacc HI.
  assert (forall s1 s2 : hstate, s1 = s2 /\ I s1 ->
                 highlighted_spans s1 = highlighted_spans s2) as H1
    by (intros s1 s2 [-> _]; reflexivity).
  assert (forall s1 s2 rid a b ks, s1 = s2 /\ I s1 ->
            accept rid s1 a b ks = accept rid s2 a b ks
            /\ I (accept rid s1 a b ks)) as H2.
  { intros s1 s2 rid a b ks [-> Hs]. split; [reflexivity|]. apply Hacc, Hs. }
  exact (proj2 (paragraph_spans_related (fun s1 s2 => s1 = s2 /\ I s1) H1 H2
                  text st st (conj eq_refl HI))).
Qed.

(** The state the loop over the paragraphs starts a paragraph with. *)
Definition enter (st : hstate) (para : paragraph) : hstate :=
  {| matched := matched st; fuzzy_matched := fuzzy_matched st;
     unmatched := unmatched st; unmatched_list := unmatched_list st;
     fuzzy_list := fuzzy_list st; h_para := para;
     highlighted_spans := []; h_blocks := [] |}.

Lemma highlight_body_paragraph_enter (st : hstate) (para : paragraph) :
  highlight_body_paragraph NOISE_WORDS ref_set ref_fuzzy_lookup add_comments
    st para
  = match strip (normalize_for_highlight (para_text para)) with
    | [] => enter st para
    | _ => highlight_paragraph_spans NOISE_WORDS ref_set ref_fuzzy_lookup
             add_comments (normalize_for_highlight (para_text para))
             (enter st para)
    end.
Proof. reflexivity. Qed.

(** *** The blocks do not depend on the accumulators *)

Definition same_blocks (s1 s2 : hstate) : Prop :=
  highlighted_spans s1 = highlighted_spans s2
  /\ h_blocks s1 = h_blocks s2 /\ h_para s1 = h_para s2.

Lemma same_blocks_paragraph (s1 s2 : hstate) (para : paragraph) :
  same_blocks
    (highlight_body_paragraph NOISE_WORDS ref_set ref_fuzzy_lookup add_comments
       s1 para)
    (highlight_body_paragraph NOISE_WORDS ref_set ref_fuzzy_lookup add_comments
       s2 para).
Proof.
  rewrite !highlight_body_paragraph_enter.
  assert (same_blocks (enter s1 para) (enter s2 para)) as H0
    by (repeat split; reflexivity).
  destruct (strip _); [exact H0|].
  apply paragraph_spans_related; [| |exact H0].
  - intros ? ? [H _]. exact H.
  - intros t1 t2 rid a b ks (Hs & Hb & Hp).
    pose proof (accept_block_fields rid t1 a b ks) as F1.
    pose proof (accept_block_fields rid t2 a b ks) as F2.
    cbv zeta in F1, F2.
    destruct F1 as (_ & _ & _ & _ & _ & F1), F2 as (_ & _ & _ & _ & _ & F2).
    unfold accept in *. split; [|split].
    + rewrite !accept_block_spans, Hs. reflexivity.
    + rewrite !accept_block_blocks, Hb. reflexivity.
    + rewrite F1, F2, Hp. reflexivity.
Qed.

(** *** The accumulators follow the accepted blocks *)

Definition tally (s0 st : hstate) : Prop :=
  let keys := highlighted_keys st in
  matched st = matched s0 + length (List.filter exact keys)
  /\ fuzzy_matched st = fuzzy_matched s0 + length (List.filter fuzzy keys)
  /\ unmatched st = unmatched s0 + length (List.filter missing keys)
  /\ fuzzy_list st = fuzzy_list s0 ++ List.map show_key (List.filter fuzzy keys)
  /\ unmatched_list st
     = unmatched_list s0 ++ List.map show_key (List.filter missing keys).

Lemma highlighted_keys_accept rid st a b ks :
  highlighted_keys (accept rid st a b ks) = highlighted_keys st ++ ks.
Proof.
  unfold highlighted_keys, accept. rewrite accept_block_blocks.
  rewrite flat_map_app. cbn [flat_map span_keys]. rewrite app_nil_r.
  reflexivity.
Qed.

Lemma tally_accept s0 st rid a b ks :
  tally s0 st -> tally s0 (accept rid st a b ks).
Proof.
  unfold tally. cbv zeta. intros (H1 & H2 & H3 & H4 & H5).
  rewrite highlighted_keys_accept.
  pose proof (accept_block_fields rid st a b ks) as F. cbv zeta in F.
  destruct F as (F1 & F2 & F3 & F4 & F5 & _).
  rewrite F1, F2, F3, F4, F5, H1, H2, H3, H4, H5.
  rewrite !List.filter_app, !List.map_app, !length_app, <- !app_assoc.
  repeat split; try reflexivity; lia.
Qed.

Lemma tally_paragraph (st : hstate) (para : paragraph) :
  tally st (highlight_body_paragraph NOISE_WORDS ref_set ref_fuzzy_lookup
              add_comments st para).
Proof.
  rewrite highlight_body_paragraph_enter.
  assert (tally st (enter st para)) as H0.
  { unfold tally, highlighted_keys. cbn. rewrite !app_nil_r.
    repeat split; lia. }
  destruct (strip _); [exact H0|].
  apply paragraph_spans_invariant; [|exact H0].
  intros ? ? ? ? ?. apply tally_accept.
Qed.

(** *** The paragraph follows the accepted blocks *)

(** The marks of the characters after the spans of the blocks are painted in
    the order the blocks were accepted. *)
Definition painted (blocks : list citation_span)
    (marks : list (option (list N))) : list (option (list N)) :=
  foldl (fun marks b => paint (char_start b) (char_end b) (span_color b) 0 marks)
        marks blocks.

Definition follows (para : paragraph) (st : hstate) : Prop :=
  Forall text_in_wt (p_runs (h_para st))
  /\ para_text (h_para st) = para_text para
  /\ char_marks (p_runs (h_para st))
     = painted (h_blocks st) (char_marks (p_runs para))
  /\ (add_comments = false -> p_comments (h_para st) = p_comments para)
  /\ (exists added,
        p_comments (h_para st) = p_comments para ++ added
        /\ Forall (fun c => c_text c = COMMENT_NOT_FOUND
                            /\ c_author c = py "ref-check") added
        /\ length added
           <= length (List.filter
                        (fun b => eqb_str (span_color b) YELLOW_HIGHLIGHT)
                        (h_blocks st))).

Lemma commented_runs ac color para a b :
  p_runs (commented ac color para a b) = p_runs para.
Proof.
  unfold commented. destruct (ac && _); [|reflexivity].
  apply add_comment_to_span_runs.
Qed.

Lemma commented_text ac color para a b :
  para_text (commented ac color para a b) = para_text para.
Proof.
  unfold commented. destruct (ac && _); [|reflexivity].
  apply add_comment_to_span_text.
Qed.

Lemma commented_no_hyperlink ac color para a b :
  no_hyperlink para -> no_hyperlink (commented ac color para a b).
Proof.
  unfold commented. destruct (ac && _); [|auto].
  apply no_hyperlink_comment.
Qed.

Lemma commented_comments color para a b :
  (add_comments = false ->
   p_comments (commented add_comments color para a b) = p_comments para)
  /\ exists added,
       p_comments (commented add_comments color para a b)
       = p_comments para ++ added
       /\ Forall (fun c => c_text c = COMMENT_NOT_FOUND
                           /\ c_author c = py "ref-check") added
       /\ length added <= (if eqb_str color YELLOW_HIGHLIGHT then 1 else 0).
Proof.
  unfold commented. split.
  - intros ->. reflexivity.
  - destruct (add_comments && eqb_str color YELLOW_HIGHLIGHT) eqn:E.
    + apply andb_true_iff in E as [_ ->]. unfold add_comment_to_span.
      destruct (span_runs a b 0 0 (p_runs para)) as [|i rs].
      * exists []. rewrite app_nil_r. repeat split; [constructor|cbn; lia].
      * eexists [_]. cbn [p_comments]. split; [reflexivity|].
        split; [|cbn; lia]. constructor; [|constructor].
        split; reflexivity.
    + exists []. rewrite app_nil_r. repeat split; [constructor|cbn; lia].
Qed.

Lemma follows_accept para st rid a b ks :
  follows para st -> follows para (accept rid st a b ks).
Proof.
  intros (Hwt & Htext & Hmarks & Hno & added & Hadd & Hall & Hlen).
  pose proof (accept_block_fields rid st a b ks) as F. cbv zeta in F.
  destruct F as (_ & _ & _ & _ & _ & F).
  set (color := block_color ref_set ref_fuzzy_lookup ks) in *.
  pose proof (highlight_span_in_runs_spec (p_runs (h_para st)) a b color Hwt)
    as (St & Sm & Sw).
  pose proof (commented_comments color
                (highlight_span_in_paragraph (h_para st) a b color) a b)
    as (Cno & cadd & Cadd & Call & Clen).
  unfold follows. rewrite F.
  rewrite commented_runs, commented_text, highlight_span_in_paragraph_runs.
  unfold accept. rewrite accept_block_blocks. fold color.
  split; [exact Sw|].
  split; [rewrite <- Htext; apply highlight_span_in_paragraph_text, Hwt|].
  split.
  { rewrite Sm, Hmarks. unfold painted. rewrite foldl_app. reflexivity. }
  split.
  { intros Hf. rewrite (Cno Hf). cbn [highlight_span_in_paragraph p_comments].
    apply Hno, Hf. }
  exists (added ++ cadd). split.
  { rewrite Cadd. cbn [highlight_span_in_paragraph p_comments].
    rewrite Hadd, app_assoc. reflexivity. }
  split; [apply Forall_app; split; assumption|].
  rewrite length_app, List.filter_app, length_app.
  cbn [List.filter span_color].
  destruct (eqb_str color YELLOW_HIGHLIGHT); cbn [length]; lia.
Qed.

Lemma follows_paragraph (st : hstate) (para : paragraph) :
  Forall text_in_wt (p_runs para) ->
  follows para (highlight_body_paragraph NOISE_WORDS ref_set ref_fuzzy_lookup
                  add_comments st para).
Proof.
  intros Hwt. rewrite highlight_body_paragraph_enter.
  assert (follows para (enter st para)) as H0.
  { unfold follows, enter. cbn [h_para h_blocks].
    split; [exact Hwt|]. split; [reflexivity|]. split; [reflexivity|].
    split; [reflexivity|]. exists []. rewrite app_nil_r.
    repeat split; [constructor|cbn; lia]. }
  destruct (strip _); [exact H0|].
  apply paragraph_spans_invariant; [|exact H0].
  intros ? ? ? ? ?. apply follows_accept.
Qed.

Lemma no_hyperlink_paragraph (st : hstate) (para : paragraph) :
  no_hyperlink para ->
  no_hyperlink (h_para (highlight_body_paragraph NOISE_WORDS ref_set
                          ref_fuzzy_lookup add_comments st para)).
Proof.
  intros Hn. rewrite highlight_body_paragraph_enter.
  destruct (strip _); [exact Hn|].
  apply (paragraph_spans_invariant (fun st => no_hyperlink (h_para st)));
    [|exact Hn].
  intros st0 rid a b ks H.
  pose proof (accept_block_fields rid st0 a b ks) as F. cbv zeta in F.
  destruct F as (_ & _ & _ & _ & _ & F). rewrite F.
  apply commented_no_hyperlink, no_hyperlink_highlight, H.
Qed.

End BodyPass.

(** ** The loops over the document *)

(** Every paragraph of the body, those of the table cells included. *)
Definition all_paragraphs (d : list block) : list paragraph :=
  List.flat_map (fun b => match b with
                          | BPara p => [p]
                          | BTable cells => List.concat cells
                          end) d.

Definition is_table (b : block) : bool :=
  match b with BTable _ => true | BPara _ => false end.

Section Loops.

Context {St : Type}.
Variable f : St -> paragraph -> St * paragraph.

Lemma over_paragraphs_state (ps : list paragraph) (st : St) :
  fst (over_paragraphs f st ps) = foldl (fun st p => fst (f st p)) st ps.
Proof.
  revert st; induction ps as [|p ps IH]; intros st; cbn [over_paragraphs foldl];
    [reflexivity|].
  destruct (f st p) as [st1 p'] eqn:E. specialize (IH st1).
  destruct (over_paragraphs f st1 ps) as [st2 ps']. cbn [fst] in *.
  exact IH.
Qed.

Lemma over_cells_state (cells : list (list paragraph)) (st : St) :
  fst (over_cells f st cells)
  = foldl (fun st p => fst (f st p)) st (List.concat cells).
Proof.
  revert st; induction cells as [|c cells IH]; intros st;
    cbn [over_cells List.concat]; [reflexivity|].
  pose proof (over_paragraphs_state c st) as Hc.
  destruct (over_paragraphs f st c) as [st1 c']. specialize (IH st1).
  destruct (over_cells f st1 cells) as [st2 cells']. cbn [fst] in *.
  rewrite foldl_app, <- Hc. exact IH.
Qed.

(** The loop over the body runs the loop body over the paragraphs of
    [get_body_paragraphs], in their order. *)
Lemma over_body_state (d : list block) (k : nat) (st : St) :
  fst (over_body f k st d)
  = foldl (fun st p => fst (f st p)) st (get_body_paragraphs_from k d).
Proof.
  revert k st; induction d as [|[p|cells] d IH]; intros k st;
    cbn [over_body get_body_paragraphs_from]; [reflexivity| |].
  - destruct k as [|k]; [reflexivity|]. cbn [foldl].
    destruct (f st p) as [st1 p']. specialize (IH k st1).
    destruct (over_body f k st1 d) as [st2 d']. cbn [fst] in *. exact IH.
  - pose proof (over_cells_state cells st) as Hc.
    destruct (over_cells f st cells) as [st1 cells']. specialize (IH k st1).
    destruct (over_body f k st1 d) as [st2 d']. cbn [fst] in *.
    rewrite foldl_app, <- Hc. exact IH.
Qed.

(** The loop over the reference list runs the loop body over
    [doc.paragraphs[from:]]. *)
Lemma over_tail_state (d : list block) (from : nat) (st : St) :
  fst (over_tail f from st d)
  = foldl (fun st p => fst (f st p)) st (skipn from (doc_paragraphs d)).
Proof.
  revert from st; induction d as [|[p|cells] d IH]; intros from st;
    cbn [over_tail doc_paragraphs].
  - destruct from; reflexivity.
  - destruct from as [|from].
    + cbn [skipn foldl]. destruct (f st p) as [st1 p']. specialize (IH 0 st1).
      destruct (over_tail f 0 st1 d) as [st2 d']. cbn [fst skipn] in *.
      exact IH.
    + cbn [skipn]. specialize (IH from st).
      destruct (over_tail f from st d) as [st2 d']. exact IH.
  - specialize (IH from st). destruct (over_tail f from st d) as [st2 d'].
    exact IH.
Qed.

(** What the loops keep of the document. *)
Variable P : paragraph -> paragraph -> Prop.
Hypothesis P_refl : forall p, P p p.
Hypothesis P_step : forall st p, P p (snd (f st p)).

Lemma over_paragraphs_each (ps : list paragraph) (st : St) :
  Forall2 P ps (snd (over_paragraphs f st ps)).
Proof.
  revert st; induction ps as [|p ps IH]; intros st; cbn [over_paragraphs];
    [constructor|].
  pose proof (P_step st p) as Hp. destruct (f st p) as [st1 p'].
  specialize (IH st1). destruct (over_paragraphs f st1 ps) as [st2 ps'].
  constructor; assumption.
Qed.

Lemma over_cells_each (cells : list (list paragraph)) (st : St) :
  Forall2 P (List.concat cells) (List.concat (snd (over_cells f st cells))).
Proof.
  revert st; induction cells as [|c cells IH]; intros st; cbn [over_cells];
    [constructor|].
  pose proof (over_paragraphs_each c st) as Hc.
  destruct (over_paragraphs f st c) as [st1 c']. specialize (IH st1).
  destruct (over_cells f st1 cells) as [st2 cells'].
  cbn [snd List.concat] in *. apply Forall2_app; assumption.
Qed.

Lemma Forall2_same (l : list paragraph) : Forall2 P l l.
Proof. induction l; constructor; auto. Qed.

Lemma over_body_each (d : list block) (k : nat) (st : St) :
  let d' := snd (over_body f k st d) in
  Forall2 P (all_paragraphs d) (all_paragraphs d')
  /\ List.map is_table d' = List.map is_table d
  /\ skipn k (doc_paragraphs d') = skipn k (doc_paragraphs d).
Proof.
  revert k st; induction d as [|[p|cells] d IH]; intros k st; cbv zeta;
    cbn [over_body].
  - repeat split. constructor.
  - destruct k as [|k].
    + cbn [snd]. split; [apply Forall2_same|]. split; reflexivity.
    + pose proof (P_step st p) as Hp. destruct (f st p) as [st1 p'].
      specialize (IH k st1). cbv zeta in IH.
      destruct (over_body f k st1 d) as [st2 d']. cbn [snd] in *.
      destruct IH as (H1 & H2 & H3).
      split; [constructor; assumption|].
      split; [cbn [List.map is_table]; rewrite H2; reflexivity|].
      exact H3.
  - pose proof (over_cells_each cells st) as Hc.
    destruct (over_cells f st cells) as [st1 cells']. specialize (IH k st1).
    cbv zeta in IH. destruct (over_body f k st1 d) as [st2 d'].
    cbn [snd] in *. destruct IH as (H1 & H2 & H3).
    split; [cbn [all_paragraphs flat_map]; apply Forall2_app; assumption|].
    split; [cbn [List.map is_table]; rewrite H2; reflexivity|].
    exact H3.
Qed.

Lemma over_tail_each (d : list block) (from : nat) (st : St) :
  let d' := snd (over_tail f from st d) in
  Forall2 P (all_paragraphs d) (all_paragraphs d')
  /\ List.map is_table d' = List.map is_table d
  /\ firstn from (doc_paragraphs d') = firstn from (doc_paragraphs d)
  /\ List.filter is_table d' = List.filter is_table d.
Proof.
  revert from st; induction d as [|[p|cells] d IH]; intros from st; cbv zeta;
    cbn [over_tail].
  - cbn [snd all_paragraphs flat_map doc_paragraphs List.map List.filter].
    split; [constructor|]. split; [reflexivity|].
    split; [destruct from; reflexivity|reflexivity].
  - destruct from as [|from].
    + pose proof (P_step st p) as Hp. destruct (f st p) as [st1 p'].
      specialize (IH 0 st1). cbv zeta in IH.
      destruct (over_tail f 0 st1 d) as [st2 d']. cbn [snd] in *.
      destruct IH as (H1 & H2 & H3 & H4).
      split; [constructor; assumption|].
      split; [cbn [List.map is_table]; rewrite H2; reflexivity|].
      split; [reflexivity|]. cbn [List.filter is_table]. exact H4.
    + specialize (IH from st). cbv zeta in IH.
      destruct (over_tail f from st d) as [st2 d']. cbn [snd] in *.
      destruct IH as (H1 & H2 & H3 & H4).
      split; [constructor; [apply P_refl|assumption]|].
      split; [cbn [List.map is_table]; rewrite H2; reflexivity|].
      split; [cbn [doc_paragraphs firstn]; rewrite H3; reflexivity|].
      cbn [List.filter is_table]. exact H4.
  - specialize (IH from st). cbv zeta in IH.
    destruct (over_tail f from st d) as [st2 d']. cbn [snd] in *.
    destruct IH as (H1 & H2 & H3 & H4).
    split; [cbn [all_paragraphs flat_map]; apply Forall2_app;
            [apply Forall2_same|assumption]|].
    split; [cbn [List.map is_table]; rewrite H2; reflexivity|].
    split; [exact H3|]. cbn [List.filter is_table]. rewrite H4. reflexivity.
Qed.

End Loops.

Lemma same_tables_paragraphs (d d' : list block) :
  List.map is_table d' = List.map is_table d ->
  length d' = length d /\ length (doc_paragraphs d') = length (doc_paragraphs d).
Proof.
  revert d'; induction d as [|b d IH]; intros [|b' d'] H; try discriminate.
  - split; reflexivity.
  - cbn [List.map] in H. injection H as Hb H. apply IH in H as [H1 H2].
    split; [cbn [length]; lia|].
    destruct b, b'; try discriminate; cbn [doc_paragraphs length]; lia.
Qed.

(** ** What the pass over the body reports *)

Lemma classes_partition ref_set ref_fuzzy_lookup (keys : list key) :
  length (List.filter (is_exact ref_set ref_fuzzy_lookup) keys)
  + length (List.filter (is_fuzzy ref_set ref_fuzzy_lookup) keys)
  + length (List.filter (is_missing ref_set ref_fuzzy_lookup) keys)
  = length keys.
Proof.
  induction keys as [|k keys IH]; [reflexivity|].
  cbn [List.filter]. unfold is_exact, is_fuzzy, is_missing in *.
  destruct (fuzzy_match_citation _ _ _ _); cbn [length]; lia.
Qed.

Section BodyReport.

Variable NOISE_WORDS : gset (list N).
Variable ref_set : gset key.
Variable ref_fuzzy_lookup : gmap key (list key).
Variable add_comments : bool.

(** The keys of the blocks accepted in a paragraph, and the paragraph as it
    is marked. *)
Definition paragraph_keys (para : paragraph) : list key :=
  highlighted_keys
    (highlight_body_paragraph NOISE_WORDS ref_set ref_fuzzy_lookup add_comments
       INITIAL_HSTATE para).

Definition marked_paragraph (para : paragraph) : paragraph :=
  h_para
    (highlight_body_paragraph NOISE_WORDS ref_set ref_fuzzy_lookup add_comments
       INITIAL_HSTATE para).

Lemma paragraph_keys_any (st : hstate) (para : paragraph) :
  highlighted_keys
    (highlight_body_paragraph NOISE_WORDS ref_set ref_fuzzy_lookup add_comments
       st para) = paragraph_keys para
  /\ h_para
       (highlight_body_paragraph NOISE_WORDS ref_set ref_fuzzy_lookup
          add_comments st para) = marked_paragraph para.
Proof.
  destruct (same_blocks_paragraph NOISE_WORDS ref_set ref_fuzzy_lookup
              add_comments st INITIAL_HSTATE para) as (_ & Hb & Hp).
  unfold paragraph_keys, marked_paragraph, highlighted_keys.
  rewrite Hb, Hp. split; reflexivity.
Qed.

Lemma tally_paragraphs (paras : list paragraph) (st : hstate) :
  let st' :=
    foldl (highlight_body_paragraph NOISE_WORDS ref_set ref_fuzzy_lookup
             add_comments) st paras in
  let keys := List.flat_map paragraph_keys paras in
  matched st'
  = matched st + length (List.filter (is_exact ref_set ref_fuzzy_lookup) keys)
  /\ fuzzy_matched st'
     = fuzzy_matched st
       + length (List.filter (is_fuzzy ref_set ref_fuzzy_lookup) keys)
  /\ unmatched st'
     = unmatched st
       + length (List.filter (is_missing ref_set ref_fuzzy_lookup) keys)
  /\ fuzzy_list st'
     = fuzzy_list st
       ++ List.map show_key (List.filter (is_fuzzy ref_set ref_fuzzy_lookup) keys)
  /\ unmatched_list st'
     = unmatched_list st
       ++ List.map show_key
            (List.filter (is_missing ref_set ref_fuzzy_lookup) keys).
Proof.
  revert st; induction paras as [|p paras IH]; intros st; cbv zeta.
  - cbn [foldl flat_map List.filter List.map length]. rewrite !app_nil_r.
    repeat split; lia.
  - cbn [foldl flat_map].
    specialize (IH (highlight_body_paragraph NOISE_WORDS ref_set
                      ref_fuzzy_lookup add_comments st p)).
    cbv zeta in IH. destruct IH as (H1 & H2 & H3 & H4 & H5).
    pose proof (tally_paragraph NOISE_WORDS ref_set ref_fuzzy_lookup
                  add_comments st p) as T.
    unfold tally in T. cbv zeta in T.
    rewrite (proj1 (paragraph_keys_any st p)) in T.
    destruct T as (T1 & T2 & T3 & T4 & T5).
    rewrite H1, H2, H3, H4, H5, T1, T2, T3, T4, T5.
    rewrite !List.filter_app, !List.map_app, !length_app, <- !app_assoc.
    repeat split; try reflexivity; lia.
Qed.

End BodyReport.

Lemma body_result_tally
    (NOISE_WORDS : gset (list N)) (d : list block) (ref_para_idx : nat)
    (ref_set : gset key) (ref_fuzzy_lookup : gmap key (list key))
    (add_comments : bool) :
  let b := snd (highlight_body_citations NOISE_WORDS d ref_para_idx ref_set
                  ref_fuzzy_lookup add_comments) in
  let keys :=
    List.flat_map
      (paragraph_keys NOISE_WORDS ref_set ref_fuzzy_lookup add_comments)
      (get_body_paragraphs d ref_para_idx) in
  b_matched b = length (List.filter (is_exact ref_set ref_fuzzy_lookup) keys)
  /\ b_fuzzy_list b
     = List.map show_key (List.filter (is_fuzzy ref_set ref_fuzzy_lookup) keys)
  /\ b_unmatched_list b
     = List.map show_key (List.filter (is_missing ref_set ref_fuzzy_lookup) keys)
  /\ b_fuzzy b = length (b_fuzzy_list b)
  /\ b_unmatched b = length (b_unmatched_list b)
  /\ b_matched b + b_fuzzy b + b_unmatched b = length keys.
Proof.
  cbv zeta. unfold highlight_body_citations, get_body_paragraphs.
  set (f := fun (st : hstate) (para : paragraph) =>
              let st' := highlight_body_paragraph NOISE_WORDS ref_set
                           ref_fuzzy_lookup add_comments st para in
              (st', h_para st')).
  set (init := {| matched := 0; fuzzy_matched := 0; unmatched := 0;
                  unmatched_list := []; fuzzy_list := [];
                  h_para := EMPTY_PARAGRAPH; highlighted_spans := [];
                  h_blocks := [] |}).
  pose proof (over_body_state f d ref_para_idx init) as Hst.
  destruct (over_body f ref_para_idx init d) as [st d']. cbn [fst snd] in *.
  pose proof (tally_paragraphs NOISE_WORDS ref_set ref_fuzzy_lookup add_comments
                (get_body_paragraphs_from ref_para_idx d) init) as T.
  cbv zeta in T. change (foldl _ init _) with
    (foldl (fun st p => fst (f st p)) init
       (get_body_paragraphs_from ref_para_idx d)) in T.
  rewrite <- Hst in T. destruct T as (T1 & T2 & T3 & T4 & T5).
  cbn [b_matched b_fuzzy b_unmatched b_fuzzy_list b_unmatched_list].
  rewrite T1, T2, T3, T4, T5. cbn [matched fuzzy_matched unmatched fuzzy_list
                                   unmatched_list init app].
  rewrite !length_map.
  repeat split; try reflexivity.
  apply classes_partition.
Qed.

(** X8. What [highlight_body_citations] returns is read off the blocks it
    accepts: with [keys] the keys of the accepted blocks of the paragraphs of
    [get_body_paragraphs], paragraph by paragraph and block by block, the
    fuzzy and the unmatched list are the strings ["surname (year)"] of the
    keys with a fuzzy match and of those with none, in that order, each
    counter is the number of keys of its class, and the three counters add
    up to the number of keys. *)
Theorem body_counts_follow_blocks
    (NOISE_WORDS : gset (list N)) (d : list block) (ref_para_idx : nat)
    (ref_set : gset key) (ref_fuzzy_lookup : gmap key (list key))
    (add_comments : bool) :
  let b := snd (highlight_body_citations NOISE_WORDS d ref_para_idx ref_set
                  ref_fuzzy_lookup add_comments) in
  let keys :=
    List.flat_map
      (paragraph_keys NOISE_WORDS ref_set ref_fuzzy_lookup add_comments)
      (get_body_paragraphs d ref_para_idx) in
  b_matched b = length (List.filter (is_exact ref_set ref_fuzzy_lookup) keys)
  /\ b_fuzzy_list b
     = List.map show_key (List.filter (is_fuzzy ref_set ref_fuzzy_lookup) keys)
  /\ b_unmatched_list b
     = List.map show_key (List.filter (is_missing ref_set ref_fuzzy_lookup) keys)
  /\ b_fuzzy b = length (b_fuzzy_list b)
  /\ b_unmatched b = length (b_unmatched_list b)
  /\ b_matched b + b_fuzzy b + b_unmatched b = length keys.
Proof.
  exact (body_result_tally NOISE_WORDS d ref_para_idx ref_set ref_fuzzy_lookup add_comments).
Qed.

(** X9. [highlight_body_citations] works on the paragraphs before the
    references heading only: the paragraph [doc.paragraphs[ref_para_idx]] and
    those after it stay as they are, the document keeps its paragraphs and
    tables in place, and every paragraph is left alone or replaced by the
    paragraph as the recognizers mark it, which does not depend on the
    paragraphs before it. *)
Theorem body_pass_stops_at_heading
    (NOISE_WORDS : gset (list N)) (d : list block) (ref_para_idx : nat)
    (ref_set : gset key) (ref_fuzzy_lookup : gmap key (list key))
    (add_comments : bool) :
  let d' := fst (highlight_body_citations NOISE_WORDS d ref_para_idx ref_set
                   ref_fuzzy_lookup add_comments) in
  skipn ref_para_idx (doc_paragraphs d') = skipn ref_para_idx (doc_paragraphs d)
  /\ List.map is_table d' = List.map is_table d
  /\ Forall2 (fun p p' =>
                p' = p
                \/ p' = marked_paragraph NOISE_WORDS ref_set ref_fuzzy_lookup
                          add_comments p)
             (all_paragraphs d) (all_paragraphs d').
Proof.
  cbv zeta. unfold highlight_body_citations.
  set (f := fun (st : hstate) (para : paragraph) =>
              let st' := highlight_body_paragraph NOISE_WORDS ref_set
                           ref_fuzzy_lookup add_comments st para in
              (st', h_para st')).
  set (init := {| matched := 0; fuzzy_matched := 0; unmatched := 0;
                  unmatched_list := []; fuzzy_list := [];
                  h_para := EMPTY_PARAGRAPH; highlighted_spans := [];
                  h_blocks := [] |}).
  pose proof (over_body_each f
                (fun p p' => p' = p
                             \/ p' = marked_paragraph NOISE_WORDS ref_set
                                       ref_fuzzy_lookup add_comments p)) as H.
  specialize (H (fun p => or_introl eq_refl)).
  assert (forall st p,
             snd (f st p) = p
             \/ snd (f st p) = marked_paragraph NOISE_WORDS ref_set
                                 ref_fuzzy_lookup add_comments p) as Hstep.
  { intros st p. right. unfold f. cbn [snd].
    apply (paragraph_keys_any NOISE_WORDS ref_set ref_fuzzy_lookup add_comments). }
  specialize (H Hstep d ref_para_idx init). cbv zeta in H.
  destruct (over_body f ref_para_idx init d) as [st d']. cbn [fst snd] in *.
  destruct H as (H1 & H2 & H3). split; [exact H3|]. split; assumption.
Qed.

(** A paragraph of the kind the marking keeps the text of: all the text of
    its runs is in [w:t] elements. *)
Definition plain (p : paragraph) : Prop := Forall text_in_wt (p_runs p).

(** X10. For a paragraph without hyperlinks whose run text is all in [w:t]
    elements, the highlighting pass leaves the text as it is, the text of
    the runs is the text of the paragraph, and the spans of the accepted
    blocks are painted over the highlights of its characters in the order
    the blocks were accepted, so that a character ends with the colour of
    the last accepted block that covers it.  Comments are added only with
    [add_comments], at most one for each yellow block, each with the text
    "Citation not found in reference list" and the author "ref-check". *)
Theorem paragraph_marks_follow_blocks
    (NOISE_WORDS : gset (list N)) (ref_set : gset key)
    (ref_fuzzy_lookup : gmap key (list key)) (add_comments : bool)
    (st : hstate) (para : paragraph) :
  no_hyperlink para ->
  plain para ->
  let st' := highlight_body_paragraph NOISE_WORDS ref_set ref_fuzzy_lookup
               add_comments st para in
  plain (h_para st')
  /\ para_text (h_para st') = para_text para
  /\ runs_text (p_runs (h_para st')) = para_text para
  /\ char_marks (p_runs (h_para st'))
     = painted (h_blocks st') (char_marks (p_runs para))
  /\ (add_comments = false -> p_comments (h_para st') = p_comments para)
  /\ (exists added,
        p_comments (h_para st') = p_comments para ++ added
        /\ Forall (fun c => c_text c = COMMENT_NOT_FOUND
                            /\ c_author c = py "ref-check") added
        /\ length added
           <= length (List.filter
                        (fun b => eqb_str (span_color b) YELLOW_HIGHLIGHT)
                        (h_blocks st'))).
Proof.
  intros Hn Hp. cbv zeta.
  destruct (follows_paragraph NOISE_WORDS ref_set ref_fuzzy_lookup
              add_comments st para Hp) as (H1 & H2 & H3).
  split; [exact H1|]. split; [exact H2|]. split; [|exact H3].
  rewrite <- H2. symmetry. apply no_hyperlink_text.
  apply no_hyperlink_paragraph, Hn.
Qed.

(** In "(Smith [2009])" the bracket span (1, 13) and then the parenthetical
    span (0, 14) are painted yellow. *)
Lemma paragraph_marks_follow_blocks_witness :
  let st' := highlight_body_paragraph NOISE_WORDS_0 ∅ ∅ true INITIAL_HSTATE
               NESTED_PARAGRAPH in
  plain (h_para st')
  /\ para_text (h_para st') = para_text NESTED_PARAGRAPH
  /\ runs_text (p_runs (h_para st')) = para_text NESTED_PARAGRAPH
  /\ char_marks (p_runs (h_para st'))
     = painted (h_blocks st') (char_marks (p_runs NESTED_PARAGRAPH))
  /\ (true = false -> p_comments (h_para st') = p_comments NESTED_PARAGRAPH)
  /\ (exists added,
        p_comments (h_para st') = p_comments NESTED_PARAGRAPH ++ added
        /\ Forall (fun c => c_text c = COMMENT_NOT_FOUND
                            /\ c_author c = py "ref-check") added
        /\ length added
           <= length (List.filter
                        (fun b => eqb_str (span_color b) YELLOW_HIGHLIGHT)
                        (h_blocks st'))).
Proof.
  apply (paragraph_marks_follow_blocks NOISE_WORDS_0 ∅ ∅ true INITIAL_HSTATE
           NESTED_PARAGRAPH).
  - reflexivity.
  - repeat constructor.
Defined.

(** A paragraph with a hyperlink: "See " and " and Jones (2010)." are runs,
    "Smith (2009)" between them is a hyperlink. *)
Definition LINKED_PARAGRAPH : paragraph :=
  {| p_children :=
       [P_r {| r_highlight := None; r_format := [];
               r_children := [W_t true (py "See ")] |};
        P_hyperlink [{| r_highlight := None; r_format := [];
                        r_children := [W_t false (py "Smith (2009)")] |}];
        P_r {| r_highlight := None; r_format := [];
               r_children := [W_t true (py " and Jones (2010).")] |}];
     p_comments := [] |}.

(** With a hyperlink the spans, which are offsets into [para.text], are
    painted on the text of [para.runs], which lacks the text of the
    hyperlink: the spans (0, 16) of "See Smith (2009)" and (21, 33) of
    "Jones (2010)" paint "See ", " and Jones (" and the final ".", and leave
    "2010)" as it was. *)
Lemma hyperlink_moves_body_spans :
  let st' := highlight_body_paragraph NOISE_WORDS_0 ∅ ∅ false INITIAL_HSTATE
               LINKED_PARAGRAPH in
  highlighted_spans st' = [(0, 16); (21, 33)]
  /\ para_text (h_para st') = py "See Smith (2009) and Jones (2010)."
  /\ List.map (fun r => (r_highlight r, run_text r)) (p_runs (h_para st'))
     = [ (Some YELLOW_HIGHLIGHT, py "See ");
         (Some YELLOW_HIGHLIGHT, py " and Jones (");
         (None, py "2010)");
         (Some YELLOW_HIGHLIGHT, py ".") ].
Proof. cbv zeta. by_evaluation. Qed.

(** ** The pass over the reference list *)

(** The class of a reference key against the citation set. *)
Definition is_cited (citation_set : gset key)
    (citation_fuzzy_lookup : gmap key (list key)) (k : key) : bool :=
  match fuzzy_match_reference (fst k) (snd k) citation_set
          citation_fuzzy_lookup with
  | Exact _ => true
  | _ => false
  end.

Definition is_fuzzy_cited (citation_set : gset key)
    (citation_fuzzy_lookup : gmap key (list key)) (k : key) : bool :=
  match fuzzy_match_reference (fst k) (snd k) citation_set
          citation_fuzzy_lookup with
  | Fuzzy _ => true
  | _ => false
  end.

Definition is_uncited (citation_set : gset key)
    (citation_fuzzy_lookup : gmap key (list key)) (k : key) : bool :=
  match fuzzy_match_reference (fst k) (snd k) citation_set
          citation_fuzzy_lookup with
  | NoMatch => true
  | _ => false
  end.

(** The colour of a reference paragraph. *)
Definition reference_color (citation_set : gset key)
    (citation_fuzzy_lookup : gmap key (list key)) (k : key) : list N :=
  match fuzzy_match_reference (fst k) (snd k) citation_set
          citation_fuzzy_lookup with
  | Exact _ => GREEN_HIGHLIGHT
  | Fuzzy _ => CYAN_HIGHLIGHT
  | NoMatch => RED_HIGHLIGHT
  end.

Section ReferencePass.

Variable citation_set : gset key.
Variable citation_fuzzy_lookup : gmap key (list key).
Variable add_comments : bool.

Let cited := is_cited citation_set citation_fuzzy_lookup.
Let fuzzy := is_fuzzy_cited citation_set citation_fuzzy_lookup.
Let uncited := is_uncited citation_set citation_fuzzy_lookup.
Let step := highlight_reference citation_set citation_fuzzy_lookup add_comments.

(** The reference paragraph as it is marked. *)
Definition marked_reference (para : paragraph) : paragraph :=
  snd (step INITIAL_RSTATE para).

Lemma highlight_reference_fields (st : rstate) (para : paragraph) :
  let keys := option_list (reference_key para) in
  let st' := fst (step st para) in
  cited_count st' = cited_count st + length (List.filter cited keys)
  /\ fuzzy_count st' = fuzzy_count st + length (List.filter fuzzy keys)
  /\ uncited_count st' = uncited_count st + length (List.filter uncited keys)
  /\ r_fuzzy_list st'
     = r_fuzzy_list st ++ List.map show_key (List.filter fuzzy keys)
  /\ uncited_list st'
     = uncited_list st ++ List.map show_key (List.filter uncited keys)
  /\ snd (step st para) = marked_reference para
  /\ marked_reference para
     = match reference_key para with
       | None => para
       | Some k =>
           let color := reference_color citation_set citation_fuzzy_lookup k in
           let para' := highlight_span_in_paragraph para 0
                          (reference_span_end para) color in
           if add_comments && eqb_str color RED_HIGHLIGHT
           then add_comment_to_span para' 0 (reference_span_end para)
                  COMMENT_NOT_CITED
           else para'
       end.
Proof.
  cbv zeta. unfold marked_reference, step, highlight_reference,
    cited, fuzzy, uncited, is_cited, is_fuzzy_cited, is_uncited, reference_color.
  destruct (reference_key para) as [[s y]|].
  - change (option_list (Some (s, y))) with [(s, y)].
    cbn [List.filter fst snd].
    destruct (fuzzy_match_reference s y citation_set citation_fuzzy_lookup);
      cbn [fst snd cited_count fuzzy_count uncited_count r_fuzzy_list
           uncited_list List.map length INITIAL_RSTATE];
      rewrite ?app_nil_r; repeat split; try reflexivity; lia.
  - change (option_list None) with (@nil key).
    cbn [fst snd List.filter List.map length]. rewrite !app_nil_r.
    repeat split; try reflexivity; lia.
Qed.

Lemma tally_references (paras : list paragraph) (st : rstate) :
  let keys := omap reference_key paras in
  let st' := foldl (fun st p => fst (step st p)) st paras in
  cited_count st' = cited_count st + length (List.filter cited keys)
  /\ fuzzy_count st' = fuzzy_count st + length (List.filter fuzzy keys)
  /\ uncited_count st' = uncited_count st + length (List.filter uncited keys)
  /\ r_fuzzy_list st'
     = r_fuzzy_list st ++ List.map show_key (List.filter fuzzy keys)
  /\ uncited_list st'
     = uncited_list st ++ List.map show_key (List.filter uncited keys).
Proof.
  revert st; induction paras as [|p paras IH]; intros st; cbv zeta.
  - cbn [foldl omap list_omap List.filter List.map length]. rewrite !app_nil_r.
    repeat split; lia.
  - cbn [foldl]. specialize (IH (fst (step st p))). cbv zeta in IH.
    destruct IH as (H1 & H2 & H3 & H4 & H5).
    pose proof (highlight_reference_fields st p) as T. cbv zeta in T.
    destruct T as (T1 & T2 & T3 & T4 & T5 & _).
    rewrite H1, H2, H3, H4, H5, T1, T2, T3, T4, T5.
    replace (omap reference_key (p :: paras))
      with (option_list (reference_key p) ++ omap reference_key paras)
      by (cbn [omap list_omap]; destruct (reference_key p); reflexivity).
    rewrite !List.filter_app, !List.map_app, !length_app, <- !app_assoc.
    repeat split; try reflexivity; lia.
Qed.

Lemma reference_classes_partition (keys : list key) :
  length (List.filter cited keys) + length (List.filter fuzzy keys)
  + length (List.filter uncited keys) = length keys.
Proof.
  induction keys as [|k keys IH]; [reflexivity|].
  cbn [List.filter].
  unfold cited, fuzzy, uncited, is_cited, is_fuzzy_cited, is_uncited in *.
  destruct (fuzzy_match_reference _ _ _ _); cbn [length]; lia.
Qed.

Lemma marked_reference_plain (para : paragraph) :
  plain para ->
  plain (marked_reference para)
  /\ para_text (marked_reference para) = para_text para.
Proof.
  intros Hp.
  destruct (highlight_reference_fields INITIAL_RSTATE para)
    as (_ & _ & _ & _ & _ & _ & ->).
  destruct (reference_key para) as [k|]; [|split; [exact Hp|reflexivity]].
  cbv zeta.
  set (color := reference_color citation_set citation_fuzzy_lookup k).
  pose proof (highlight_span_in_runs_spec (p_runs para) 0
                (reference_span_end para) color Hp) as (St & _ & Sw).
  unfold plain.
  destruct (add_comments && _);
    rewrite ?add_comment_to_span_runs, ?add_comment_to_span_text,
      highlight_span_in_paragraph_runs;
    (split; [exact Sw | apply highlight_span_in_paragraph_text; exact Hp]).
Qed.

End ReferencePass.

Lemma reference_result_tally
    (citation_set : gset key) (citation_fuzzy_lookup : gmap key (list key))
    (add_comments : bool) (d : list block) (ref_para_idx : nat) :
  let d' := fst (highlight_references citation_set citation_fuzzy_lookup
                   add_comments d ref_para_idx) in
  let r := snd (highlight_references citation_set citation_fuzzy_lookup
                  add_comments d ref_para_idx) in
  let keys := omap reference_key (skipn (ref_para_idx + 1) (doc_paragraphs d)) in
  let cited := is_cited citation_set citation_fuzzy_lookup in
  let fuzzy := is_fuzzy_cited citation_set citation_fuzzy_lookup in
  let uncited := is_uncited citation_set citation_fuzzy_lookup in
  cited_count r = length (List.filter cited keys)
  /\ r_fuzzy_list r = List.map show_key (List.filter fuzzy keys)
  /\ uncited_list r = List.map show_key (List.filter uncited keys)
  /\ fuzzy_count r = length (r_fuzzy_list r)
  /\ uncited_count r = length (uncited_list r)
  /\ cited_count r + fuzzy_count r + uncited_count r = length keys
  /\ firstn (ref_para_idx + 1) (doc_paragraphs d')
     = firstn (ref_para_idx + 1) (doc_paragraphs d)
  /\ List.map is_table d' = List.map is_table d
  /\ List.filter is_table d' = List.filter is_table d
  /\ Forall2 (fun p p' =>
                p' = p
                \/ p' = marked_reference citation_set citation_fuzzy_lookup
                          add_comments p)
             (all_paragraphs d) (all_paragraphs d').
Proof.
  cbv zeta. unfold highlight_references.
  set (f := highlight_reference citation_set citation_fuzzy_lookup add_comments).
  set (init := {| cited_count := 0; fuzzy_count := 0; uncited_count := 0;
                  uncited_list := []; r_fuzzy_list := [] |}).
  pose proof (over_tail_state f d (ref_para_idx + 1) init) as Hst.
  pose proof (over_tail_each f
                (fun p p' => p' = p
                             \/ p' = marked_reference citation_set
                                       citation_fuzzy_lookup add_comments p)
                (fun p => or_introl eq_refl)) as H.
  assert (forall st p,
             snd (f st p) = p
             \/ snd (f st p) = marked_reference citation_set
                                 citation_fuzzy_lookup add_comments p) as Hstep.
  { intros st p. right.
    apply (highlight_reference_fields citation_set citation_fuzzy_lookup
             add_comments st p). }
  specialize (H Hstep d (ref_para_idx + 1) init). cbv zeta in H.
  destruct (over_tail f (ref_para_idx + 1) init d) as [st d'].
  cbn [fst snd] in *.
  pose proof (tally_references citation_set citation_fuzzy_lookup add_comments
                (skipn (ref_para_idx + 1) (doc_paragraphs d)) init) as T.
  cbv zeta in T. fold f in T. rewrite <- Hst in T.
  destruct T as (T1 & T2 & T3 & T4 & T5).
  destruct H as (H1 & H2 & H3 & H4).
  rewrite T1, T2, T3, T4, T5.
  cbn [cited_count fuzzy_count uncited_count r_fuzzy_list uncited_list init app].
  rewrite !length_map.
  repeat split; try reflexivity; try assumption.
  apply reference_classes_partition.
Qed.

(** X11. What [highlight_references] returns is read off the keys of the
    paragraphs [doc.paragraphs[ref_para_idx+1:]] that it classifies: the
    fuzzy and the uncited list are the strings of the keys of their class in
    the order of the paragraphs, each counter is the number of keys of its
    class, and the three counters add up to the number of classified
    paragraphs.  The pass changes no paragraph up to and including the
    heading and no table, and each paragraph after the heading is replaced
    by the paragraph as it is marked, which depends on that paragraph
    alone. *)
Theorem reference_counts_follow_keys
    (citation_set : gset key) (citation_fuzzy_lookup : gmap key (list key))
    (add_comments : bool) (d : list block) (ref_para_idx : nat) :
  let d' := fst (highlight_references citation_set citation_fuzzy_lookup
                   add_comments d ref_para_idx) in
  let r := snd (highlight_references citation_set citation_fuzzy_lookup
                  add_comments d ref_para_idx) in
  let keys := omap reference_key (skipn (ref_para_idx + 1) (doc_paragraphs d)) in
  let cited := is_cited citation_set citation_fuzzy_lookup in
  let fuzzy := is_fuzzy_cited citation_set citation_fuzzy_lookup in
  let uncited := is_uncited citation_set citation_fuzzy_lookup in
  cited_count r = length (List.filter cited keys)
  /\ r_fuzzy_list r = List.map show_key (List.filter fuzzy keys)
  /\ uncited_list r = List.map show_key (List.filter uncited keys)
  /\ fuzzy_count r = length (r_fuzzy_list r)
  /\ uncited_count r = length (uncited_list r)
  /\ cited_count r + fuzzy_count r + uncited_count r = length keys
  /\ firstn (ref_para_idx + 1) (doc_paragraphs d')
     = firstn (ref_para_idx + 1) (doc_paragraphs d)
  /\ List.map is_table d' = List.map is_table d
  /\ List.filter is_table d' = List.filter is_table d
  /\ Forall2 (fun p p' =>
                p' = p
                \/ p' = marked_reference citation_set citation_fuzzy_lookup
                          add_comments p)
             (all_paragraphs d) (all_paragraphs d').
Proof.
  exact (reference_result_tally citation_set citation_fuzzy_lookup add_comments d ref_para_idx).
Qed.

(** ** The run as a whole *)

(** The values [main] computes on its way, under their names in [main]. *)
Definition main_noise_words (learned : learned_patterns) : gset (list N) :=
  apply_learned_noise_words NOISE_WORDS_0 learned.

Definition main_citation_set (learned : learned_patterns) (d : list block)
  : gset key :=
  extract_citations_from_text (main_noise_words learned)
    (join [10%N; 10%N]
       (List.map para_text
          (get_body_paragraphs d (find_references_heading_index d)))).

Definition main_ref_set (d : list block) : gset key :=
  extract_references_from_doc d (find_references_heading_index d).

(** The document and the counts after the pass over the body. *)
Definition main_body (learned : learned_patterns) (add_comments : bool)
    (d : list block) : list block * body_result :=
  highlight_body_citations (main_noise_words learned) d
    (find_references_heading_index d) (main_ref_set d)
    (build_fuzzy_lookup (elements (main_ref_set d))) add_comments.

(** The document and the counts after the pass over the reference list. *)
Definition main_refs (learned : learned_patterns) (add_comments : bool)
    (d : list block) : list block * rstate :=
  highlight_references (main_citation_set learned d)
    (build_fuzzy_lookup (elements (main_citation_set learned d))) add_comments
    (fst (main_body learned add_comments d))
    (find_references_heading_index d).

(** The figures of the report before and after the learned cross-matches. *)
Definition main_counts (learned : learned_patterns) (add_comments : bool)
    (d : list block) : run_state :=
  let b := snd (main_body learned add_comments d) in
  let r := snd (main_refs learned add_comments d) in
  {| doc := fst (main_refs learned add_comments d);
     body_matched := Z.of_nat (b_matched b);
     body_fuzzy := Z.of_nat (b_fuzzy b);
     body_unmatched := Z.of_nat (b_unmatched b);
     m_unmatched_list := b_unmatched_list b;
     fuzzy_cite_list := b_fuzzy_list b;
     ref_cited := Z.of_nat (cited_count r);
     ref_fuzzy := Z.of_nat (fuzzy_count r);
     ref_uncited := Z.of_nat (uncited_count r);
     m_uncited_list := uncited_list r;
     fuzzy_ref_list := r_fuzzy_list r |}.

Definition main_final (learned : learned_patterns) (add_comments : bool)
    (d : list block) : run_state :=
  apply_auto_matches learned (main_counts learned add_comments d).

Lemma main_unfold (learned : learned_patterns) (add_comments : bool)
    (d : list block) :
  main learned add_comments d
  = match insert_legend (fst (main_refs learned add_comments d)) with
    | None => None
    | Some saved =>
        let st := main_final learned add_comments d in
        let ref_set := main_ref_set d in
        let citation_set := main_citation_set learned d in
        Some (saved,
              {| j_body_text :=
                   join [10%N; 10%N]
                     (List.map para_text
                        (get_body_paragraphs d (find_references_heading_index d)));
                 j_ref_text :=
                   join [10%N]
                     (List.filter (fun t => negb (eqb_str t []))
                        (List.map (fun p => strip (para_text p))
                           (skipn (find_references_heading_index d + 1)
                              (doc_paragraphs d))));
                 j_regex_citations := size citation_set;
                 j_references := size ref_set;
                 j_body_matched := body_matched st;
                 j_body_fuzzy := body_fuzzy st;
                 j_body_unmatched := body_unmatched st;
                 j_ref_cited := ref_cited st;
                 j_ref_fuzzy := ref_fuzzy st;
                 j_ref_uncited := ref_uncited st;
                 j_matched_citations :=
                   list_to_set
                     (List.map show_key
                        (List.filter
                           (fun k =>
                              match fuzzy_match_citation (fst k) (snd k) ref_set
                                      (build_fuzzy_lookup (elements ref_set)) with
                              | Exact _ => true
                              | _ => false
                              end) (elements citation_set)));
                 j_fuzzy_matches :=
                   list_to_set (fuzzy_cite_list st ++ fuzzy_ref_list st);
                 j_unmatched_citations := list_to_set (m_unmatched_list st);
                 j_uncited_references := list_to_set (m_uncited_list st);
                 j_citation_set := citation_set;
                 j_ref_set := ref_set |})
    end.
Proof.
  unfold main, main_final, main_counts, main_refs, main_body, main_ref_set,
    main_citation_set, main_noise_words. cbv zeta.
  destruct (highlight_body_citations _ _ _ _ _ _) as [d1 b]. cbn [fst snd].
  destruct (highlight_references _ _ _ _ _) as [d2 r]. cbn [fst snd].
  rewrite apply_auto_matches_doc. cbn [doc]. reflexivity.
Qed.

(** What the two passes keep of every paragraph, for a relation that the
    marking of a single paragraph keeps. *)
Lemma highlight_body_citations_each (P : paragraph -> paragraph -> Prop)
    NOISE_WORDS d ref_para_idx ref_set ref_fuzzy_lookup add_comments :
  (forall p, P p p) ->
  (forall p, P p (marked_paragraph NOISE_WORDS ref_set ref_fuzzy_lookup
                    add_comments p)) ->
  let d' := fst (highlight_body_citations NOISE_WORDS d ref_para_idx ref_set
                   ref_fuzzy_lookup add_comments) in
  Forall2 P (all_paragraphs d) (all_paragraphs d')
  /\ List.map is_table d' = List.map is_table d
  /\ skipn ref_para_idx (doc_paragraphs d') = skipn ref_para_idx (doc_paragraphs d).
Proof.
  intros Hrefl Hmark. cbv zeta. unfold highlight_body_citations.
  set (f := fun (st : hstate) (para : paragraph) =>
              let st' := highlight_body_paragraph NOISE_WORDS ref_set
                           ref_fuzzy_lookup add_comments st para in
              (st', h_para st')).
  set (init := {| matched := 0; fuzzy_matched := 0; unmatched := 0;
                  unmatched_list := []; fuzzy_list := [];
                  h_para := EMPTY_PARAGRAPH; highlighted_spans := [];
                  h_blocks := [] |}).
  assert (forall st p, P p (snd (f st p))) as Hstep.
  { intros st p. unfold f. cbn [snd].
    rewrite (proj2 (paragraph_keys_any NOISE_WORDS ref_set ref_fuzzy_lookup
                      add_comments st p)). apply Hmark. }
  pose proof (over_body_each f P Hrefl Hstep d ref_para_idx init) as H.
  cbv zeta in H. destruct (over_body f ref_para_idx init d) as [st d'].
  exact H.
Qed.

Lemma highlight_references_each (P : paragraph -> paragraph -> Prop)
    citation_set citation_fuzzy_lookup add_comments d ref_para_idx :
  (forall p, P p p) ->
  (forall p, P p (marked_reference citation_set citation_fuzzy_lookup
                    add_comments p)) ->
  let d' := fst (highlight_references citation_set citation_fuzzy_lookup
                   add_comments d ref_para_idx) in
  Forall2 P (all_paragraphs d) (all_paragraphs d')
  /\ List.map is_table d' = List.map is_table d
  /\ firstn (ref_para_idx + 1) (doc_paragraphs d')
     = firstn (ref_para_idx + 1) (doc_paragraphs d)
  /\ List.filter is_table d' = List.filter is_table d.
Proof.
  intros Hrefl Hmark. cbv zeta. unfold highlight_references.
  set (f := highlight_reference citation_set citation_fuzzy_lookup add_comments).
  set (init := {| cited_count := 0; fuzzy_count := 0; uncited_count := 0;
                  uncited_list := []; r_fuzzy_list := [] |}).
  assert (forall st p, P p (snd (f st p))) as Hstep.
  { intros st p. unfold f.
    destruct (highlight_reference_fields citation_set citation_fuzzy_lookup
                add_comments st p) as (_ & _ & _ & _ & _ & -> & _).
    apply Hmark. }
  pose proof (over_tail_each f P Hrefl Hstep d (ref_para_idx + 1) init) as H.
  cbv zeta in H. destruct (over_tail f (ref_para_idx + 1) init d) as [st d'].
  exact H.
Qed.

(** The text of a plain paragraph is kept. *)
Definition keeps_text (p p' : paragraph) : Prop :=
  plain p -> plain p' /\ para_text p' = para_text p.

Lemma keeps_text_all (l l' : list paragraph) :
  Forall2 keeps_text l l' -> Forall plain l ->
  Forall plain l' /\ List.map para_text l' = List.map para_text l.
Proof.
  induction 1 as [|p p' l l' Hp _ IH]; intros Hall.
  - split; [constructor|reflexivity].
  - apply Forall_cons in Hall as [H1 H2]. destruct (Hp H1) as [Hp1 Hp2].
    destruct (IH H2) as [IH1 IH2]. split; [constructor; assumption|].
    cbn [List.map]. rewrite Hp2, IH2. reflexivity.
Qed.

Lemma main_passes_keep (learned : learned_patterns) (add_comments : bool)
    (d : list block) :
  let marked := fst (main_refs learned add_comments d) in
  List.map is_table marked = List.map is_table d
  /\ (Forall plain (all_paragraphs d) ->
      List.map para_text (all_paragraphs marked)
      = List.map para_text (all_paragraphs d)).
Proof.
  cbv zeta. unfold main_refs, main_body.
  set (NW := main_noise_words learned). set (idx := find_references_heading_index d).
  set (rs := main_ref_set d). set (cs := main_citation_set learned d).
  pose proof (highlight_body_citations_each keeps_text NW d idx rs
                (build_fuzzy_lookup (elements rs)) add_comments) as H1.
  cbv zeta in H1.
  destruct H1 as (A1 & A2 & _).
  { intros p Hp. split; [exact Hp|reflexivity]. }
  { intros p Hp.
    destruct (follows_paragraph NW rs (build_fuzzy_lookup (elements rs))
                add_comments INITIAL_HSTATE p Hp) as (F1 & F2 & _).
    split; assumption. }
  set (d1 := fst (highlight_body_citations NW d idx rs
                    (build_fuzzy_lookup (elements rs)) add_comments)) in *.
  pose proof (highlight_references_each keeps_text cs
                (build_fuzzy_lookup (elements cs)) add_comments d1 idx) as H2.
  cbv zeta in H2.
  destruct H2 as (B1 & B2 & _).
  { intros p Hp. split; [exact Hp|reflexivity]. }
  { intros p Hp. apply marked_reference_plain, Hp. }
  split; [rewrite B2; exact A2|].
  intros Hall. destruct (keeps_text_all _ _ A1 Hall) as [Hall1 E1].
  destruct (keeps_text_all _ _ B1 Hall1) as [_ E2].
  rewrite E2. exact E1.
Qed.

(** X12. For a document whose run text is all in [w:t] elements and that
    has a paragraph outside its tables, the document that [main] saves is the
    legend paragraph followed by the blocks of the input, paragraph for
    paragraph and table for table, and every paragraph, inside a table or
    not, has the text it had: the marking changes no text. *)
Theorem main_keeps_every_text (learned : learned_patterns)
    (add_comments : bool) (d : list block) :
  Forall plain (all_paragraphs d) ->
  doc_paragraphs d <> [] ->
  exists marked,
    fst <$> main learned add_comments d
    = Some (BPara legend_paragraph :: marked)
    /\ List.map is_table marked = List.map is_table d
    /\ List.map para_text (all_paragraphs marked)
       = List.map para_text (all_paragraphs d).
Proof.
  intros Hplain Hne. exists (fst (main_refs learned add_comments d)).
  destruct (main_passes_keep learned add_comments d) as [Ht Htext].
  split; [|split; [exact Ht|exact (Htext Hplain)]].
  rewrite main_unfold. unfold insert_legend.
  destruct (same_tables_paragraphs _ _ Ht) as [_ Hlen].
  destruct (doc_paragraphs (fst (main_refs learned add_comments d))) as [|p ps].
  - destruct (doc_paragraphs d); [congruence|discriminate].
  - reflexivity.
Qed.

Definition SMITH_DOC : list block :=
  [ BPara (plain_paragraph "Smith (2009) and Jones (2010a) agree.");
    BTable [[plain_paragraph "as shown by (Klein, 1946)"]];
    BPara (plain_paragraph "References");
    BPara (plain_paragraph "Smith, J. (2009). A title.");
    BPara (plain_paragraph "Jones, K. (2010). Another title.") ].

Definition NOTHING_LEARNED : learned_patterns :=
  {| noise_words := []; cross_matches := [] |}.

Lemma main_keeps_every_text_witness :
  exists marked,
    fst <$> main NOTHING_LEARNED true SMITH_DOC
    = Some (BPara legend_paragraph :: marked)
    /\ List.map is_table marked = List.map is_table SMITH_DOC
    /\ List.map para_text (all_paragraphs marked)
       = List.map para_text (all_paragraphs SMITH_DOC).
Proof.
  apply (main_keeps_every_text NOTHING_LEARNED true SMITH_DOC).
  - repeat constructor.
  - discriminate.
Defined.

(** X13. [main] fails exactly on a document without a paragraph outside its
    tables: [insert_legend] reads [doc.paragraphs[0]] after both passes, and
    the passes keep the number of paragraphs.  In that case nothing is
    saved. *)
Theorem main_needs_a_paragraph (learned : learned_patterns)
    (add_comments : bool) (d : list block) :
  main learned add_comments d = None <-> doc_paragraphs d = [].
Proof.
  rewrite main_unfold. unfold insert_legend.
  destruct (main_passes_keep learned add_comments d) as [Ht _].
  destruct (same_tables_paragraphs _ _ Ht) as [_ Hlen].
  destruct (doc_paragraphs (fst (main_refs learned add_comments d))) as [|p ps].
  - destruct (doc_paragraphs d); [split; reflexivity|discriminate].
  - destruct (doc_paragraphs d); [discriminate|]. split; discriminate.
Qed.

(** ** The figures of the report *)

(** Each counter of the report is the length of its list. *)
Definition counts_agree (st : run_state) : Prop :=
  body_unmatched st = Z.of_nat (length (m_unmatched_list st))
  /\ body_fuzzy st = Z.of_nat (length (fuzzy_cite_list st))
  /\ ref_uncited st = Z.of_nat (length (m_uncited_list st))
  /\ ref_fuzzy st = Z.of_nat (length (fuzzy_ref_list st)).

(** What the learned cross-matches leave alone: the exact matches and the
    totals of both sides. *)
Definition same_totals (s0 st : run_state) : Prop :=
  body_matched st = body_matched s0
  /\ (body_fuzzy st + body_unmatched st = body_fuzzy s0 + body_unmatched s0)%Z
  /\ ref_cited st = ref_cited s0
  /\ (ref_fuzzy st + ref_uncited st = ref_fuzzy s0 + ref_uncited s0)%Z.

Lemma list_remove_length (x : list N) (l : list (list N)) :
  mem_str x l = true -> S (length (list_remove x l)) = length l.
Proof.
  induction l as [|y l IH]; [discriminate|].
  unfold mem_str. cbn [existsb list_remove].
  destruct (eqb_str y x) eqn:E.
  - reflexivity.
  - assert (eqb_str x y = false) as ->.
    { apply eqb_str_neq. apply eqb_str_neq in E. congruence. }
    cbn [orb length]. intros H. rewrite (IH H). reflexivity.
Qed.

Lemma reclassify_counts (s0 st : run_state) (am : list N * list N * list N) :
  counts_agree st /\ same_totals s0 st ->
  counts_agree (reclassify st am) /\ same_totals s0 (reclassify st am).
Proof.
  destruct am as [[c r] reason].
  intros [(A1 & A2 & A3 & A4) (T1 & T2 & T3 & T4)].
  unfold reclassify, counts_agree, same_totals.
  destruct (mem_str c (m_unmatched_list st)) eqn:Ec;
    cbn [m_uncited_list];
    destruct (mem_str r (m_uncited_list st)) eqn:Er;
    cbn [body_matched body_fuzzy body_unmatched m_unmatched_list
         fuzzy_cite_list ref_cited ref_fuzzy ref_uncited m_uncited_list
         fuzzy_ref_list];
    rewrite ?length_app; cbn [length];
    try (apply list_remove_length in Ec); try (apply list_remove_length in Er);
    repeat split; lia.
Qed.

Lemma apply_auto_matches_counts (learned : learned_patterns) (st : run_state) :
  counts_agree st ->
  counts_agree (apply_auto_matches learned st)
  /\ same_totals st (apply_auto_matches learned st).
Proof.
  intros H. unfold apply_auto_matches.
  apply (foldl_invariant reclassify
           (fun s => counts_agree s /\ same_totals st s)).
  - split; [exact H|]. repeat split; reflexivity.
  - intros s am _. apply reclassify_counts.
Qed.

Lemma size_list_to_set_le (l : list (list N)) :
  size (list_to_set l : gset (list N)) <= length l.
Proof.
  induction l as [|x l IH]; [reflexivity|].
  cbn [list_to_set length]. rewrite size_union_alt, size_singleton.
  assert (size (list_to_set l ∖ {[x]} : gset (list N))
          <= size (list_to_set l : gset (list N))) as H
    by (apply subseteq_size; intros y Hy;
        apply elem_of_difference in Hy as [Hy _]; exact Hy).
  lia.
Qed.

Lemma main_counts_agree (learned : learned_patterns) (add_comments : bool)
    (d : list block) :
  counts_agree (main_counts learned add_comments d).
Proof.
  unfold main_counts, counts_agree. cbv zeta.
  cbn [body_unmatched body_fuzzy ref_uncited ref_fuzzy m_unmatched_list
       fuzzy_cite_list m_uncited_list fuzzy_ref_list].
  pose proof (body_result_tally (main_noise_words learned) d
                (find_references_heading_index d) (main_ref_set d)
                (build_fuzzy_lookup (elements (main_ref_set d))) add_comments)
    as B. cbv zeta in B. destruct B as (_ & _ & _ & B1 & B2 & _).
  pose proof (reference_result_tally (main_citation_set learned d)
                (build_fuzzy_lookup (elements (main_citation_set learned d)))
                add_comments (fst (main_body learned add_comments d))
                (find_references_heading_index d)) as R.
  cbv zeta in R. destruct R as (_ & _ & _ & R1 & R2 & _).
  unfold main_body, main_refs. rewrite B1, B2, R1, R2.
  repeat split; reflexivity.
Qed.

(** X14. In the report of [main], the learned cross-matches only move
    entries from "unmatched" to "fuzzy": the number of exact matches and the
    sum of the fuzzy and the unmatched counter, on the body side and on the
    reference side, are those of the two passes.  No counter is negative,
    and each of the two lists of missing items has at most as many distinct
    strings as its counter says. *)
Theorem report_totals_are_kept (learned : learned_patterns)
    (add_comments : bool) (d : list block) :
  match main learned add_comments d with
  | None => True
  | Some (_, rep) =>
      let b := snd (main_body learned add_comments d) in
      let r := snd (main_refs learned add_comments d) in
      j_body_matched rep = Z.of_nat (b_matched b)
      /\ (j_body_fuzzy rep + j_body_unmatched rep
          = Z.of_nat (b_fuzzy b + b_unmatched b))%Z
      /\ j_ref_cited rep = Z.of_nat (cited_count r)
      /\ (j_ref_fuzzy rep + j_ref_uncited rep
          = Z.of_nat (fuzzy_count r + uncited_count r))%Z
      /\ (0 <= j_body_fuzzy rep)%Z /\ (0 <= j_body_unmatched rep)%Z
      /\ (0 <= j_ref_fuzzy rep)%Z /\ (0 <= j_ref_uncited rep)%Z
      /\ (Z.of_nat (size (j_unmatched_citations rep)) <= j_body_unmatched rep)%Z
      /\ (Z.of_nat (size (j_uncited_references rep)) <= j_ref_uncited rep)%Z
  end.
Proof.
  rewrite main_unfold.
  destruct (insert_legend _) as [saved|]; [|exact I]. cbv zeta.
  cbn [j_body_matched j_body_fuzzy j_body_unmatched j_ref_cited j_ref_fuzzy
       j_ref_uncited j_unmatched_citations j_uncited_references].
  unfold main_final.
  destruct (apply_auto_matches_counts learned _
              (main_counts_agree learned add_comments d))
    as [(A1 & A2 & A3 & A4) (T1 & T2 & T3 & T4)].
  set (st := apply_auto_matches learned (main_counts learned add_comments d)) in *.
  unfold main_counts in T1, T2, T3, T4. cbv zeta in T1, T2, T3, T4.
  cbn [body_matched body_fuzzy body_unmatched ref_cited ref_fuzzy ref_uncited]
    in T1, T2, T3, T4.
  pose proof (size_list_to_set_le (m_unmatched_list st)).
  pose proof (size_list_to_set_le (m_uncited_list st)).
  repeat split; try lia.
Qed.

(** C10. Applying the learned cross-matches changes the report only.  The
    document in the state is the same before and after.  For a match whose
    citation string is in the unmatched list and whose reference string is
    in the uncited list, the unmatched and uncited counts go down by one, the
    fuzzy counts up by one, and each string moves from its list to the fuzzy
    list.  A match is only produced from strings of the current lists.  The
    loop over the auto-matches moves the two strings of every auto-match, and
    only strings of auto-matches: the fuzzy lists grow by the moved strings,
    the unmatched and uncited lists lose them, and the counters change by
    their number.  So does the report of [main]: its counters and its lists
    are those of the two passes with the strings of the auto-matches moved.
    The saved document is the one [main] saves without any learned
    cross-match, so the colours already applied stay. *)
Theorem cross_matches_change_report_only :
  (forall learned st, doc (apply_auto_matches learned st) = doc st)
  /\ (forall st cite_str ref_str reason,
        cite_str ∈ m_unmatched_list st ->
        ref_str ∈ m_uncited_list st ->
        let st' := reclassify st (cite_str, ref_str, reason) in
        doc st' = doc st
        /\ body_unmatched st' = (body_unmatched st - 1)%Z
        /\ body_fuzzy st' = (body_fuzzy st + 1)%Z
        /\ ref_uncited st' = (ref_uncited st - 1)%Z
        /\ ref_fuzzy st' = (ref_fuzzy st + 1)%Z
        /\ body_matched st' = body_matched st
        /\ ref_cited st' = ref_cited st
        /\ m_unmatched_list st' = list_remove cite_str (m_unmatched_list st)
        /\ fuzzy_cite_list st' = fuzzy_cite_list st ++ [cite_str]
        /\ m_uncited_list st' = list_remove ref_str (m_uncited_list st)
        /\ fuzzy_ref_list st' = fuzzy_ref_list st ++ [ref_str])
  /\ (forall learned unmatched_citations uncited_refs c r reason,
        (c, r, reason) ∈ apply_learned_cross_matches learned
                           unmatched_citations uncited_refs ->
        c ∈ unmatched_citations /\ r ∈ uncited_refs)
  /\ (forall learned st,
        let auto_matches :=
          apply_learned_cross_matches learned (m_unmatched_list st)
            (m_uncited_list st) in
        exists moved_cites moved_refs,
          moves st (apply_auto_matches learned st) moved_cites moved_refs
          /\ (forall c r reason,
                (c, r, reason) ∈ auto_matches ->
                c ∈ moved_cites /\ r ∈ moved_refs)
          /\ (forall c, c ∈ moved_cites ->
                        exists r reason, (c, r, reason) ∈ auto_matches)
          /\ (forall r, r ∈ moved_refs ->
                        exists c reason, (c, r, reason) ∈ auto_matches))
  /\ (forall learned add_comments d,
        match main learned add_comments d with
        | None => True
        | Some (_, rep) =>
        let st := main_counts learned add_comments d in
        let auto_matches :=
          apply_learned_cross_matches learned (m_unmatched_list st)
            (m_uncited_list st) in
        exists moved_cites moved_refs,
          (forall c r reason,
              (c, r, reason) ∈ auto_matches ->
              c ∈ moved_cites /\ r ∈ moved_refs)
          /\ j_body_matched rep = body_matched st
          /\ j_ref_cited rep = ref_cited st
          /\ j_body_unmatched rep
             = (body_unmatched st - Z.of_nat (length moved_cites))%Z
          /\ j_body_fuzzy rep
             = (body_fuzzy st + Z.of_nat (length moved_cites))%Z
          /\ j_ref_uncited rep
             = (ref_uncited st - Z.of_nat (length moved_refs))%Z
          /\ j_ref_fuzzy rep = (ref_fuzzy st + Z.of_nat (length moved_refs))%Z
          /\ (forall x, x ∈ j_fuzzy_matches rep
                        <-> x ∈ fuzzy_cite_list st ++ moved_cites
                            \/ x ∈ fuzzy_ref_list st ++ moved_refs)
          /\ (forall x, x ∈ m_unmatched_list st
                        <-> x ∈ j_unmatched_citations rep \/ x ∈ moved_cites)
          /\ (forall x, x ∈ m_uncited_list st
                        <-> x ∈ j_uncited_references rep \/ x ∈ moved_refs)
        end)
  /\ (forall learned add_comments d,
        fst <$> main learned add_comments d
        = fst <$> main {| noise_words := noise_words learned;
                          cross_matches := [] |} add_comments d).
Proof.
  split; [exact apply_auto_matches_doc|]. split; [|split; [|split; [|split]]].
  - intros st c r reason Hc Hr st'. subst st'. unfold reclassify.
    apply mem_str_spec in Hc. apply mem_str_spec in Hr.
    rewrite Hc. cbn [m_uncited_list]. rewrite Hr. cbn. repeat split.
  - exact auto_matches_present.
  - intros learned st auto_matches. subst auto_matches.
    exact (apply_auto_matches_move learned st).
  - intros learned add_comments d. rewrite main_unfold.
    destruct (insert_legend _) as [saved|]; [|exact I]. cbv zeta.
    set (st := main_counts learned add_comments d).
    cbn [j_body_matched j_body_fuzzy j_body_unmatched j_ref_cited j_ref_fuzzy
         j_ref_uncited j_fuzzy_matches j_unmatched_citations
         j_uncited_references].
    unfold main_final. fold st.
    destruct (apply_auto_matches_move learned st)
      as (mc & mr & (_ & M1 & M2 & M3 & M4 & M5 & M6 & M7 & M8 & M9 & M10)
          & Hin & _ & _).
    exists mc, mr. split; [exact Hin|].
    split; [exact M1|]. split; [exact M2|]. split; [exact M3|].
    split; [exact M4|]. split; [exact M5|]. split; [exact M6|].
    split; [|split].
    + intros x. rewrite elem_of_list_to_set, M7, M8, elem_of_app. reflexivity.
    + intros x. rewrite elem_of_list_to_set, <- M9, elem_of_app. reflexivity.
    + intros x. rewrite elem_of_list_to_set, <- M10, elem_of_app. reflexivity.
  - intros learned add_comments d. unfold main. cbn [noise_words].
    change (apply_learned_noise_words NOISE_WORDS_0
              {| noise_words := noise_words learned; cross_matches := [] |})
      with (apply_learned_noise_words NOISE_WORDS_0 learned).
    destruct (highlight_body_citations _ _ _ _ _ _) as [d1 b].
    destruct (highlight_references _ _ _ _ _) as [d2 r].
    rewrite !apply_auto_matches_doc. cbn [doc].
    destruct (insert_legend d2); reflexivity.
Qed.

(** X15. The report lists as matched citations exactly the keys that are
    in the citation set and in the reference set, each as the string
    ["surname (year)"]. *)
Theorem matched_citations_are_common_keys (learned : learned_patterns)
    (add_comments : bool) (d : list block) :
  match main learned add_comments d with
  | None => True
  | Some (_, rep) =>
      j_citation_set rep = main_citation_set learned d
      /\ j_ref_set rep = main_ref_set d
      /\ j_regex_citations rep = size (j_citation_set rep)
      /\ j_references rep = size (j_ref_set rep)
      /\ forall s,
           s ∈ j_matched_citations rep
           <-> exists k, k ∈ j_citation_set rep /\ k ∈ j_ref_set rep
                         /\ s = show_key k
  end.
Proof.
  rewrite main_unfold.
  destruct (insert_legend _) as [saved|]; [|exact I]. cbv zeta.
  cbn [j_citation_set j_ref_set j_regex_citations j_references
       j_matched_citations].
  repeat split; try reflexivity.
  - intros Hs. apply elem_of_list_to_set, list_elem_of_In, in_map_iff in Hs
      as (k & <- & Hk).
    apply filter_In in Hk as [Hk He]. exists k.
    apply list_elem_of_In, elem_of_elements in Hk.
    split; [exact Hk|]. split; [|reflexivity].
    unfold fuzzy_match_citation in He.
    destruct (bool_decide _) eqn:E.
    + apply bool_decide_eq_true in E. destruct k; exact E.
    + destruct (negb _ && _); [discriminate|].
      destruct (_ !! _) as [c|]; [|discriminate].
      destruct (first_other_year _ c); discriminate.
  - intros (k & Hc & Hr & ->).
    apply elem_of_list_to_set, list_elem_of_In, in_map. apply filter_In.
    split; [apply list_elem_of_In, elem_of_elements; exact Hc|].
    unfold fuzzy_match_citation. destruct k as [sn y]. cbn [fst snd].
    rewrite bool_decide_eq_true_2 by exact Hr. reflexivity.
Qed.

(** ** Noise words *)

Lemma apply_learned_noise_words_elem (NOISE_WORDS : gset (list N))
    (learned : learned_patterns) (w : list N) :
  w ∈ apply_learned_noise_words NOISE_WORDS learned
  <-> w ∈ NOISE_WORDS \/ exists x, x ∈ noise_words learned /\ w = lower x.
Proof.
  unfold apply_learned_noise_words.
  generalize (noise_words learned). intros l. revert NOISE_WORDS.
  induction l as [|x l IH]; intros NW; cbn [foldl].
  - split; [intros H; left; exact H|].
    intros [H|(x & Hx & _)]; [exact H|inversion Hx].
  - rewrite IH. rewrite elem_of_union, elem_of_singleton. split.
    + intros [[->|H]|(x' & Hx' & ->)].
      * right. exists x. split; [apply list_elem_of_here|reflexivity].
      * left. exact H.
      * right. exists x'. split; [apply list_elem_of_further, Hx'|reflexivity].
    + intros [H|(x' & Hx' & ->)].
      * left. right. exact H.
      * apply elem_of_cons in Hx' as [->|Hx'].
        -- left. left. reflexivity.
        -- right. exists x'. split; [exact Hx'|reflexivity].
Qed.

(** The surnames of the extracted keys are not noise words. *)
Lemma extracted_not_noise (NOISE_WORDS : gset (list N)) (plain_text : list N)
    (k : key) :
  k ∈ extract_citations_from_text NOISE_WORDS plain_text ->
  is_noise NOISE_WORDS (fst k) = false
  /\ exists c t, fst k = c :: t /\ is_ascii_lower c = false.
Proof.
  intros Hk. apply extracted_good in Hk as (s & Hs & ->). cbn [fst].
  destruct (normalize_good NOISE_WORDS s Hs) as (H1 & _ & H3).
  split; assumption.
Qed.

(** X16. [apply_learned_noise_words] adds the lower-case form of every
    learned word to the noise words and removes none.  From then on a name
    that is a learned word in any casing is noise, and no key of the citation
    set has such a name as its surname. *)
Theorem learned_noise_words_are_never_cited
    (NOISE_WORDS : gset (list N)) (learned : learned_patterns) :
  let NOISE_WORDS' := apply_learned_noise_words NOISE_WORDS learned in
  (forall w, w ∈ NOISE_WORDS'
             <-> w ∈ NOISE_WORDS
                 \/ exists x, x ∈ noise_words learned /\ w = lower x)
  /\ (forall s, is_noise NOISE_WORDS s = true -> is_noise NOISE_WORDS' s = true)
  /\ (forall w s, w ∈ noise_words learned -> lower s = lower w ->
                  is_noise NOISE_WORDS' s = true)
  /\ (forall w plain_text k,
        w ∈ noise_words learned ->
        k ∈ extract_citations_from_text NOISE_WORDS' plain_text ->
        lower (fst k) <> lower w).
Proof.
  cbv zeta.
  assert (forall w s, w ∈ noise_words learned -> lower s = lower w ->
            is_noise (apply_learned_noise_words NOISE_WORDS learned) s = true)
    as Hlearned.
  { intros w s Hw Hs. unfold is_noise. apply orb_true_iff. left.
    apply bool_decide_eq_true. apply apply_learned_noise_words_elem.
    right. exists w. split; [exact Hw|exact Hs]. }
  split; [apply apply_learned_noise_words_elem|]. split; [|split].
  - intros s. unfold is_noise. rewrite !orb_true_iff, !bool_decide_eq_true.
    intros [H|H]; [left|right; exact H].
    apply apply_learned_noise_words_elem. left. exact H.
  - exact Hlearned.
  - intros w plain_text k Hw Hk Hs.
    apply extracted_not_noise in Hk as [Hk _].
    rewrite (Hlearned w (fst k) Hw Hs) in Hk. discriminate.
Qed.

(** ** References that no citation can match *)

(** X17. A reference whose surname is a noise word, has at most two
    characters, or starts with a lowercase letter is matched by no key of the
    citation set, whatever the body text: [highlight_references] counts it as
    not cited and marks it red.  (The citation keys are capitalised and
    filtered by [is_noise]; the reference surnames are neither.) *)
Theorem filtered_surname_is_never_cited
    (NOISE_WORDS : gset (list N)) (plain_text : list N) (surname year : list N) :
  is_noise NOISE_WORDS surname = true
  \/ (exists c t, surname = c :: t /\ is_ascii_lower c = true) ->
  let citation_set := extract_citations_from_text NOISE_WORDS plain_text in
  let citation_fuzzy_lookup := build_fuzzy_lookup (elements citation_set) in
  fuzzy_match_reference surname year citation_set citation_fuzzy_lookup
  = NoMatch
  /\ reference_color citation_set citation_fuzzy_lookup (surname, year)
     = RED_HIGHLIGHT.
Proof.
  intros Hs. cbv zeta.
  assert (fuzzy_match_reference surname year
            (extract_citations_from_text NOISE_WORDS plain_text)
            (build_fuzzy_lookup
               (elements (extract_citations_from_text NOISE_WORDS plain_text)))
          = NoMatch) as Hn.
  { change (fuzzy_match_citation surname year
              (extract_citations_from_text NOISE_WORDS plain_text)
              (build_fuzzy_lookup
                 (elements (extract_citations_from_text NOISE_WORDS plain_text)))
            = NoMatch).
    apply fuzzy_match_none. intros y Hy. exfalso.
    apply extracted_not_noise in Hy as [Hy (c & t & Hc & Hl)].
    cbn [fst] in Hy, Hc.
    destruct Hs as [Hs|(c' & t' & Hs & Hl')]; [congruence|].
    rewrite Hs in Hc. injection Hc as -> ->. congruence. }
  split; [exact Hn|]. unfold reference_color. cbn [fst snd]. rewrite Hn.
  reflexivity.
Qed.

(** "Li (2009)" is cited in the body, and the reference "Li" is still not
    matched: a surname of two characters is filtered out of the citations. *)
Lemma filtered_surname_is_never_cited_witness :
  let citation_set :=
    extract_citations_from_text NOISE_WORDS_0 (py "Li (2009) found it.") in
  let citation_fuzzy_lookup := build_fuzzy_lookup (elements citation_set) in
  fuzzy_match_reference (py "Li") (py "2009") citation_set citation_fuzzy_lookup
  = NoMatch
  /\ reference_color citation_set citation_fuzzy_lookup (py "Li", py "2009")
     = RED_HIGHLIGHT.
Proof.
  apply (filtered_surname_is_never_cited NOISE_WORDS_0
           (py "Li (2009) found it.") (py "Li") (py "2009")).
  left. vm_compute. reflexivity.
Defined.

(** ** The body and the heading *)

Lemma get_body_paragraphs_all (d : list block) (k : nat) :
  length (doc_paragraphs d) <= k ->
  get_body_paragraphs_from k d = all_paragraphs d.
Proof.
  revert k; induction d as [|[p|cells] d IH]; intros k Hk;
    cbn [get_body_paragraphs_from all_paragraphs flat_map doc_paragraphs length]
    in *; [reflexivity| |].
  - destruct k as [|k]; [lia|]. cbn [app]. f_equal. apply IH. lia.
  - f_equal. apply IH. exact Hk.
Qed.

Lemma get_body_paragraphs_split (d : list block) (k : nat) (h : paragraph) :
  doc_paragraphs d !! k = Some h ->
  exists pre post,
    d = pre ++ BPara h :: post
    /\ length (doc_paragraphs pre) = k
    /\ get_body_paragraphs_from k d = all_paragraphs pre.
Proof.
  revert k; induction d as [|[p|cells] d IH]; intros k Hk;
    cbn [doc_paragraphs] in Hk; [discriminate| |].
  - destruct k as [|k].
    + injection Hk as ->. exists [], d. repeat split.
    + cbn in Hk. destruct (IH k Hk) as (pre & post & -> & Hlen & Hb).
      exists (BPara p :: pre), post. split; [reflexivity|].
      split; [cbn [doc_paragraphs length]; lia|].
      cbn [get_body_paragraphs_from all_paragraphs flat_map app].
      f_equal. exact Hb.
  - destruct (IH k Hk) as (pre & post & -> & Hlen & Hb).
    exists (BTable cells :: pre), post. split; [reflexivity|].
    split; [exact Hlen|].
    cbn [get_body_paragraphs_from all_paragraphs flat_map].
    f_equal. exact Hb.
Qed.

(** X18. [get_body_paragraphs] returns the paragraphs of everything that
    precedes the paragraph [doc.paragraphs[ref_para_idx]] in the body of the
    document, the paragraphs of the table cells included, and neither that
    paragraph nor anything after it; when the index is not below the number
    of paragraphs it returns every paragraph of the document. *)
Theorem body_is_what_precedes_the_heading (d : list block) (ref_para_idx : nat) :
  (forall h, doc_paragraphs d !! ref_para_idx = Some h ->
             exists pre post,
               d = pre ++ BPara h :: post
               /\ length (doc_paragraphs pre) = ref_para_idx
               /\ get_body_paragraphs d ref_para_idx = all_paragraphs pre)
  /\ (length (doc_paragraphs d) <= ref_para_idx ->
      get_body_paragraphs d ref_para_idx = all_paragraphs d).
Proof.
  split.
  - intros h. apply get_body_paragraphs_split.
  - apply get_body_paragraphs_all.
Qed.

(** ** A document without a references heading *)

Lemma no_heading_no_references (d : list block) :
  find_references_heading_index d = length (doc_paragraphs d) ->
  main_ref_set d = ∅.
Proof.
  intros H. unfold main_ref_set, extract_references_from_doc, raw_refs_of.
  rewrite H, skipn_all2 by lia. reflexivity.
Qed.

Lemma empty_set_no_match (surname year : list N) :
  fuzzy_match_citation surname year ∅ (build_fuzzy_lookup (elements (∅ : gset key)))
  = NoMatch.
Proof.
  apply fuzzy_match_none. intros y Hy. apply elem_of_empty in Hy. contradiction.
Qed.

Lemma empty_set_classes (keys : list key) :
  let lookup := build_fuzzy_lookup (elements (∅ : gset key)) in
  List.filter (is_exact ∅ lookup) keys = []
  /\ List.filter (is_fuzzy ∅ lookup) keys = []
  /\ List.filter (is_missing ∅ lookup) keys = keys.
Proof.
  cbv zeta. induction keys as [|k keys (IH1 & IH2 & IH3)]; [repeat split|].
  cbn [List.filter]. unfold is_exact, is_fuzzy, is_missing in *.
  rewrite empty_set_no_match. rewrite IH3. repeat split; assumption.
Qed.

Lemma listed_lookup_nil : listed_lookup [] = ∅.
Proof. reflexivity. Qed.

Lemma no_auto_matches_without_references (learned : learned_patterns)
    (unmatched_citations : list (list N)) :
  apply_learned_cross_matches learned unmatched_citations [] = [].
Proof.
  unfold apply_learned_cross_matches.
  destruct (cross_matches learned) as [|cm cms]; [reflexivity|].
  rewrite listed_lookup_nil. generalize (cm :: cms). intros l.
  induction l as [|x l IH]; [reflexivity|].
  cbn [flat_map]. rewrite IH, lookup_empty.
  destruct (_ !! _); reflexivity.
Qed.

(** X19. In a document without a references heading the reference set is
    empty, so no citation is matched and no reference is counted: the report
    has no exact and no fuzzy match, every key of an accepted block is
    reported as unmatched, and learned cross-matches change nothing. *)
Theorem no_heading_nothing_matches (learned : learned_patterns)
    (add_comments : bool) (d : list block) :
  (forall p, p ∈ doc_paragraphs d -> strip (para_text p) ∉ HEADINGS) ->
  main_ref_set d = ∅
  /\ match main learned add_comments d with
     | None => True
     | Some (_, rep) =>
         let keys :=
           List.flat_map
             (paragraph_keys (main_noise_words learned) ∅
                (build_fuzzy_lookup (elements (∅ : gset key))) add_comments)
             (all_paragraphs d) in
         j_references rep = 0
         /\ j_body_matched rep = 0%Z /\ j_body_fuzzy rep = 0%Z
         /\ j_body_unmatched rep = Z.of_nat (length keys)
         /\ j_ref_cited rep = 0%Z /\ j_ref_fuzzy rep = 0%Z
         /\ j_ref_uncited rep = 0%Z
         /\ j_matched_citations rep = ∅
         /\ j_fuzzy_matches rep = ∅
         /\ j_uncited_references rep = ∅
         /\ j_unmatched_citations rep = list_to_set (List.map show_key keys)
     end.
Proof.
  intros Hnone.
  assert (find_references_heading_index d = length (doc_paragraphs d)) as Hidx.
  { unfold find_references_heading_index.
    pose proof (find_heading_spec (doc_paragraphs d) 0) as H. cbv zeta in H.
    destruct H as (Hr & _ & Hat). rewrite Nat.sub_0_r in Hat.
    destruct (decide (find_heading 0 (doc_paragraphs d)
                      = length (doc_paragraphs d))) as [|Hne]; [assumption|].
    destruct (lookup_lt_is_Some_2 (doc_paragraphs d)
                (find_heading 0 (doc_paragraphs d))) as [p Hp]; [lia|].
    exfalso. apply (Hnone p).
    - apply list_elem_of_lookup. eexists; exact Hp.
    - apply Hat. exact Hp. }
  pose proof (no_heading_no_references d Hidx) as Hrs.
  split; [exact Hrs|].
  rewrite main_unfold. destruct (insert_legend _) as [saved|]; [|exact I].
  cbv zeta.
  cbn [j_references j_body_matched j_body_fuzzy j_body_unmatched j_ref_cited
       j_ref_fuzzy j_ref_uncited j_matched_citations j_fuzzy_matches
       j_uncited_references j_unmatched_citations].
  (* the two passes *)
  pose proof (body_result_tally (main_noise_words learned) d
                (find_references_heading_index d) (main_ref_set d)
                (build_fuzzy_lookup (elements (main_ref_set d))) add_comments)
    as B. cbv zeta in B.
  fold (main_body learned add_comments d) in B.
  unfold get_body_paragraphs in B.
  rewrite get_body_paragraphs_all in B by lia. rewrite Hrs in B.
  set (keys := flat_map _ (all_paragraphs d)) in *.
  destruct (empty_set_classes keys) as (E1 & E2 & E3). cbv zeta in E1, E2, E3.
  rewrite E1, E2, E3 in B. cbn [List.map length] in B.
  destruct B as (B1 & B2 & B3 & B4 & B5 & _).
  pose proof (reference_result_tally (main_citation_set learned d)
                (build_fuzzy_lookup (elements (main_citation_set learned d)))
                add_comments (fst (main_body learned add_comments d))
                (find_references_heading_index d)) as R.
  cbv zeta in R. fold (main_refs learned add_comments d) in R.
  destruct (highlight_body_citations_each (fun _ _ => True)
              (main_noise_words learned) d (find_references_heading_index d)
              (main_ref_set d) (build_fuzzy_lookup (elements (main_ref_set d)))
              add_comments (fun _ => I) (fun _ => I)) as (_ & Ht & _).
  fold (main_body learned add_comments d) in Ht.
  destruct (same_tables_paragraphs _ _ Ht) as [_ Hlen].
  rewrite skipn_all2 in R by lia.
  cbn [omap list_omap List.filter List.map length] in R.
  destruct R as (R1 & R2 & R3 & R4 & R5 & _).
  (* the cross-matches find nothing *)
  unfold main_final, apply_auto_matches.
  assert (m_uncited_list (main_counts learned add_comments d) = []) as Hu
    by exact R3.
  rewrite Hu, no_auto_matches_without_references. cbn [foldl].
  unfold main_counts. cbv zeta.
  cbn [body_matched body_fuzzy body_unmatched ref_cited ref_fuzzy ref_uncited
       fuzzy_cite_list fuzzy_ref_list m_unmatched_list m_uncited_list].
  rewrite Hrs, size_empty, B1, B2, B3, B4, B5, R1, R2, R3, R4, R5.
  rewrite B2, B3, R2, R3. cbn [length app list_to_set].
  rewrite length_map.
  assert (List.filter
            (fun k : key =>
               match fuzzy_match_citation (fst k) (snd k) ∅
                       (build_fuzzy_lookup (elements (∅ : gset key))) with
               | Exact _ => true
               | _ => false
               end) (elements (main_citation_set learned d)) = []) as ->
    by apply (empty_set_classes (elements (main_citation_set learned d))).
  repeat split; reflexivity.
Qed.

Definition NO_HEADING_DOC : list block :=
  [ BPara (plain_paragraph "Smith (2009) and Jones (2010a) agree.");
    BPara (plain_paragraph "Smith, J. (2009). A title.") ].

Lemma no_heading_nothing_matches_witness :
  main_ref_set NO_HEADING_DOC = ∅
  /\ match main NOTHING_LEARNED false NO_HEADING_DOC with
     | None => True
     | Some (_, rep) =>
         let keys :=
           List.flat_map
             (paragraph_keys (main_noise_words NOTHING_LEARNED) ∅
                (build_fuzzy_lookup (elements (∅ : gset key))) false)
             (all_paragraphs NO_HEADING_DOC) in
         j_references rep = 0
         /\ j_body_matched rep = 0%Z /\ j_body_fuzzy rep = 0%Z
         /\ j_body_unmatched rep = Z.of_nat (length keys)
         /\ j_ref_cited rep = 0%Z /\ j_ref_fuzzy rep = 0%Z
         /\ j_ref_uncited rep = 0%Z
         /\ j_matched_citations rep = ∅
         /\ j_fuzzy_matches rep = ∅
         /\ j_uncited_references rep = ∅
         /\ j_unmatched_citations rep = list_to_set (List.map show_key keys)
     end.
Proof.
  apply (no_heading_nothing_matches NOTHING_LEARNED false NO_HEADING_DOC).
  intros p Hp.
  repeat (apply elem_of_cons in Hp as [->|Hp];
          [apply (bool_decide_unpack _); vm_compute; exact I|]).
  inversion Hp.
Defined.

(** ** What a match is: the strings of a regular expression *)

Module ReLang.

Import Re.

Section Lang.

Variable ic : bool.

(** The strings an expression can consume. *)
Fixpoint lang (r : regex) (s : list N) : Prop :=
  match r with
  | Eps | NLook _ | Bos | Eos => s = []
  | Lit a => exists x, s = [x] /\ lit_eq ic a x = true
  | Dot => exists x, s = [x] /\ (x =? 10)%N = false
  | Cls neg items => exists x, s = [x] /\ xorb neg (in_items ic items x) = true
  | Cat r1 r2 => exists s1 s2, s = s1 ++ s2 /\ lang r1 s1 /\ lang r2 s2
  | Alt r1 r2 => lang r1 s \/ lang r2 s
  | Rep lo hi r1 =>
      exists segs,
        s = List.concat segs /\ Forall (lang r1) segs
        /\ lo <= length segs /\ (forall h, hi = Some h -> length segs <= h)
  | Grp _ r1 => lang r1 s
  end.

(** A group that every match of the expression sets. *)
Fixpoint binds (g : nat) (r : regex) : bool :=
  match r with
  | Grp g' r1 => (g =? g') || binds g r1
  | Cat r1 r2 => binds g r1 || binds g r2
  | Alt r1 r2 => binds g r1 && binds g r2
  | Rep lo _ r1 => (1 <=? lo) && binds g r1
  | _ => false
  end.

(** A property [Q g] of the strings that group [g] can capture. *)
Variable Q : nat -> list N -> Prop.

Fixpoint groups_lang (r : regex) : Prop :=
  match r with
  | Grp g r1 => (forall s, lang r1 s -> Q g s) /\ groups_lang r1
  | Cat r1 r2 | Alt r1 r2 => groups_lang r1 /\ groups_lang r2
  | Rep _ _ r1 => groups_lang r1
  | _ => True
  end.

Variable text : list N.

Definition caps_lang (c : caps) : Prop :=
  Forall (fun e => Q (fst e) (slice (fst (snd e)) (snd (snd e)) text)) c.

Lemma slice_of_segment (pre seg rest' : list N) :
  text = pre ++ seg ++ rest' ->
  slice (length text - length (seg ++ rest')) (length text - length rest') text
  = seg.
Proof.
  intros ->. unfold slice. rewrite !length_app.
  replace (length pre + (length seg + length rest') - (length seg + length rest'))
    with (length pre) by lia.
  replace (length pre + (length seg + length rest') - length rest' - length pre)
    with (length seg) by lia.
  rewrite drop_app_length. apply take_app_length.
Qed.

(** What the matcher consumed is a string of the expression, and the groups
    it recorded on the way hold strings of their sub-expressions. *)
Lemma mt_lang (r : regex) :
  groups_lang r ->
  forall pre rest c k res,
    text = pre ++ rest ->
    mt ic (length text) r rest c k = Some res ->
    exists seg rest' new,
      rest = seg ++ rest' /\ lang r seg /\ caps_lang new
      /\ (forall g, binds g r = true -> g ∈ List.map fst new)
      /\ k rest' (new ++ c) = Some res.
Proof.
  induction r as [| a | | neg items | r1 IH1 r2 IH2 | r1 IH1 r2 IH2
                 | lo hi r1 IH | g r1 IH | r1 IH | |];
    intros HQ pre rest c k res Htext H.
  - (* Eps *) exists [], rest, []. repeat split; auto; try constructor.
    intros g Hg; discriminate.
  - (* Lit *) cbn [mt] in H. destruct rest as [|x t]; [discriminate|].
    destruct (lit_eq ic a x) eqn:E; [|discriminate].
    exists [x], t, []. repeat split; auto; try constructor.
    + exists x. auto.
    + intros g Hg; discriminate.
  - (* Dot *) cbn [mt] in H. destruct rest as [|x t]; [discriminate|].
    destruct (x =? 10)%N eqn:E; [discriminate|].
    exists [x], t, []. repeat split; auto; try constructor.
    + exists x. auto.
    + intros g Hg; discriminate.
  - (* Cls *) cbn [mt] in H. destruct rest as [|x t]; [discriminate|].
    destruct (xorb neg (in_items ic items x)) eqn:E; [|discriminate].
    exists [x], t, []. repeat split; auto; try constructor.
    + exists x. auto.
    + intros g Hg; discriminate.
  - (* Cat *) cbn [mt] in H. destruct HQ as [HQ1 HQ2].
    destruct (IH1 HQ1 pre rest c _ res Htext H)
      as (seg1 & rest1 & new1 & -> & Hs1 & Hc1 & Hb1 & H1).
    destruct (IH2 HQ2 (pre ++ seg1) rest1 (new1 ++ c) k res)
      as (seg2 & rest2 & new2 & -> & Hs2 & Hc2 & Hb2 & H2); auto.
    { rewrite <- app_assoc. exact Htext. }
    exists (seg1 ++ seg2), rest2, (new2 ++ new1).
    split; [rewrite <- app_assoc; reflexivity|].
    split; [exists seg1, seg2; auto|].
    split; [apply Forall_app; split; assumption|].
    split; [|rewrite <- app_assoc; exact H2].
    intros g Hg. cbn [binds] in Hg. rewrite List.map_app.
    apply elem_of_app. apply orb_true_iff in Hg as [Hg|Hg]; auto.
  - (* Alt *) cbn [mt] in H. destruct HQ as [HQ1 HQ2].
    match type of H with
    | match ?M with _ => _ end = _ => destruct M as [x|] eqn:E
    end.
    + rewrite H in E.
      destruct (IH1 HQ1 pre rest c k res Htext E)
        as (seg & rest' & new & -> & Hs & Hc & Hb & Hk).
      exists seg, rest', new. repeat split; auto.
      * left; exact Hs.
      * intros g Hg. cbn [binds] in Hg. apply andb_true_iff in Hg as [Hg _].
        auto.
    + destruct (IH2 HQ2 pre rest c k res Htext H)
        as (seg & rest' & new & -> & Hs & Hc & Hb & Hk).
      exists seg, rest', new. repeat split; auto.
      * right; exact Hs.
      * intros g Hg. cbn [binds] in Hg. apply andb_true_iff in Hg as [_ Hg].
        auto.
  - (* Rep *) cbn [mt] in H. cbn [groups_lang] in HQ.
    assert (forall fuel cnt pre rest c,
               text = pre ++ rest ->
               rep_loop (mt ic (length text) r1) lo hi k fuel cnt rest c
               = Some res ->
               exists segs rest' new,
                 rest = List.concat segs ++ rest' /\ Forall (lang r1) segs
                 /\ lo <= cnt + length segs
                 /\ (forall h, hi = Some h -> cnt <= h ->
                               cnt + length segs <= h)
                 /\ caps_lang new
                 /\ (forall g, cnt < lo -> binds g r1 = true ->
                               g ∈ List.map fst new)
                 /\ k rest' (new ++ c) = Some res) as Hloop.
    { clear pre rest c Htext H.
      induction fuel as [|fuel IHf]; intros cnt pre rest c Htext H;
        [discriminate H|].
      cbn [rep_loop] in H. cbv zeta in H.
      assert (forall (Hstop : (if lo <=? cnt then k rest c else None) = Some res),
                 exists segs rest' new,
                   rest = List.concat segs ++ rest' /\ Forall (lang r1) segs
                   /\ lo <= cnt + length segs
                   /\ (forall h, hi = Some h -> cnt <= h ->
                                 cnt + length segs <= h)
                   /\ caps_lang new
                   /\ (forall g, cnt < lo -> binds g r1 = true ->
                                 g ∈ List.map fst new)
                   /\ k rest' (new ++ c) = Some res) as Hstop.
      { intros Hstop. destruct (lo <=? cnt) eqn:El; [|discriminate].
        apply Nat.leb_le in El. exists [], rest, [].
        cbn [List.concat length app]. repeat split; auto; try constructor.
        - lia.
        - intros; lia.
        - intros; lia. }
      destruct (below cnt hi) eqn:Eb; [|apply Hstop; exact H].
      match type of H with
      | match ?M with _ => _ end = _ => destruct M as [x|] eqn:E
      end; [|apply Hstop; exact H].
      rewrite H in E.
      destruct (IH HQ pre rest c _ res Htext E)
        as (seg1 & rest1 & new1 & -> & Hs1 & Hc1 & Hb1 & H1).
      destruct (length rest1 <? length (seg1 ++ rest1)); [|discriminate].
      destruct (IHf (S cnt) (pre ++ seg1) rest1 (new1 ++ c))
        as (segs & rest2 & new2 & -> & Hs2 & Hlo & Hhi & Hc2 & Hb2 & H2); auto.
      { rewrite <- app_assoc. exact Htext. }
      exists (seg1 :: segs), rest2, (new2 ++ new1).
      cbn [List.concat length].
      split; [rewrite <- app_assoc; reflexivity|].
      split; [constructor; assumption|]. split; [lia|].
      split.
      { intros h Hh Hle. specialize (Hhi h Hh).
        unfold below in Eb. rewrite Hh in Eb. apply Nat.ltb_lt in Eb. lia. }
      split; [apply Forall_app; split; assumption|].
      split; [|rewrite <- app_assoc; exact H2].
      intros g _ Hg. rewrite List.map_app. apply elem_of_app. right. auto. }
    destruct (Hloop _ 0 pre rest c Htext H)
      as (segs & rest' & new & -> & Hs & Hlo & Hhi & Hc & Hb & Hk).
    exists (List.concat segs), rest', new. repeat split; auto.
    + exists segs. split; [reflexivity|]. split; [exact Hs|]. split; [lia|].
      intros h Hh. apply (Hhi h Hh). lia.
    + intros g Hg. cbn [binds] in Hg. apply andb_true_iff in Hg as [Hl Hg].
      apply Nat.leb_le in Hl. apply Hb; [lia|exact Hg].
  - (* Grp *) cbn [mt] in H. destruct HQ as [HQg HQ1].
    destruct (IH HQ1 pre rest c _ res Htext H)
      as (seg & rest' & new & -> & Hs & Hc & Hb & Hk).
    exists seg, rest',
      ((g, (length text - length (seg ++ rest'), length text - length rest'))
         :: new).
    split; [reflexivity|]. split; [exact Hs|]. split.
    { constructor; [|exact Hc]. cbn [fst snd].
      rewrite (slice_of_segment pre seg rest' Htext). apply HQg, Hs. }
    split; [|exact Hk].
    intros g' Hg'. cbn [binds] in Hg'. cbn [List.map fst].
    apply orb_true_iff in Hg' as [Hg'|Hg'].
    + apply Nat.eqb_eq in Hg'. subst g'. apply list_elem_of_here.
    + apply list_elem_of_further. auto.
  - (* NLook *) cbn [mt] in H.
    match type of H with
    | match ?M with _ => _ end = _ => destruct M as [x|] eqn:E
    end; [discriminate|].
    exists [], rest, []. repeat split; auto; try constructor.
    intros g Hg; discriminate.
  - (* Bos *) cbn [mt] in H. destruct (length rest =? length text); [|discriminate].
    exists [], rest, []. repeat split; auto; try constructor.
    intros g Hg; discriminate.
  - (* Eos *) cbn [mt] in H. destruct rest as [|x [|y t]]; try discriminate.
    + exists [], [], []. repeat split; auto; try constructor.
      intros g Hg; discriminate.
    + destruct (x =? 10)%N; [|discriminate].
      exists [], [x], []. repeat split; auto; try constructor.
      intros g Hg; discriminate.
Qed.

(** A match of [r] in [text]: the matched string is one of the expression,
    it lies in the text, and the groups hold what they may. *)
Definition match_lang (r : regex) (m : rmatch) : Prop :=
  lang r (slice (m_start m) (m_end m) text)
  /\ caps_lang (m_caps m)
  /\ (forall g, binds g r = true -> g ∈ List.map fst (m_caps m))
  /\ m_start m <= m_end m /\ m_end m <= length text.

Lemma match_here_lang (r : regex) (pre rest : list N) (m : rmatch) :
  groups_lang r -> text = pre ++ rest ->
  match_here ic (length text) r rest = Some m ->
  match_lang r m /\ m_start m = length pre.
Proof.
  intros HQ Htext H. unfold match_here in H.
  destruct (mt ic (length text) r rest []
              (fun rest' c' => Some (length text - length rest', c')))
    as [[e c]|] eqn:E; [|discriminate].
  injection H as <-.
  destruct (mt_lang r HQ pre rest [] _ _ Htext E)
    as (seg & rest' & new & -> & Hs & Hc & Hb & Hk).
  injection Hk as <- <-. rewrite app_nil_r in *. unfold match_lang.
  cbn [m_caps m_start m_end].
  rewrite (slice_of_segment pre seg rest' Htext).
  rewrite Htext, !length_app. repeat split; auto; lia.
Qed.

Lemma scan_lang (r : regex) (rest pre : list N) (m : rmatch) :
  groups_lang r -> text = pre ++ rest ->
  scan ic (length text) r rest = Some m ->
  match_lang r m.
Proof.
  intros HQ. revert pre; induction rest as [|x t IH]; intros pre Htext H;
    cbn [scan] in H.
  - destruct (match_here ic (length text) r []) as [m'|] eqn:E; [|discriminate].
    injection H as ->. apply (match_here_lang r pre [] m HQ Htext E).
  - destruct (match_here ic (length text) r (x :: t)) as [m'|] eqn:E.
    + injection H as ->. apply (match_here_lang r pre (x :: t) m HQ Htext E).
    + apply (IH (pre ++ [x])); [|exact H]. rewrite <- app_assoc. exact Htext.
Qed.

Lemma search_from_lang (r : regex) (pos : nat) (m : rmatch) :
  groups_lang r -> search_from ic r text pos = Some m -> match_lang r m.
Proof.
  intros HQ H. unfold search_from in H.
  destruct (pos <=? length text); [|discriminate].
  apply (scan_lang r (skipn pos text) (firstn pos text) m HQ); [|exact H].
  symmetry. apply firstn_skipn.
Qed.

Lemma finditer_from_lang (r : regex) (fuel pos : nat) (m : rmatch) :
  groups_lang r -> m ∈ finditer_from ic r text fuel pos -> match_lang r m.
Proof.
  intros HQ. revert pos; induction fuel as [|fuel IH]; intros pos H;
    cbn [finditer_from] in H.
  - apply elem_of_nil in H. contradiction.
  - destruct (search_from ic r text pos) as [m'|] eqn:E.
    + apply elem_of_cons in H as [->|H].
      * apply (search_from_lang r pos m' HQ E).
      * apply (IH _ H).
    + apply elem_of_nil in H. contradiction.
Qed.

(** What [m.group(g)] holds for a group that every match sets. *)
Lemma group_lang (r : regex) (m : rmatch) (g : nat) :
  match_lang r m -> binds g r = true -> Q g (group text m g).
Proof.
  intros (_ & Hc & Hb & _) Hg. unfold group.
  destruct (List.find (fun e => fst e =? g) (m_caps m)) as [[g' [a b]]|] eqn:E.
  - apply find_some in E as [Hin Hg']. cbn [fst] in Hg'.
    apply Nat.eqb_eq in Hg'. subst g'.
    unfold caps_lang in Hc. rewrite Forall_forall in Hc.
    apply (Hc (g, (a, b))). apply list_elem_of_In. exact Hin.
  - exfalso. apply Hb in Hg. apply list_elem_of_In, in_map_iff in Hg
      as ([g' ab] & Hfst & Hin). cbn [fst] in Hfst. subst g'.
    apply (find_none _ _ E) in Hin. cbn [fst] in Hin.
    rewrite Nat.eqb_refl in Hin. discriminate.
Qed.

End Lang.

(** An expression that is not nullable consumes at least one character. *)
Lemma lang_nonempty (ic : bool) (r : regex) (s : list N) :
  nullable r = false -> lang ic r s -> s <> [].
Proof.
  revert s; induction r as [| a | | neg items | r1 IH1 r2 IH2 | r1 IH1 r2 IH2
                           | lo hi r1 IH | g r1 IH | r1 IH | |];
    intros s Hn Hs; cbn [nullable lang] in *; try discriminate.
  - destruct Hs as (x & -> & _). discriminate.
  - destruct Hs as (x & -> & _). discriminate.
  - destruct Hs as (x & -> & _). discriminate.
  - destruct Hs as (s1 & s2 & -> & H1 & H2).
    apply andb_false_iff in Hn as [Hn|Hn].
    + specialize (IH1 _ Hn H1). destruct s1; [congruence|discriminate].
    + specialize (IH2 _ Hn H2). destruct s2; [congruence|].
      intros E. apply app_eq_nil in E as [_ E]. discriminate.
  - apply orb_false_iff in Hn as [Hn1 Hn2]. destruct Hs; auto.
  - apply orb_false_iff in Hn as [Hl Hn]. apply Nat.eqb_neq in Hl.
    destruct Hs as (segs & -> & Hall & Hlo & _).
    destruct segs as [|seg segs]; [cbn in Hlo; lia|].
    apply Forall_cons in Hall as [Hseg _]. specialize (IH _ Hn Hseg).
    cbn [List.concat]. destruct seg; [congruence|discriminate].
  - auto.
Qed.

End ReLang.

(** ** The years of the keys *)

(** The expression [\d{4}[a-z]?] of every year group. *)
Definition YEAR : Re.regex :=
  Re.Cat (Re.Rep 4 (Some 4) (Re.Cls false [Re.IDigit]))
         (Re.Rep 0 (Some 1) (Re.Cls false [Re.IRange 97 122])).

Lemma in_items_single (it : Re.citem) (x : N) :
  xorb false (Re.in_items false [it] x) = Re.in_item it x.
Proof.
  unfold Re.in_items. cbn [existsb andb xorb]. rewrite !orb_false_r.
  destruct (Re.in_item it x); reflexivity.
Qed.

Lemma year_lang (s : list N) : ReLang.lang false YEAR s -> is_year s = true.
Proof.
  intros (s1 & s2 & -> & (segs1 & -> & H1 & Hlo1 & Hhi1)
          & (segs2 & -> & H2 & _ & Hhi2)).
  specialize (Hhi1 4 eq_refl). specialize (Hhi2 1 eq_refl).
  destruct segs1 as [|a [|b [|c [|d [|e segs1]]]]]; cbn [length] in *; try lia.
  apply Forall_cons in H1 as [(a' & -> & Ha) H1].
  apply Forall_cons in H1 as [(b' & -> & Hb) H1].
  apply Forall_cons in H1 as [(c' & -> & Hc) H1].
  apply Forall_cons in H1 as [(d' & -> & Hd) _].
  rewrite in_items_single in Ha, Hb, Hc, Hd. cbn [Re.in_item] in Ha, Hb, Hc, Hd.
  destruct segs2 as [|e [|f segs2]]; cbn [length] in *; try lia.
  - cbn [List.concat app is_year]. rewrite Ha, Hb, Hc, Hd. reflexivity.
  - apply Forall_cons in H2 as [(e' & -> & He) _].
    rewrite in_items_single in He. cbn [Re.in_item] in He.
    cbn [List.concat app is_year]. rewrite Ha, Hb, Hc, Hd. cbn [andb].
    unfold is_ascii_lower. exact He.
Qed.

(** Group [g0] holds a year. *)
Definition year_group (g0 : nat) (g : nat) (s : list N) : Prop :=
  g = g0 -> is_year s = true.

Ltac year_groups :=
  cbn [ReLang.groups_lang]; repeat split;
  intros s Hs Hg; try discriminate Hg; apply year_lang; exact Hs.

Lemma years_of_year (part y : list N) :
  y ∈ years_of part -> is_year y = true.
Proof.
  unfold years_of, Re.findall1. intros H.
  apply list_elem_of_In, in_map_iff in H as (m & <- & Hm).
  apply list_elem_of_In in Hm.
  assert (ReLang.groups_lang false (year_group 1) RE_YEARS) as HQ by year_groups.
  apply (ReLang.finditer_from_lang false (year_group 1) part RE_YEARS _ _ m HQ)
    in Hm.
  apply (ReLang.group_lang false (year_group 1) part RE_YEARS m 1 Hm);
    reflexivity.
Qed.

Lemma search_year (r : Re.regex) (g : nat) (text : list N) (m : Re.rmatch) :
  ReLang.groups_lang false (year_group g) r -> ReLang.binds g r = true ->
  Re.search r text = Some m -> is_year (Re.group text m g) = true.
Proof.
  intros HQ Hb Hm.
  apply (ReLang.search_from_lang false (year_group g) text r 0 m HQ) in Hm.
  apply (ReLang.group_lang false (year_group g) text r m g Hm Hb). reflexivity.
Qed.

Lemma finditer_year (r : Re.regex) (g : nat) (text : list N) (m : Re.rmatch) :
  ReLang.groups_lang false (year_group g) r -> ReLang.binds g r = true ->
  m ∈ Re.finditer r text -> is_year (Re.group text m g) = true.
Proof.
  intros HQ Hb Hm.
  apply (ReLang.finditer_from_lang false (year_group g) text r _ _ m HQ) in Hm.
  apply (ReLang.group_lang false (year_group g) text r m g Hm Hb). reflexivity.
Qed.

Section Years.

Variable NOISE_WORDS : gset (list N).

Definition years_ok (ks : list key) : Prop :=
  Forall (fun k : key => is_year (snd k) = true) ks.

Lemma years_ok_map (s : list N) (part : list N) (years : list (list N)) :
  (forall y, y ∈ years -> is_year y = true) ->
  years_ok (List.map (fun y => (s, y)) years).
Proof.
  intros H. apply Forall_forall. intros k Hk.
  apply list_elem_of_In, in_map_iff in Hk as (y & <- & Hy). cbn [snd].
  apply H, list_elem_of_In, Hy.
Qed.

Lemma years_ok_flat_map {A : Type} (f : A -> list key) (l : list A) :
  (forall x, years_ok (f x)) -> years_ok (List.flat_map f l).
Proof.
  intros H. induction l as [|x l IH]; cbn [flat_map]; [constructor|].
  apply Forall_app. split; [apply H | exact IH].
Qed.

Lemma paren_part_years (last_author : option (list N)) (part : list N) :
  years_ok (snd (paren_part NOISE_WORDS last_author part)).
Proof.
  unfold paren_part.
  pose proof (years_of_year (strip part)) as Hy.
  destruct (years_of (strip part)) as [|y ys]; [constructor|].
  destruct (has_author _).
  - destruct (negb (is_noise NOISE_WORDS (first_surname _))); [|constructor].
    apply (years_ok_map _ part), Hy.
  - destruct last_author as [a|]; [|constructor].
    apply (years_ok_map _ part), Hy.
Qed.

Lemma paren_block_keys_years (block : list N) :
  years_ok (paren_block_keys NOISE_WORDS block).
Proof.
  unfold paren_block_keys. generalize (@None (list N)).
  induction (split_on (py ";") block) as [|part rest IH]; intros la;
    cbn [paren_parts]; [constructor|].
  pose proof (paren_part_years la part) as H.
  destruct (paren_part NOISE_WORDS la part) as [la' ks]. cbn [snd] in H.
  apply Forall_app. split; [exact H | apply IH].
Qed.

Lemma bracket_block_keys_years (block : list N) :
  years_ok (bracket_block_keys NOISE_WORDS block).
Proof.
  apply years_ok_flat_map. intros part. unfold bracket_part.
  pose proof (years_of_year (strip part)) as Hy.
  destruct (years_of (strip part)); [constructor|].
  destruct (has_author _); [|constructor].
  destruct (negb (is_noise NOISE_WORDS (first_surname _))); [|constructor].
  apply (years_ok_map _ part), Hy.
Qed.

Lemma subject_block_keys_years (subject paren_content : list N) :
  years_ok (subject_block_keys NOISE_WORDS subject paren_content).
Proof.
  apply years_ok_flat_map. intros part. unfold subject_part.
  pose proof (years_of_year (strip part)) as Hy.
  destruct (years_of (strip part)); [constructor|].
  destruct (has_author _).
  - destruct (negb (is_noise NOISE_WORDS (first_surname _))); [|constructor].
    apply (years_ok_map _ part), Hy.
  - destruct (negb (is_noise NOISE_WORDS subject)); [|constructor].
    apply (years_ok_map _ part), Hy.
Qed.

Lemma narrative_keys_years (text : list N) (m : Re.rmatch) :
  years_ok (narrative_keys NOISE_WORDS text m).
Proof.
  unfold narrative_keys.
  destruct (negb (is_noise NOISE_WORDS (first_surname _))); [|constructor].
  apply (years_ok_map _ text), years_of_year.
Qed.

Lemma bracket_keys_years (text : list N) (m : Re.rmatch) :
  m ∈ Re.finditer RE_BRACKET text ->
  years_ok (bracket_keys NOISE_WORDS text m).
Proof.
  intros Hm. unfold bracket_keys.
  destruct (negb (is_noise NOISE_WORDS (first_surname _))); [|constructor].
  constructor; [|constructor]. cbn [snd].
  apply (finditer_year RE_BRACKET 2 text m); [year_groups|reflexivity|exact Hm].
Qed.

Lemma lowercase_keys_years (text : list N) (m : Re.rmatch) :
  m ∈ Re.finditer RE_LOWERCASE text ->
  years_ok (lowercase_keys NOISE_WORDS text m).
Proof.
  intros Hm. unfold lowercase_keys.
  destruct (negb (is_noise NOISE_WORDS (normalize_surname _))); [|constructor].
  constructor; [|constructor]. cbn [snd].
  apply (finditer_year RE_LOWERCASE 2 text m); [year_groups|reflexivity|exact Hm].
Qed.

Definition all_years (cs : gset key) : Prop :=
  forall k, k ∈ cs -> is_year (snd k) = true.

Lemma add_keys_years (cs : gset key) (ks : list key) :
  all_years cs -> years_ok ks -> all_years (add_keys cs ks).
Proof.
  intros Hcs Hks k Hk. apply add_keys_elem in Hk as [Hk|Hk]; [apply Hcs, Hk|].
  unfold years_ok in Hks. rewrite Forall_forall in Hks. apply (Hks k Hk).
Qed.

Lemma extracted_years (plain_text : list N) (k : key) :
  k ∈ extract_citations_from_text NOISE_WORDS plain_text ->
  is_year (snd k) = true.
Proof.
  unfold extract_citations_from_text. intros Hk.
  apply elem_of_map in Hk as (k0 & -> & Hk0). cbn [snd]. revert k0 Hk0.
  match goal with
  | |- forall k0, k0 ∈ ?S -> _ => change (all_years S)
  end.
  apply foldl_invariant;
    [|intros cs m Hm H; apply add_keys_years, lowercase_keys_years; assumption].
  apply foldl_invariant;
    [|intros cs m _ H; apply add_keys_years, subject_block_keys_years; exact H].
  apply foldl_invariant;
    [|intros cs m _ H; apply add_keys_years, subject_block_keys_years; exact H].
  apply foldl_invariant;
    [|intros cs m _ H; apply add_keys_years, bracket_block_keys_years; exact H].
  apply foldl_invariant;
    [|intros cs m Hm H; apply add_keys_years, bracket_keys_years; assumption].
  apply foldl_invariant;
    [|intros cs m _ H; apply add_keys_years, subject_block_keys_years; exact H].
  apply foldl_invariant;
    [|intros cs m _ H; apply add_keys_years, narrative_keys_years; exact H].
  apply foldl_invariant;
    [|intros cs m _ H; apply add_keys_years, paren_block_keys_years; exact H].
  intros k Hk. apply elem_of_empty in Hk. contradiction.
Qed.

End Years.

(** *** Years and their suffix *)

Lemma has_suffix_pos (y : list N) :
  has_suffix y = match suffix_pos y with Some _ => true | None => false end.
Proof.
  unfold has_suffix, Re.search, Re.search_from.
  change (0 <=? length y) with true. change (skipn 0 y) with y. cbv iota.
  change RE_HAS_SUFFIX with RE_YEAR_SUFFIX.
  rewrite scan_suffix by lia. destruct (suffix_pos y); reflexivity.
Qed.

(** A year is its four digits, alone or followed by the suffix letter. *)
Lemma year_shape (y : list N) :
  is_year y = true ->
  (has_suffix y = false /\ length y = 4 /\ strip_year_suffix y = y)
  \/ (has_suffix y = true
      /\ exists c, y = firstn 4 y ++ [c] /\ is_ascii_lower c = true
                   /\ strip_year_suffix y = firstn 4 y).
Proof.
  intros Hy. rewrite has_suffix_pos, strip_year_suffix_unfold.
  destruct y as [|a [|b [|c [|d [|e [|f y]]]]]]; try discriminate.
  - left. cbn [is_year] in Hy.
    apply andb_true_iff in Hy as [_ Hd].
    rewrite suffix_pos_plain; [repeat split|].
    intros x [= <-]. apply digit_not_lower, Hd.
  - right. cbn [is_year] in Hy. apply andb_true_iff in Hy as [_ He].
    change [a; b; c; d; e] with ([a; b; c; d] ++ [e]).
    rewrite (suffix_pos_snoc [a; b; c; d] e He).
    split; [reflexivity|]. exists e. repeat split; assumption.
Qed.

Lemma year_base (y : list N) :
  is_year y = true -> strip_year_suffix y = firstn 4 y.
Proof.
  intros Hy. destruct (year_shape y Hy) as [(_ & Hl & ->)|(_ & c & _ & _ & ->)];
    [|reflexivity].
  symmetry. apply firstn_all2. lia.
Qed.

Lemma year_with_suffix (y : list N) (c : N) :
  is_year y = true -> length y = 4 -> is_ascii_lower c = true ->
  is_year (y ++ [c]) = true.
Proof.
  intros Hy Hl Hc.
  destruct y as [|a [|b [|c' [|d [|e y]]]]]; try discriminate.
  cbn [app is_year] in *. rewrite Hy, Hc. reflexivity.
Qed.

Lemma raw_ref_year (p : paragraph) (e : key) :
  raw_ref_of p = Some e -> is_year (snd e) = true.
Proof.
  unfold raw_ref_of. cbv zeta.
  destruct (normalize_text (strip (para_text p))) as [|c t] eqn:Ht;
    [discriminate|]. rewrite <- Ht.
  destruct (mem_str _ HEADINGS); [discriminate|].
  destruct (Re.search RE_REF_YEAR _) as [m|] eqn:Hm; [|discriminate].
  destruct (1 <? _); [|discriminate]. intros [= <-]. cbn [snd].
  apply (search_year RE_REF_YEAR 1 _ m); [year_groups|reflexivity|exact Hm].
Qed.

Lemma raw_refs_years (d : list block) (ref_para_idx i : nat) (e : key) :
  raw_refs_of d ref_para_idx !! i = Some e -> is_year (snd e) = true.
Proof.
  unfold raw_refs_of. intros H.
  assert (e ∈ omap raw_ref_of (skipn (ref_para_idx + 1) (doc_paragraphs d)))
    as Hin by (apply list_elem_of_lookup; eexists; exact H).
  apply list_elem_of_omap in Hin as (p & _ & Hp).
  apply (raw_ref_year p e Hp).
Qed.

(** A text of ASCII characters only.  On such a text the classes [\d] and
    [\w] and the case functions of Python are the ASCII ones. *)
Definition ascii_text (s : list N) : Prop :=
  forallb (fun c => (c <? 128)%N) s = true.

(** X20. In ASCII text every year of a key is well formed.  The year of a
    key of the citation set is four digits 0-9, or four digits and one
    lowercase letter.  So is the year of a key of the reference set, with
    one exception: when a group of entries with the same surname and year
    has more than 26 members without a suffix, the members after the 26th
    get the characters that follow "z" in the code table instead of a
    letter. *)
Theorem key_years_are_well_formed (NOISE_WORDS : gset (list N)) :
  (forall plain_text k,
      ascii_text plain_text ->
      k ∈ extract_citations_from_text NOISE_WORDS plain_text ->
      is_year (snd k) = true)
  /\ (forall d ref_para_idx k,
        Forall (fun p => ascii_text (para_text p)) (doc_paragraphs d) ->
        k ∈ extract_references_from_doc d ref_para_idx ->
        is_year (snd k) = true
        \/ exists digits n,
             snd k = digits ++ [(97 + N.of_nat n)%N]
             /\ is_year digits = true /\ length digits = 4
             /\ 26 <= n < length (raw_refs_of d ref_para_idx)).
Proof.
  split; [intros plain_text k _; apply extracted_years|].
  intros d idx k _ Hk. unfold extract_references_from_doc in Hk.
  apply assign_suffixes_spec in Hk as (i & s & y & Hi & [->|(_ & Hs & ->)]).
  - left. apply (raw_refs_years d idx i (s, y) Hi).
  - pose proof (raw_refs_years d idx i (s, y) Hi) as Hy. cbn [snd] in *.
    destruct (year_shape y Hy) as [(_ & Hl & _)|(Hs' & _)]; [|congruence].
    set (n := bare_count (take i (raw_refs_of d idx)) (s, strip_year_suffix y)).
    assert (n < length (raw_refs_of d idx)) as Hn.
    { apply lookup_lt_Some in Hi. unfold n, bare_count.
      pose proof (length_filter
                    (fun e => base_of e = (s, strip_year_suffix y)
                              /\ has_suffix (snd e) = false)
                    (take i (raw_refs_of d idx))) as H1.
      rewrite length_take in H1. lia. }
    destruct (le_lt_dec 26 n) as [Hbig|Hsmall].
    + right. exists y, n. repeat split; [exact Hy|exact Hl|exact Hbig|exact Hn].
    + left. apply year_with_suffix; [exact Hy|exact Hl|].
      unfold is_ascii_lower. apply andb_true_iff.
      split; apply N.leb_le; lia.
Qed.

(** *** Matching well-formed years *)

Lemma fuzzy_match_by_base_year (surname year : list N) (item_set : gset key) :
  is_year year = true ->
  (forall k, k ∈ item_set -> is_year (snd k) = true) ->
  let result := fuzzy_match_citation surname year item_set
                  (build_fuzzy_lookup (elements item_set)) in
  (result = Exact (surname, year) <-> (surname, year) ∈ item_set)
  /\ ((exists k, result = Fuzzy k)
      <-> ((surname, year) ∉ item_set)
          /\ exists y, (surname, y) ∈ item_set /\ firstn 4 y = firstn 4 year)
  /\ (result = NoMatch
      <-> forall y, (surname, y) ∈ item_set -> firstn 4 y <> firstn 4 year)
  /\ (forall k, result = Fuzzy k ->
        k ∈ item_set /\ fst k = surname /\ snd k <> year
        /\ firstn 4 (snd k) = firstn 4 year).
Proof.
  intros Hy Hall. cbv zeta.
  pose proof (year_base year Hy) as Hb.
  assert (forall y, (surname, y) ∈ item_set ->
                    strip_year_suffix y = firstn 4 y) as Hbs.
  { intros y Hin. apply year_base. apply (Hall (surname, y) Hin). }
  assert (fuzzy_match_citation surname year item_set
            (build_fuzzy_lookup (elements item_set)) = NoMatch
          <-> forall y, (surname, y) ∈ item_set -> firstn 4 y <> firstn 4 year)
    as Hnone.
  { rewrite fuzzy_match_none. split.
    - intros H y Hin. destruct (H y Hin) as (_ & _ & H3).
      rewrite (Hbs y Hin), Hb in H3. exact H3.
    - intros H y Hin. specialize (H y Hin). rewrite (Hbs y Hin), Hb.
      split; [intros ->; contradiction|]. split; [|exact H].
      intros ->. apply H. apply take_take. }
  assert (forall k, fuzzy_match_citation surname year item_set
                      (build_fuzzy_lookup (elements item_set)) = Fuzzy k ->
            k ∈ item_set /\ fst k = surname /\ snd k <> year
            /\ firstn 4 (snd k) = firstn 4 year) as Hfuzzy.
  { intros k Hk. apply fuzzy_match_fuzzy in Hk as (Hin & Hs & Hne & Hor).
    split; [exact Hin|]. split; [exact Hs|]. split; [exact Hne|].
    destruct Hor as [E|E].
    - rewrite E, Hb. apply take_take.
    - rewrite <- Hb, <- E. symmetry. apply year_base, (Hall k Hin). }
  assert (fuzzy_match_citation surname year item_set
            (build_fuzzy_lookup (elements item_set)) = Exact (surname, year)
          <-> (surname, year) ∈ item_set) as Hexact.
  { split.
    - intros H. apply fuzzy_match_exact in H as [_ H]. exact H.
    - intros H. unfold fuzzy_match_citation.
      rewrite bool_decide_eq_true_2 by exact H. reflexivity. }
  split; [exact Hexact|]. split; [|split; [exact Hnone|exact Hfuzzy]].
  split.
  - intros [k Hk]. split.
    + intros Hin. apply Hexact in Hin. congruence.
    + destruct (Hfuzzy k Hk) as (Hin & Hs & _ & H4). destruct k as [s y].
      cbn [fst snd] in *. subst s. exists y. split; assumption.
  - intros [Hnin (y & Hin & E)].
    destruct (fuzzy_match_citation surname year item_set
                (build_fuzzy_lookup (elements item_set))) as [k|k|] eqn:Hr.
    + apply fuzzy_match_exact in Hr as [-> Hr]. contradiction.
    + exists k. reflexivity.
    + exfalso. apply (proj1 Hnone eq_refl y Hin E).
Qed.

(** X21. For well-formed years, matching is by surname and four-digit
    year: against a set whose years are all well formed, with the lookup
    [main] builds from it, a key is matched exactly when it is in the set,
    fuzzily when it is not but the set has a key with the same surname and
    the same four digits, and not at all otherwise; a fuzzy match is such a
    key of the set. *)
Theorem match_is_by_surname_and_base_year
    (surname year : list N) (item_set : gset key) :
  is_year year = true ->
  (forall k, k ∈ item_set -> is_year (snd k) = true) ->
  let result := fuzzy_match_citation surname year item_set
                  (build_fuzzy_lookup (elements item_set)) in
  (result = Exact (surname, year) <-> (surname, year) ∈ item_set)
  /\ ((exists k, result = Fuzzy k)
      <-> ((surname, year) ∉ item_set)
          /\ exists y, (surname, y) ∈ item_set /\ firstn 4 y = firstn 4 year)
  /\ (result = NoMatch
      <-> forall y, (surname, y) ∈ item_set -> firstn 4 y <> firstn 4 year)
  /\ (forall k, result = Fuzzy k ->
        k ∈ item_set /\ fst k = surname /\ snd k <> year
        /\ firstn 4 (snd k) = firstn 4 year).
Proof. exact (fuzzy_match_by_base_year surname year item_set). Qed.

Definition FREUD_SET : gset key :=
  {[ (py "Freud", py "1912a"); (py "Freud", py "1912b") ]}.

Lemma match_is_by_surname_and_base_year_witness :
  let result := fuzzy_match_citation (py "Freud") (py "1912") FREUD_SET
                  (build_fuzzy_lookup (elements FREUD_SET)) in
  (result = Exact (py "Freud", py "1912") <-> (py "Freud", py "1912") ∈ FREUD_SET)
  /\ ((exists k, result = Fuzzy k)
      <-> ((py "Freud", py "1912") ∉ FREUD_SET)
          /\ exists y, (py "Freud", y) ∈ FREUD_SET
                       /\ firstn 4 y = firstn 4 (py "1912"))
  /\ (result = NoMatch
      <-> forall y, (py "Freud", y) ∈ FREUD_SET
                    -> firstn 4 y <> firstn 4 (py "1912"))
  /\ (forall k, result = Fuzzy k ->
        k ∈ FREUD_SET /\ fst k = py "Freud" /\ snd k <> py "1912"
        /\ firstn 4 (snd k) = firstn 4 (py "1912")).
Proof.
  apply (match_is_by_surname_and_base_year (py "Freud") (py "1912") FREUD_SET).
  - reflexivity.
  - intros k Hk. unfold FREUD_SET in Hk.
    apply elem_of_union in Hk as [Hk|Hk]; apply elem_of_singleton in Hk;
      subst k; reflexivity.
Defined.

(** ** The spans of the accepted blocks *)

Lemma groups_lang_any (ic : bool) (r : Re.regex) :
  ReLang.groups_lang ic (fun _ _ => True) r.
Proof.
  induction r; cbn [ReLang.groups_lang]; auto.
Qed.

Lemma slice_nonempty (a b : nat) (text : list N) :
  slice a b text <> [] -> a < b.
Proof.
  unfold slice. intros H. destruct (le_lt_dec b a) as [Hle|Hlt]; [|exact Hlt].
  replace (b - a) with 0 in H by lia. contradiction.
Qed.

(** The matches of an expression that is not nullable are not empty and lie
    in the text. *)
Lemma finditer_span (r : Re.regex) (text : list N) (m : Re.rmatch) :
  Re.nullable r = false -> m ∈ Re.finditer r text ->
  Re.m_start m < Re.m_end m <= length text.
Proof.
  intros Hn Hm.
  apply (ReLang.finditer_from_lang false (fun _ _ => True) text r _ _ m
           (groups_lang_any false r)) in Hm.
  destruct Hm as (Hl & _ & _ & _ & He).
  apply (ReLang.lang_nonempty false r _ Hn) in Hl.
  apply slice_nonempty in Hl. lia.
Qed.

Lemma pattern_not_nullable (rid : recognizer) :
  Re.nullable (pattern_of rid) = false.
Proof. destruct rid; vm_compute; reflexivity. Qed.

Lemma accepted_span_bounds NOISE_WORDS ref_set ref_fuzzy_lookup add_comments
    (st : hstate) (para : paragraph) (b : citation_span) :
  b ∈ h_blocks (highlight_body_paragraph NOISE_WORDS ref_set ref_fuzzy_lookup
                  add_comments st para) ->
  char_start b < char_end b <= length (para_text para).
Proof.
  intros Hb.
  destruct (highlight_body_paragraph_blocks NOISE_WORDS ref_set
              ref_fuzzy_lookup add_comments st para) as [Hall _].
  rewrite Forall_forall in Hall.
  destruct (Hall b Hb) as (m & Hm & -> & -> & _).
  apply (finditer_span _ _ m (pattern_not_nullable _)) in Hm.
  rewrite normalize_for_highlight_map, length_map in Hm. exact Hm.
Qed.

(** X22. Every span that [highlight_body_citations] accepts in a paragraph
    is a non-empty range of offsets of the paragraph's text:
    [0 <= start < end <= len(para.text)]; the list [highlighted_spans] holds
    the spans of the accepted blocks, in the order of acceptance. *)
Theorem accepted_spans_lie_in_the_text
    (NOISE_WORDS : gset (list N)) (ref_set : gset key)
    (ref_fuzzy_lookup : gmap key (list key)) (add_comments : bool)
    (st : hstate) (para : paragraph) :
  let st' := highlight_body_paragraph NOISE_WORDS ref_set ref_fuzzy_lookup
               add_comments st para in
  highlighted_spans st'
  = List.map (fun b => (char_start b, char_end b)) (h_blocks st')
  /\ (forall b, b ∈ h_blocks st' ->
                char_start b < char_end b <= length (para_text para))
  /\ (forall a, a ∈ highlighted_spans st' ->
                fst a < snd a <= length (para_text para)).
Proof.
  cbv zeta.
  destruct (highlight_body_paragraph_blocks NOISE_WORDS ref_set
              ref_fuzzy_lookup add_comments st para) as [_ Hspans].
  split; [exact Hspans|]. split.
  - intros b. apply accepted_span_bounds.
  - intros a Ha. rewrite Hspans in Ha.
    apply list_elem_of_In, in_map_iff in Ha as (b & <- & Hb).
    apply list_elem_of_In in Hb. cbn [fst snd].
    apply (accepted_span_bounds _ _ _ _ _ _ _ Hb).
Qed.

(** ** The overlap test *)

(** Two spans have a character in common. *)
Definition share_a_character (a b : nat * nat) : Prop :=
  exists i, fst a <= i < snd a /\ fst b <= i < snd b.

Lemma overlaps_meaning (spans : list (nat * nat)) (span_start span_end : nat) :
  (forall a, a ∈ spans -> fst a < snd a) ->
  span_start < span_end ->
  overlaps spans span_start span_end = true
  <-> exists a, a ∈ spans
                /\ share_a_character a (span_start, span_end)
                /\ ~ (span_start < fst a /\ snd a < span_end).
Proof.
  intros Hne Hse. unfold overlaps. rewrite existsb_exists. split.
  - intros ([hs he] & Hin & Ht). apply list_elem_of_In in Hin.
    specialize (Hne _ Hin). cbn [fst snd] in Hne.
    exists (hs, he). split; [exact Hin|]. cbn [fst snd].
    apply orb_true_iff in Ht as [Ht|Ht]; apply andb_true_iff in Ht as [H1 H2].
    + apply Nat.leb_le in H1. apply Nat.ltb_lt in H2.
      split; [exists span_start; cbn [fst snd]; lia|lia].
    + apply Nat.ltb_lt in H1. apply Nat.leb_le in H2.
      split; [exists (span_end - 1); cbn [fst snd]; lia|lia].
  - intros ([hs he] & Hin & (i & Hi1 & Hi2) & Hnot). cbn [fst snd] in *.
    exists (hs, he). split; [apply list_elem_of_In; exact Hin|].
    apply orb_true_iff.
    destruct (le_lt_dec hs span_start) as [H|H].
    + left. apply andb_true_iff. split; [apply Nat.leb_le|apply Nat.ltb_lt]; lia.
    + right. apply andb_true_iff.
      split; [apply Nat.ltb_lt|apply Nat.leb_le]; lia.
Qed.

(** X23. What the overlap test of [highlight_body_citations] decides, for
    spans that are not empty: a candidate is discarded exactly when an
    accepted span shares a character with it and is not strictly inside it.
    So the test discards no candidate that is disjoint from every accepted
    span, and lets pass the candidates that strictly contain the accepted
    spans they meet. *)
Theorem overlap_test_discards_real_overlaps
    (spans : list (nat * nat)) (span_start span_end : nat) :
  (forall a, a ∈ spans -> fst a < snd a) ->
  span_start < span_end ->
  overlaps spans span_start span_end = true
  <-> exists a, a ∈ spans
                /\ share_a_character a (span_start, span_end)
                /\ ~ (span_start < fst a /\ snd a < span_end).
Proof. exact (overlaps_meaning spans span_start span_end). Qed.

Lemma overlap_test_discards_real_overlaps_witness :
  overlaps [(1, 13)] 5 20 = true
  <-> exists a, a ∈ [(1, 13)]
                /\ share_a_character a (5, 20)
                /\ ~ (5 < fst a /\ snd a < 20).
Proof.
  apply (overlap_test_discards_real_overlaps [(1, 13)] 5 20).
  - intros a Ha. apply list_elem_of_singleton in Ha. subst a. cbn. lia.
  - lia.
Defined.

(** ** Splitting a run in general *)

(** The text of the children of a run that are not [w:t] elements. *)
Definition inline_text (r : run) : list N :=
  List.concat (List.map relem_text
                 (List.filter (fun e => negb (is_w_t e)) (r_children r))).

Lemma split_run_texts (r : run) (split_at : nat) :
  run_text (fst (split_run r split_at))
  = inline_text r ++ firstn split_at (run_text r)
  /\ run_text (snd (split_run r split_at))
     = inline_text r ++ skipn split_at (run_text r).
Proof.
  unfold split_run, run_text, inline_text. cbn [fst snd r_children].
  rewrite !List.map_app, !concat_app. cbn [List.map relem_text List.concat].
  rewrite !app_nil_r. split; reflexivity.
Qed.

Lemma filter_filter_same {A : Type} (f : A -> bool) (l : list A) :
  List.filter f (List.filter f l) = List.filter f l.
Proof.
  induction l as [|x l IH]; [reflexivity|].
  cbn [List.filter]. destruct (f x) eqn:E; [|exact IH].
  cbn [List.filter]. rewrite E, IH. reflexivity.
Qed.

(** X24. [split_run] in general: each half keeps the highlight and the
    formatting of the run and a copy of every child that is not a [w:t]
    element, placed before one new [w:t] element that holds the half of
    [run.text].  So the text of each half is the text of those children
    followed by its half of the run's text, and the two halves concatenate to
    the text of the run exactly when those children carry no text. *)
Theorem split_run_copies_inline_children (r : run) (split_at : nat) :
  let left := fst (split_run r split_at) in
  let right := snd (split_run r split_at) in
  let inline (x : run) :=
    List.filter (fun e => negb (is_w_t e)) (r_children x) in
  run_text left = inline_text r ++ firstn split_at (run_text r)
  /\ run_text right = inline_text r ++ skipn split_at (run_text r)
  /\ inline left = inline r /\ inline right = inline r
  /\ r_highlight left = r_highlight r /\ r_highlight right = r_highlight r
  /\ r_format left = r_format r /\ r_format right = r_format r
  /\ (run_text left ++ run_text right = run_text r <-> inline_text r = []).
Proof.
  cbv zeta. destruct (split_run_texts r split_at) as [Hl Hr].
  split; [exact Hl|]. split; [exact Hr|].
  assert (forall t,
             List.filter (fun e => negb (is_w_t e))
               (List.filter (fun e => negb (is_w_t e)) (r_children r) ++ [t])
             = List.filter (fun e => negb (is_w_t e)) (r_children r)
               ++ List.filter (fun e => negb (is_w_t e)) [t]) as Hf.
  { intros t. rewrite List.filter_app, filter_filter_same. reflexivity. }
  split; [unfold split_run; cbn [fst r_children]; rewrite Hf; cbn;
          apply app_nil_r|].
  split; [unfold split_run; cbn [snd r_children]; rewrite Hf; cbn;
          apply app_nil_r|].
  repeat (split; [reflexivity|]).
  rewrite Hl, Hr. split.
  - intros E. apply (f_equal (@length N)) in E.
    rewrite !length_app in E.
    pose proof (firstn_skipn split_at (run_text r)) as Hfs.
    apply (f_equal (@length N)) in Hfs. rewrite length_app in Hfs.
    destruct (inline_text r); [reflexivity|]. cbn [length] in E. lia.
  - intros ->. cbn [app]. apply firstn_skipn.
Qed.

(** ** Reading a listed string back *)

Section ClassLoop.

Import Re.

Variable ic : bool.
Variable n : nat.
Variable neg : bool.
Variable items : list citem.
Variable lo : nat.
Variable hi : option nat.
Variable k : list N -> caps -> option (nat * caps).

Let inside (x : N) : bool := xorb neg (in_items ic items x).

Lemma mt_cls (x : N) (t : list N) (c : caps)
    (k' : list N -> caps -> option (nat * caps)) :
  mt ic n (Cls neg items) (x :: t) c k' = if inside x then k' t c else None.
Proof. reflexivity. Qed.

(** A greedy repetition of a character class takes the characters of the
    class up to the first one outside it, or up to its bound, when what
    follows matches from there. *)
Lemma rep_class_greedy (seg rest : list N) (c : caps) (res : nat * caps) :
  forall fuel cnt,
    forallb inside seg = true ->
    match hi with Some h => cnt + length seg <= h | None => True end ->
    lo <= cnt + length seg ->
    hi = Some (cnt + length seg)
    \/ match rest with [] => True | x :: _ => inside x = false end ->
    length seg < fuel ->
    k rest c = Some res ->
    rep_loop (mt ic n (Cls neg items)) lo hi k fuel cnt (seg ++ rest) c
    = Some res.
Proof.
  induction seg as [|x seg IH]; intros fuel cnt Hin Hhi Hlo Hstop Hfuel Hk;
    (destruct fuel as [|fuel]; [cbn [length] in Hfuel; lia|]);
    cbn [rep_loop app]; cbv zeta.
  - cbn [length] in *. rewrite Nat.add_0_r in *.
    assert ((if below cnt hi
             then mt ic n (Cls neg items) rest c
                    (fun rest' c' =>
                       if length rest' <? length rest
                       then rep_loop (mt ic n (Cls neg items)) lo hi k fuel
                              (S cnt) rest' c'
                       else None)
             else None) = None) as ->.
    { destruct Hstop as [->|Hstop].
      - unfold below. rewrite Nat.ltb_irrefl. reflexivity.
      - destruct (below cnt hi); [|reflexivity].
        destruct rest as [|y rest]; [reflexivity|]. rewrite mt_cls.
        rewrite Hstop. reflexivity. }
    apply Nat.leb_le in Hlo. rewrite Hlo. exact Hk.
  - cbn [forallb length] in *. apply andb_true_iff in Hin as [Hx Hin].
    assert (below cnt hi = true) as ->.
    { unfold below. destruct hi as [h|]; [|reflexivity].
      apply Nat.ltb_lt. lia. }
    rewrite mt_cls, Hx.
    rewrite (proj2 (Nat.ltb_lt _ _)) by (cbn [length]; lia).
    rewrite (IH fuel (S cnt)); [reflexivity|exact Hin| | | | |exact Hk].
    + destruct hi; [lia|exact I].
    + lia.
    + destruct Hstop as [->|Hstop]; [left; f_equal; lia|right; exact Hstop].
    + lia.
Qed.

End ClassLoop.

(** A character of [\w], and one of [[\w-]]. *)
Definition is_word (c : N) : bool :=
  is_ascii_upper c || is_ascii_lower c || is_ascii_digit c || (c =? 95)%N.

Definition is_word_or_dash (c : N) : bool := is_word c || (c =? 45)%N.

(** A name that the pattern of the listed strings reads back: a word
    character followed by word characters and dashes. *)
Definition simple_name (s : list N) : bool :=
  match s with
  | c :: t => is_word c && forallb is_word_or_dash t
  | [] => false
  end.

(** The key a listed string is filed under by
    [apply_learned_cross_matches]. *)
Definition listed_key (c : list N) : option key :=
  match Re.match_ RE_LISTED c with
  | Some m => Some (lower (Re.group c m 1), Re.group c m 2)
  | None => None
  end.

Lemma in_items_word (x : N) :
  xorb false (Re.in_items false [Re.IWord] x) = is_word x.
Proof. rewrite in_items_single. reflexivity. Qed.

Lemma in_items_word_or_dash (x : N) :
  xorb false (Re.in_items false [Re.IWord; Re.IChar 45] x) = is_word_or_dash x.
Proof.
  unfold Re.in_items. cbn [existsb andb xorb Re.in_item]. rewrite !orb_false_r.
  unfold is_word_or_dash, is_word.
  destruct (is_ascii_upper x || is_ascii_lower x || is_ascii_digit x
            || (x =? 95)%N); reflexivity.
Qed.

Lemma in_items_space (x : N) :
  xorb false (Re.in_items false [Re.ISpace] x) = isspace x.
Proof. rewrite in_items_single. reflexivity. Qed.

Lemma in_items_digit (x : N) :
  xorb false (Re.in_items false [Re.IDigit] x) = is_ascii_digit x.
Proof. rewrite in_items_single. reflexivity. Qed.

Lemma in_items_lower_case (x : N) :
  xorb false (Re.in_items false [Re.IRange 97 122] x) = is_ascii_lower x.
Proof. rewrite in_items_single. reflexivity. Qed.

(** The year expression at the front of [y ++ rest] takes [y]. *)
Lemma mt_year (n : nat) (y rest : list N) (c : Re.caps)
    (k : list N -> Re.caps -> option (nat * Re.caps)) (res : nat * Re.caps) :
  is_year y = true ->
  match rest with [] => True | x :: _ => is_ascii_lower x = false end ->
  k rest c = Some res ->
  Re.mt false n YEAR (y ++ rest) c k = Some res.
Proof.
  intros Hy Hrest Hk. unfold YEAR. cbn [Re.mt].
  destruct y as [|a [|b [|c' [|d [|e [|f y]]]]]]; try discriminate;
    cbn [is_year] in Hy.
  - (* four digits *)
    apply andb_true_iff in Hy as [Hy Hd]. apply andb_true_iff in Hy as [Hy Hc].
    apply andb_true_iff in Hy as [Ha Hb].
    apply (rep_class_greedy false n false [Re.IDigit] 4 (Some 4) _
             [a; b; c'; d] rest c res).
    + cbn [forallb]. rewrite !in_items_digit, Ha, Hb, Hc, Hd. reflexivity.
    + cbn [length]. lia.
    + cbn [length]. lia.
    + left. reflexivity.
    + cbn [length app]. lia.
    + change rest with ([] ++ rest).
      apply (rep_class_greedy false (n) false [Re.IRange 97 122] 0 (Some 1) k
               [] rest c res); cbn [length forallb app]; try lia; try reflexivity.
      * right. destruct rest as [|x rest]; [exact I|].
        rewrite in_items_lower_case. exact Hrest.
      * exact Hk.
  - (* four digits and the letter *)
    apply andb_true_iff in Hy as [Hy He].
    apply andb_true_iff in Hy as [Hy Hd]. apply andb_true_iff in Hy as [Hy Hc].
    apply andb_true_iff in Hy as [Ha Hb].
    change ([a; b; c'; d; e] ++ rest) with ([a; b; c'; d] ++ (e :: rest)).
    apply (rep_class_greedy false n false [Re.IDigit] 4 (Some 4) _
             [a; b; c'; d] (e :: rest) c res).
    + cbn [forallb]. rewrite !in_items_digit, Ha, Hb, Hc, Hd. reflexivity.
    + cbn [length]. lia.
    + cbn [length]. lia.
    + left. reflexivity.
    + cbn [length app]. lia.
    + change (e :: rest) with ([e] ++ rest).
      apply (rep_class_greedy false n false [Re.IRange 97 122] 0 (Some 1) k
               [e] rest c res); cbn [length forallb app]; try lia.
      * rewrite in_items_lower_case, He. reflexivity.
      * left. reflexivity.
      * exact Hk.
Qed.

Lemma slice_front (s rest : list N) : slice 0 (length s) (s ++ rest) = s.
Proof.
  unfold slice. rewrite Nat.sub_0_r. cbn [skipn]. apply take_app_length.
Qed.

Lemma slice_middle (pre s rest : list N) :
  slice (length pre) (length pre + length s) (pre ++ s ++ rest) = s.
Proof.
  unfold slice. replace (length pre + length s - length pre) with (length s) by lia.
  rewrite drop_app_length. apply take_app_length.
Qed.

(** The match of the listed pattern on ["surname (year)"]. *)
Lemma match_listed (s y : list N) :
  simple_name s = true -> is_year y = true ->
  Re.match_ RE_LISTED (show_key (s, y))
  = Some {| Re.m_start := 0;
            Re.m_end := length (show_key (s, y));
            Re.m_caps := [(2, (length s + 2, length s + 2 + length y));
                          (1, (0, length s))] |}.
Proof.
  intros Hs Hy. unfold Re.match_, Re.match_here, show_key. cbn [fst snd].
  change (py " (") with [32%N; 40%N]. change (py ")") with [41%N].
  set (text := s ++ [32%N; 40%N] ++ y ++ [41%N]).
  set (n := length text).
  set (k0 := fun (rest' : list N) (c' : Re.caps) => Some (n - length rest', c')).
  assert (Re.mt false n RE_LISTED text [] k0
          = Some (n, [(2, (length s + 2, length s + 2 + length y));
                      (1, (0, length s))])) as ->.
  2:{ rewrite Nat.sub_diag. reflexivity. }
  destruct s as [|c0 t]; [discriminate|]. cbn [simple_name] in Hs.
  apply andb_true_iff in Hs as [Hc0 Ht].
  assert (length text = S (length t) + 2 + length y + 1) as Hlen.
  { unfold text. rewrite !length_app. cbn [length]. lia. }
  unfold RE_LISTED.
  change (Re.Cat (Re.Rep 4 (Some 4) (Re.Cls false [Re.IDigit]))
            (Re.Rep 0 (Some 1) (Re.Cls false [Re.IRange 97 122]))) with YEAR.
  cbn [Re.mt]. unfold text at 1. cbn [app].
  rewrite in_items_word, Hc0.
  (* the rest of the name *)
  apply (rep_class_greedy false n false [Re.IWord; Re.IChar 45] 0 None _ t
           ([32%N; 40%N] ++ y ++ [41%N]) [] _).
  { rewrite <- Ht. clear. induction t as [|x t IH]; [reflexivity|].
    cbn [forallb]. rewrite in_items_word_or_dash, IH. reflexivity. }
  { exact I. }
  { lia. }
  { right. reflexivity. }
  { rewrite !length_app. cbn [length]. lia. }
  (* the space *)
  cbn [app].
  change (32%N :: 40%N :: y ++ [41%N]) with ([32%N] ++ (40%N :: y ++ [41%N])).
  apply (rep_class_greedy false n false [Re.ISpace] 0 None _ [32%N]
           (40%N :: y ++ [41%N]) _ _).
  { reflexivity. }
  { exact I. }
  { lia. }
  { right. reflexivity. }
  { cbn [length app]. lia. }
  (* the year in its parentheses *)
  cbn [Re.lit_eq N.eqb Pos.eqb].
  apply mt_year; [exact Hy|reflexivity|].
  cbn [Re.mt Re.lit_eq]. rewrite Pos.eqb_refl. unfold k0.
  cbn [length app]. rewrite !length_app. cbn [length].
  change (length text) with n.
  assert (n = S (length t) + 2 + length y + 1) as Hn by exact Hlen.
  clearbody n. subst n. repeat f_equal; lia.
Qed.

Lemma match_listed_groups (s y : list N) :
  simple_name s = true -> is_year y = true ->
  exists m, Re.match_ RE_LISTED (show_key (s, y)) = Some m
            /\ Re.group (show_key (s, y)) m 1 = s
            /\ Re.group (show_key (s, y)) m 2 = y.
Proof.
  intros Hs Hy. eexists. split; [apply (match_listed s y Hs Hy)|].
  unfold Re.group.
  cbn [Re.m_caps List.find fst snd Nat.eqb]. unfold show_key. cbn [fst snd].
  change (py " (") with [32%N; 40%N]. change (py ")") with [41%N].
  rewrite slice_front. split; [reflexivity|].
  replace (s ++ [32%N; 40%N] ++ y ++ [41%N])
    with ((s ++ [32%N; 40%N]) ++ y ++ [41%N]) by (rewrite <- app_assoc; reflexivity).
  replace (length s + 2) with (length (s ++ [32%N; 40%N]))
    by (rewrite length_app; reflexivity).
  apply slice_middle.
Qed.

Lemma listed_key_show (k : key) :
  simple_name (fst k) = true -> is_year (snd k) = true ->
  listed_key (show_key k) = Some (lower (fst k), snd k).
Proof.
  destruct k as [s y]. cbn [fst snd]. intros Hs Hy. unfold listed_key.
  destruct (match_listed_groups s y Hs Hy) as (m & -> & -> & ->). reflexivity.
Qed.

(** What a listed string is filed under is a name and a year. *)
Lemma listed_key_shape (c : list N) (k : key) :
  listed_key c = Some k ->
  is_year (snd k) = true /\ exists w, simple_name w = true /\ fst k = lower w.
Proof.
  unfold listed_key, Re.match_.
  destruct (Re.match_here false (length c) RE_LISTED c) as [m|] eqn:Hm;
    [|discriminate].
  intros [= <-]. cbn [fst snd].
  set (Q := fun (g : nat) (s : list N) =>
              (g = 1 -> simple_name s = true) /\ (g = 2 -> is_year s = true)).
  assert (ReLang.groups_lang false Q RE_LISTED) as HQ.
  { cbn [ReLang.groups_lang RE_LISTED]. repeat split; try discriminate.
    - intros _. destruct H as (s1 & s2 & -> & (x & -> & Hx) & (segs & -> & Hall & _)).
      rewrite in_items_word in Hx. cbn [app simple_name]. rewrite Hx. cbn [andb].
      clear Hx. induction Hall as [|seg segs (y & -> & Hy) _ IH]; [reflexivity|].
      rewrite in_items_word_or_dash in Hy. cbn [List.concat app forallb].
      rewrite Hy. exact IH.
    - intros _. apply year_lang. exact H. }
  destruct (ReLang.match_here_lang false Q c RE_LISTED [] c m HQ eq_refl Hm)
    as [Hl _].
  split.
  - apply (ReLang.group_lang false Q c RE_LISTED m 2 Hl); reflexivity.
  - exists (Re.group c m 1). split; [|reflexivity].
    apply (ReLang.group_lang false Q c RE_LISTED m 1 Hl); reflexivity.
Qed.

Lemma listed_lookup_step (lookup : gmap key (list N)) (c : list N) :
  match Re.match_ RE_LISTED c with
  | Some m => <[(lower (Re.group c m 1), Re.group c m 2) := c]> lookup
  | None => lookup
  end
  = match listed_key c with
    | Some k => <[k := c]> lookup
    | None => lookup
    end.
Proof. unfold listed_key. destruct (Re.match_ RE_LISTED c); reflexivity. Qed.

Lemma listed_lookup_fold (items : list (list N)) (lookup : gmap key (list N))
    (k : key) :
  let result :=
    foldl (fun (lookup : gmap key (list N)) c =>
             match Re.match_ RE_LISTED c with
             | Some m => <[(lower (Re.group c m 1), Re.group c m 2) := c]> lookup
             | None => lookup
             end) lookup items in
  (forall c, result !! k = Some c ->
             lookup !! k = Some c \/ (c ∈ items /\ listed_key c = Some k))
  /\ ((is_Some (lookup !! k) \/ exists c, c ∈ items /\ listed_key c = Some k) ->
      is_Some (result !! k)).
Proof.
  revert lookup; induction items as [|x items IH]; intros lookup; cbv zeta;
    cbn [foldl].
  - split; [intros c H; left; exact H|].
    intros [H|(c & Hc & _)]; [exact H|inversion Hc].
  - rewrite listed_lookup_step. specialize (IH (match listed_key x with
                                                | Some k0 => <[k0:=x]> lookup
                                                | None => lookup
                                                end)).
    cbv zeta in IH. destruct IH as [IH1 IH2]. split.
    + intros c Hc. apply IH1 in Hc as [Hc|[Hc Hk]].
      * destruct (listed_key x) as [k0|] eqn:Ex; [|left; exact Hc].
        destruct (decide (k0 = k)) as [->|Hne].
        -- rewrite lookup_insert_eq in Hc. injection Hc as ->.
           right. split; [apply list_elem_of_here|exact Ex].
        -- rewrite lookup_insert_ne in Hc by exact Hne. left; exact Hc.
      * right. split; [apply list_elem_of_further, Hc|exact Hk].
    + intros H. apply IH2.
      destruct H as [H|(c & Hc & Hk)].
      * left. destruct (listed_key x) as [k0|]; [|exact H].
        destruct (decide (k0 = k)) as [->|Hne].
        -- rewrite lookup_insert_eq. eexists; reflexivity.
        -- rewrite lookup_insert_ne by exact Hne. exact H.
      * apply elem_of_cons in Hc as [->|Hc].
        -- left. rewrite Hk, lookup_insert_eq. eexists; reflexivity.
        -- right. exists c. split; assumption.
Qed.

Lemma listed_lookup_spec (items : list (list N)) (k : key) :
  (forall c, listed_lookup items !! k = Some c ->
             c ∈ items /\ listed_key c = Some k)
  /\ ((exists c, c ∈ items /\ listed_key c = Some k) ->
      is_Some (listed_lookup items !! k)).
Proof.
  destruct (listed_lookup_fold items ∅ k) as [H1 H2]. split.
  - intros c Hc. apply H1 in Hc as [Hc|Hc]; [|exact Hc].
    rewrite lookup_empty in Hc. discriminate.
  - intros H. apply H2. right. exact H.
Qed.

Lemma cross_matches_elem (learned : learned_patterns)
    (unmatched_citations uncited_refs : list (list N)) (c r reason : list N) :
  (c, r, reason) ∈ apply_learned_cross_matches learned unmatched_citations
                     uncited_refs
  <-> exists cm,
        cm ∈ cross_matches learned
        /\ listed_lookup unmatched_citations
             !! (lower (cm_author cm), cm_cite_year cm) = Some c
        /\ listed_lookup uncited_refs
             !! (lower (cm_author cm), cm_ref_year cm) = Some r
        /\ reason = default DEFAULT_REASON (cm_reason cm).
Proof.
  unfold apply_learned_cross_matches.
  assert (forall cms,
             (c, r, reason)
               ∈ List.flat_map
                   (fun cm =>
                      match listed_lookup unmatched_citations
                              !! (lower (cm_author cm), cm_cite_year cm),
                            listed_lookup uncited_refs
                              !! (lower (cm_author cm), cm_ref_year cm) with
                      | Some c, Some r =>
                          [(c, r, default DEFAULT_REASON (cm_reason cm))]
                      | _, _ => []
                      end) cms
             <-> exists cm,
                   cm ∈ cms
                   /\ listed_lookup unmatched_citations
                        !! (lower (cm_author cm), cm_cite_year cm) = Some c
                   /\ listed_lookup uncited_refs
                        !! (lower (cm_author cm), cm_ref_year cm) = Some r
                   /\ reason = default DEFAULT_REASON (cm_reason cm)) as H.
  { intros cms. rewrite list_elem_of_In, in_flat_map. split.
    - intros (cm & Hcm & Hin). exists cm.
      split; [apply list_elem_of_In; exact Hcm|].
      destruct (listed_lookup unmatched_citations !! _) as [c'|];
        [|destruct Hin].
      destruct (listed_lookup uncited_refs !! _) as [r'|]; [|destruct Hin].
      destruct Hin as [Hin|[]]. injection Hin as -> -> ->.
      repeat split; reflexivity.
    - intros (cm & Hcm & Hc & Hr & ->). exists cm.
      split; [apply list_elem_of_In; exact Hcm|].
      rewrite Hc, Hr. left. reflexivity. }
  destruct (cross_matches learned) as [|cm cms] eqn:E.
  - split; [intros Hin; inversion Hin|].
    intros (cm & Hcm & _). inversion Hcm.
  - apply H.
Qed.

(** X25. The strings ["surname (year)"] of the report are read back by
    [apply_learned_cross_matches]: for a surname made of an ASCII word
    character followed by ASCII word characters and dashes and a well-formed
    year, the pattern gives back the surname and the year, and the string is
    filed under the lower-cased surname and the year.  From a list of ASCII
    strings, whatever string is filed is filed under a name of that form and
    a well-formed year. *)
Theorem listed_strings_read_back :
  (forall k, simple_name (fst k) = true -> is_year (snd k) = true ->
             exists m, Re.match_ RE_LISTED (show_key k) = Some m
                       /\ Re.group (show_key k) m 1 = fst k
                       /\ Re.group (show_key k) m 2 = snd k)
  /\ (forall k, simple_name (fst k) = true -> is_year (snd k) = true ->
                listed_lookup [show_key k] !! (lower (fst k), snd k)
                = Some (show_key k))
  /\ (forall items k c,
        Forall ascii_text items ->
        listed_lookup items !! k = Some c ->
        c ∈ items /\ is_year (snd k) = true
        /\ exists w, simple_name w = true /\ fst k = lower w).
Proof.
  split; [|split].
  - intros [s y] Hs Hy. apply (match_listed_groups s y Hs Hy).
  - intros k Hs Hy. unfold listed_lookup. cbn [foldl].
    rewrite listed_lookup_step, (listed_key_show k Hs Hy).
    apply lookup_insert_eq.
  - intros items k c _ Hc.
    destruct (listed_lookup_spec items k) as [H _].
    destruct (H c Hc) as [Hin Hk]. split; [exact Hin|].
    apply (listed_key_shape c k Hk).
Qed.

(** X26. When a learned cross-match fires.  On the lists of strings of
    keys with simple surnames and well-formed years (as the two passes
    produce them), an entry [author, cite_year, ref_year] of the learned
    cross-matches yields an auto-match exactly when the unmatched citations
    have a key with that author, compared in lower case, and the year
    [cite_year], and the uncited references have one with that author and
    [ref_year]; the strings of the auto-match are strings of such keys, and
    its reason is the learned one or the default. *)
Theorem learned_cross_match_fires (learned : learned_patterns)
    (cites refs : list key) :
  (forall k, k ∈ cites ++ refs ->
             simple_name (fst k) = true /\ is_year (snd k) = true) ->
  let auto_matches :=
    apply_learned_cross_matches learned (List.map show_key cites)
      (List.map show_key refs) in
  let fits (cm : cross_match) (year : list N) (k : key) :=
    lower (fst k) = lower (cm_author cm) /\ snd k = year in
  (forall c r reason,
      (c, r, reason) ∈ auto_matches ->
      exists cm kc kr,
        cm ∈ cross_matches learned
        /\ kc ∈ cites /\ fits cm (cm_cite_year cm) kc /\ c = show_key kc
        /\ kr ∈ refs /\ fits cm (cm_ref_year cm) kr /\ r = show_key kr
        /\ reason = default DEFAULT_REASON (cm_reason cm))
  /\ (forall cm kc kr,
        cm ∈ cross_matches learned ->
        kc ∈ cites -> fits cm (cm_cite_year cm) kc ->
        kr ∈ refs -> fits cm (cm_ref_year cm) kr ->
        exists c r,
          (c, r, default DEFAULT_REASON (cm_reason cm)) ∈ auto_matches).
Proof.
  intros Hok. cbv zeta.
  assert (forall (ks : list key) (k : key) (c : list N),
             (forall k, k ∈ ks ->
                        simple_name (fst k) = true /\ is_year (snd k) = true) ->
             listed_lookup (List.map show_key ks) !! k = Some c ->
             exists k', k' ∈ ks /\ c = show_key k'
                        /\ lower (fst k') = fst k /\ snd k' = snd k) as Hfound.
  { intros ks k c Hks Hc.
    destruct (listed_lookup_spec (List.map show_key ks) k) as [H _].
    destruct (H c Hc) as [Hin Hk].
    apply list_elem_of_In, in_map_iff in Hin as (k' & <- & Hk').
    apply list_elem_of_In in Hk'. destruct (Hks k' Hk') as [Hs Hy].
    rewrite (listed_key_show k' Hs Hy) in Hk. injection Hk as <-.
    exists k'. repeat split. exact Hk'. }
  assert (forall (ks : list key) (k' : key),
             (forall k, k ∈ ks ->
                        simple_name (fst k) = true /\ is_year (snd k) = true) ->
             k' ∈ ks ->
             is_Some (listed_lookup (List.map show_key ks)
                        !! (lower (fst k'), snd k'))) as Hfiled.
  { intros ks k' Hks Hk'.
    destruct (listed_lookup_spec (List.map show_key ks) (lower (fst k'), snd k'))
      as [_ H].
    apply H. exists (show_key k'). split.
    - apply list_elem_of_In, in_map, list_elem_of_In, Hk'.
    - destruct (Hks k' Hk') as [Hs Hy]. apply (listed_key_show k' Hs Hy). }
  assert (forall k, k ∈ cites ->
                    simple_name (fst k) = true /\ is_year (snd k) = true) as Hc
    by (intros k Hk; apply Hok, elem_of_app; left; exact Hk).
  assert (forall k, k ∈ refs ->
                    simple_name (fst k) = true /\ is_year (snd k) = true) as Hr
    by (intros k Hk; apply Hok, elem_of_app; right; exact Hk).
  split.
  - intros c r reason Hin.
    apply cross_matches_elem in Hin as (cm & Hcm & H1 & H2 & ->).
    destruct (Hfound cites _ c Hc H1) as (kc & Hkc & -> & Ec1 & Ec2).
    destruct (Hfound refs _ r Hr H2) as (kr & Hkr & -> & Er1 & Er2).
    exists cm, kc, kr. cbn [fst snd] in *. repeat split; assumption.
  - intros cm kc kr Hcm Hkc [Ec1 Ec2] Hkr [Er1 Er2].
    destruct (Hfiled cites kc Hc Hkc) as [c Hlc].
    destruct (Hfiled refs kr Hr Hkr) as [r Hlr].
    rewrite Ec1, Ec2 in Hlc. rewrite Er1, Er2 in Hlr.
    exists c, r. apply cross_matches_elem. exists cm.
    repeat split; assumption.
Qed.

Definition FREUD_LEARNED : learned_patterns :=
  {| noise_words := [];
     cross_matches := [{| cm_author := py "Freud"; cm_cite_year := py "1912";
                          cm_ref_year := py "1913"; cm_reason := None |}] |}.

Lemma learned_cross_match_fires_witness :
  let cites := [(py "Freud", py "1912")] in
  let refs := [(py "FREUD", py "1913")] in
  let auto_matches :=
    apply_learned_cross_matches FREUD_LEARNED (List.map show_key cites)
      (List.map show_key refs) in
  let fits (cm : cross_match) (year : list N) (k : key) :=
    lower (fst k) = lower (cm_author cm) /\ snd k = year in
  (forall c r reason,
      (c, r, reason) ∈ auto_matches ->
      exists cm kc kr,
        cm ∈ cross_matches FREUD_LEARNED
        /\ kc ∈ cites /\ fits cm (cm_cite_year cm) kc /\ c = show_key kc
        /\ kr ∈ refs /\ fits cm (cm_ref_year cm) kr /\ r = show_key kr
        /\ reason = default DEFAULT_REASON (cm_reason cm))
  /\ (forall cm kc kr,
        cm ∈ cross_matches FREUD_LEARNED ->
        kc ∈ cites -> fits cm (cm_cite_year cm) kc ->
        kr ∈ refs -> fits cm (cm_ref_year cm) kr ->
        exists c r,
          (c, r, default DEFAULT_REASON (cm_reason cm)) ∈ auto_matches).
Proof.
  apply (learned_cross_match_fires FREUD_LEARNED [(py "Freud", py "1912")]
           [(py "FREUD", py "1913")]).
  intros k Hk.
  repeat (apply elem_of_cons in Hk as [->|Hk]; [split; reflexivity|]).
  inversion Hk.
Defined.

(** ** Comments from the findings *)

(** [sub] occurs in [s] at offset [i]. *)
Definition occurs_at (sub s : list N) (i : nat) : Prop :=
  exists pre rest, s = pre ++ sub ++ rest /\ length pre = i.

(** The first occurrence of [sub] in [s] is at offset [i]. *)
Definition first_at (sub s : list N) (i : nat) : Prop :=
  occurs_at sub s i /\ forall j, j < i -> ~ occurs_at sub s j.

(** The comment [find_and_comment] writes, on the run of position [i]. *)
Definition with_comment (p : paragraph) (i : nat) (comment_text : list N)
  : paragraph :=
  {| p_children := p_children p;
     p_comments := p_comments p
                   ++ [{| c_runs := [i]; c_text := comment_text;
                          c_author := FINDINGS_AUTHOR |}] |}.

(** The run of position [i] holds the character of offset [idx]. *)
Definition run_holds (runs : list run) (i idx : nat) : Prop :=
  exists before r after,
    runs = before ++ r :: after /\ length before = i
    /\ length (runs_text before) <= idx
       < length (runs_text before) + length (run_text r).

Lemma strip_prefix_Some (p s rest : list N) :
  strip_prefix p s = Some rest <-> s = p ++ rest.
Proof.
  revert s. induction p as [|x p IH]; intros [|y s]; cbn.
  - split; congruence.
  - split; congruence.
  - split; congruence.
  - destruct (N.eqb_spec x y) as [->|Hne].
    + rewrite IH. split; [intros ->; reflexivity | congruence].
    + split; congruence.
Qed.

Lemma strip_prefix_None (p s : list N) :
  strip_prefix p s = None <-> forall rest, s <> p ++ rest.
Proof.
  split.
  - intros H rest Hs. apply strip_prefix_Some in Hs. congruence.
  - intros H. destruct (strip_prefix p s) as [rest|] eqn:E; [|reflexivity].
    apply strip_prefix_Some in E. destruct (H _ E).
Qed.

Lemma occurs_at_0 (sub s : list N) :
  occurs_at sub s 0 <-> exists rest, s = sub ++ rest.
Proof.
  split.
  - intros ([|? ?] & rest & -> & Hl); [|discriminate]. eauto.
  - intros [rest ->]. exists [], rest. split; reflexivity.
Qed.

Lemma occurs_at_S (sub : list N) (c : N) (s : list N) (i : nat) :
  occurs_at sub (c :: s) (S i) <-> occurs_at sub s i.
Proof.
  split.
  - intros ([|x pre] & rest & Hs & Hl); [discriminate|].
    injection Hs as -> ->. injection Hl as Hl. exists pre, rest. auto.
  - intros (pre & rest & -> & Hl). exists (c :: pre), rest.
    split; [reflexivity | cbn; congruence].
Qed.

Lemma occurs_at_nil (sub : list N) (i : nat) :
  occurs_at sub [] i -> i = 0.
Proof.
  intros ([|? ?] & rest & Hs & Hl); [auto | discriminate].
Qed.

(** [s.find(sub)] is the first occurrence, and [-1] when there is none. *)
Lemma find_sub_None (sub s : list N) :
  find_sub sub s = None -> forall j, ~ occurs_at sub s j.
Proof.
  induction s as [|c s IH]; cbn [find_sub];
    destruct (strip_prefix sub _) as [rest|] eqn:E; try discriminate.
  - intros _ j H. pose proof (occurs_at_nil _ _ H) as ->.
    apply occurs_at_0 in H as [rest H].
    apply strip_prefix_Some in H. congruence.
  - destruct (find_sub sub s) as [k|]; [discriminate|]. intros _ [|j] H.
    + apply occurs_at_0 in H as [rest H].
      apply strip_prefix_Some in H. congruence.
    + apply occurs_at_S in H. exact (IH eq_refl j H).
Qed.

Lemma find_sub_Some (sub s : list N) (i : nat) :
  find_sub sub s = Some i <-> first_at sub s i.
Proof.
  revert i. induction s as [|c s IH]; intros i.
  - cbn [find_sub]. destruct (strip_prefix sub []) as [rest|] eqn:E.
    + apply strip_prefix_Some in E. split.
      * intros [= <-]. split; [apply occurs_at_0; eauto | intros j Hj; lia].
      * intros [H _]. apply occurs_at_nil in H. congruence.
    + split; [discriminate|]. intros [H _].
      pose proof (occurs_at_nil _ _ H) as ->.
      apply occurs_at_0 in H as [rest H].
      apply strip_prefix_Some in H. congruence.
  - cbn [find_sub]. destruct (strip_prefix sub (c :: s)) as [rest|] eqn:E.
    + apply strip_prefix_Some in E. split.
      * intros [= <-]. split; [apply occurs_at_0; eauto | intros j Hj; lia].
      * intros [_ H]. destruct i as [|i]; [reflexivity|].
        destruct (H 0); [lia | apply occurs_at_0; eauto].
    + assert (H0 : ~ occurs_at sub (c :: s) 0).
      { intros H. apply occurs_at_0 in H as [rest H].
        apply strip_prefix_Some in H. congruence. }
      destruct (find_sub sub s) as [k|] eqn:Ek; cbn [option_map].
      * destruct (proj1 (IH k) eq_refl) as [Hk Hmin]. split.
        -- intros [= <-]. split; [apply occurs_at_S; exact Hk|].
           intros [|j] Hj; [exact H0|]. rewrite occurs_at_S. apply Hmin. lia.
        -- intros [Hi Hmini]. destruct i as [|i]; [destruct (H0 Hi)|].
           f_equal. apply occurs_at_S in Hi.
           destruct (Nat.lt_trichotomy k i) as [Hlt|[->|Hgt]];
             [|reflexivity|].
           ++ destruct (Hmini (S k)); [lia | apply occurs_at_S; exact Hk].
           ++ destruct (Hmin i Hgt Hi).
      * split; [discriminate|]. intros [Hi _].
        destruct i as [|i]; [destruct (H0 Hi)|].
        apply occurs_at_S in Hi. destruct (find_sub_None _ _ Ek i Hi).
Qed.

(** The inner loop finds the run that holds the offset, and none only when
    the offset is past the text of the runs. *)
Lemma run_at_Some (idx : nat) (runs : list run) (pos i0 i : nat) :
  pos <= idx ->
  run_at idx pos i0 runs = Some i ->
  exists before r after,
    runs = before ++ r :: after /\ i = i0 + length before
    /\ pos + length (runs_text before) <= idx
       < pos + length (runs_text before) + length (run_text r).
Proof.
  revert pos i0. induction runs as [|r runs IH]; intros pos i0 Hpos;
    cbn [run_at]; [discriminate|].
  destruct ((pos <=? idx) && (idx <? pos + length (run_text r))) eqn:E.
  - intros [= <-]. apply andb_true_iff in E as [_ E].
    apply Nat.ltb_lt in E. exists [], r, runs. cbn. repeat split; lia.
  - intros H. apply andb_false_iff in E as [E|E];
      [apply Nat.leb_gt in E; lia|]. apply Nat.ltb_ge in E.
    apply IH in H as (before & r' & after & -> & -> & Hb); [|lia].
    exists (r :: before), r', after.
    unfold runs_text in *. cbn [List.map List.concat length].
    rewrite length_app. repeat split; lia.
Qed.

Lemma run_at_None (idx : nat) (runs : list run) (pos i0 : nat) :
  pos <= idx ->
  run_at idx pos i0 runs = None ->
  pos + length (runs_text runs) <= idx.
Proof.
  revert pos i0. induction runs as [|r runs IH]; intros pos i0 Hpos;
    cbn [run_at].
  - intros _. cbn. lia.
  - destruct ((pos <=? idx) && (idx <? pos + length (run_text r))) eqn:E;
      [discriminate|].
    intros H. apply andb_false_iff in E as [E|E];
      [apply Nat.leb_gt in E; lia|]. apply Nat.ltb_ge in E.
    apply IH in H; [|lia].
    unfold runs_text in *. cbn [List.map List.concat].
    rewrite length_app. lia.
Qed.

(** A paragraph takes no comment when the text does not occur in it, or
    when both are empty. *)
Definition passed_over (search_text : list N) (p : paragraph) : Prop :=
  (forall j, ~ occurs_at search_text (para_text p) j)
  \/ (search_text = [] /\ para_text p = []).

Lemma comment_paragraph_Some (search_text comment_text : list N)
    (p p' : paragraph) :
  comment_paragraph search_text comment_text p = Some p' ->
  exists i idx,
    p' = with_comment p i comment_text
    /\ first_at search_text (para_text p) idx
    /\ run_holds (p_runs p) i idx.
Proof.
  unfold comment_paragraph.
  destruct (find_sub search_text (para_text p)) as [idx|] eqn:Ef;
    [|discriminate].
  destruct (run_at idx 0 0 (p_runs p)) as [i|] eqn:Er; [|discriminate].
  intros [= <-]. exists i, idx. split; [reflexivity|].
  split; [apply find_sub_Some; exact Ef|].
  apply run_at_Some in Er as (before & r & after & Hr & -> & Hb); [|lia].
  exists before, r, after. repeat split; try assumption; lia.
Qed.

Lemma comment_paragraph_None (search_text comment_text : list N)
    (p : paragraph) :
  no_hyperlink p ->
  comment_paragraph search_text comment_text p = None ->
  passed_over search_text p.
Proof.
  intros Hlink. unfold comment_paragraph, passed_over.
  destruct (find_sub search_text (para_text p)) as [idx|] eqn:Ef.
  - destruct (run_at idx 0 0 (p_runs p)) as [i|] eqn:Er; [discriminate|].
    intros _. right. apply run_at_None in Er; [|lia].
    apply find_sub_Some in Ef as [(pre & rest & Hs & Hl) Hmin].
    rewrite <- (no_hyperlink_text p Hlink) in Er.
    rewrite Hs in Er. rewrite !length_app in Er.
    assert (search_text = []) as ->
      by (destruct search_text; [auto | cbn in Er; lia]).
    split; [reflexivity|].
    destruct idx as [|idx].
    + rewrite Hs. destruct pre; [|discriminate].
      destruct rest; [reflexivity | cbn in Er; lia].
    + destruct (Hmin 0); [lia|]. apply occurs_at_0. eauto.
  - intros _. left. apply find_sub_None. exact Ef.
Qed.

(** What the loop of [find_and_comment] does to the list of paragraphs: the
    first paragraph that takes the comment gets it, on the run of position
    [i]; the paragraphs before it took none and nothing else changes. *)
Definition goes_to (search_text comment_text : list N)
    (ps ps' : list paragraph) : Prop :=
  exists before p after i,
    ps = before ++ p :: after
    /\ ps' = before ++ with_comment p i comment_text :: after
    /\ Forall (fun q => comment_paragraph search_text comment_text q = None)
         before
    /\ comment_paragraph search_text comment_text p
       = Some (with_comment p i comment_text).

Lemma goes_to_app (search_text comment_text : list N)
    (skipped ps ps' rest : list paragraph) :
  Forall (fun q => comment_paragraph search_text comment_text q = None)
         skipped ->
  goes_to search_text comment_text ps ps' ->
  goes_to search_text comment_text (skipped ++ ps ++ rest)
    (skipped ++ ps' ++ rest).
Proof.
  intros Hs (before & p & after & i & -> & -> & Hb & Hp).
  exists (skipped ++ before), p, (after ++ rest), i.
  split; [rewrite <- !app_assoc; reflexivity|].
  split; [rewrite <- !app_assoc; reflexivity|].
  split; [apply Forall_app; split; assumption | exact Hp].
Qed.

Lemma goes_to_here (search_text comment_text : list N)
    (p p' : paragraph) (rest : list paragraph) :
  comment_paragraph search_text comment_text p = Some p' ->
  goes_to search_text comment_text (p :: rest) (p' :: rest).
Proof.
  intros E. pose proof E as E'.
  apply comment_paragraph_Some in E' as (i & idx & -> & _).
  exists [], p, rest, i.
  split; [reflexivity|]. split; [reflexivity|].
  split; [constructor | exact E].
Qed.

Lemma comment_first_spec (search_text comment_text : list N)
    (ps : list paragraph) :
  match comment_first search_text comment_text ps with
  | Some ps' => goes_to search_text comment_text ps ps'
  | None =>
      Forall (fun q => comment_paragraph search_text comment_text q = None) ps
  end.
Proof.
  induction ps as [|p ps IH]; cbn [comment_first]; [constructor|].
  destruct (comment_paragraph search_text comment_text p) as [p'|] eqn:E.
  - apply goes_to_here. exact E.
  - destruct (comment_first search_text comment_text ps) as [ps'|];
      cbn [option_map].
    + assert (Hp : Forall (fun q => comment_paragraph search_text
                                      comment_text q = None) [p])
        by (apply List.Forall_cons; [exact E | apply List.Forall_nil]).
      pose proof (goes_to_app _ _ _ _ _ [] Hp IH) as H.
      rewrite !app_nil_r in H. exact H.
    + constructor; assumption.
Qed.

Lemma comment_first_cell_spec (search_text comment_text : list N)
    (cells : list (list paragraph)) :
  match comment_first_cell search_text comment_text cells with
  | Some cells' =>
      goes_to search_text comment_text (List.concat cells)
        (List.concat cells')
  | None =>
      Forall (fun q => comment_paragraph search_text comment_text q = None)
        (List.concat cells)
  end.
Proof.
  induction cells as [|c cells IH]; cbn [comment_first_cell List.concat];
    [constructor|].
  pose proof (comment_first_spec search_text comment_text c) as Hc.
  destruct (comment_first search_text comment_text c) as [c'|].
  - cbn [List.concat]. apply (goes_to_app _ _ [] c c' (List.concat cells)).
    + constructor.
    + exact Hc.
  - destruct (comment_first_cell search_text comment_text cells) as [cells'|];
      cbn [option_map List.concat].
    + pose proof (goes_to_app _ _ _ _ _ [] Hc IH) as H.
      rewrite !app_nil_r in H. exact H.
    + apply Forall_app. split; assumption.
Qed.

Lemma find_and_comment_spec (search_text comment_text : list N)
    (d : list block) :
  match find_and_comment search_text comment_text d with
  | Some d' =>
      List.map is_table d' = List.map is_table d
      /\ goes_to search_text comment_text (all_paragraphs d)
           (all_paragraphs d')
  | None =>
      Forall (fun q => comment_paragraph search_text comment_text q = None)
        (all_paragraphs d)
  end.
Proof.
  induction d as [|[p|cells] d IH]; cbn [find_and_comment]; [constructor| |].
  - destruct (comment_paragraph search_text comment_text p) as [p'|] eqn:E.
    + split; [reflexivity|]. apply goes_to_here. exact E.
    + destruct (find_and_comment search_text comment_text d) as [d'|];
        cbn [option_map].
      * destruct IH as [Ht IH]. split; [cbn; congruence|].
        assert (Hp : Forall (fun q => comment_paragraph search_text
                                        comment_text q = None) [p])
          by (apply List.Forall_cons; [exact E | apply List.Forall_nil]).
        pose proof (goes_to_app _ _ _ _ _ [] Hp IH) as H.
        rewrite !app_nil_r in H. exact H.
      * constructor; assumption.
  - pose proof (comment_first_cell_spec search_text comment_text cells) as Hc.
    destruct (comment_first_cell search_text comment_text cells) as [cells'|].
    + split; [reflexivity|].
      apply (goes_to_app _ _ [] _ _ (all_paragraphs d)); [constructor | exact Hc].
    + destruct (find_and_comment search_text comment_text d) as [d'|];
        cbn [option_map].
      * destruct IH as [Ht IH]. split; [cbn; congruence|].
        pose proof (goes_to_app _ _ _ _ _ [] Hc IH) as H.
        rewrite !app_nil_r in H. exact H.
      * apply Forall_app. split; assumption.
Qed.

(** The comment lands in [ps]: on the first paragraph that is not passed
    over, at the run that holds the first character of the first occurrence
    of the text; nothing else changes. *)
Definition lands (search_text comment_text : list N)
    (ps ps' : list paragraph) : Prop :=
  exists before p after i idx,
    ps = before ++ p :: after
    /\ ps' = before ++ with_comment p i comment_text :: after
    /\ Forall (passed_over search_text) before
    /\ first_at search_text (para_text p) idx
    /\ run_holds (p_runs p) i idx.

Lemma refused_passed_over (search_text comment_text : list N)
    (ps : list paragraph) :
  Forall no_hyperlink ps ->
  Forall (fun q => comment_paragraph search_text comment_text q = None) ps ->
  Forall (passed_over search_text) ps.
Proof.
  intros Hl H. induction H as [|p ps Hp _ IH]; [constructor|].
  apply Forall_cons in Hl as [Hl1 Hl2]. apply List.Forall_cons.
  - exact (comment_paragraph_None _ _ _ Hl1 Hp).
  - apply IH, Hl2.
Qed.

Lemma goes_to_lands (search_text comment_text : list N)
    (ps ps' : list paragraph) :
  Forall no_hyperlink ps ->
  goes_to search_text comment_text ps ps' ->
  lands search_text comment_text ps ps'.
Proof.
  intros Hl (before & p & after & i & -> & -> & Hb & Hp).
  apply Forall_app in Hl as [Hl _].
  apply comment_paragraph_Some in Hp as (i' & idx & Hc & Hf & Hr).
  assert (i' = i) as ->.
  { unfold with_comment in Hc. injection Hc as Hc.
    apply app_inv_head in Hc. congruence. }
  exists before, p, after, i, idx.
  split; [reflexivity|]. split; [reflexivity|].
  split; [exact (refused_passed_over _ _ _ Hl Hb)|]. split; assumption.
Qed.

(** A paragraph whose citation is a hyperlink: "See " is a run,
    "Smith (2009)" a hyperlink. *)
Definition LINKED_CITATION : paragraph :=
  {| p_children :=
       [P_r {| r_highlight := None; r_format := [];
               r_children := [W_t true (py "See ")] |};
        P_hyperlink [{| r_highlight := None; r_format := [];
                        r_children := [W_t false (py "Smith (2009)")] |}]];
     p_comments := [] |}.

(** Text inside a hyperlink is found in [para.text] but held by no run of
    [para.runs]: the paragraph is skipped although the text occurs in it. *)
Lemma finding_in_hyperlink_is_missed :
  find_sub (py "Smith") (para_text LINKED_CITATION) = Some 4
  /\ find_and_comment (py "Smith") (py "note") [BPara LINKED_CITATION] = None.
Proof. by_evaluation. Qed.

(** X27. In a document without hyperlinks [find_and_comment] returns
    [False] exactly when every paragraph, table cells included, is passed
    over: the text does not occur in it, or the text and the paragraph are
    both empty.  When it returns [True], one comment of author
    [ref-check (Opus)] has been added to the first paragraph that is not
    passed over, on the run holding the first character of the first
    occurrence of the text; runs, texts and the other comments are as
    before. *)
Theorem finding_lands_on_first_occurrence (search_text comment_text : list N)
    (d : list block) :
  Forall no_hyperlink (all_paragraphs d) ->
  match find_and_comment search_text comment_text d with
  | Some d' =>
      List.map is_table d' = List.map is_table d
      /\ lands search_text comment_text (all_paragraphs d) (all_paragraphs d')
  | None => Forall (passed_over search_text) (all_paragraphs d)
  end.
Proof.
  intros Hl. pose proof (find_and_comment_spec search_text comment_text d) as H.
  destruct (find_and_comment search_text comment_text d) as [d'|].
  - split; [exact (proj1 H) | exact (goes_to_lands _ _ _ _ Hl (proj2 H))].
  - exact (refused_passed_over _ _ _ Hl H).
Qed.

(** In the sample document "Klein" is first found in the table cell. *)
Lemma finding_lands_on_first_occurrence_witness :
  match find_and_comment (py "Klein") (py "Possibly cited") SMITH_DOC with
  | Some d' =>
      List.map is_table d' = List.map is_table SMITH_DOC
      /\ lands (py "Klein") (py "Possibly cited") (all_paragraphs SMITH_DOC)
           (all_paragraphs d')
  | None => Forall (passed_over (py "Klein")) (all_paragraphs SMITH_DOC)
  end.
Proof.
  apply (finding_lands_on_first_occurrence (py "Klein") (py "Possibly cited")
           SMITH_DOC).
  repeat (apply List.Forall_cons; [reflexivity|]). apply List.Forall_nil.
Defined.

(** *** A finding that opens with a parenthesis *)

Lemma split_on_paren_hd (ws cur rest : list N) (fuel : nat) :
  forallb isspace ws = true ->
  length ws < fuel ->
  hd [] (split_on_aux (py "(") cur fuel (ws ++ 40%N :: rest)) = rev cur ++ ws.
Proof.
  revert cur fuel. induction ws as [|c ws IH]; intros cur fuel Hws Hfuel;
    (destruct fuel as [|fuel]; [cbn in Hfuel; lia|]).
  - cbn. rewrite app_nil_r. reflexivity.
  - cbn [forallb] in Hws. apply andb_true_iff in Hws as [Hc Hws].
    change (py "(") with [40%N]. cbn [split_on_aux app strip_prefix].
    destruct (N.eqb_spec 40 c) as [<-|_]; [discriminate|].
    change [40%N] with (py "("). rewrite IH; [|exact Hws|cbn in Hfuel; lia].
    cbn [rev]. rewrite <- app_assoc. reflexivity.
Qed.

Lemma lstrip_blank (ws : list N) : forallb isspace ws = true -> lstrip ws = [].
Proof.
  induction ws as [|c ws IH]; cbn; [reflexivity|].
  intros H. apply andb_true_iff in H as [-> H]. auto.
Qed.

Lemma search_text_of_paren (ws rest : list N) :
  forallb isspace ws = true -> search_text_of (ws ++ 40%N :: rest) = [].
Proof.
  intros Hws. unfold search_text_of, split_on.
  destruct (ws ++ 40%N :: rest) as [|c s] eqn:Es; [destruct ws; discriminate|].
  rewrite <- Es. rewrite split_on_paren_hd; [|exact Hws|].
  - cbn [rev app]. unfold strip. rewrite (lstrip_blank _ Hws). reflexivity.
  - rewrite length_app. cbn. lia.
Qed.

(** The first text of the list of paragraphs: the first paragraph that has
    text, and in it the first run that has. *)
Definition lands_on_first_text (comment_text : list N)
    (ps ps' : list paragraph) : Prop :=
  exists before p after i runs_before r runs_after,
    ps = before ++ p :: after
    /\ ps' = before ++ with_comment p i comment_text :: after
    /\ Forall (fun q => para_text q = []) before
    /\ p_runs p = runs_before ++ r :: runs_after
    /\ length runs_before = i
    /\ Forall (fun r0 => run_text r0 = []) runs_before
    /\ run_text r <> [].

Lemma passed_over_empty (p : paragraph) :
  passed_over [] p -> para_text p = [].
Proof.
  intros [H|[_ H]]; [|exact H].
  destruct (H 0). apply occurs_at_0. exists (para_text p). reflexivity.
Qed.

Lemma runs_text_empty (runs : list run) :
  length (runs_text runs) = 0 -> Forall (fun r => run_text r = []) runs.
Proof.
  unfold runs_text. induction runs as [|r runs IH]; cbn [List.map List.concat];
    [constructor|].
  rewrite length_app. intros H. apply List.Forall_cons.
  - destruct (run_text r); [reflexivity | cbn in H; lia].
  - apply IH. lia.
Qed.

Lemma lands_empty (comment_text : list N) (ps ps' : list paragraph) :
  lands [] comment_text ps ps' -> lands_on_first_text comment_text ps ps'.
Proof.
  intros (before & p & after & i & idx & -> & -> & Hb & [Ho Hmin] & Hr).
  assert (idx = 0) as ->.
  { destruct idx as [|idx]; [reflexivity|]. destruct (Hmin 0); [lia|].
    apply occurs_at_0. exists (para_text p). reflexivity. }
  destruct Hr as (rb & r & ra & Hruns & Hi & Hlen).
  exists before, p, after, i, rb, r, ra.
  split; [reflexivity|]. split; [reflexivity|].
  split; [eapply Forall_impl; [exact Hb | exact passed_over_empty]|].
  split; [exact Hruns|]. split; [exact Hi|].
  split; [apply runs_text_empty; lia|].
  destruct (run_text r); [cbn in Hlen; lia | discriminate].
Qed.

(** X28. A finding whose citation text opens with a parenthesis (after
    white space at most) is searched for as the empty string, which every
    text contains: in a document without hyperlinks its comment goes to the
    first run with text of the first paragraph with text, whatever the
    document says there, and [find_and_comment] returns [False] only when no
    paragraph has text. *)
Theorem parenthesis_finding_lands_on_first_text
    (ws rest comment_text : list N) (d : list block) :
  Forall no_hyperlink (all_paragraphs d) ->
  forallb isspace ws = true ->
  match find_and_comment (search_text_of (ws ++ 40%N :: rest)) comment_text d
  with
  | Some d' =>
      lands_on_first_text comment_text (all_paragraphs d) (all_paragraphs d')
  | None => Forall (fun p => para_text p = []) (all_paragraphs d)
  end.
Proof.
  intros Hl Hws. rewrite (search_text_of_paren _ _ Hws).
  pose proof (find_and_comment_spec [] comment_text d) as H.
  destruct (find_and_comment [] comment_text d) as [d'|].
  - apply lands_empty. exact (goes_to_lands _ _ _ _ Hl (proj2 H)).
  - eapply Forall_impl; [exact (refused_passed_over _ _ _ Hl H)|].
    exact passed_over_empty.
Qed.

Lemma parenthesis_finding_lands_on_first_text_witness :
  match find_and_comment (search_text_of (py "(Smith, 2009)"))
          (py "Not a real citation: a year in brackets") SMITH_DOC
  with
  | Some d' =>
      lands_on_first_text (py "Not a real citation: a year in brackets")
        (all_paragraphs SMITH_DOC) (all_paragraphs d')
  | None => Forall (fun p => para_text p = []) (all_paragraphs SMITH_DOC)
  end.
Proof.
  apply (parenthesis_finding_lands_on_first_text [] (py "Smith, 2009)")
           (py "Not a real citation: a year in brackets") SMITH_DOC).
  - repeat (apply List.Forall_cons; [reflexivity|]). apply List.Forall_nil.
  - reflexivity.
Defined.

(** *** The whole of [add_findings_comments] *)

(** The comments of the document, paragraph by paragraph. *)
Definition comments_of (d : list block) : list comment :=
  List.flat_map p_comments (all_paragraphs d).

(** A comment written from the findings: its author, and one run. *)
Definition from_findings (c : comment) : Prop :=
  c_author c = FINDINGS_AUTHOR /\ length (c_runs c) = 1.

(** [p'] is [p] with comments from the findings after its own. *)
Definition more_comments (p p' : paragraph) : Prop :=
  p_runs p' = p_runs p
  /\ exists new, p_comments p' = p_comments p ++ new /\ Forall from_findings new.

(** [d'] is [d] with [n] comments from the findings added. *)
Definition commented_by (n : nat) (d d' : list block) : Prop :=
  List.map is_table d' = List.map is_table d
  /\ Forall2 more_comments (all_paragraphs d) (all_paragraphs d')
  /\ length (comments_of d') = length (comments_of d) + n.

Lemma more_comments_refl (p : paragraph) : more_comments p p.
Proof.
  split; [reflexivity|]. exists []. rewrite app_nil_r.
  split; [reflexivity | constructor].
Qed.

Lemma more_comments_trans (p q r : paragraph) :
  more_comments p q -> more_comments q r -> more_comments p r.
Proof.
  intros [Hr1 (n1 & Hc1 & Hf1)] [Hr2 (n2 & Hc2 & Hf2)].
  split; [congruence|]. exists (n1 ++ n2).
  split; [rewrite Hc2, Hc1, app_assoc; reflexivity|].
  apply Forall_app. split; assumption.
Qed.

Lemma Forall2_more_refl (ps : list paragraph) : Forall2 more_comments ps ps.
Proof.
  induction ps; constructor; [apply more_comments_refl | assumption].
Qed.

Lemma Forall2_more_trans (ps qs rs : list paragraph) :
  Forall2 more_comments ps qs -> Forall2 more_comments qs rs ->
  Forall2 more_comments ps rs.
Proof.
  intros H. revert rs. induction H as [|p q ps qs Hp _ IH]; intros rs Hq.
  - inversion Hq. constructor.
  - inversion Hq as [|? r ? rs' Hqr Hrest]; subst. constructor.
    + exact (more_comments_trans _ _ _ Hp Hqr).
    + apply IH. exact Hrest.
Qed.

Lemma commented_by_refl (d : list block) : commented_by 0 d d.
Proof.
  split; [reflexivity|]. split; [apply Forall2_more_refl | lia].
Qed.

Lemma commented_by_trans (n m : nat) (d1 d2 d3 : list block) :
  commented_by n d1 d2 -> commented_by m d2 d3 -> commented_by (n + m) d1 d3.
Proof.
  intros (Ht1 & Hp1 & Hl1) (Ht2 & Hp2 & Hl2).
  split; [congruence|]. split; [exact (Forall2_more_trans _ _ _ Hp1 Hp2) | lia].
Qed.

Lemma lands_commented (search_text comment_text : list N)
    (d d' : list block) :
  List.map is_table d' = List.map is_table d ->
  goes_to search_text comment_text (all_paragraphs d) (all_paragraphs d') ->
  commented_by 1 d d'.
Proof.
  intros Ht (before & p & after & i & Hd & Hd' & _).
  split; [exact Ht|]. unfold comments_of. rewrite Hd, Hd'. split.
  - apply Forall2_app; [apply Forall2_more_refl|].
    constructor; [|apply Forall2_more_refl].
    split; [reflexivity|]. eexists. split; [reflexivity|].
    apply List.Forall_cons; [split; reflexivity | constructor].
  - rewrite !flat_map_app. cbn [List.flat_map with_comment p_comments].
    rewrite !length_app. cbn [length]. lia.
Qed.

(** The state of the loops: the document so far and the counter, against
    the document loaded and the number of entries seen. *)
Definition loop_inv (d : list block) (seen : nat) (st : list block * nat)
  : Prop :=
  commented_by (snd st) d (fst st) /\ snd st <= seen.

Lemma comment_step_inv (d : list block) (seen : nat)
    (st : list block * nat) (search comment_text : list N) :
  loop_inv d seen st ->
  loop_inv d (S seen) (comment_step st search comment_text).
Proof.
  intros [Hc Hs]. unfold comment_step.
  pose proof (find_and_comment_spec search comment_text (fst st)) as H.
  destruct (find_and_comment search comment_text (fst st)) as [d'|].
  - destruct H as [Ht Hl]. split; cbn [fst snd]; [|lia].
    replace (S (snd st)) with (snd st + 1) by lia.
    exact (commented_by_trans _ _ _ _ _ Hc (lands_commented _ _ _ _ Ht Hl)).
  - split; [exact Hc | lia].
Qed.

Lemma guarded_step_inv (d : list block) (seen : nat)
    (st : list block * nat) (a b comment_text : list N) :
  loop_inv d seen st ->
  loop_inv d (S seen) (guarded_step st a b comment_text).
Proof.
  intros H. unfold guarded_step.
  destruct a as [|? ?], b as [|? ?];
    try (destruct H as [Hc Hs]; split; [exact Hc | lia]).
  apply comment_step_inv. exact H.
Qed.

Lemma foldl_inv {A : Type} (f : list block * nat -> A -> list block * nat)
    (d : list block) (l : list A) (seen : nat) (st : list block * nat) :
  (forall seen st a, loop_inv d seen st -> loop_inv d (S seen) (f st a)) ->
  loop_inv d seen st ->
  loop_inv d (seen + length l) (foldl f st l).
Proof.
  intros Hf. revert seen st. induction l as [|a l IH]; intros seen st H;
    cbn [foldl length].
  - rewrite Nat.add_0_r. exact H.
  - replace (seen + S (length l)) with (S seen + length l) by lia.
    apply IH. apply Hf. exact H.
Qed.

Lemma add_findings_comments_inv (d : list block) (fd : findings) :
  loop_inv d
    (length (f_cross_matches fd) + length (f_false_positives fd)
     + length (f_fuzzy_comments fd) + length (f_possibly_cited_refs fd)
     + length (f_additional fd))
    (add_findings_comments d fd).
Proof.
  unfold add_findings_comments. cbv zeta.
  apply foldl_inv; [intros ? ? [? ?] ?; apply guarded_step_inv; assumption|].
  apply foldl_inv; [intros ? ? [? ?] ?; apply guarded_step_inv; assumption|].
  apply foldl_inv; [intros ? ? [? ?] ?; apply guarded_step_inv; assumption|].
  apply foldl_inv; [intros ? ? [? ?] ?; apply comment_step_inv; assumption|].
  apply (foldl_inv _ d _ 0);
    [intros ? ? [[? ?] ?] ?; apply comment_step_inv; assumption|].
  split; [apply commented_by_refl | cbn; lia].
Qed.

(** X29. [add_findings_comments] only adds comments: the tables stay where
    they are, every paragraph keeps its runs (text, highlights and formats)
    and its earlier comments in their order, and each new comment is
    anchored on one run with author [ref-check (Opus)].  The number it
    reports is the number of comments added, and is at most the number of
    entries of the five lists it reads. *)
Theorem findings_only_add_comments (d : list block) (fd : findings) :
  let (d', added) := add_findings_comments d fd in
  List.map is_table d' = List.map is_table d
  /\ Forall2 more_comments (all_paragraphs d) (all_paragraphs d')
  /\ length (comments_of d') = length (comments_of d) + added
  /\ added <= length (f_cross_matches fd) + length (f_false_positives fd)
              + length (f_fuzzy_comments fd)
              + length (f_possibly_cited_refs fd)
              + length (f_additional fd).
Proof.
  pose proof (add_findings_comments_inv d fd) as H.
  destruct (add_findings_comments d fd) as [d' added].
  destruct H as [(Ht & Hp & Hl) Hs]. auto.
Qed.
